(** * Token Merging (ToMe): a shallow embedding of [tome/merge.py]

    The development follows the Python module function by function.
    Tensors of rank three ([batch, tokens, channels]) are nested lists;
    the index tensors the closures capture ([B × K × 1]) are lists of
    lists of naturals, the trailing singleton axis being the one that
    [expand] broadcasts over the channels.  A call that makes the tensor
    runtime raise returns [None]. *)

From Stdlib Require Import ZArith Lia ZifyNat PrimFloat FloatOps SpecFloat Uint63.
From Stdlib Require Qcanon.
From stdpp Require Import base option list sorting.


(** ** Element types

    The matching reads the metric tensor with the arithmetic, the square
    root and the ordering of its element type; [merge] only needs the
    reductions of [scatter_reduce] on the values. *)

Class MetricOps (M : Type) := {
  m_zero : M;
  m_add : M → M → M;
  m_mul : M → M → M;
  m_div : M → M → M;
  m_sqrt : M → M;
  m_neg_inf : M;
  (** [m_gtb x y]: [x] is strictly above [y] in the order [max] and
      [argsort] use. *)
  m_gtb : M → M → bool
}.

Class ValueOps (V : Type) := {
  v_zero : V;
  v_one : V;
  v_add : V → V → V;
  v_mul : V → V → V;
  v_div : V → V → V;
  v_max : V → V → V;
  v_min : V → V → V;
  (** the element a counter of [n] occurrences holds *)
  v_of_nat : nat → V
}.

(** The [reduce] argument of [scatter_reduce]; any other string makes the
    runtime raise. *)
Inductive reduce_mode := Sum | Prod | Mean | Amax | Amin.

Abbreviation mat T := (list (list T)).
Abbreviation tensor T := (list (list (list T))).
Abbreviation index := (list (list nat)).

(** A merge plan: for every batch entry and every output token, the
    positions of the input tokens folded into it. *)
Abbreviation plan := (list (list (list nat))).

(** ** Tensor primitives *)

Section Primitives.
Context {A : Type}.

(** [x.shape] read off the first entries (an empty batch axis leaves
    no record of the other sizes: the statements below are about
    tensors with at least one batch entry). *)
Definition shape0 {B} (x : list B) : nat := length x.
Definition shape1 {B} (x : list (list B)) : nat :=
  match x with m :: _ => length m | [] => 0 end.
Definition shape2 (x : tensor A) : nat :=
  match x with (row :: _) :: _ => length row | _ => 0 end.

(** [l[::2]] and [l[1::2]]. *)
Fixpoint evens (l : list A) : list A :=
  match l with
  | [] => []
  | a :: l' => a :: match l' with [] => [] | _ :: l'' => evens l'' end
  end.
Definition odds (l : list A) : list A := evens (tail l).

(** [t.expand(..., want, ...)] along one axis: [-1] keeps the size, a
    size-one axis is repeated, anything else must already fit. *)
Definition expand_dim {B} (want : Z) (l : list B) : option (list B) :=
  if (want =? -1)%Z then Some l
  else if (want <? 0)%Z then None
  else if (Z.of_nat (length l) =? want)%Z then Some l
  else match l with
       | [b] => Some (replicate (Z.to_nat want) b)
       | _ => None
       end.

(** [idx.expand(n, k, c)] of an index tensor of shape [B × K × 1]. *)
Definition expand (idx : index) (n : nat) (k : Z) : option index :=
  l ← expand_dim (Z.of_nat n) idx; mapM (expand_dim k) l.

(** [m.gather(dim=-2, index)] on one batch entry, the index already
    expanded over the channels: row [j] of the result is row [idx[j]];
    an index out of range raises. *)
Definition gather_rows (m : list A) (idx : list nat) : option (list A) :=
  mapM (λ i, m !! i) idx.

(** The result has the shape of the index, which may not exceed the
    input away from the gathered axis. *)
Definition gather (x : list (list A)) (idx : index) : option (list (list A)) :=
  if length idx <=? length x
  then mapM (λ p, gather_rows p.1 p.2) (zip x idx)
  else None.

(** [out.scatter_(dim=-2, index, src)] and the accumulation step of
    [scatter_reduce] on one batch entry: the rows of [src] are folded
    into the rows they are sent to, in order. *)
Fixpoint scatter_rows (f : A → A → A) (dst : list A) (idx : list nat)
    (src : list A) : option (list A) :=
  match idx, src with
  | [], _ => Some dst
  | i :: idx', s :: src' =>
      d ← dst !! i; scatter_rows f (<[i := f d s]> dst) idx' src'
  | _ :: _, [] => None
  end.

(** The batch entries the index covers are scattered into; the result
    keeps the shape of [out].  [g] is the work on one batch entry. *)
Definition scatter_batches (g : list A → list nat → list A → option (list A))
    (out : list (list A)) (idx : index) (src : list (list A))
    : option (list (list A)) :=
  if (length idx <=? length src) && (length idx <=? length out)
  then upd ← mapM (λ p, g p.1.1 p.1.2 p.2) (zip (zip out idx) src);
       rest ← mapM (λ o, g o [] []) (drop (length idx) out);
       Some (upd ++ rest)
  else None.

(** [torch.cat(parts, dim=1)]. *)
Definition cat (parts : list (list (list A))) : list (list A) :=
  match parts with
  | [] => []
  | p :: ps => fold_left (zip_with app) ps p
  end.

(** A stable insertion sort; [before a b] says that [a] has to come
    strictly before [b]. *)
Fixpoint insert_sorted (before : A → A → bool) (a : A) (l : list A) : list A :=
  match l with
  | [] => [a]
  | b :: l' => if before b a then b :: insert_sorted before a l' else a :: l
  end.
Definition isort (before : A → A → bool) (l : list A) : list A :=
  foldr (insert_sorted before) [] l.
End Primitives.

(** [out[..., 1::2, :] = dst] on one batch entry: [dst] is broadcast to
    the odd positions of [out]. *)
Definition set_odds {A} (out dst : list A) : option (list A) :=
  d ← expand_dim (Z.of_nat (length (odds out))) dst;
  Some (imap (λ i o, if Nat.odd i then default o (d !! (i `div` 2)) else o) out).

(** Element-wise operations broadcast every axis of size one. *)
Definition bzip {A B C} (f : A → B → option C) (l1 : list A) (l2 : list B)
    : option (list C) :=
  if length l1 =? length l2 then mapM (λ p, f p.1 p.2) (zip l1 l2)
  else match l1, l2 with
       | [a], _ => mapM (f a) l2
       | _, [b] => mapM (λ a, f a b) l1
       | _, _ => None
       end.
Definition broadcast3 {A} (op : A → A → A) (x y : tensor A) : option (tensor A) :=
  bzip (bzip (bzip (λ a b, Some (op a b)))) x y.

(** ** [scatter_reduce] and [scatter_] *)

Section Reductions.
Context {V : Type} `{ValueOps V}.

Definition reduce_op (mode : reduce_mode) : V → V → V :=
  match mode with
  | Sum | Mean => v_add
  | Prod => v_mul
  | Amax => v_max
  | Amin => v_min
  end.

(** The counter tensor of the [mean] reduction: ones (the row itself is
    included), plus one for every row sent there. *)
Definition counts (n : nat) (idx : list nat) : list nat :=
  foldl (λ acc i, alter S i acc) (replicate n 1) idx.

(** [dst.scatter_reduce(-2, index, src, reduce=mode)] on one batch
    entry, rows combined channel by channel; [mean] accumulates the sum
    and then divides every row by its counter. *)
Definition scatter_reduce_rows (mode : reduce_mode) (dst : mat V)
    (idx : list nat) (src : mat V) : option (mat V) :=
  out ← scatter_rows (zip_with (reduce_op mode)) dst idx src;
  Some match mode with
       | Mean => zip_with (λ (row : list V) c, (λ v, v_div v (v_of_nat c)) <$> row)
                   out (counts (length dst) idx)
       | _ => out
       end.

Definition scatter_reduce (dst : tensor V) (idx : index) (src : tensor V)
    (mode : reduce_mode) : option (tensor V) :=
  scatter_batches (scatter_reduce_rows mode) dst idx src.

(** [out.scatter_(dim=-2, index, src)]: the rows are overwritten. *)
Definition scatter_ (out : tensor V) (idx : index) (src : tensor V)
    : option (tensor V) :=
  scatter_batches (scatter_rows (λ _ s, s)) out idx src.

Definition zeros (n t c : nat) : tensor V :=
  replicate n (replicate t (replicate c v_zero)).
End Reductions.

(** ** The similarity scores *)

Section Scores.
Context {M : Type} `{MetricOps M}.

(** [metric / metric.norm(dim=-1, keepdim=True)]. *)
Definition norm (v : list M) : M :=
  m_sqrt (foldl m_add m_zero ((λ a, m_mul a a) <$> v)).
Definition normalize (metric : tensor M) : tensor M :=
  (λ m : mat M, (λ v : list M, (λ a, m_div a (norm v)) <$> v) <$> m) <$> metric.

(** [a @ b.transpose(-1, -2)]: entry [(i, j)] is the dot product of row
    [i] of [a] with row [j] of [b]. *)
Definition dot (u v : list M) : M := foldl m_add m_zero (zip_with m_mul u v).
Definition similarity (a b : tensor M) : tensor M :=
  zip_with (λ am bm : mat M, (λ u, dot u <$> bm) <$> am) a b.

(** [scores[..., 0, :] = -math.inf] and [scores[..., :, 0] = -math.inf]. *)
Definition mask_first {B} (f : B → B) (l : list B) : list B :=
  match l with [] => [] | b :: l' => f b :: l' end.
Definition mask_row0 (scores : tensor M) : tensor M :=
  mask_first (fmap (M:=list) (λ _, m_neg_inf)) <$> scores.
Definition mask_col0 (scores : tensor M) : tensor M :=
  fmap (M:=list) (mask_first (λ _, m_neg_inf)) <$> scores.

(** [row.max()] with the position of the first maximal entry. *)
Fixpoint argmax_from (best : M) (bi i : nat) (l : list M) : M * nat :=
  match l with
  | [] => (best, bi)
  | y :: l' => if m_gtb y best then argmax_from y i (S i) l'
               else argmax_from best bi (S i) l'
  end.
Definition row_max (l : list M) : M * nat :=
  match l with
  | [] => (m_neg_inf, 0)
  | y :: l' => argmax_from y 0 1 l'
  end.

(** [scores.max(dim=-1)]; the reduced axis, of size [cols], has to be
    non-empty. *)
Definition max_lastdim (cols : nat) (scores : tensor M)
    : option (mat M * index) :=
  if cols =? 0 then None
  else Some (fmap (M:=list) (fst ∘ row_max) <$> scores,
             fmap (M:=list) (snd ∘ row_max) <$> scores).

(** [keys.argsort(dim=-1, descending=True)] and [keys.argsort(dim=1)],
    ties kept in their original order. *)
Definition argsort_by (before : M → M → bool) (keys : list M) : list nat :=
  fst <$> isort (λ p q, before p.2 q.2) (imap (λ i k, (i, k)) keys).
Definition argsort_desc (keys : list M) : list nat := argsort_by m_gtb keys.
Definition argsort_asc (keys : list M) : list nat :=
  argsort_by (λ a b, m_gtb b a) keys.
End Scores.

(** [idx.sort(dim=1)[0]] on an index tensor. *)
Definition sort_idx (l : list nat) : list nat := isort Nat.ltb l.

(** ** The three matching strategies *)

Section Matching.
Context {M V : Type} `{MetricOps M} `{ValueOps V}.

Definition merge_fn : Type := tensor V → reduce_mode → option (tensor V).
Definition unmerge_fn : Type := tensor V → option (tensor V).

Definition do_nothing {X} (x : X) (mode : option reduce_mode) : X := x.

(** [return do_nothing, do_nothing]; as [unmerge] it is called with its
    default [mode=None]. *)
Definition identity_pair : merge_fn * unmerge_fn :=
  (λ x mode, Some (do_nothing x (Some mode)), λ x, Some (do_nothing x None)).

(** *** [bipartite_soft_matching] *)

(** What the closures [merge] and [unmerge] capture. *)
Record bipartite_env := {
  be_r : Z;                (* the clamped [r] *)
  be_t : nat;              (* [metric.shape[1]] *)
  be_distill : bool;       (* [distill_token] *)
  unm_idx : index;
  src_idx : index;
  dst_idx : index
}.

Definition bipartite_merge (e : bipartite_env) : merge_fn := λ x mode,
  let src := evens <$> x in
  let dst := odds <$> x in
  let n := shape0 src in
  let t1 := shape1 src in
  i_unm ← expand (unm_idx e) n (Z.of_nat t1 - be_r e);
  unm ← gather src i_unm;
  i_src ← expand (src_idx e) n (be_r e);
  src ← gather src i_src;
  i_dst ← expand (dst_idx e) n (be_r e);
  dst ← scatter_reduce dst i_dst src mode;
  Some (if be_distill e
        then cat [take 1 <$> unm; take 1 <$> dst; drop 1 <$> unm; drop 1 <$> dst]
        else cat [unm; dst]).

Definition bipartite_unmerge (e : bipartite_env) : unmerge_fn := λ x,
  let unm_len := shape1 (unm_idx e) in
  let unm := take unm_len <$> x in
  let dst := drop unm_len <$> x in
  let n := shape0 unm in
  let c := shape2 x in
  i_dst ← expand (dst_idx e) n (be_r e);
  src ← gather dst i_dst;
  let out := zeros n (be_t e) c in
  out ← mapM (λ p, set_odds p.1 p.2) (zip out dst);
  i_unm ← expand (fmap (M:=list) (λ i, 2 * i) <$> unm_idx e) n (Z.of_nat unm_len);
  out ← scatter_ out i_unm unm;
  i_src ← expand (fmap (M:=list) (λ i, 2 * i) <$> src_idx e) n (be_r e);
  scatter_ out i_src src.

(** The [with torch.no_grad()] block: the indices that the two closures
    capture, computed from the metric and the clamped [r]. *)
Definition bipartite_indices (metric : tensor M) (r : Z)
    (class_token distill_token : bool) : option bipartite_env :=
  let metric := normalize metric in
  let a := evens <$> metric in
  let b := odds <$> metric in
  let scores := similarity a b in
  let scores := if class_token then mask_row0 scores else scores in
  let scores := if distill_token then mask_col0 scores else scores in
  mx ← max_lastdim (shape1 b) scores;
  let node_max := mx.1 in
  let node_idx := mx.2 in
  let edge_idx := argsort_desc <$> node_max in
  let unm_idx := drop (Z.to_nat r) <$> edge_idx in
  let src_idx := take (Z.to_nat r) <$> edge_idx in
  dst_idx ← gather node_idx src_idx;
  let unm_idx := if class_token then sort_idx <$> unm_idx else unm_idx in
  Some {| be_r := r; be_t := shape1 metric; be_distill := distill_token;
          unm_idx := unm_idx; src_idx := src_idx; dst_idx := dst_idx |}.

Definition bipartite_soft_matching (metric : tensor M) (r : Z)
    (class_token distill_token : bool) : option (merge_fn * unmerge_fn) :=
  let protected :=
    ((if class_token then 1 else 0) + (if distill_token then 1 else 0))%Z in
  let t := shape1 metric in
  let r := (r `min` ((Z.of_nat t - protected) `div` 2))%Z in
  if (r <=? 0)%Z then Some identity_pair
  else
    e ← bipartite_indices metric r class_token distill_token;
    Some (bipartite_merge e, bipartite_unmerge e).

(** *** [kth_bipartite_soft_matching] *)

(** [x.view(n, -1, k, c)] on one batch entry: [g] groups of [k]
    consecutive rows. *)
Fixpoint groups_of {X} (g k : nat) (l : list X) : list (list X) :=
  match g with
  | 0 => []
  | S g' => take k l :: groups_of g' k (drop k l)
  end.

(** [split]: the first [k-1] rows of every group, flattened, and the
    last row of every group.  A [view] with an inferred axis raises
    when the sizes given multiply to zero. *)
Definition kth_split {X} (k : Z) (x : tensor X) : option (tensor X * tensor X) :=
  let kn := Z.to_nat k in
  let g := shape1 x `div` kn in
  let t_rnd := g * kn in
  if (shape0 x =? 0) || (shape2 x =? 0) then None
  else
    let x := (λ m, groups_of g kn (take t_rnd m)) <$> x in
    Some ((λ gs : mat (list X), concat (take (kn - 1) <$> gs)) <$> x,
          (λ gs : mat (list X), concat (drop (kn - 1) <$> gs)) <$> x).

Definition kth_merge (k : Z) (r : nat) (dst_idx : index) : merge_fn := λ x mode,
  sd ← kth_split k x;
  let src := sd.1 in
  let dst := sd.2 in
  let n := shape0 src in
  i_dst ← expand dst_idx n (Z.of_nat r);
  scatter_reduce dst i_dst src mode.

Definition kth_unmerge (k : Z) (r : nat) (dst_idx : index) : unmerge_fn := λ x,
  let kn := Z.to_nat k in
  let n := shape0 x in
  let c := shape2 x in
  let dst := x in
  i_dst ← expand dst_idx n (Z.of_nat r);
  src ← gather dst i_dst;
  if (n =? 0) || (c =? 0) then None
  else
    let groups := r `div` (kn - 1) in
    let src := groups_of groups (kn - 1) <$> src in
    if groups =? shape1 dst
    then Some (zip_with (λ (s : list (mat V)) (d : mat V),
                 concat (zip_with (λ grp row, grp ++ [row]) s d)) src dst)
    else None.

(** The [with torch.no_grad()] block: [r] and [dst_idx]. *)
Definition kth_indices (metric : tensor M) (k : Z) : option (nat * index) :=
  let metric := normalize metric in
  ab ← kth_split k metric;
  let a := ab.1 in
  let b := ab.2 in
  let r := shape1 a in
  let scores := similarity a b in
  mx ← max_lastdim (shape1 b) scores;
  let dst_idx := mx.2 in
  Some (r, dst_idx).

Definition kth_bipartite_soft_matching (metric : tensor M) (k : Z)
    : option (merge_fn * unmerge_fn) :=
  if (k <=? 1)%Z then Some identity_pair
  else
    ri ← kth_indices metric k;
    Some (kth_merge k ri.1 ri.2, kth_unmerge k ri.1 ri.2).

(** *** [random_bipartite_soft_matching]

    The draw [torch.rand(B, N, 1)] is an argument: [rand] holds the [N]
    keys of every batch entry. *)

Definition random_split {X} (B : nat) (r : Z) (N : nat) (a_idx b_idx : index)
    (x : tensor X) : option (tensor X * tensor X) :=
  i_a ← expand a_idx B r;
  a ← gather x i_a;
  i_b ← expand b_idx B (Z.of_nat N - r);
  b ← gather x i_b;
  Some (a, b).

Definition random_merge (B : nat) (r : Z) (N : nat) (a_idx b_idx dst_idx : index)
    : merge_fn := λ x mode,
  sd ← random_split B r N a_idx b_idx x;
  let src := sd.1 in
  let dst := sd.2 in
  i_dst ← expand dst_idx B r;
  scatter_reduce dst i_dst src mode.

Definition random_unmerge (B : nat) (r : Z) (N : nat) (a_idx b_idx dst_idx : index)
    : unmerge_fn := λ x,
  let C := shape2 x in
  let dst := x in
  i_dst ← expand dst_idx B r;
  src ← gather dst i_dst;
  let out := zeros B N C in
  i_a ← expand a_idx B r;
  out ← scatter_ out i_a src;
  i_b ← expand b_idx B (Z.of_nat N - r);
  scatter_ out i_b dst.

(** The [with torch.no_grad()] block: [a_idx], [b_idx] and [dst_idx]. *)
Definition random_indices (metric : tensor M) (r : Z) (rand : mat M)
    : option (index * index * index) :=
  let B := shape0 metric in
  let N := shape1 metric in
  let rand_idx := argsort_asc <$> rand in
  let a_idx := take (Z.to_nat r) <$> rand_idx in
  let b_idx := drop (Z.to_nat r) <$> rand_idx in
  let metric := normalize metric in
  ab ← random_split B r N a_idx b_idx metric;
  let a := ab.1 in
  let b := ab.2 in
  let scores := similarity a b in
  mx ← max_lastdim (shape1 b) scores;
  let dst_idx := mx.2 in
  Some (a_idx, b_idx, dst_idx).

Definition random_bipartite_soft_matching (metric : tensor M) (r : Z)
    (rand : mat M) : option (merge_fn * unmerge_fn) :=
  if (r <=? 0)%Z then Some identity_pair
  else
    let B := shape0 metric in
    let N := shape1 metric in
    i ← random_indices metric r rand;
    Some (random_merge B r N i.1.1 i.1.2 i.2,
          random_unmerge B r N i.1.1 i.1.2 i.2).

(** *** [merge_wavg] and [merge_source] *)

(** [torch.ones_like(x[..., 0, None])]: selecting channel 0 raises on a
    row without channels. *)
Definition ones_like_col0 (x : tensor V) : option (tensor V) :=
  mapM (mapM (λ row : list V, _ ← row !! 0; Some [v_one])) x.

Definition merge_wavg (merge : merge_fn) (x : tensor V) (size : option (tensor V))
    : option (tensor V * tensor V) :=
  size ← match size with
         | None => ones_like_col0 x
         | Some size => Some size
         end;
  xs ← broadcast3 v_mul x size;
  x ← merge xs Sum;
  size ← merge size Sum;
  x ← broadcast3 v_div x size;
  Some (x, size).

(** [torch.eye(t)]. *)
Definition eye (t : nat) : mat V :=
  (λ i, (λ j, if decide (i = j) then v_one else v_zero) <$> seq 0 t) <$> seq 0 t.

Definition merge_source (merge : merge_fn) (x : tensor V) (source : option (tensor V))
    : option (tensor V) :=
  let source := match source with
                | None => replicate (shape0 x) (eye (shape1 x))
                | Some source => source
                end in
  merge source Amax.
End Matching.

(** ** Element types: binary64 floats *)

(** The order of [torch.max] and [torch.sort] on floats: the IEEE
    comparison, with NaN above every number. *)
Definition sf_is_nan (x : spec_float) : bool :=
  match x with S754_nan => true | _ => false end.
Definition sf_gtb (x y : spec_float) : bool :=
  match SFcompare x y with
  | Some Gt => true
  | Some _ => false
  | None => sf_is_nan x && negb (sf_is_nan y)
  end.
Definition float_gtb (x y : float) : bool := sf_gtb (Prim2SF x) (Prim2SF y).

(** [amax] and [amin] of [scatter_reduce]: a NaN on either side is the
    result. *)
Definition float_max (x y : float) : float :=
  if PrimFloat.is_nan x then x else if float_gtb y x then y else x.
Definition float_min (x y : float) : float :=
  if PrimFloat.is_nan x then x
  else if PrimFloat.is_nan y then y
  else if float_gtb x y then y else x.

#[export] Instance float_metric : MetricOps float := {|
  m_zero := 0%float;
  m_add := PrimFloat.add;
  m_mul := PrimFloat.mul;
  m_div := PrimFloat.div;
  m_sqrt := PrimFloat.sqrt;
  m_neg_inf := neg_infinity;
  m_gtb := float_gtb
|}.

#[export] Instance float_value : ValueOps float := {|
  v_zero := 0%float;
  v_one := 1%float;
  v_add := PrimFloat.add;
  v_mul := PrimFloat.mul;
  v_div := PrimFloat.div;
  v_max := float_max;
  v_min := float_min;
  v_of_nat := λ n, PrimFloat.of_uint63 (Uint63.of_Z (Z.of_nat n))
|}.


(** ** Element types: exact rationals

    The arithmetic laws that rounding breaks are stated for an abstract
    element type; the rationals are the instance they are used at. *)

Definition Qc_of_nat (n : nat) : Qcanon.Qc :=
  Qcanon.Q2Qc (QArith_base.inject_Z (Z.of_nat n)).

#[export] Instance Qc_value : ValueOps Qcanon.Qc := {|
  v_zero := Qc_of_nat 0;
  v_one := Qc_of_nat 1;
  v_add := Qcanon.Qcplus;
  v_mul := Qcanon.Qcmult;
  v_div := Qcanon.Qcdiv;
  v_max := λ a b, if Qcanon.Qclt_le_dec a b then b else a;
  v_min := λ a b, if Qcanon.Qclt_le_dec a b then a else b;
  v_of_nat := Qc_of_nat
|}.

(** ** Concrete tensors *)

(** The scenario of the specification: four unit vectors, and the
    indices [bipartite_soft_matching] computes for [r = 1]. *)
Definition metric4 : tensor float := [[ [1;0]; [1;0]; [0;1]; [0;1] ]]%float.
Definition values4 : tensor float := [[ [10;20]; [30;40]; [50;60]; [70;80] ]]%float.
Definition env4 : bipartite_env :=
  {| be_r := 1; be_t := 4; be_distill := false;
     unm_idx := [[1]]; src_idx := [[0]]; dst_idx := [[0]] |}.

(** Two tokens. *)
Definition metric2 : tensor float := [[ [1; 0]; [0; 1] ]]%float.

(** A metric with twelve tokens, for groups of five. *)
Definition metric12 : tensor float :=
[[ [1;0]; [0;1]; [1;1]; [1;2]; [2;1]; [1;3]; [3;1]; [2;3]; [3;2]; [1;4]; [4;1]; [3;4] ]]%float.

(** Exact values for the four tokens of the scenario. *)
Definition ramp4 : tensor Qcanon.Qc :=
[[ [Qc_of_nat 1]; [Qc_of_nat 3]; [Qc_of_nat 5]; [Qc_of_nat 7] ]].

(** Six tokens, the first two taken as the class and the distillation
    token, with the indices [bipartite_soft_matching] computes for
    [r = 1]. *)
Definition metric6 : tensor float :=
[[ [1;0]; [0;1]; [1;1]; [1;2]; [2;1]; [1;3] ]]%float.

Definition values6 : tensor float :=
[[ [1]; [2]; [3]; [4]; [5]; [6] ]]%float.

Definition env6 : bipartite_env :=
{| be_r := 1; be_t := 6; be_distill := true;
   unm_idx := [[0; 2]]; src_idx := [[1]]; dst_idx := [[1]] |}.

(** Three tokens, the second taken as the distillation token, with the
    indices computed for [r = 1]. *)
Definition metric3 : tensor float :=
[[ [1;0]; [0;1]; [1;1] ]]%float.

Definition values3 : tensor float :=
[[ [1]; [2]; [3] ]]%float.

Definition env3 : bipartite_env :=
{| be_r := 1; be_t := 3; be_distill := true;
   unm_idx := [[1]]; src_idx := [[0]]; dst_idx := [[0]] |}.

(** A draw of [torch.rand] for one batch entry of four tokens. *)
Definition rand4 : mat float := [[0.5; 0.25; 0.75; 0.125]]%float.

(** Three tokens without protected tokens: the indices computed for
    [r = 1]. *)
Definition env3_plain : bipartite_env :=
{| be_r := 1; be_t := 3; be_distill := false;
   unm_idx := [[0]]; src_idx := [[1]]; dst_idx := [[0]] |}.

(** Two tokens: the indices computed for [r = 1]. *)
Definition env2 : bipartite_env :=
{| be_r := 1; be_t := 2; be_distill := false;
   unm_idx := [[]]; src_idx := [[0]]; dst_idx := [[0]] |}.

(** Four tokens whose two sources are both closest to the first
    destination, with the indices computed for [r = 2], and values whose
    sum is not a multiple of three. *)
Definition metric4_pair : tensor float := [[ [1;0]; [1;0]; [2;1]; [0;1] ]]%float.

Definition env4_pair : bipartite_env :=
{| be_r := 2; be_t := 4; be_distill := false;
   unm_idx := [[]]; src_idx := [[0; 1]]; dst_idx := [[0; 0]] |}.

Definition values4_large : tensor float :=
[[ [0]; [6755399441055745]; [0]; [3] ]]%float.

(** Six tokens, the third closest to the second, and values of very
    different magnitudes. *)
Definition metric6_mass : tensor float :=
[[ [1;0]; [0;1]; [0;1]; [1;1]; [1;0]; [1;1] ]]%float.

Definition values6_mass : tensor float :=
[[ [1]; [1]; [-1e16]; [1e16]; [0]; [0] ]]%float.

(** * Notions used in the statements

    Shapes, the well-formedness of the captured indices, and the work of
    [merge] on a single batch entry. *)

(** A tensor with [B] batch entries of [N] tokens each. *)
Definition shaped {T} (B N : nat) (x : list (list T)) : Prop :=
  length x = B ∧ Forall (λ m, length m = N) x.

(** The rows of [src] that the index sends to row [j], in order. *)
Definition sent_to {A} (j : nat) (idx : list nat) (src : list A) : list A :=
  snd <$> filter (λ p, p.1 = j) (zip idx src).

(** [min(r, (t - protected) // 2)]. *)
Definition clamp (N : nat) (r : Z) (class_token distill_token : bool) : Z :=
  (r `min` ((Z.of_nat N - ((if class_token then 1 else 0) +
                           (if distill_token then 1 else 0))) `div` 2))%Z.

(** What [bipartite_soft_matching] establishes about the indices it hands
    to its closures, for a metric of [B] entries with [N] tokens. *)
Record env_ok (e : bipartite_env) (B N : nat) : Prop := {
  ok_r : (0 < be_r e)%Z;
  ok_t : be_t e = N;
  ok_unm : length (unm_idx e) = B;
  ok_src : length (src_idx e) = B;
  ok_dst : length (dst_idx e) = B;
  ok_entry : ∀ b u s d,
    unm_idx e !! b = Some u → src_idx e !! b = Some s → dst_idx e !! b = Some d →
    u ++ s ≡ₚ seq 0 ((N + 1) `div` 2) ∧ length s = Z.to_nat (be_r e) ∧
    length d = Z.to_nat (be_r e) ∧ Forall (λ j, j < N `div` 2) d
}.

(** Every row of the tensor has [C] channels. *)
Definition rows_have {T} (C : nat) (x : tensor T) : Prop :=
Forall (Forall (λ row, length row = C)) x.

(** The two halves of [split] on one batch entry. *)
Definition split_src {X} (g kn : nat) (m : mat X) : mat X :=
concat (take (kn - 1) <$> groups_of g kn (take (g * kn) m)).

Definition split_dst {X} (g kn : nat) (m : mat X) : mat X :=
concat (drop (kn - 1) <$> groups_of g kn (take (g * kn) m)).

(** What [kth_bipartite_soft_matching] hands to its closures. *)
Definition kth_idx_ok (B r g : nat) (dst_idx : index) : Prop :=
shaped B r dst_idx ∧ Forall (Forall (λ j, j < g)) dst_idx.

(** What [random_bipartite_soft_matching] hands to its closures, for a
    metric of [B] entries with [N] tokens and [r] of them merged. *)
Definition random_idx_ok (B r N : nat) (a_idx b_idx dst_idx : index) : Prop :=
shaped B r a_idx ∧ shaped B (N - r) b_idx ∧ shaped B r dst_idx ∧
(∀ i a b, a_idx !! i = Some a → b_idx !! i = Some b → a ++ b ≡ₚ seq 0 N) ∧
Forall (Forall (λ j, j < N - r)) dst_idx.

(** The place of a float in the order of [torch.max] and [torch.sort]:
    NaN on top, then the numbers by sign, exponent and mantissa. *)
Definition sf_rank (x : spec_float) : Z * (Z * Z) :=
match x with
| S754_nan => (3, (0, 0))
| S754_infinity false => (2, (0, 0))
| S754_infinity true => (-2, (0, 0))
| S754_zero _ => (0, (0, 0))
| S754_finite false m e => (1, (e, Z.pos m))
| S754_finite true m e => (-1, (- e, Z.neg m))
end%Z.

Definition lex_gt (p q : Z * (Z * Z)) : Prop :=
(p.1 > q.1 ∨ (p.1 = q.1 ∧ (p.2.1 > q.2.1 ∨ (p.2.1 = q.2.1 ∧ p.2.2 > q.2.2))))%Z.

(** Row [p] of one batch entry (no row beyond the last). *)
Definition row_at {V} (xb : mat V) (p : nat) : list V := default [] (xb !! p).

(** The rows at the positions [G] combined with [op], channel by
    channel, the first position first. *)
Definition folded {V} (op : V → V → V) (xb : mat V) (G : list nat) : list V :=
match G with
| [] => []
| p :: rest => foldl (zip_with op) (row_at xb p) (row_at xb <$> rest)
end.

(** The tokens folded into every destination: the destination itself
    (token [dst_pos[j]]) and every source (token [src_pos[k]]) that the
    index sends there ([d[k] = j]). *)
Definition feeders (d src_pos dst_pos : list nat) : list (list nat) :=
imap (λ j p, p :: sent_to j d src_pos) dst_pos.

(** The tokens folded into every output token of the bipartite merge of
    one batch entry: an unmerged source token [2·i] alone; destination
    [2·j+1] with the sources [2·src_idx[k]] for [dst_idx[k] = j]; in the
    order of the output. *)
Definition bipartite_feeders (distill : bool) (N : nat) (u s d : list nat)
  : list (list nat) :=
let unm := (λ i, [2 * i]) <$> u in
let dst := feeders d ((λ i, 2 * i) <$> s) ((λ j, 2 * j + 1) <$> seq 0 (N `div` 2)) in
if distill then take 1 unm ++ take 1 dst ++ drop 1 unm ++ drop 1 dst
else unm ++ dst.

(** The same for the k-th strategy: destination [j] is token
    [j·k + (k-1)], source [i] is token [(i / (k-1))·k + i mod (k-1)]. *)
Definition kth_feeders (kn g : nat) (d : list nat) : list (list nat) :=
feeders d ((λ i, i `div` (kn - 1) * kn + i `mod` (kn - 1)) <$> seq 0 (g * (kn - 1)))
          ((λ j, j * kn + (kn - 1)) <$> seq 0 g).

(** The same for the random strategy: destination [j] is token
    [b_idx[j]], source [k] is token [a_idx[k]]. *)
Definition random_feeders (a b d : list nat) : list (list nat) := feeders d a b.

(** The feeders of every batch entry. *)
Definition bipartite_plan (N : nat) (e : bipartite_env) : plan :=
zip_with (λ us d, bipartite_feeders (be_distill e) N us.1 us.2 d)
  (zip (unm_idx e) (src_idx e)) (dst_idx e).

Definition kth_plan (kn g : nat) (dst_idx : index) : plan :=
kth_feeders kn g <$> dst_idx.

Definition random_plan (a_idx b_idx dst_idx : index) : plan :=
zip_with (λ ab d, random_feeders ab.1 ab.2 d) (zip a_idx b_idx) dst_idx.

(** The original tokens behind a group of current tokens, when the
    current tokens have the groups [Fm]. *)
Definition through (Fm : list (list nat)) (G : list nat) : list nat :=
concat ((λ q, default [] (Fm !! q)) <$> G).

(** A merge with groups [Fm] followed by merges with groups [F]. *)
Definition compose_plan (Fm F : plan) : plan :=
zip_with (λ Fmb Fb, through Fmb <$> Fb) Fm F.

(** Every token on its own. *)
Definition identity_plan (B N : nat) : plan :=
replicate B ((λ p, [p]) <$> seq 0 N).

(** What a merge that follows the plan [P] makes of a tensor: every
    output token is the rows of its group combined with [op]. *)
Definition apply_plan {V} (op : V → V → V) (P : plan) (x : tensor V) : tensor V :=
zip_with (λ Pb xb, folded op xb <$> Pb) P x.

(** A plan from [N] tokens to [N'] tokens in [B] batch entries: no
    group is empty and every member is one of the [N] tokens. *)
Definition plan_ok (B N N' : nat) (P : plan) : Prop :=
shaped B N' P ∧ Forall (Forall (λ G, G ≠ [] ∧ Forall (λ p, p < N) G)) P.

Section EntryWise.
Context {M V : Type} `{MetricOps M} `{ValueOps V}.

(** The two masking steps of [bipartite_soft_matching]. *)
Definition masked (class_token distill_token : bool) (scores : tensor M) : tensor M :=
  let scores := if class_token then mask_row0 scores else scores in
  if distill_token then mask_col0 scores else scores.

(** [merge] of the bipartite strategy on one batch entry. *)
Definition merge_entry (distill : bool) (u s d : list nat) (xb : mat V)
    (mode : reduce_mode) : option (mat V) :=
  unm ← gather_rows (evens xb) u;
  src ← gather_rows (evens xb) s;
  dst ← scatter_reduce_rows mode (odds xb) d src;
  Some (if distill
        then take 1 unm ++ take 1 dst ++ drop 1 unm ++ drop 1 dst
        else unm ++ dst).

(** [unmerge] with the buffer it writes into as an argument. *)
Definition bipartite_unmerge_from (buffer : tensor V) (e : bipartite_env)
    : unmerge_fn := λ x,
  let unm_len := shape1 (unm_idx e) in
  let unm := take unm_len <$> x in
  let dst := drop unm_len <$> x in
  let n := shape0 unm in
  i_dst ← expand (dst_idx e) n (be_r e);
  src ← gather dst i_dst;
  let out := buffer in
  out ← mapM (λ p, set_odds p.1 p.2) (zip out dst);
  i_unm ← expand (fmap (M:=list) (λ i, 2 * i) <$> unm_idx e) n (Z.of_nat unm_len);
  out ← scatter_ out i_unm unm;
  i_src ← expand (fmap (M:=list) (λ i, 2 * i) <$> src_idx e) n (be_r e);
  scatter_ out i_src src.

(** [unmerge] of the bipartite strategy on one batch entry. *)
Definition unmerge_entry (u s d : list nat) (init xb : mat V) : option (mat V) :=
  let unm := take (length u) xb in
  let dst := drop (length u) xb in
  src ← gather_rows dst d;
  out ← set_odds init dst;
  out ← scatter_rows (λ _ s, s) out ((λ i, 2 * i) <$> u) unm;
  scatter_rows (λ _ s, s) out ((λ i, 2 * i) <$> s) src.

(** A property of rows that the reduction keeps. *)
Definition kept_by (mode : reduce_mode) (R : list V → Prop) : Prop :=
(∀ d s, R d → R s → R (zip_with (reduce_op mode) d s)) ∧
(mode = Mean → ∀ row c, 0 < c → R row → R ((λ v, v_div v (v_of_nat c)) <$> row)).

(** The sum of the rows of one batch entry, channel by channel. *)
Definition row_total (C : nat) (m : mat V) : list V :=
foldr (zip_with v_add) (replicate C v_zero) m.

(** [x ∘ size] for a size tensor with one channel: every row of [x] is
    combined with the size of its token. *)
Definition scale (op : V → V → V) (x s : tensor V) : tensor V :=
zip_with (zip_with (λ (row srow : list V),
  (λ a, op a (default v_zero (head srow))) <$> row)) x s.

(** [merge(·, mode="sum")] maps [N] tokens to [N'] tokens and keeps
    every property of rows that sums keep. *)
Definition sum_merge (B N N' : nat) (m : merge_fn) : Prop :=
∀ C (x : tensor V), 0 < C → shaped B N x → rows_have C x →
  ∃ y, m x Sum = Some y ∧ shaped B N' y ∧
       ∀ R, kept_by Sum R → Forall (Forall R) x → Forall (Forall R) y.

(** [merge_wavg] applied along a list of merges, the returned size
    threaded forward. *)
Fixpoint wavg_chain (ms : list merge_fn) (x : tensor V) (size : option (tensor V))
    : option (tensor V * option (tensor V)) :=
match ms with
| [] => Some (x, size)
| m :: ms' => r ← merge_wavg m x size; wavg_chain ms' r.1 (Some r.2)
end.

(** A list of merges, each built by [bipartite_soft_matching] from a
    metric with as many tokens as the previous merge left. *)
Inductive bipartite_chain (B : nat) : nat → list merge_fn → Prop :=
| bipartite_chain_nil N : bipartite_chain B N []
| bipartite_chain_cons N (metric : tensor M) r ct dt merge unmerge ms :
    shaped B N metric →
    bipartite_soft_matching metric r ct dt = Some (merge, unmerge) →
    bipartite_chain B (N - Z.to_nat (clamp N r ct dt)) ms →
    bipartite_chain B N (merge :: ms).

(** [merge(·, mode="sum")] leaves the sum of the rows of every batch
    entry unchanged. *)
Definition conserving (B N : nat) (m : merge_fn) : Prop :=
∀ C (x y : tensor V), shaped B N x → rows_have C x → m x Sum = Some y →
  ∀ b xb yb, x !! b = Some xb → y !! b = Some yb →
             row_total C yb = row_total C xb.

(** [merge(·, mode="sum")] applied along a list of merges. *)
Fixpoint sum_chain (ms : list merge_fn) (t : tensor V) : option (tensor V) :=
match ms with
| [] => Some t
| m :: ms' => t' ← m t Sum; sum_chain ms' t'
end.

(** A list of merges whose token counts fit together. *)
Inductive merge_chain (B : nat) : nat → list merge_fn → Prop :=
| merge_chain_nil N : merge_chain B N []
| merge_chain_cons N N' m ms :
    sum_merge B N N' m → merge_chain B N' ms → merge_chain B N (m :: ms).

(** A size row: one channel holding a positive counter. *)
Definition count_row (row : list V) : Prop :=
∃ n, 0 < n ∧ row = [v_of_nat n].

(** [merge_source] applied along a list of merges, the returned source
    threaded forward ([x] is read only while there is no source). *)
Fixpoint source_chain (ms : list merge_fn) (x : tensor V) (source : option (tensor V))
    : option (option (tensor V)) :=
match ms with
| [] => Some source
| m :: ms' => s ← merge_source m x source; source_chain ms' x (Some s)
end.

(** What [scatter_reduce] leaves in a destination row that started as
    [first] and was sent the rows [rest]: the rows combined in order,
    and for [mean] divided by their number. *)
Definition reduced (mode : reduce_mode) (first : list V) (rest : mat V) : list V :=
let acc := foldl (zip_with (reduce_op mode)) first rest in
match mode with
| Mean => (λ v, v_div v (v_of_nat (S (length rest)))) <$> acc
| _ => acc
end.

(** [merge] of the random strategy on one batch entry. *)
Definition random_merge_entry (a b d : list nat) (xb : mat V)
    (mode : reduce_mode) : option (mat V) :=
src ← gather_rows xb a;
dst ← gather_rows xb b;
scatter_reduce_rows mode dst d src.

(** [unmerge] of the random strategy on one batch entry, [init] the
    rows of the buffer. *)
Definition random_unmerge_entry (a b d : list nat) (init yb : mat V)
    : option (mat V) :=
src ← gather_rows yb d;
out ← scatter_rows (λ _ s, s) init a src;
scatter_rows (λ _ s, s) out b yb.

(** A score that [torch.max] and the descending sort place strictly
    above [-inf]. *)
Definition above_neg_inf (s : M) : Prop := m_gtb s m_neg_inf = true.

(** [unmerge] of the k-th strategy on one batch entry of [g] tokens:
    every group is the [k-1] rows gathered for it, then its own row. *)
Definition kth_unmerge_entry (kn g : nat) (d : list nat) (yb : mat V)
    : option (mat V) :=
src ← gather_rows yb d;
Some (concat (zip_with (λ grp row, grp ++ [row]) (groups_of g (kn - 1) src) yb)).

(** The merge [m] follows the plan [P] in every mode that reduces with
    a binary operation. *)
Definition folds_by (B N N' : nat) (m : merge_fn) (P : plan) : Prop :=
plan_ok B N N' P ∧
∀ mode C (x : tensor V), mode ≠ Mean → 0 < C → shaped B N x → rows_have C x →
  m x mode = Some (apply_plan (reduce_op mode) P x).

(** [merge(·, mode)] applied along a list of merges. *)
Fixpoint reduce_chain (mode : reduce_mode) (ms : list merge_fn) (t : tensor V)
  : option (tensor V) :=
match ms with
| [] => Some t
| m :: ms' => t' ← m t mode; reduce_chain mode ms' t'
end.

(** A list of merges that follow plans, with the groups of original
    tokens behind every final token. *)
Inductive step_chain (B : nat) : nat → list merge_fn → plan → Prop :=
| step_nil N : step_chain B N [] (identity_plan B N)
| step_void N m ms F :
    (∀ x mode, m x mode = Some x) → step_chain B N ms F → step_chain B N (m :: ms) F
| step_cons N N' m P ms F :
    folds_by B N N' m P → step_chain B N' ms F →
    step_chain B N (m :: ms) (compose_plan P F).

(** A list of merges, each built by one of the three strategies from a
    metric with as many tokens as the previous merge left, and for every
    final token the original tokens folded into it: read off the indices
    the strategy computed ([unm_idx], [src_idx] and [dst_idx]; [dst_idx]
    alone; [a_idx], [b_idx] and [dst_idx]), and carried through the
    merges that follow.  A strategy that returns [do_nothing] leaves the
    groups as they are. *)
Inductive planned_chain (B : nat) : nat → list merge_fn → plan → Prop :=
| planned_nil N : planned_chain B N [] (identity_plan B N)
| planned_bipartite N (metric : tensor M) r ct dt e m u ms F :
    shaped B N metric → (0 < clamp N r ct dt)%Z →
    bipartite_indices metric (clamp N r ct dt) ct dt = Some e →
    bipartite_soft_matching metric r ct dt = Some (m, u) →
    planned_chain B (N - Z.to_nat (clamp N r ct dt)) ms F →
    planned_chain B N (m :: ms) (compose_plan (bipartite_plan N e) F)
| planned_bipartite_void N (metric : tensor M) r ct dt m u ms F :
    shaped B N metric → (clamp N r ct dt ≤ 0)%Z →
    bipartite_soft_matching metric r ct dt = Some (m, u) →
    planned_chain B N ms F →
    planned_chain B N (m :: ms) F
| planned_kth N C (metric : tensor M) k rr dst_idx m u ms F :
    0 < C → shaped B N metric → rows_have C metric → (2 ≤ k ≤ Z.of_nat N)%Z →
    kth_indices metric k = Some (rr, dst_idx) →
    kth_bipartite_soft_matching metric k = Some (m, u) →
    planned_chain B (N `div` Z.to_nat k) ms F →
    planned_chain B N (m :: ms)
      (compose_plan (kth_plan (Z.to_nat k) (N `div` Z.to_nat k) dst_idx) F)
| planned_kth_void N (metric : tensor M) k m u ms F :
    (k ≤ 1)%Z →
    kth_bipartite_soft_matching metric k = Some (m, u) →
    planned_chain B N ms F →
    planned_chain B N (m :: ms) F
| planned_random N (metric : tensor M) r rand a_idx b_idx dst_idx m u ms F :
    shaped B N metric → shaped B N rand → (0 < r < Z.of_nat N)%Z →
    random_indices metric r rand = Some (a_idx, b_idx, dst_idx) →
    random_bipartite_soft_matching metric r rand = Some (m, u) →
    planned_chain B (N - Z.to_nat r) ms F →
    planned_chain B N (m :: ms) (compose_plan (random_plan a_idx b_idx dst_idx) F)
| planned_random_void N (metric : tensor M) r rand m u ms F :
    (r ≤ 0)%Z →
    random_bipartite_soft_matching metric r rand = Some (m, u) →
    planned_chain B N ms F →
    planned_chain B N (m :: ms) F.

End EntryWise.

(** * Properties *)

(** ** Lists: strided slices, lookups *)

(** [lia] with the equations of the divisions by a constant. *)
Ltac dlia := zify; Z.to_euclidean_division_equations; lia.

Lemma odd_half p : Nat.odd p = true → p = 2 * (p `div` 2) + 1.
Proof. intros [m ->]%Nat.odd_spec. dlia. Qed.

Lemma even_half p : Nat.odd p = false → p = 2 * (p `div` 2).
Proof.
  intros Ho. destruct (Nat.Even_or_Odd p) as [[m ->]|Hodd]; [dlia|].
  apply Nat.odd_spec in Hodd. congruence.
Qed.

Section ListFacts.
Context {A : Type}.
Implicit Types l : list A.

Lemma list_pair_ind (P : list A → Prop) :
  P [] → (∀ a, P [a]) → (∀ a b l, P l → P (a :: b :: l)) → ∀ l, P l.
Proof.
  intros H0 H1 H2 l.
  cut (P l ∧ ∀ a, P (a :: l)); [tauto|].
  induction l as [|b l [IH1 IH2]]; split; auto.
Qed.

Lemma evens_lookup l i : evens l !! i = l !! (2 * i).
Proof.
  revert i. induction l as [|a|a b l IH] using list_pair_ind; intros [|i]; try done.
  cbn [evens]. rewrite lookup_cons_ne_0 by done. simpl.
  rewrite IH. by replace (i + S (i + 0)) with (S (2 * i)) by lia.
Qed.

Lemma odds_lookup l i : odds l !! i = l !! (2 * i + 1).
Proof.
  unfold odds. rewrite evens_lookup. destruct l as [|a l]; simpl.
  - by rewrite lookup_nil.
  - by replace (i + (i + 0) + 1) with (S (2 * i)) by lia.
Qed.

Lemma length_evens l : length (evens l) = (length l + 1) `div` 2.
Proof.
  induction l as [|a|a b l IH] using list_pair_ind; try done.
  cbn [evens length]. rewrite IH.
  replace (S (S (length l)) + 1) with (length l + 1 + 1 * 2) by lia.
  rewrite Nat.div_add by done. lia.
Qed.

Lemma length_odds l : length (odds l) = length l `div` 2.
Proof.
  unfold odds. rewrite length_evens. destruct l as [|a l]; simpl; [done|].
  by replace (length l + 1) with (S (length l)) by lia.
Qed.

Lemma length_evens_odds l : length (evens l) + length (odds l) = length l.
Proof.
  rewrite length_evens, length_odds.
  pose proof (Nat.div_mod_eq (length l) 2) as E.
  pose proof (Nat.mod_upper_bound (length l) 2 ltac:(done)) as U.
  assert ((length l + 1) `div` 2 = length l `div` 2 + length l `mod` 2) as ->; [|lia].
  destruct (decide (length l `mod` 2 = 0)) as [Hm|Hm].
  - rewrite Hm. rewrite E at 1. rewrite Hm, Nat.add_0_r.
    rewrite Nat.mul_comm, Nat.div_add_l by done. simpl. lia.
  - assert (length l `mod` 2 = 1) as Hm' by lia. rewrite Hm'. rewrite E at 1.
    rewrite Hm'. replace (2 * length l `div` 2 + 1 + 1) with ((length l `div` 2 + 1) * 2) by lia.
    by rewrite Nat.div_mul.
Qed.
End ListFacts.

(** ** The primitives on well-shaped arguments *)

Section OptionLists.
Context {A : Type}.

Lemma mapM_lookup {B} (f : A → option B) (l : list A) (k : list B) :
  mapM f l = Some k ↔
  length k = length l ∧
  ∀ i a, l !! i = Some a → ∃ b, k !! i = Some b ∧ f a = Some b.
Proof.
  rewrite mapM_Some. split.
  - intros HF. split; [symmetry; by eapply Forall2_length|].
    intros i a Ha. destruct (Forall2_lookup_l _ _ _ _ _ HF Ha) as (b & ? & ?). eauto.
  - intros [Hlen HP]. apply Forall2_same_length_lookup_2; [done|].
    intros i a b Ha Hb. destruct (HP i a Ha) as (b' & ? & ?). congruence.
Qed.

Lemma mapM_total {B} (f : A → option B) (l : list A) :
  (∀ i a, l !! i = Some a → is_Some (f a)) → is_Some (mapM f l).
Proof.
  intros HP. apply mapM_is_Some, Forall_lookup. intros i a Ha. by apply (HP i).
Qed.

Lemma mapM_Some_id (l : list A) (f : A → option A) :
  (∀ i a, l !! i = Some a → f a = Some a) → mapM f l = Some l.
Proof.
  intros HP. apply mapM_lookup. split; [done|]. intros i a Ha. eauto.
Qed.

End OptionLists.

Section PrimitiveFacts.
Context {A : Type}.

Lemma expand_dim_same (l : list A) : expand_dim (Z.of_nat (length l)) l = Some l.
Proof.
  unfold expand_dim.
  destruct (Z.eqb_spec (Z.of_nat (length l)) (-1)); [lia|].
  destruct (Z.ltb_spec (Z.of_nat (length l)) 0); [lia|].
  by rewrite Z.eqb_refl.
Qed.

Lemma gather_rows_lookup (m : list A) (idx : list nat) (k : list A) :
  gather_rows m idx = Some k ↔
  length k = length idx ∧
  ∀ j i, idx !! j = Some i → ∃ row, k !! j = Some row ∧ m !! i = Some row.
Proof. apply mapM_lookup. Qed.

Lemma gather_rows_total (m : list A) (idx : list nat) :
  Forall (λ i, i < length m) idx → is_Some (gather_rows m idx).
Proof.
  intros HF. apply mapM_total. intros j i Hi. apply lookup_lt_is_Some.
  by eapply (Forall_lookup_1 _ _ _ _ HF).
Qed.

Lemma sent_to_cons j i idx (s : A) (src : list A) :
  sent_to j (i :: idx) (s :: src) =
  if decide (i = j) then s :: sent_to j idx src else sent_to j idx src.
Proof.
  unfold sent_to. simpl. rewrite filter_cons. simpl. by destruct (decide (i = j)).
Qed.

Lemma scatter_rows_spec (f : A → A → A) (idx : list nat) :
  ∀ (dst src : list A),
    length idx ≤ length src → Forall (λ i, i < length dst) idx →
    ∃ out, scatter_rows f dst idx src = Some out ∧ length out = length dst ∧
           ∀ j d, dst !! j = Some d → out !! j = Some (foldl f d (sent_to j idx src)).
Proof.
  induction idx as [|i idx IH]; intros dst src Hlen HF.
  - exists dst. simpl. split; [done|]. split; [done|]. intros j d Hd.
    unfold sent_to. by destruct src.
  - destruct src as [|s src]; simpl in Hlen; [lia|].
    apply Forall_cons in HF as [Hi HF].
    destruct (lookup_lt_is_Some_2 dst i Hi) as [d0 Hd0].
    destruct (IH (<[i := f d0 s]> dst) src) as (out & Hout & Hlo & Hsp).
    { lia. } { by rewrite length_insert. }
    exists out. simpl. rewrite Hd0. simpl. split; [done|].
    split; [by rewrite Hlo, length_insert|].
    intros j d Hd. rewrite sent_to_cons. destruct (decide (i = j)) as [->|Hne].
    + simpl. apply Hsp. rewrite list_lookup_insert_eq by done. congruence.
    + apply Hsp. by rewrite list_lookup_insert_ne.
Qed.

Lemma scatter_rows_Some_length (f : A → A → A) (idx : list nat) :
  ∀ (dst src out : list A),
    scatter_rows f dst idx src = Some out → length out = length dst.
Proof.
  induction idx as [|i idx IH]; intros dst src out; simpl.
  - destruct src; congruence.
  - destruct src as [|s src]; [done|]. destruct (dst !! i) as [d|]; [|done].
    simpl. intros Ho%IH. by rewrite length_insert in Ho.
Qed.
End PrimitiveFacts.

(** ** Sorting and arg-max *)

Section SortFacts.
Context {A : Type}.

Lemma insert_sorted_perm (before : A → A → bool) a l :
  insert_sorted before a l ≡ₚ a :: l.
Proof.
  induction l as [|b l IH]; simpl; [done|].
  destruct (before b a); [|done]. rewrite IH. apply Permutation_swap.
Qed.

Lemma isort_perm (before : A → A → bool) l : isort before l ≡ₚ l.
Proof.
  induction l as [|a l IH]; simpl; [done|].
  by rewrite insert_sorted_perm, IH.
Qed.

Lemma fst_imap_pair (keys : list A) :
  (imap (λ i k, (i, k)) keys).*1 = seq 0 (length keys).
Proof.
  apply list_eq. intros i. rewrite list_lookup_fmap, list_lookup_imap.
  destruct (keys !! i) as [k|] eqn:Hk; simpl.
  - symmetry. apply lookup_seq. split; [done|]. by eapply lookup_lt_Some.
  - symmetry. apply lookup_seq_ge. by apply lookup_ge_None.
Qed.
End SortFacts.

Section ScoreFacts.
Context {M : Type} `{MetricOps M}.

Lemma argsort_by_perm (before : M → M → bool) (keys : list M) :
  argsort_by before keys ≡ₚ seq 0 (length keys).
Proof.
  unfold argsort_by. rewrite isort_perm. by rewrite fst_imap_pair.
Qed.

Lemma argmax_from_bound (l : list M) : ∀ best bi i,
  bi < i → (argmax_from best bi i l).2 < i + length l.
Proof.
  induction l as [|y l IH]; intros best bi i Hbi; simpl; [lia|].
  destruct (m_gtb y best).
  - pose proof (IH y i (S i) ltac:(lia)). lia.
  - pose proof (IH best bi (S i) ltac:(lia)). lia.
Qed.

Lemma row_max_bound (l : list M) : 0 < length l → (row_max l).2 < length l.
Proof.
  destruct l as [|y l]; simpl; [lia|]. intros _.
  pose proof (argmax_from_bound l y 0 1 ltac:(lia)). lia.
Qed.
End ScoreFacts.

Lemma sort_idx_perm (l : list nat) : sort_idx l ≡ₚ l.
Proof. apply isort_perm. Qed.

(** ** Shapes *)

Lemma shaped_lookup {T} B N (x : list (list T)) b m :
  shaped B N x → x !! b = Some m → length m = N.
Proof. intros [_ HF] Hb. by eapply (Forall_lookup_1 _ _ _ _ HF). Qed.

Lemma shaped_shape1 {T} B N (x : list (list T)) : 0 < B → shaped B N x → shape1 x = N.
Proof.
  intros HB [Hl HF]. destruct x as [|m x]; simpl in *; [lia|].
  by apply Forall_cons in HF as [? _].
Qed.

Lemma shaped_fmap {T U} B N N' (f : list T → list U) (x : list (list T)) :
  (∀ m, length m = N → length (f m) = N') → shaped B N x → shaped B N' (f <$> x).
Proof.
  intros Hf [Hl HF]. split; [by rewrite length_fmap|].
  apply Forall_fmap. eapply Forall_impl; [done|]. intros m. simpl. apply Hf.
Qed.

(** ** Batched primitives act entry by entry *)

Section BatchFacts.
Context {A B C D : Type}.

Lemma mapM_zip_pointwise (f : A → B → option C) (la : list A) (lb : list B) :
  length la = length lb →
  (∀ i a b, la !! i = Some a → lb !! i = Some b → is_Some (f a b)) →
  ∃ lc, mapM (λ p, f p.1 p.2) (zip la lb) = Some lc ∧ length lc = length la ∧
        ∀ i a b, la !! i = Some a → lb !! i = Some b →
                 ∃ c, lc !! i = Some c ∧ f a b = Some c.
Proof.
  intros Hlen Hsome.
  destruct (mapM_total (λ p, f p.1 p.2) (zip la lb)) as [lc Hlc].
  { intros i [a b] [Ha Hb]%lookup_zip_Some. simpl. eauto. }
  exists lc. split; [done|]. apply mapM_lookup in Hlc as [Hl Hp].
  split; [rewrite Hl, length_zip; lia|].
  intros i a b Ha Hb. apply (Hp i (a, b)). by apply lookup_zip_Some.
Qed.

Lemma mapM_zip3_pointwise (f : A → B → C → option D)
    (la : list A) (lb : list B) (lc : list C) :
  length la = length lb → length la = length lc →
  (∀ i a b c, la !! i = Some a → lb !! i = Some b → lc !! i = Some c →
              is_Some (f a b c)) →
  ∃ ld, mapM (λ p, f p.1.1 p.1.2 p.2) (zip (zip la lb) lc) = Some ld ∧
        length ld = length la ∧
        ∀ i a b c, la !! i = Some a → lb !! i = Some b → lc !! i = Some c →
                   ∃ d, ld !! i = Some d ∧ f a b c = Some d.
Proof.
  intros Hlen1 Hlen2 Hsome.
  destruct (mapM_total (λ p, f p.1.1 p.1.2 p.2) (zip (zip la lb) lc)) as [ld Hld].
  { intros i [[a b] c] [[Ha Hb]%lookup_zip_Some Hc]%lookup_zip_Some. simpl. eauto. }
  exists ld. split; [done|]. apply mapM_lookup in Hld as [Hl Hp].
  split; [rewrite Hl, !length_zip; lia|].
  intros i a b c Ha Hb Hc. apply (Hp i (a, b, c)).
  apply lookup_zip_Some. split; [|done]. by apply lookup_zip_Some.
Qed.
End BatchFacts.

Lemma expand_same (idx : index) (n k : nat) :
  length idx = n → Forall (λ i, length i = k) idx →
  expand idx n (Z.of_nat k) = Some idx.
Proof.
  intros <- HF. unfold expand. rewrite expand_dim_same. simpl.
  apply mapM_Some_id. intros b i Hi.
  rewrite <- (Forall_lookup_1 _ _ _ _ HF Hi). apply expand_dim_same.
Qed.

Section BatchedPrimitives.
Context {A : Type}.

Lemma gather_batch (x : list (list A)) (idx : index) :
  length idx = length x →
  (∀ b m i, x !! b = Some m → idx !! b = Some i → Forall (λ k, k < length m) i) →
  ∃ y, gather x idx = Some y ∧ length y = length x ∧
       ∀ b m i, x !! b = Some m → idx !! b = Some i →
                ∃ yb, y !! b = Some yb ∧ gather_rows m i = Some yb.
Proof.
  intros Hlen Hin. unfold gather. rewrite Hlen, Nat.leb_refl.
  apply mapM_zip_pointwise; [done|].
  intros b m i Hm Hi. apply gather_rows_total. eauto.
Qed.

Lemma scatter_batches_pointwise
    (g : list A → list nat → list A → option (list A))
    (out : list (list A)) (idx : index) (src : list (list A)) :
  length idx = length out → length src = length out →
  (∀ b o i s, out !! b = Some o → idx !! b = Some i → src !! b = Some s →
              is_Some (g o i s)) →
  ∃ y, scatter_batches g out idx src = Some y ∧ length y = length out ∧
       ∀ b o i s, out !! b = Some o → idx !! b = Some i → src !! b = Some s →
                  ∃ yb, y !! b = Some yb ∧ g o i s = Some yb.
Proof.
  intros Hl1 Hl2 Hsome. unfold scatter_batches.
  rewrite Hl1, Hl2, Nat.leb_refl. simpl.
  destruct (mapM_zip3_pointwise g out idx src) as (y & Hy & Hly & Hp); [done..|].
  exists y. rewrite Hy. simpl. rewrite drop_all. simpl.
  by rewrite app_nil_r.
Qed.
End BatchedPrimitives.

(** ** [bipartite_soft_matching]: the captured indices *)

Section BipartiteFacts.
Context {M V : Type} `{MetricOps M} `{ValueOps V}.

Lemma normalize_shaped B N (metric : tensor M) :
  shaped B N metric → shaped B N (normalize metric).
Proof. apply shaped_fmap. intros m Hm. by rewrite length_fmap. Qed.

Lemma length_mask_first {X} (f : X → X) (l : list X) :
  length (mask_first f l) = length l.
Proof. by destruct l. Qed.

Lemma masked_scores_lookup ct dt (metric : tensor M) b m :
  normalize metric !! b = Some m →
  ∃ Sb, masked ct dt (similarity (evens <$> normalize metric) (odds <$> normalize metric)) !! b = Some Sb ∧
        length Sb = length (evens m) ∧ Forall (λ row, length row = length (odds m)) Sb.
Proof.
  intros Hm.
  assert (similarity (evens <$> normalize metric) (odds <$> normalize metric) !! b
          = Some ((λ u, dot u <$> odds m) <$> evens m)) as HS.
  { unfold similarity. rewrite lookup_zip_with, !list_lookup_fmap, Hm. done. }
  assert (Forall (λ row : list M, length row = length (odds m))
            ((λ u, dot u <$> odds m) <$> evens m)) as HF.
  { apply Forall_fmap, Forall_true. intros u. simpl. by rewrite length_fmap. }
  unfold masked, mask_row0, mask_col0.
  destruct ct, dt; rewrite ?list_lookup_fmap, HS; simpl; eexists; (split; [done|]).
  - rewrite length_fmap, length_mask_first, length_fmap. split; [done|].
    apply Forall_fmap. destruct (evens m) as [|u us]; simpl; [done|].
    apply Forall_cons in HF as [Hu HF]. apply Forall_cons. split.
    + simpl. rewrite length_mask_first, length_fmap. by rewrite length_fmap.
    + eapply Forall_impl; [done|]. intros row. simpl. by rewrite length_mask_first.
  - rewrite length_mask_first, length_fmap. split; [done|].
    destruct (evens m) as [|u us]; simpl; [done|].
    apply Forall_cons in HF as [Hu HF]. apply Forall_cons. split; [|done].
    by rewrite length_fmap.
  - rewrite !length_fmap. split; [done|]. apply Forall_fmap.
    eapply Forall_impl; [done|]. intros row. simpl. by rewrite length_mask_first.
  - by rewrite length_fmap.
Qed.

Lemma perm_seq_bound (l : list nat) n : l ≡ₚ seq 0 n → Forall (λ i, i < n) l.
Proof.
  intros Hp. apply Forall_forall. intros i Hi. rewrite Hp in Hi.
  apply elem_of_seq in Hi. lia.
Qed.

Lemma bipartite_indices_ok (metric : tensor M) (r' : Z) (ct dt : bool) B N :
  0 < B → shaped B N metric → (0 < r' ≤ Z.of_nat N `div` 2)%Z →
  ∃ e, bipartite_indices metric r' ct dt = Some e ∧
       env_ok e B N ∧ be_r e = r' ∧ be_distill e = dt.
Proof.
  intros HB Hsh [Hr Hr2]. unfold bipartite_indices.
  pose proof (normalize_shaped B N metric Hsh) as Hn.
  set (met := normalize metric) in *.
  assert (Z.to_nat r' ≤ N `div` 2) as Hr3.
  { rewrite <- Nat2Z.id. apply Z2Nat.inj_le; [lia| |].
    - apply Nat2Z.is_nonneg.
    - by rewrite Nat2Z.inj_div. }
  assert (0 < N `div` 2) as HNB by lia.
  assert (shape1 (odds <$> met) = N `div` 2) as ->.
  { apply (shaped_shape1 B); [done|]. eapply shaped_fmap; [|done].
    intros m <-. apply length_odds. }
  rewrite (shaped_shape1 B N met HB Hn).
  unfold max_lastdim. destruct (Nat.eqb_spec (N `div` 2) 0) as [?|_]; [lia|].
  simpl.
  change (if dt then mask_col0 (if ct then mask_row0 ?s else ?s) else (if ct then mask_row0 ?s else ?s))
    with (masked ct dt s).
  set (S := masked ct dt _).
  assert (∀ b, b < B → ∃ Sb, S !! b = Some Sb ∧ length Sb = (N + 1) `div` 2 ∧
                     Forall (λ row, length row = N `div` 2) Sb) as HS.
  { intros b Hb. destruct Hn as [Hl HF].
    destruct (lookup_lt_is_Some_2 met b) as [m Hm]; [lia|].
    destruct (masked_scores_lookup ct dt metric b m Hm) as (Sb & HSb & Hl1 & Hl2).
    exists Sb. split; [done|].
    rewrite Hl1, length_evens, (Forall_lookup_1 _ _ _ _ HF Hm). split; [done|].
    by rewrite length_odds, (Forall_lookup_1 _ _ _ _ HF Hm) in Hl2. }
  assert (length S = B) as HlS.
  { unfold S, masked, mask_row0, mask_col0, similarity.
    destruct Hn as [Hl _].
    destruct ct, dt; rewrite ?length_fmap, length_zip_with, !length_fmap; lia. }
  set (edge := argsort_desc <$> (fmap (M:=list) (fst ∘ row_max) <$> S)).
  assert (∀ b eb, edge !! b = Some eb → eb ≡ₚ seq 0 ((N + 1) `div` 2)) as Hedge.
  { intros b eb. unfold edge. rewrite !list_lookup_fmap.
    destruct (S !! b) as [Sb|] eqn:HSb; [|done]. simpl. intros [= <-].
    destruct (HS b) as (Sb' & HSb' & Hl1 & _).
    { apply lookup_lt_Some in HSb. lia. }
    assert (Sb' = Sb) as -> by congruence.
    unfold argsort_desc. rewrite argsort_by_perm, length_fmap. by rewrite Hl1. }
  destruct (gather_batch (fmap (M:=list) (snd ∘ row_max) <$> S)
              (take (Z.to_nat r') <$> edge)) as (dsti & Hg & Hld & Hgp).
  { unfold edge. by rewrite !length_fmap. }
  { intros b nb sb. rewrite !list_lookup_fmap.
    destruct (S !! b) as [Sb|] eqn:HSb; [|done]. simpl. intros [= <-].
    destruct (edge !! b) as [eb|] eqn:Heb; [|done]. simpl. intros [= <-].
    destruct (HS b) as (Sb' & HSb' & Hl1 & _).
    { apply lookup_lt_Some in HSb. lia. }
    assert (Sb' = Sb) as -> by congruence.
    rewrite length_fmap, Hl1. apply Forall_take. apply perm_seq_bound. eauto. }
  rewrite Hg. simpl. eexists. split; [done|]. split; [|done].
  split; cbn [be_r be_t unm_idx src_idx dst_idx be_distill].
  - done.
  - done.
  - destruct ct; rewrite ?length_fmap; unfold edge; by rewrite !length_fmap.
  - unfold edge; by rewrite !length_fmap.
  - rewrite Hld. by rewrite length_fmap.
  - intros b u s d Hu Hs Hd.
    rewrite list_lookup_fmap in Hs.
    destruct (edge !! b) as [eb|] eqn:Heb; [|done]. simpl in Hs.
    injection Hs as <-.
    assert (∃ u0, u ≡ₚ u0 ∧ u0 = drop (Z.to_nat r') eb) as (u0 & Hpu & ->).
    { destruct ct; rewrite !list_lookup_fmap, Heb in Hu; simpl in Hu;
        injection Hu as <-; exists (drop (Z.to_nat r') eb); split; try done.
      apply sort_idx_perm. }
    pose proof (Hedge b eb Heb) as Hpe.
    assert (length eb = (N + 1) `div` 2) as Hleb.
    { by rewrite Hpe, length_seq. }
    assert (N `div` 2 ≤ (N + 1) `div` 2) as Hle.
    { apply Nat.Div0.div_le_mono; lia. }
    split; [|split; [|split]].
    + rewrite Hpu, Permutation_app_comm, take_drop. done.
    + rewrite length_take. lia.
    + assert (is_Some (S !! b)) as [Sb HSb].
      { apply lookup_lt_is_Some. apply lookup_lt_Some in Heb.
        unfold edge in Heb. rewrite !length_fmap in Heb. done. }
      destruct (Hgp b ((snd ∘ row_max) <$> Sb) (take (Z.to_nat r') eb))
        as (yb & Hyb & Hgr).
      { by rewrite list_lookup_fmap, HSb. }
      { by rewrite list_lookup_fmap, Heb. }
      assert (yb = d) as -> by congruence.
      apply gather_rows_lookup in Hgr as [Hl _]. rewrite Hl, length_take. lia.
    + assert (is_Some (S !! b)) as [Sb HSb].
      { apply lookup_lt_is_Some. apply lookup_lt_Some in Heb.
        unfold edge in Heb. rewrite !length_fmap in Heb. done. }
      destruct (Hgp b ((snd ∘ row_max) <$> Sb) (take (Z.to_nat r') eb))
        as (yb & Hyb & Hgr).
      { by rewrite list_lookup_fmap, HSb. }
      { by rewrite list_lookup_fmap, Heb. }
      assert (yb = d) as -> by congruence.
      apply gather_rows_lookup in Hgr as [Hl Hp].
      destruct (HS b) as (Sb' & HSb' & Hl1 & Hl2).
      { apply lookup_lt_Some in HSb. lia. }
      assert (Sb' = Sb) as -> by congruence.
      apply Forall_lookup. intros k j Hk.
      assert (is_Some (take (Z.to_nat r') eb !! k)) as [i Hi].
      { apply lookup_lt_is_Some. rewrite <- Hl. by eapply lookup_lt_Some. }
      destruct (Hp k i Hi) as (row & Hrow & Hni).
      assert (row = j) as -> by congruence.
      rewrite list_lookup_fmap in Hni.
      destruct (Sb !! i) as [sc|] eqn:Hsc; [|done]. simpl in Hni.
      injection Hni as <-.
      pose proof (Forall_lookup_1 _ _ _ _ Hl2 Hsc) as Hlsc. cbv beta in Hlsc.
      pose proof (row_max_bound sc ltac:(lia)) as Hb.
      cbv beta. unfold compose. lia.
Qed.

Lemma clamp_half (N : nat) r ct dt : (clamp N r ct dt ≤ Z.of_nat N `div` 2)%Z.
Proof.
  unfold clamp. etrans; [apply Z.le_min_r|].
  apply Z.div_le_mono; [lia|]. destruct ct, dt; lia.
Qed.

Lemma bipartite_soft_matching_env (metric : tensor M) (r : Z) (ct dt : bool) B N :
  0 < B → shaped B N metric → (0 < clamp N r ct dt)%Z →
  ∃ e, bipartite_indices metric (clamp N r ct dt) ct dt = Some e ∧
       bipartite_soft_matching (V:=V) metric r ct dt
         = Some (bipartite_merge e, bipartite_unmerge e) ∧
       env_ok e B N ∧ be_r e = clamp N r ct dt ∧ be_distill e = dt.
Proof.
  intros HB Hsh Hr.
  destruct (bipartite_indices_ok metric (clamp N r ct dt) ct dt B N HB Hsh)
    as (e & He & Hok & Hre & Hdt); [by split; [|apply clamp_half]|].
  exists e. split; [done|]. split; [|done].
  unfold bipartite_soft_matching.
  rewrite (shaped_shape1 B N metric HB Hsh). fold (clamp N r ct dt).
  destruct (Z.leb_spec (clamp N r ct dt) 0) as [?|_]; [lia|].
  by rewrite He.
Qed.

Lemma bipartite_soft_matching_ok (metric : tensor M) (r : Z) (ct dt : bool) B N :
  0 < B → shaped B N metric → (0 < clamp N r ct dt)%Z →
  ∃ e, bipartite_soft_matching (V:=V) metric r ct dt
         = Some (bipartite_merge e, bipartite_unmerge e) ∧
       env_ok e B N ∧ be_r e = clamp N r ct dt ∧ be_distill e = dt.
Proof.
  intros HB Hsh Hr.
  destruct (bipartite_soft_matching_env metric r ct dt B N HB Hsh Hr)
    as (e & _ & He). by exists e.
Qed.

Lemma scatter_reduce_rows_total mode (dst : mat V) idx src :
  length idx ≤ length src → Forall (λ i, i < length dst) idx →
  is_Some (scatter_reduce_rows mode dst idx src).
Proof.
  intros Hl HF. unfold scatter_reduce_rows.
  destruct (scatter_rows_spec (zip_with (reduce_op mode)) idx dst src Hl HF)
    as (out & -> & _). simpl. eauto.
Qed.

Lemma env_entry_lengths e B N b u s d :
  env_ok e B N →
  unm_idx e !! b = Some u → src_idx e !! b = Some s → dst_idx e !! b = Some d →
  length u = (N + 1) `div` 2 - Z.to_nat (be_r e) ∧
  length s = Z.to_nat (be_r e) ∧ length d = Z.to_nat (be_r e) ∧
  Z.to_nat (be_r e) ≤ (N + 1) `div` 2 ∧
  Forall (λ i, i < (N + 1) `div` 2) u ∧ Forall (λ i, i < (N + 1) `div` 2) s ∧
  Forall (λ j, j < N `div` 2) d.
Proof.
  intros Hok Hu Hs Hd. destruct (ok_entry _ _ _ Hok b u s d Hu Hs Hd) as (Hp & Hls & Hld & HF).
  pose proof (Permutation_length Hp) as Hl. rewrite length_app, length_seq in Hl.
  apply perm_seq_bound, Forall_app in Hp as [? ?].
  repeat split; try done; lia.
Qed.

Lemma env_lookup e B N b :
  env_ok e B N → b < B →
  ∃ u s d, unm_idx e !! b = Some u ∧ src_idx e !! b = Some s ∧ dst_idx e !! b = Some d.
Proof.
  intros Hok Hb.
  destruct (lookup_lt_is_Some_2 (unm_idx e) b) as [u Hu]; [by rewrite (ok_unm _ _ _ Hok)|].
  destruct (lookup_lt_is_Some_2 (src_idx e) b) as [s Hs]; [by rewrite (ok_src _ _ _ Hok)|].
  destruct (lookup_lt_is_Some_2 (dst_idx e) b) as [d Hd]; [by rewrite (ok_dst _ _ _ Hok)|].
  eauto 10.
Qed.

Lemma bipartite_merge_entries e B N (x : tensor V) mode :
  env_ok e B N → 0 < B → shaped B N x →
  ∃ y, bipartite_merge e x mode = Some y ∧ length y = B ∧
       ∀ b xb u s d,
         x !! b = Some xb → unm_idx e !! b = Some u →
         src_idx e !! b = Some s → dst_idx e !! b = Some d →
         ∃ yb, y !! b = Some yb ∧ merge_entry (be_distill e) u s d xb mode = Some yb.
Proof.
  intros Hok HB Hx. unfold bipartite_merge.
  assert (shaped B ((N + 1) `div` 2) (evens <$> x)) as Hev.
  { eapply shaped_fmap; [|done]. intros m <-. apply length_evens. }
  assert (shaped B (N `div` 2) (odds <$> x)) as Hod.
  { eapply shaped_fmap; [|done]. intros m <-. apply length_odds. }
  rewrite (shaped_shape1 B _ _ HB Hev). unfold shape0.
  destruct Hev as [Hlev HFev]. destruct Hod as [Hlod HFod]. rewrite Hlev.
  set (rn := Z.to_nat (be_r e)).
  pose proof (ok_r _ _ _ Hok) as Hrpos.
  assert (∀ b u s d, unm_idx e !! b = Some u → src_idx e !! b = Some s →
            dst_idx e !! b = Some d → _) as Hent
    by (intros b u s d; apply (env_entry_lengths e B N b u s d Hok)).
  assert (rn ≤ (N + 1) `div` 2) as Hrn.
  { destruct (env_lookup e B N 0 Hok HB) as (u & s & d & Hu & Hs & Hd).
    by destruct (Hent 0 u s d Hu Hs Hd) as (_ & _ & _ & ? & _). }
  assert (be_r e = Z.of_nat rn) as Hre by lia.
  rewrite !Hre.
  replace (Z.of_nat ((N + 1) `div` 2) - Z.of_nat rn)%Z with (Z.of_nat ((N + 1) `div` 2 - rn)) by lia.
  rewrite (expand_same (unm_idx e) B).
  2: { apply (ok_unm _ _ _ Hok). }
  2: { apply Forall_lookup. intros b u Hu.
       destruct (env_lookup e B N b Hok) as (u' & s & d & Hu' & Hs & Hd).
       { apply lookup_lt_Some in Hu. by rewrite (ok_unm _ _ _ Hok) in Hu. }
       assert (u' = u) as -> by congruence.
       by destruct (Hent b u s d Hu Hs Hd) as (? & _). }
  rewrite (expand_same (src_idx e) B).
  2: { apply (ok_src _ _ _ Hok). }
  2: { apply Forall_lookup. intros b s Hs.
       destruct (env_lookup e B N b Hok) as (u & s' & d & Hu & Hs' & Hd).
       { apply lookup_lt_Some in Hs. by rewrite (ok_src _ _ _ Hok) in Hs. }
       assert (s' = s) as -> by congruence.
       by destruct (Hent b u s d Hu Hs Hd) as (_ & ? & _). }
  rewrite (expand_same (dst_idx e) B).
  2: { apply (ok_dst _ _ _ Hok). }
  2: { apply Forall_lookup. intros b d Hd.
       destruct (env_lookup e B N b Hok) as (u & s & d' & Hu & Hs & Hd').
       { apply lookup_lt_Some in Hd. by rewrite (ok_dst _ _ _ Hok) in Hd. }
       assert (d' = d) as -> by congruence.
       by destruct (Hent b u s d Hu Hs Hd) as (_ & _ & ? & _). }
  simpl.
  destruct (gather_batch (evens <$> x) (unm_idx e)) as (unm & Hgu & Hlu & Hpu).
  { by rewrite Hlev, (ok_unm _ _ _ Hok). }
  { intros b m u Hm Hu.
    destruct (env_lookup e B N b Hok) as (u' & s & d & Hu' & Hs & Hd).
    { apply lookup_lt_Some in Hu. by rewrite (ok_unm _ _ _ Hok) in Hu. }
    assert (u' = u) as -> by congruence.
    destruct (Hent b u s d Hu Hs Hd) as (_ & _ & _ & _ & HF & _).
    by rewrite (Forall_lookup_1 _ _ _ _ HFev Hm). }
  rewrite Hgu. simpl.
  destruct (gather_batch (evens <$> x) (src_idx e)) as (src & Hgs & Hls & Hps).
  { by rewrite Hlev, (ok_src _ _ _ Hok). }
  { intros b m s Hm Hs.
    destruct (env_lookup e B N b Hok) as (u & s' & d & Hu & Hs' & Hd).
    { apply lookup_lt_Some in Hs. by rewrite (ok_src _ _ _ Hok) in Hs. }
    assert (s' = s) as -> by congruence.
    destruct (Hent b u s d Hu Hs Hd) as (_ & _ & _ & _ & _ & HF & _).
    by rewrite (Forall_lookup_1 _ _ _ _ HFev Hm). }
  rewrite Hgs. simpl.
  destruct (scatter_batches_pointwise (scatter_reduce_rows mode)
              (odds <$> x) (dst_idx e) src) as (dst & Hsc & Hld & Hpd).
  { by rewrite Hlod, (ok_dst _ _ _ Hok). }
  { by rewrite Hls, Hlev, Hlod. }
  { intros b o d sb Ho Hd Hsb.
    destruct (env_lookup e B N b Hok) as (u & s & d' & Hu & Hs & Hd').
    { apply lookup_lt_Some in Hd. by rewrite (ok_dst _ _ _ Hok) in Hd. }
    assert (d' = d) as -> by congruence.
    destruct (Hent b u s d Hu Hs Hd) as (_ & Hls' & Hld' & _ & _ & _ & HF).
    assert (is_Some ((evens <$> x) !! b)) as [m Hm].
    { apply lookup_lt_is_Some. apply lookup_lt_Some in Ho. by rewrite Hlev, <- Hlod. }
    destruct (Hps b m s Hm Hs) as (sb' & Hsb' & Hg).
    assert (sb' = sb) as -> by congruence.
    apply gather_rows_lookup in Hg as [Hlsb _].
    apply scatter_reduce_rows_total; [lia|].
    by rewrite (Forall_lookup_1 _ _ _ _ HFod Ho). }
  unfold scatter_reduce. rewrite Hsc. simpl.
  eexists. split; [done|].
  assert (∀ b xb u s d,
    x !! b = Some xb → unm_idx e !! b = Some u →
    src_idx e !! b = Some s → dst_idx e !! b = Some d →
    ∃ ub sb db, unm !! b = Some ub ∧ dst !! b = Some db ∧
      gather_rows (evens xb) u = Some ub ∧ gather_rows (evens xb) s = Some sb ∧
      scatter_reduce_rows mode (odds xb) d sb = Some db) as Hall.
  { intros b xb u s d Hxb Hu Hs Hd.
    destruct (Hpu b (evens xb) u) as (ub & Hub & Hgub); [by rewrite list_lookup_fmap, Hxb|done|].
    destruct (Hps b (evens xb) s) as (sb & Hsb & Hgsb); [by rewrite list_lookup_fmap, Hxb|done|].
    destruct (Hpd b (odds xb) d sb) as (db & Hdb & Hgdb); [by rewrite list_lookup_fmap, Hxb|done..|].
    eauto 10. }
  split.
  - destruct (be_distill e); unfold cat; simpl;
      rewrite ?length_zip_with, ?length_fmap; lia.
  - intros b xb u s d Hxb Hu Hs Hd.
    destruct (Hall b xb u s d Hxb Hu Hs Hd) as (ub & sb & db & Hub & Hdb & G1 & G2 & G3).
    unfold merge_entry. rewrite G1, G2. simpl. rewrite G3. simpl.
    eexists. split; [|done].
    destruct (be_distill e); unfold cat; simpl;
      rewrite ?lookup_zip_with, ?list_lookup_fmap, ?Hub, ?Hdb; simpl; try done.
    by rewrite <- !app_assoc.
Qed.
End BipartiteFacts.

(** ** Token counts and the identity pair *)

Section TokenCount.
Context {M V : Type} `{MetricOps M} `{ValueOps V}.

Lemma length_counts n idx : length (counts n idx) = n.
Proof.
  unfold counts. revert n. 
  assert (∀ acc : list nat, length (foldl (λ acc i, alter S i acc) acc idx) = length acc) as Hg.
  { induction idx as [|i idx IH]; intros acc; simpl; [done|].
    by rewrite IH, length_alter. }
  intros n. by rewrite Hg, length_replicate.
Qed.

Lemma scatter_reduce_rows_length mode (dst : mat V) idx src out :
  scatter_reduce_rows mode dst idx src = Some out → length out = length dst.
Proof.
  unfold scatter_reduce_rows.
  destruct (scatter_rows _ dst idx src) as [o|] eqn:Ho; [|done]. simpl.
  apply scatter_rows_Some_length in Ho.
  intros [= <-]. destruct mode; try done.
  rewrite length_zip_with, length_counts. lia.
Qed.

Lemma merge_entry_length distill u s d (xb yb : mat V) mode :
  merge_entry distill u s d xb mode = Some yb →
  length yb = length u + length (odds xb).
Proof.
  unfold merge_entry. intros Hm.
  destruct (gather_rows (evens xb) u) as [unm|] eqn:Hu; [|done]. simpl in Hm.
  destruct (gather_rows (evens xb) s) as [src|] eqn:Hs; [|done]. simpl in Hm.
  destruct (scatter_reduce_rows mode (odds xb) d src) as [dst|] eqn:Hd; [|done].
  simpl in Hm. injection Hm as <-.
  apply gather_rows_lookup in Hu as [Hlu _].
  apply scatter_reduce_rows_length in Hd.
  destruct distill; rewrite !length_app, ?length_take, ?length_drop; lia.
Qed.

Lemma bipartite_void (metric : tensor M) (r : Z) (ct dt : bool) :
  (clamp (shape1 metric) r ct dt ≤ 0)%Z →
  bipartite_soft_matching (V:=V) metric r ct dt = Some identity_pair.
Proof.
  intros Hr. unfold bipartite_soft_matching.
  fold (clamp (shape1 metric) r ct dt).
  by destruct (Z.leb_spec (clamp (shape1 metric) r ct dt) 0) as [_|?]; [|lia].
Qed.

Lemma random_void (metric : tensor M) (r : Z) (rand : mat M) :
  (r ≤ 0)%Z → random_bipartite_soft_matching (V:=V) metric r rand = Some identity_pair.
Proof.
  intros Hr. unfold random_bipartite_soft_matching.
  by destruct (Z.leb_spec r 0) as [_|?]; [|lia].
Qed.

Lemma kth_void (metric : tensor M) (k : Z) :
  (k ≤ 1)%Z → kth_bipartite_soft_matching (V:=V) metric k = Some identity_pair.
Proof.
  intros Hk. unfold kth_bipartite_soft_matching.
  by destruct (Z.leb_spec k 1) as [_|?]; [|lia].
Qed.

Lemma bipartite_merge_shaped e B N (x : tensor V) mode :
  env_ok e B N → 0 < B → shaped B N x →
  ∃ y, bipartite_merge e x mode = Some y ∧ shaped B (N - Z.to_nat (be_r e)) y.
Proof.
  intros Hok HB Hx.
  destruct (bipartite_merge_entries e B N x mode Hok HB Hx) as (y & Hy & Hly & Hp).
  exists y. split; [done|]. split; [done|].
  apply Forall_lookup. intros b yb Hyb.
  assert (b < B) as Hb by (apply lookup_lt_Some in Hyb; lia).
  destruct (env_lookup e B N b Hok Hb) as (u & s & d & Hu & Hs & Hd).
  destruct (lookup_lt_is_Some_2 x b) as [xb Hxb]; [destruct Hx; lia|].
  destruct (Hp b xb u s d Hxb Hu Hs Hd) as (yb' & Hyb' & Hme).
  assert (yb' = yb) as -> by congruence.
  apply merge_entry_length in Hme. rewrite Hme.
  destruct (env_entry_lengths e B N b u s d Hok Hu Hs Hd) as (Hlu & _ & _ & Hle & _).
  rewrite Hlu, length_odds, (shaped_lookup B N x b xb Hx Hxb). dlia.
Qed.

(** Claim C8.  A void reduction (the clamped [r] is not positive for the
    bipartite strategy, [r ≤ 0] for the random one, [k ≤ 1] for the
    k-th one) makes the constructor return, without raising, a pair
    whose two functions return their argument for every tensor and
    every mode. *)
Theorem void_reduction_is_identity :
  (∀ (metric : tensor M) (r : Z) (ct dt : bool),
      (clamp (shape1 metric) r ct dt ≤ 0)%Z →
      ∃ merge unmerge,
        bipartite_soft_matching (V:=V) metric r ct dt = Some (merge, unmerge) ∧
        ∀ x mode, merge x mode = Some x ∧ unmerge x = Some x) ∧
  (∀ (metric : tensor M) (r : Z) (rand : mat M),
      (r ≤ 0)%Z →
      ∃ merge unmerge,
        random_bipartite_soft_matching (V:=V) metric r rand = Some (merge, unmerge) ∧
        ∀ x mode, merge x mode = Some x ∧ unmerge x = Some x) ∧
  (∀ (metric : tensor M) (k : Z),
      (k ≤ 1)%Z →
      ∃ merge unmerge,
        kth_bipartite_soft_matching (V:=V) metric k = Some (merge, unmerge) ∧
        ∀ x mode, merge x mode = Some x ∧ unmerge x = Some x).
Proof.
  split; [|split].
  - intros metric r ct dt Hr. eexists _, _.
    split; [by apply bipartite_void|]. done.
  - intros metric r rand Hr. eexists _, _.
    split; [by apply random_void|]. done.
  - intros metric k Hk. eexists _, _.
    split; [by apply kth_void|]. done.
Qed.

(** Claim C2, amended.  For [r] in [[0, N/2]] and any flags, the merge
    that [bipartite_soft_matching] returns maps an [N]-token tensor to
    one with [N − min(r, ⌊(N − protected)/2⌋)] tokens (a negative
    clamp counting as zero); for [r = 0] merge and unmerge are the
    identity. *)
Theorem bipartite_merge_token_count (metric : tensor M) (r : Z) (ct dt : bool) B N :
  0 < B → shaped B N metric → (0 ≤ r ≤ Z.of_nat N `div` 2)%Z →
  ∃ merge unmerge,
    bipartite_soft_matching (V:=V) metric r ct dt = Some (merge, unmerge) ∧
    (∀ x mode, shaped B N x →
       ∃ y, merge x mode = Some y ∧
            shaped B (N - Z.to_nat (clamp N r ct dt)) y) ∧
    (r = 0%Z → ∀ x mode, merge x mode = Some x ∧ unmerge x = Some x).
Proof.
  intros HB Hm Hr.
  destruct (Z.le_gt_cases (clamp N r ct dt) 0) as [Hc|Hc].
  - eexists _, _. split.
    { apply bipartite_void. by rewrite (shaped_shape1 B N metric HB Hm). }
    split; [|done]. intros x mode Hx. exists x. split; [done|].
    by replace (Z.to_nat (clamp N r ct dt)) with 0 by lia; rewrite Nat.sub_0_r.
  - destruct (bipartite_soft_matching_ok (V:=V) metric r ct dt B N HB Hm Hc)
      as (e & Hbs & Hok & Hre & Hdt).
    eexists _, _. split; [done|]. split.
    + intros x mode Hx. rewrite <- Hre. by apply bipartite_merge_shaped.
    + intros ->. exfalso. unfold clamp in Hc. lia.
Qed.
End TokenCount.

(** Claim C2 as stated fails: with a class token, [N = 2] and [r = 1]
    (which is [N/2]) the clamp gives 0 and the output keeps 2 rows, not
    [N − r = 1]. *)
Lemma bipartite_token_count_counterexample :
  let metric := [[[1]; [1]]]%float in
  ∃ merge unmerge y,
    bipartite_soft_matching (V:=float) metric 1 true false = Some (merge, unmerge) ∧
    merge metric Mean = Some y ∧ shape1 y = 2 ∧ shape1 y ≠ 2 - 1.
Proof.
  eexists _, _, _. split; [reflexivity|]. split; [reflexivity|]. split; [reflexivity|].
  simpl. lia.
Qed.

(** ** [unmerge] of the bipartite strategy *)

Section Overwrite.
Context {A : Type}.

Lemma set_odds_spec (out dst : list A) :
  length dst = length out `div` 2 →
  ∃ o, set_odds out dst = Some o ∧ length o = length out ∧
       ∀ p, p < length out →
            o !! p = if Nat.odd p then dst !! (p `div` 2) else out !! p.
Proof.
  intros Hl. unfold set_odds. rewrite length_odds, <- Hl, expand_dim_same.
  cbn [mbind option_bind].
  eexists. split; [done|]. split; [by rewrite length_imap|].
  intros p Hp. rewrite list_lookup_imap.
  destruct (lookup_lt_is_Some_2 out p Hp) as [a Ha]. rewrite Ha.
  cbn [fmap option_fmap option_map].
  destruct (Nat.odd p) eqn:Hodd; [|done].
  destruct (lookup_lt_is_Some_2 dst (p `div` 2)) as [v Hv].
  { rewrite Hl. apply odd_half in Hodd. dlia. }
  by rewrite Hv.
Qed.

Lemma sent_to_not_in j idx (src : list A) : j ∉ idx → sent_to j idx src = [].
Proof.
  revert src. induction idx as [|i idx IH]; intros src Hj; [done|].
  destruct src as [|s src]; [by unfold sent_to; rewrite zip_with_nil_r|].
  rewrite sent_to_cons. apply not_elem_of_cons in Hj as [Hne Hj].
  destruct (decide (i = j)); [congruence|]. by apply IH.
Qed.

Lemma sent_to_unique j idx (src : list A) q v :
  NoDup idx → idx !! q = Some j → src !! q = Some v → sent_to j idx src = [v].
Proof.
  revert src q. induction idx as [|i idx IH]; intros src q Hnd Hq Hv; [done|].
  destruct src as [|s src]; [done|]. rewrite sent_to_cons.
  apply NoDup_cons in Hnd as [Hni Hnd]. destruct q as [|q]; simpl in *.
  - injection Hq as ->. injection Hv as ->. rewrite decide_True by done.
    by rewrite sent_to_not_in.
  - destruct (decide (i = j)) as [->|_].
    + exfalso. apply Hni. by eapply list_elem_of_lookup_2.
    + by eapply IH.
Qed.

(** [scatter_] with distinct indices: the rows named are overwritten,
    the others are kept. *)
Lemma scatter_overwrite (out : list A) (idx : list nat) (src : list A) :
  length idx ≤ length src → Forall (λ i, i < length out) idx → NoDup idx →
  ∃ o, scatter_rows (λ _ s, s) out idx src = Some o ∧ length o = length out ∧
       (∀ q i, idx !! q = Some i → o !! i = src !! q) ∧
       (∀ p, p ∉ idx → o !! p = out !! p).
Proof.
  intros Hl HF Hnd.
  destruct (scatter_rows_spec (λ _ s : A, s) idx out src Hl HF) as (o & Ho & Hlo & Hsp).
  exists o. split; [done|]. split; [done|]. split.
  - intros q i Hq.
    destruct (lookup_lt_is_Some_2 src q) as [v Hv].
    { apply lookup_lt_Some in Hq. lia. }
    destruct (lookup_lt_is_Some_2 out i) as [d Hd].
    { by eapply (Forall_lookup_1 _ _ _ _ HF). }
    rewrite (Hsp i d Hd), (sent_to_unique i idx src q v) by done. by rewrite Hv.
  - intros p Hp. destruct (out !! p) as [d|] eqn:Hd.
    + rewrite (Hsp p d Hd), sent_to_not_in by done. done.
    + apply lookup_ge_None. rewrite Hlo. by apply lookup_ge_None.
Qed.
End Overwrite.

Section Unmerge.
Context {V : Type} `{ValueOps V}.

Lemma NoDup_double (l : list nat) : NoDup l → NoDup ((λ i, 2 * i) <$> l).
Proof. apply NoDup_fmap_2. intros i j. lia. Qed.

Lemma elem_of_double (l : list nat) p :
  p ∈ (λ i, 2 * i) <$> l ↔ ∃ i, p = 2 * i ∧ i ∈ l.
Proof. apply list_elem_of_fmap. Qed.

Lemma unmerge_entry_spec (u s d : list nat) (init xb : mat V) N :
  u ++ s ≡ₚ seq 0 ((N + 1) `div` 2) →
  length d = length s → Forall (λ j, j < N `div` 2) d →
  length init = N → length xb = N - length s →
  ∃ yb, unmerge_entry u s d init xb = Some yb ∧ length yb = N ∧
    (∀ j, j < N `div` 2 → yb !! (2 * j + 1) = xb !! (length u + j)) ∧
    (∀ q i, u !! q = Some i → yb !! (2 * i) = xb !! q) ∧
    (∀ k i j, s !! k = Some i → d !! k = Some j →
              yb !! (2 * i) = xb !! (length u + j)).
Proof.
  intros Hp Hld Hd Hli Hlx.
  pose proof (Permutation_length Hp) as Hlen. rewrite length_app, length_seq in Hlen.
  assert (NoDup (u ++ s)) as Hnd by (rewrite Hp; apply NoDup_seq).
  apply NoDup_app in Hnd as (Hndu & Hdisj & Hnds).
  pose proof (perm_seq_bound _ _ Hp) as Hb. apply Forall_app in Hb as [Hbu Hbs].
  unfold unmerge_entry.
  set (unm := take (length u) xb). set (dst := drop (length u) xb).
  assert (length unm = length u) as Hlunm by (unfold unm; rewrite length_take; dlia).
  assert (length dst = N `div` 2) as Hldst by (unfold dst; rewrite length_drop; dlia).
  destruct (gather_rows_total dst d) as [src Hsrc]; [by rewrite Hldst|].
  rewrite Hsrc. cbn [mbind option_bind]. apply gather_rows_lookup in Hsrc as [Hlsrc Hsrc].
  destruct (set_odds_spec init dst) as (o1 & Ho1 & Hlo1 & Hso1); [by rewrite Hli|].
  rewrite Ho1. cbn [mbind option_bind].
  destruct (scatter_overwrite o1 ((λ i, 2 * i) <$> u) unm) as (o2 & Ho2 & Hlo2 & Hw2 & Hk2).
  { rewrite length_fmap. lia. }
  { apply Forall_fmap. eapply Forall_impl; [done|]. intros i Hi.
    unfold compose. cbv beta in *. dlia. }
  { by apply NoDup_double. }
  rewrite Ho2. cbn [mbind option_bind].
  destruct (scatter_overwrite o2 ((λ i, 2 * i) <$> s) src) as (o3 & Ho3 & Hlo3 & Hw3 & Hk3).
  { rewrite length_fmap. lia. }
  { apply Forall_fmap. eapply Forall_impl; [done|]. intros i Hi.
    unfold compose. cbv beta in *. dlia. }
  { by apply NoDup_double. }
  exists o3. split; [done|]. split; [lia|]. split; [|split].
  - intros j Hj. rewrite Hk3, Hk2.
    + rewrite Hso1 by dlia. replace (Nat.odd (2 * j + 1)) with true.
      * replace ((2 * j + 1) `div` 2) with j by dlia. unfold dst. by rewrite lookup_drop.
      * symmetry. apply Nat.odd_spec. by exists j.
    + intros (i & ? & _)%elem_of_double. lia.
    + intros (i & ? & _)%elem_of_double. lia.
  - intros q i Hq. rewrite Hk3.
    + rewrite (Hw2 q (2 * i)) by (by rewrite list_lookup_fmap, Hq).
      unfold unm. apply lookup_take_lt. by eapply lookup_lt_Some.
    + intros (i' & ? & Hi')%elem_of_double. assert (i' = i) as -> by lia.
      eapply Hdisj; [|done]. by eapply list_elem_of_lookup_2.
  - intros k i j Hk Hj. rewrite (Hw3 k (2 * i)) by (by rewrite list_lookup_fmap, Hk).
    destruct (Hsrc k j Hj) as (row & -> & Hrow). unfold dst in Hrow.
    by rewrite lookup_drop in Hrow.
Qed.
End Unmerge.

Section UnmergeBatch.
Context {V : Type} `{ValueOps V}.

Lemma env_shaped e B N :
  env_ok e B N →
  shaped B ((N + 1) `div` 2 - Z.to_nat (be_r e)) (unm_idx e) ∧
  shaped B (Z.to_nat (be_r e)) (src_idx e) ∧
  shaped B (Z.to_nat (be_r e)) (dst_idx e).
Proof.
  intros Hok. repeat split;
    [apply (ok_unm _ _ _ Hok)| |apply (ok_src _ _ _ Hok)| |apply (ok_dst _ _ _ Hok)|];
    apply Forall_lookup; intros b l Hl.
  - destruct (env_lookup e B N b Hok) as (u & s & d & Hu & Hs & Hd).
    { apply lookup_lt_Some in Hl. by rewrite (ok_unm _ _ _ Hok) in Hl. }
    assert (u = l) as -> by congruence.
    by destruct (env_entry_lengths e B N b l s d Hok Hu Hs Hd) as (? & _).
  - destruct (env_lookup e B N b Hok) as (u & s & d & Hu & Hs & Hd).
    { apply lookup_lt_Some in Hl. by rewrite (ok_src _ _ _ Hok) in Hl. }
    assert (s = l) as -> by congruence.
    by destruct (env_entry_lengths e B N b u l d Hok Hu Hs Hd) as (_ & ? & _).
  - destruct (env_lookup e B N b Hok) as (u & s & d & Hu & Hs & Hd).
    { apply lookup_lt_Some in Hl. by rewrite (ok_dst _ _ _ Hok) in Hl. }
    assert (d = l) as -> by congruence.
    by destruct (env_entry_lengths e B N b u s l Hok Hu Hs Hd) as (_ & _ & ? & _).
Qed.

Lemma bipartite_unmerge_entries e B N (init x : tensor V) :
  env_ok e B N → 0 < B →
  shaped B (N - Z.to_nat (be_r e)) x → shaped B N init →
  ∃ y, bipartite_unmerge_from init e x = Some y ∧ length y = B ∧
       ∀ b xb ib u s d,
         x !! b = Some xb → init !! b = Some ib → unm_idx e !! b = Some u →
         src_idx e !! b = Some s → dst_idx e !! b = Some d →
         ∃ yb, y !! b = Some yb ∧ unmerge_entry u s d ib xb = Some yb.
Proof.
  intros Hok HB Hx Hinit.
  destruct (env_shaped e B N Hok) as (Hsu & Hss & Hsd).
  set (rn := Z.to_nat (be_r e)) in *. set (NA := (N + 1) `div` 2) in *.
  pose proof (ok_r _ _ _ Hok) as Hrpos.
  assert (be_r e = Z.of_nat rn) as Hre by lia.
  assert (rn ≤ NA) as Hrn.
  { destruct (env_lookup e B N 0 Hok HB) as (u & s & d & Hu & Hs & Hd).
    by destruct (env_entry_lengths e B N 0 u s d Hok Hu Hs Hd) as (_ & _ & _ & ? & _). }
  assert (∀ b xb ib u s d,
    x !! b = Some xb → init !! b = Some ib → unm_idx e !! b = Some u →
    src_idx e !! b = Some s → dst_idx e !! b = Some d →
    length u = NA - rn ∧ length xb = N - rn ∧ length ib = N ∧
    Forall (λ j, j < N `div` 2) d ∧
    is_Some (unmerge_entry u s d ib xb)) as Hent.
  { intros b xb ib u s d Hxb Hib Hu Hs Hd.
    destruct (ok_entry _ _ _ Hok b u s d Hu Hs Hd) as (Hp & Hls & Hld & HF).
    pose proof (shaped_lookup _ _ _ _ _ Hx Hxb) as Hlx.
    pose proof (shaped_lookup _ _ _ _ _ Hinit Hib) as Hli.
    pose proof (shaped_lookup _ _ _ _ _ Hsu Hu) as Hlu.
    split; [done|]. split; [done|]. split; [done|]. split; [done|].
    destruct (unmerge_entry_spec u s d ib xb N) as (yb & -> & _); try done; lia. }
  unfold bipartite_unmerge_from.
  rewrite (shaped_shape1 B _ _ HB Hsu). unfold shape0. rewrite length_fmap.
  destruct Hx as [Hlx HFx]. destruct Hinit as [Hli HFi]. rewrite Hlx, Hre.
  rewrite (expand_same (dst_idx e) B rn) by apply Hsd.
  cbn [mbind option_bind].
  assert (∀ b, b < B → ∃ xb ib u s d,
    x !! b = Some xb ∧ init !! b = Some ib ∧ unm_idx e !! b = Some u ∧
    src_idx e !! b = Some s ∧ dst_idx e !! b = Some d) as Hex.
  { intros b Hb. destruct (env_lookup e B N b Hok Hb) as (u & s & d & Hu & Hs & Hd).
    destruct (lookup_lt_is_Some_2 x b) as [xb Hxb]; [lia|].
    destruct (lookup_lt_is_Some_2 init b) as [ib Hib]; [lia|].
    eauto 12. }
  (* gather *)
  destruct (gather_batch (drop (NA - rn) <$> x) (dst_idx e)) as (src & Hg & Hlsrc & Hpsrc).
  { rewrite length_fmap. destruct Hsd. lia. }
  { intros b m d. rewrite list_lookup_fmap. intros Hm Hd.
    destruct (x !! b) as [xb|] eqn:Hxb; [|done]. injection Hm as <-.
    destruct (Hex b) as (xb' & ib & u & s & d' & ? & Hib & Hu & Hs & ?).
    { apply lookup_lt_Some in Hxb. lia. }
    simplify_eq.
    destruct (Hent b xb ib u s d) as (Hlu & Hlxb & _ & HF & _); try done.
    rewrite length_drop, Hlxb. eapply Forall_impl; [done|].
    intros j Hj. cbv beta in *. unfold NA. dlia. }
  rewrite Hg. cbn [mbind option_bind].
  (* odd rows *)
  destruct (mapM_zip_pointwise set_odds init (drop (NA - rn) <$> x))
    as (o1 & Ho1 & Hlo1 & Hpo1).
  { rewrite length_fmap. lia. }
  { intros b ib m Hib. rewrite list_lookup_fmap. intros Hm.
    destruct (x !! b) as [xb|] eqn:Hxb; [|done]. injection Hm as <-.
    destruct (Hex b) as (xb' & ib' & u & s & d & ? & ? & Hu & Hs & Hd).
    { apply lookup_lt_Some in Hxb. lia. }
    simplify_eq.
    destruct (Hent b xb ib u s d) as (Hlu & Hlxb & Hlib & _ & [yb Hyb]); try done.
    unfold unmerge_entry in Hyb. rewrite Hlu in Hyb.
    destruct (gather_rows _ d); [|done]. cbn [mbind option_bind] in Hyb.
    destruct (set_odds ib _); [eauto|done]. }
  rewrite Ho1. cbn [mbind option_bind].
  rewrite (expand_same _ B (NA - rn)).
  2: { rewrite length_fmap. apply Hsu. }
  2: { apply Forall_fmap. destruct Hsu as [_ HF]. eapply Forall_impl; [done|].
       intros l Hl. simpl. by rewrite length_fmap. }
  cbn [mbind option_bind].
  assert (∀ b xb ib u s d,
    x !! b = Some xb → init !! b = Some ib → unm_idx e !! b = Some u →
    src_idx e !! b = Some s → dst_idx e !! b = Some d →
    ∃ sb ob, src !! b = Some sb ∧ o1 !! b = Some ob ∧
      gather_rows (drop (length u) xb) d = Some sb ∧
      set_odds ib (drop (length u) xb) = Some ob) as Hst1.
  { intros b xb ib u s d Hxb Hib Hu Hs Hd.
    destruct (Hent b xb ib u s d) as (Hlu & _); try done. rewrite Hlu.
    destruct (Hpsrc b (drop (NA - rn) xb) d) as (sb & Hsb & Hgsb);
      [by rewrite list_lookup_fmap, Hxb|done|].
    destruct (Hpo1 b ib (drop (NA - rn) xb)) as (ob & Hob & Hgob);
      [done|by rewrite list_lookup_fmap, Hxb|].
    eauto 10. }
  (* the unmerged rows *)
  destruct (scatter_batches_pointwise (scatter_rows (λ _ s : list V, s))
    o1 (fmap (M:=list) (λ i, 2 * i) <$> unm_idx e) (take (NA - rn) <$> x))
    as (o2 & Ho2 & Hlo2 & Hpo2).
  { rewrite length_fmap. destruct Hsu. lia. }
  { rewrite length_fmap. lia. }
  { intros b ob iu m Hob. rewrite !list_lookup_fmap. intros Hiu Hm.
    destruct (x !! b) as [xb|] eqn:Hxb; [|done]. injection Hm as <-.
    destruct (Hex b) as (xb' & ib & u & s & d & ? & Hib & Hu & Hs & Hd).
    { apply lookup_lt_Some in Hxb. lia. }
    simplify_eq. rewrite Hu in Hiu. injection Hiu as <-.
    destruct (Hent b xb ib u s d) as (Hlu & Hlxb & Hlib & _ & [yb Hyb]); try done.
    destruct (Hst1 b xb ib u s d) as (sb & ob' & Hsb & Hob' & G1 & G2); try done.
    simplify_eq. unfold unmerge_entry in Hyb. rewrite G1 in Hyb.
    cbn [mbind option_bind] in Hyb. rewrite G2 in Hyb.
    cbn [mbind option_bind] in Hyb. rewrite Hlu in Hyb.
    destruct (scatter_rows _ ob _ _); [eauto|done]. }
  unfold scatter_. rewrite Ho2. cbn [mbind option_bind].
  rewrite (expand_same _ B rn).
  2: { rewrite length_fmap. apply Hss. }
  2: { apply Forall_fmap. destruct Hss as [_ HF]. eapply Forall_impl; [done|].
       intros l Hl. simpl. by rewrite length_fmap. }
  cbn [mbind option_bind].
  destruct (scatter_batches_pointwise (scatter_rows (λ _ s : list V, s))
    o2 (fmap (M:=list) (λ i, 2 * i) <$> src_idx e) src)
    as (o3 & Ho3 & Hlo3 & Hpo3).
  { rewrite length_fmap. destruct Hss. lia. }
  { rewrite Hlsrc, length_fmap. lia. }
  { intros b ob2 i2 sb Hob2. rewrite !list_lookup_fmap. intros His Hsb.
    destruct (Hex b) as (xb & ib & u & s & d & Hxb & Hib & Hu & Hs & Hd).
    { apply lookup_lt_Some in Hsb. rewrite Hlsrc, length_fmap in Hsb. lia. }
    rewrite Hs in His. injection His as <-.
    destruct (Hent b xb ib u s d) as (Hlu & Hlxb & Hlib & _ & [yb Hyb]); try done.
    destruct (Hst1 b xb ib u s d) as (sb' & ob & Hsb' & Hob & G1 & G2); try done.
    simplify_eq.
    destruct (Hpo2 b ob ((λ i, 2 * i) <$> u) (take (NA - rn) xb)) as (ob2' & Hob2' & G3);
      [done|by rewrite list_lookup_fmap, Hu|by rewrite list_lookup_fmap, Hxb|].
    simplify_eq. unfold unmerge_entry in Hyb. rewrite G1 in Hyb.
    cbn [mbind option_bind] in Hyb. rewrite G2 in Hyb.
    cbn [mbind option_bind] in Hyb. rewrite Hlu, G3 in Hyb.
    cbn [mbind option_bind] in Hyb. exists yb. exact Hyb. }
  exists o3. split; [done|]. split; [lia|].
  intros b xb ib u s d Hxb Hib Hu Hs Hd.
  destruct (Hent b xb ib u s d) as (Hlu & Hlxb & Hlib & _ & _); try done.
  destruct (Hst1 b xb ib u s d) as (sb & ob & Hsb & Hob & G1 & G2); try done.
  destruct (Hpo2 b ob ((λ i, 2 * i) <$> u) (take (NA - rn) xb)) as (ob2 & Hob2 & G3);
    [done|by rewrite list_lookup_fmap, Hu|by rewrite list_lookup_fmap, Hxb|].
  destruct (Hpo3 b ob2 ((λ i, 2 * i) <$> s) sb) as (ob3 & Hob3 & G4);
    [done|by rewrite list_lookup_fmap, Hs|done|].
  exists ob3. split; [done|]. unfold unmerge_entry. rewrite G1.
  cbn [mbind option_bind]. rewrite G2. cbn [mbind option_bind].
  rewrite Hlu, G3. cbn [mbind option_bind]. done.
Qed.
End UnmergeBatch.

Section Coverage.
Context {M V : Type} `{MetricOps M} `{ValueOps V}.

Lemma written_rows_perm (u s : list nat) N :
  u ++ s ≡ₚ seq 0 ((N + 1) `div` 2) →
  ((λ j, 2 * j + 1) <$> seq 0 (N `div` 2)) ++
    ((λ i, 2 * i) <$> u) ++ ((λ i, 2 * i) <$> s) ≡ₚ seq 0 N.
Proof.
  intros Hp. rewrite <- fmap_app, Hp.
  apply NoDup_Permutation.
  - apply NoDup_app. split; [|split].
    + apply NoDup_fmap_2; [intros i j; lia|apply NoDup_seq].
    + intros p (j & -> & _)%list_elem_of_fmap (i & ? & _)%list_elem_of_fmap. lia.
    + apply NoDup_fmap_2; [intros i j; lia|apply NoDup_seq].
  - apply NoDup_seq.
  - intros p. rewrite elem_of_app, !list_elem_of_fmap, elem_of_seq. split.
    + intros [(j & -> & Hj)|(i & -> & Hi)]; apply elem_of_seq in Hj || apply elem_of_seq in Hi; dlia.
    + intros [_ Hp']. destruct (Nat.odd p) eqn:Ho.
      * left. exists (p `div` 2). split; [by apply odd_half|].
        apply elem_of_seq. apply odd_half in Ho. dlia.
      * right. exists (p `div` 2). split; [by apply even_half|].
        apply elem_of_seq. apply even_half in Ho. dlia.
Qed.

Lemma unmerge_entry_buffer (u s d : list nat) (init init' xb : mat V) N :
  u ++ s ≡ₚ seq 0 ((N + 1) `div` 2) →
  length d = length s → Forall (λ j, j < N `div` 2) d →
  length init = N → length init' = N → length xb = N - length s →
  unmerge_entry u s d init xb = unmerge_entry u s d init' xb.
Proof.
  intros Hp Hld Hd Hi Hi' Hx.
  destruct (unmerge_entry_spec u s d init xb N) as (y & -> & Hly & Ho & Hu & Hs); try done.
  destruct (unmerge_entry_spec u s d init' xb N) as (y' & -> & Hly' & Ho' & Hu' & Hs'); try done.
  f_equal. apply list_eq. intros p.
  destruct (decide (p < N)) as [Hlt|Hge].
  2: { rewrite !(proj2 (lookup_ge_None _ _)); [done|lia..]. }
  destruct (Nat.odd p) eqn:Hodd.
  - apply odd_half in Hodd. rewrite Hodd.
    rewrite Ho, Ho' by dlia. done.
  - apply even_half in Hodd. rewrite Hodd.
    assert (p `div` 2 ∈ u ++ s) as Hin.
    { rewrite Hp. apply elem_of_seq. dlia. }
    apply elem_of_app in Hin as [Hin|Hin]; apply list_elem_of_lookup in Hin as [q Hq].
    + by rewrite (Hu q _ Hq), (Hu' q _ Hq).
    + destruct (lookup_lt_is_Some_2 d q) as [j Hj].
      { rewrite Hld. by eapply lookup_lt_Some. }
      by rewrite (Hs q _ j Hq Hj), (Hs' q _ j Hq Hj).
Qed.

Lemma bipartite_unmerge_zeros e (x : tensor V) :
  bipartite_unmerge e x
  = bipartite_unmerge_from (zeros (shape0 x) (be_t e) (shape2 x)) e x.
Proof.
  unfold bipartite_unmerge, bipartite_unmerge_from, shape0.
  by rewrite length_fmap.
Qed.

Lemma zeros_shaped n t c : shaped n t (zeros (V:=V) n t c).
Proof.
  unfold zeros. split; [by rewrite length_replicate|].
  apply Forall_replicate. by rewrite length_replicate.
Qed.

(** Claim C9.  With a positive clamped [r], [unm_idx] and [src_idx] are
    together a permutation of the ⌈N/2⌉ even-side indices, the rows
    [unmerge] writes (the odd rows, then [2·unm_idx], then
    [2·src_idx]) are a permutation of all [N] rows, and the result is
    the same whatever buffer takes the place of the zeros. *)
Theorem unmerge_writes_every_row (metric : tensor M) (r : Z) (ct dt : bool) B N :
  0 < B → shaped B N metric → (0 < clamp N r ct dt)%Z →
  ∃ e, bipartite_soft_matching (V:=V) metric r ct dt
         = Some (bipartite_merge e, bipartite_unmerge e) ∧
    (∀ b u s, unm_idx e !! b = Some u → src_idx e !! b = Some s →
       u ++ s ≡ₚ seq 0 ((N + 1) `div` 2) ∧
       ((λ j, 2 * j + 1) <$> seq 0 (N `div` 2)) ++
         ((λ i, 2 * i) <$> u) ++ ((λ i, 2 * i) <$> s) ≡ₚ seq 0 N) ∧
    (∀ x buffer,
       shaped B (N - Z.to_nat (clamp N r ct dt)) x → shaped B N buffer →
       ∃ y, bipartite_unmerge e x = Some y ∧ shaped B N y ∧
            bipartite_unmerge_from buffer e x = Some y).
Proof.
  intros HB Hm Hr.
  destruct (bipartite_soft_matching_ok (V:=V) metric r ct dt B N HB Hm Hr)
    as (e & Hbs & Hok & Hre & Hdt).
  exists e. split; [done|]. split.
  - intros b u s Hu Hs.
    destruct (lookup_lt_is_Some_2 (dst_idx e) b) as [d Hd].
    { rewrite (ok_dst _ _ _ Hok), <- (ok_unm _ _ _ Hok). by eapply lookup_lt_Some. }
    destruct (ok_entry _ _ _ Hok b u s d Hu Hs Hd) as (Hp & _).
    split; [done|]. by apply written_rows_perm.
  - intros x buffer Hx Hb. rewrite <- Hre in Hx.
    rewrite bipartite_unmerge_zeros, (ok_t _ _ _ Hok).
    assert (shape0 x = B) as -> by apply Hx.
    destruct (bipartite_unmerge_entries e B N (zeros B N (shape2 x)) x Hok HB Hx)
      as (y & Hy & Hly & Hpy); [apply zeros_shaped|].
    destruct (bipartite_unmerge_entries e B N buffer x Hok HB Hx Hb)
      as (y' & Hy' & Hly' & Hpy').
    exists y. split; [done|].
    assert (∀ b, b < B → ∃ xb zb ib u s d yb,
      x !! b = Some xb ∧ zeros B N (shape2 x) !! b = Some zb ∧ buffer !! b = Some ib ∧
      unm_idx e !! b = Some u ∧ src_idx e !! b = Some s ∧ dst_idx e !! b = Some d ∧
      y !! b = Some yb ∧ y' !! b = Some yb ∧ length yb = N) as Hall.
    { intros b Hlt.
      destruct (env_lookup e B N b Hok Hlt) as (u & s & d & Hu & Hs & Hd).
      destruct (lookup_lt_is_Some_2 x b) as [xb Hxb]; [destruct Hx; lia|].
      destruct (lookup_lt_is_Some_2 buffer b) as [ib Hib]; [destruct Hb; lia|].
      destruct (lookup_lt_is_Some_2 (zeros B N (shape2 x)) b) as [zb Hzb].
      { by rewrite (proj1 (zeros_shaped _ _ _)). }
      destruct (Hpy b xb zb u s d Hxb Hzb Hu Hs Hd) as (yb & Hyb & E1).
      destruct (Hpy' b xb ib u s d Hxb Hib Hu Hs Hd) as (yb' & Hyb' & E2).
      destruct (ok_entry _ _ _ Hok b u s d Hu Hs Hd) as (Hp & Hls & Hld & HF).
      pose proof (shaped_lookup _ _ _ _ _ Hx Hxb) as Hlx.
      pose proof (shaped_lookup _ _ _ _ _ Hb Hib) as Hli.
      pose proof (shaped_lookup _ _ _ _ _ (zeros_shaped _ _ _) Hzb) as Hlz.
      rewrite (unmerge_entry_buffer u s d zb ib xb N) in E1; try done; try lia.
      assert (yb' = yb) as -> by congruence.
      destruct (unmerge_entry_spec u s d ib xb N) as (y0 & E3 & Hl0 & _); try done; try lia.
      assert (y0 = yb) as -> by congruence.
      eauto 20. }
    split.
    + split; [done|]. apply Forall_lookup. intros b yb Hyb.
      destruct (Hall b) as (? & ? & ? & ? & ? & ? & yb' & _ & _ & _ & _ & _ & _ & Hyb' & _ & ?).
      { apply lookup_lt_Some in Hyb. lia. }
      congruence.
    + rewrite Hy'. f_equal. apply list_eq. intros b.
      destruct (decide (b < B)) as [Hlt|Hge].
      * destruct (Hall b Hlt) as (? & ? & ? & ? & ? & ? & yb & _ & _ & _ & _ & _ & _ & -> & -> & _).
        done.
      * rewrite !(proj2 (lookup_ge_None _ _)); [done|lia..].
Qed.
End Coverage.

(** ** The concrete scenario *)

Lemma Qc_div_one (v : Qcanon.Qc) : v_div v (v_of_nat 1) = v.
Proof.
  simpl. unfold Qcanon.Qcdiv.
  change (Qcanon.Qcinv (Qc_of_nat 1)) with (Qcanon.Q2Qc (QArith_base.Qmake 1 1)).
  apply Qcanon.Qcmult_1_r.
Qed.

Lemma metric4_shaped : shaped 1 4 metric4.
Proof. split; [done|]. repeat constructor. Qed.

Section Scenario.
Context {V : Type} `{ValueOps V}.

(** Claim C4.  On the metric [[1,0],[1,0],[0,1],[0,1]] with [r = 1] and
    no protected token, the best matches are B0 for A0 and B1 for A1,
    both with score 1; the tie leaves A0 first, so [src_idx = [0]],
    [dst_idx = [0]], [unm_idx = [1]] (the indices of [env4]); and
    [merge] returns the three rows A1, mean(B0, A0), B1. *)
Theorem tie_scenario :
  argsort_desc [1; 1]%float = [0; 1] ∧
  max_lastdim 2 (similarity (evens <$> normalize metric4) (odds <$> normalize metric4))
    = Some ([[1; 1]]%float, [[0; 1]]) ∧
  bipartite_soft_matching (V:=V) metric4 1 false false
    = Some (bipartite_merge env4, bipartite_unmerge env4) ∧
  ∀ x0 x1 x2 x3 : list V,
    (∀ v, v_div v (v_of_nat 1) = v) →
    bipartite_merge env4 [[x0; x1; x2; x3]] Mean
    = Some [[x2; (λ v, v_div v (v_of_nat 2)) <$> zip_with v_add x1 x0; x3]].
Proof.
  split; [reflexivity|]. split; [reflexivity|]. split; [reflexivity|].
  intros x0 x1 x2 x3 Hdiv. unfold bipartite_merge, scatter_reduce, scatter_batches, scatter_reduce_rows. simpl.
  replace ((λ v, v_div v (v_of_nat 1)) <$> x3) with x3; [done|].
  induction x3 as [|v x3 IH]; [done|]. rewrite fmap_cons, Hdiv. by f_equal.
Qed.
End Scenario.

(** ** The k-th strategy *)

Section Groups.
Context {X : Type}.

Lemma length_groups_of g k (l : list X) : length (groups_of g k l) = g.
Proof. revert l. induction g as [|g IH]; intros l; simpl; [done|]. by rewrite IH. Qed.

Lemma groups_of_full g k (l : list X) :
g * k ≤ length l → Forall (λ grp, length grp = k) (groups_of g k l).
Proof.
revert l. induction g as [|g IH]; intros l Hl; simpl; [done|].
apply Forall_cons. split.
- rewrite length_take. lia.
- apply IH. rewrite length_drop. lia.
Qed.

Lemma groups_of_Forall (P : X → Prop) g k (l : list X) :
Forall P l → Forall (Forall P) (groups_of g k l).
Proof.
revert l. induction g as [|g IH]; intros l Hl; simpl; [done|].
apply Forall_cons. split; [by apply Forall_take|]. by apply IH, Forall_drop.
Qed.

Lemma length_concat_uniform k (ls : list (list X)) :
Forall (λ l, length l = k) ls → length (concat ls) = length ls * k.
Proof.
induction 1 as [|l ls Hl _ IH]; simpl; [done|]. rewrite length_app, IH. lia.
Qed.

Lemma shaped_shape2 B N C (x : tensor X) :
0 < B → 0 < N → shaped B N x → rows_have C x → shape2 x = C.
Proof.
intros HB HN [Hl HF] Hr. destruct x as [|m x]; simpl in *; [lia|].
apply Forall_cons in HF as [Hm _]. apply Forall_cons in Hr as [Hr _].
destruct m as [|row m]; simpl in *; [lia|]. by apply Forall_cons in Hr as [? _].
Qed.
End Groups.

Section Split.
Context {X : Type}.

Lemma split_src_length g kn (m : mat X) :
0 < kn → g * kn ≤ length m → length (split_src g kn m) = g * (kn - 1).
Proof.
intros Hk Hg. unfold split_src.
rewrite (length_concat_uniform (kn - 1)), length_fmap, length_groups_of; [done|].
apply Forall_fmap. eapply Forall_impl.
- apply (groups_of_full g kn). rewrite length_take. lia.
- intros grp Hgrp. unfold compose. cbv beta in *. rewrite length_take. lia.
Qed.

Lemma split_dst_length g kn (m : mat X) :
0 < kn → g * kn ≤ length m → length (split_dst g kn m) = g.
Proof.
intros Hk Hg. unfold split_dst.
rewrite (length_concat_uniform 1), length_fmap, length_groups_of; [lia|].
apply Forall_fmap. eapply Forall_impl.
- apply (groups_of_full g kn). rewrite length_take. lia.
- intros grp Hgrp. unfold compose. cbv beta in *. rewrite length_drop. lia.
Qed.

Lemma split_src_Forall (P : list X → Prop) g kn (m : mat X) :
Forall P m → Forall P (split_src g kn m).
Proof.
intros Hm. unfold split_src. apply Forall_concat, Forall_fmap.
eapply Forall_impl; [apply groups_of_Forall, Forall_take, Hm|].
intros grp Hgrp. by apply Forall_take.
Qed.

Lemma split_dst_Forall (P : list X → Prop) g kn (m : mat X) :
Forall P m → Forall P (split_dst g kn m).
Proof.
intros Hm. unfold split_dst. apply Forall_concat, Forall_fmap.
eapply Forall_impl; [apply groups_of_Forall, Forall_take, Hm|].
intros grp Hgrp. by apply Forall_drop.
Qed.

Lemma kth_split_shaped (k : Z) (x : tensor X) B N C :
0 < B → 0 < C → 0 < N → (2 ≤ k)%Z → shaped B N x → rows_have C x →
kth_split k x = Some (split_src (N `div` Z.to_nat k) (Z.to_nat k) <$> x,
                      split_dst (N `div` Z.to_nat k) (Z.to_nat k) <$> x).
Proof.
intros HB HC HN Hk Hx Hr. unfold kth_split.
rewrite (shaped_shape1 B N x HB Hx), (shaped_shape2 B N C x HB HN Hx Hr).
unfold shape0. destruct Hx as [Hl HF]. rewrite Hl.
destruct (Nat.eqb_spec B 0) as [?|_]; [lia|].
destruct (Nat.eqb_spec C 0) as [?|_]; [lia|]. simpl.
by rewrite <- !list_fmap_compose.
Qed.
End Split.

Section RowInvariants.
Context {A : Type}.

Lemma scatter_rows_Forall (P Q : A → Prop) (f : A → A → A) (idx : list nat) :
(∀ d s, P d → Q s → P (f d s)) →
∀ dst src out, Forall P dst → Forall Q src →
  scatter_rows f dst idx src = Some out → Forall P out.
Proof.
intros Hf. induction idx as [|i idx IH]; intros dst src out Hd Hs; simpl.
- destruct src; by intros [= <-].
- destruct src as [|s src]; [done|]. destruct (dst !! i) as [d|] eqn:Hi; [|done].
  simpl. apply Forall_cons in Hs as [Hs Hss]. apply IH; [|done].
  apply Forall_insert; [done|]. apply Hf; [|done].
  by eapply (Forall_lookup_1 P).
Qed.
End RowInvariants.

Section ReduceInvariants.
Context {V : Type} `{ValueOps V}.

Lemma counts_pos n idx : Forall (λ c, 0 < c) (counts n idx).
Proof.
unfold counts.
assert (∀ acc : list nat, Forall (λ c, 0 < c) acc →
  Forall (λ c, 0 < c) (foldl (λ acc i, alter S i acc) acc idx)) as Hg.
{ induction idx as [|i idx IH]; intros acc Hacc; simpl; [done|].
  apply IH. apply Forall_lookup. intros j c.
  destruct (decide (i = j)) as [->|Hne].
  - rewrite list_lookup_alter_eq. destruct (acc !! j); [|done]. intros [= <-]. lia.
  - rewrite list_lookup_alter_ne by done. intros Hc. by eapply (Forall_lookup_1 _ acc). }
apply Hg, Forall_replicate. lia.
Qed.

Lemma scatter_reduce_rows_Forall mode (R : list V → Prop) dst idx src out :
kept_by mode R → Forall R dst → Forall R src →
scatter_reduce_rows mode dst idx src = Some out → Forall R out.
Proof.
intros [Hop Hdiv] Hd Hs. unfold scatter_reduce_rows.
destruct (scatter_rows _ dst idx src) as [o|] eqn:Ho; [|done]. simpl.
pose proof (scatter_rows_Forall R R _ idx Hop dst src o Hd Hs Ho) as HR.
intros [= <-]. destruct mode; try done.
apply Forall_lookup. intros j row. rewrite lookup_zip_with.
destruct (o !! j) as [r0|] eqn:Hr0; [|done]. simpl.
destruct (counts (length dst) idx !! j) as [c|] eqn:Hc; [|done]. simpl.
intros [= <-]. apply Hdiv; [done| |by eapply (Forall_lookup_1 R)].
by eapply (Forall_lookup_1 _ _ _ _ (counts_pos _ _)).
Qed.

Lemma kept_by_channels mode C : kept_by mode (λ row, length row = C).
Proof.
split.
- intros d s Hd Hs. rewrite length_zip_with. lia.
- intros _ row c _ Hr. by rewrite length_fmap.
Qed.
End ReduceInvariants.

Section Kth.
Context {M V : Type} `{MetricOps M} `{ValueOps V}.

Lemma normalize_rows_have C (metric : tensor M) :
rows_have C metric → rows_have C (normalize metric).
Proof.
intros Hr. unfold rows_have, normalize. apply Forall_fmap.
eapply Forall_impl; [done|]. intros m Hm. simpl. apply Forall_fmap.
eapply Forall_impl; [done|]. intros row Hrow. simpl. by rewrite length_fmap.
Qed.

Lemma argmax_idx_ok (a b : tensor M) B r g :
0 < g → shaped B r a → shaped B g b →
kth_idx_ok B r g (fmap (M:=list) (snd ∘ row_max) <$> similarity a b).
Proof.
intros Hg [Hla HFa] [Hlb HFb]. split; [split|].
- unfold similarity. rewrite length_fmap, length_zip_with. lia.
- apply Forall_lookup. intros i l. rewrite list_lookup_fmap. unfold similarity.
  rewrite lookup_zip_with.
  destruct (a !! i) as [am|] eqn:Ha; [|done]. destruct (b !! i) as [bm|] eqn:Hb; [|done].
  simpl. intros [= <-]. rewrite !length_fmap. exact (Forall_lookup_1 _ _ _ _ HFa Ha).
- apply Forall_lookup. intros i l. rewrite list_lookup_fmap. unfold similarity.
  rewrite lookup_zip_with.
  destruct (a !! i) as [am|] eqn:Ha; [|done]. destruct (b !! i) as [bm|] eqn:Hb; [|done].
  simpl. intros [= <-]. apply Forall_fmap, Forall_fmap, Forall_true. intros u.
  simpl. pose proof (Forall_lookup_1 _ _ _ _ HFb Hb) as Hbm. cbv beta in Hbm.
  pose proof (row_max_bound (dot u <$> bm)) as Hrm. rewrite length_fmap in Hrm. lia.
Qed.

Lemma kth_merge_spec (k : Z) (dst_idx : index) (x : tensor V) mode B N C :
let kn := Z.to_nat k in
let g := N `div` kn in
0 < B → 0 < C → (2 ≤ k ≤ Z.of_nat N)%Z →
kth_idx_ok B (g * (kn - 1)) g dst_idx →
shaped B N x → rows_have C x →
∃ y, kth_merge k (g * (kn - 1)) dst_idx x mode = Some y ∧
     shaped B g y ∧ rows_have C y ∧
     scatter_reduce (split_dst g kn <$> x) dst_idx (split_src g kn <$> x) mode = Some y.
Proof.
intros kn g HB HC Hk [Hsi Hbi] Hx Hr. unfold kth_merge.
rewrite (kth_split_shaped k x B N C) by (done || lia).
cbn [mbind option_bind fst snd]. fold kn. fold g.
unfold shape0. rewrite length_fmap. destruct (Hx) as [Hlx HFx]. rewrite Hlx.
rewrite (expand_same dst_idx B) by apply Hsi.
cbn [mbind option_bind].
assert (g * kn ≤ N) as Hg by (unfold g; dlia).
assert (0 < kn) as Hkn by lia.
unfold scatter_reduce.
destruct (scatter_batches_pointwise (scatter_reduce_rows mode)
  (split_dst g kn <$> x) dst_idx (split_src g kn <$> x)) as (y & Hy & Hly & Hpy).
{ rewrite length_fmap. destruct Hsi. lia. }
{ by rewrite !length_fmap. }
{ intros b o i s. rewrite !list_lookup_fmap.
  destruct (x !! b) as [xb|] eqn:Hxb; [|done]. simpl. intros [= <-] Hi [= <-].
  pose proof (shaped_lookup _ _ _ _ _ Hx Hxb) as Hlxb.
  apply scatter_reduce_rows_total.
  - rewrite split_src_length by lia. by rewrite (shaped_lookup _ _ _ _ _ Hsi Hi).
  - rewrite split_dst_length by lia. by eapply (Forall_lookup_1 _ dst_idx). }
exists y. split; [done|].
assert (∀ b yb, y !! b = Some yb → ∃ xb d, x !! b = Some xb ∧ dst_idx !! b = Some d ∧
  scatter_reduce_rows mode (split_dst g kn xb) d (split_src g kn xb) = Some yb) as Hpt.
{ intros b yb Hyb.
  assert (b < B) as Hb by (apply lookup_lt_Some in Hyb; rewrite Hly, length_fmap in Hyb; lia).
  destruct (lookup_lt_is_Some_2 x b) as [xb Hxb]; [lia|].
  destruct (lookup_lt_is_Some_2 dst_idx b) as [d Hd]; [destruct Hsi; lia|].
  destruct (Hpy b (split_dst g kn xb) d (split_src g kn xb)) as (yb' & Hyb' & E);
    [by rewrite list_lookup_fmap, Hxb|done|by rewrite list_lookup_fmap, Hxb|].
  exists xb, d. split; [done|]. split; [done|]. congruence. }
split; [|split; [|done]].
- split; [by rewrite Hly, length_fmap|]. apply Forall_lookup. intros b yb Hyb.
  destruct (Hpt b yb Hyb) as (xb & d & Hxb & Hd & E).
  apply scatter_reduce_rows_length in E. rewrite E, split_dst_length; [done|lia|].
  by rewrite (shaped_lookup _ _ _ _ _ Hx Hxb).
- apply Forall_lookup. intros b yb Hyb.
  destruct (Hpt b yb Hyb) as (xb & d & Hxb & Hd & E).
  pose proof (Forall_lookup_1 _ _ _ _ Hr Hxb) as Hrb. cbv beta in Hrb.
  eapply (scatter_reduce_rows_Forall mode (λ row, length row = C)); [|..|exact E].
  + apply kept_by_channels.
  + by apply split_dst_Forall.
  + by apply split_src_Forall.
Qed.

Lemma kth_unmerge_spec (k : Z) (dst_idx : index) (y : tensor V) B g C :
let kn := Z.to_nat k in
0 < B → 0 < C → 0 < g → (2 ≤ k)%Z →
kth_idx_ok B (g * (kn - 1)) g dst_idx →
shaped B g y → rows_have C y →
∃ z, kth_unmerge k (g * (kn - 1)) dst_idx y = Some z ∧ shaped B (g * kn) z.
Proof.
intros kn HB HC Hg Hk [Hsi Hbi] Hy Hr. unfold kth_unmerge. fold kn.
unfold shape0. destruct (Hy) as [Hly HFy]. rewrite Hly.
rewrite (expand_same dst_idx B) by apply Hsi.
cbn [mbind option_bind].
destruct (gather_batch y dst_idx) as (src & Hsrc & Hlsrc & Hpsrc).
{ destruct Hsi. lia. }
{ intros b m i Hm Hi. rewrite (shaped_lookup _ _ _ _ _ Hy Hm).
  exact (Forall_lookup_1 _ _ _ _ Hbi Hi). }
rewrite Hsrc. cbn [mbind option_bind].
rewrite (shaped_shape2 B g C y HB Hg Hy Hr), (shaped_shape1 B g y HB Hy).
destruct (Nat.eqb_spec B 0) as [?|_]; [lia|].
destruct (Nat.eqb_spec C 0) as [?|_]; [lia|]. cbn [orb].
assert (0 < kn - 1) as Hkn by lia.
rewrite Nat.div_mul by lia. rewrite Nat.eqb_refl.
eexists. split; [done|]. split.
- rewrite length_zip_with, length_fmap. lia.
- apply Forall_lookup. intros b zb. rewrite lookup_zip_with, list_lookup_fmap.
  destruct (src !! b) as [sb|] eqn:Hsb; [|done].
  destruct (y !! b) as [yb|] eqn:Hyb; [|done]. simpl. intros [= <-].
  destruct (lookup_lt_is_Some_2 dst_idx b) as [d Hd].
  { apply lookup_lt_Some in Hyb. destruct Hsi. lia. }
  destruct (Hpsrc b yb d Hyb Hd) as (sb' & Hsb' & Hg').
  assert (sb' = sb) as -> by congruence.
  apply gather_rows_lookup in Hg' as [Hlsb _].
  rewrite (shaped_lookup _ _ _ _ _ Hsi Hd) in Hlsb.
  rewrite (length_concat_uniform kn).
  + rewrite length_zip_with, length_groups_of, (shaped_lookup _ _ _ _ _ Hy Hyb). lia.
  + apply Forall_lookup. intros j row. rewrite lookup_zip_with.
    destruct (groups_of g (kn - 1) sb !! j) as [grp|] eqn:Hgrp; [|done].
    destruct (yb !! j) as [r0|]; [|done]. simpl. intros [= <-].
    rewrite length_app. simpl.
    pose proof (groups_of_full g (kn - 1) sb ltac:(lia)) as Hfull.
    pose proof (Forall_lookup_1 _ _ _ _ Hfull Hgrp) as Hl. cbv beta in Hl. lia.
Qed.

Lemma split_prefix {X} g kn (x x' : tensor X) :
take (g * kn) <$> x' = take (g * kn) <$> x →
split_src g kn <$> x' = split_src g kn <$> x ∧
split_dst g kn <$> x' = split_dst g kn <$> x.
Proof.
intros Hp. unfold split_src, split_dst.
change (λ m : mat X, concat (take (kn - 1) <$> groups_of g kn (take (g * kn) m)))
  with ((λ t : mat X, concat (take (kn - 1) <$> groups_of g kn t)) ∘ take (g * kn)).
change (λ m : mat X, concat (drop (kn - 1) <$> groups_of g kn (take (g * kn) m)))
  with ((λ t : mat X, concat (drop (kn - 1) <$> groups_of g kn t)) ∘ take (g * kn)).
by rewrite !list_fmap_compose, Hp.
Qed.

Lemma kth_indices_ok (metric : tensor M) (k : Z) B N C :
0 < B → 0 < C → shaped B N metric → rows_have C metric →
(2 ≤ k ≤ Z.of_nat N)%Z →
∃ dst_idx,
  kth_indices metric k = Some (N `div` Z.to_nat k * (Z.to_nat k - 1), dst_idx) ∧
  kth_idx_ok B (N `div` Z.to_nat k * (Z.to_nat k - 1)) (N `div` Z.to_nat k) dst_idx.
Proof.
intros HB HC Hm Hr Hk. unfold kth_indices.
set (kn := Z.to_nat k). set (g := N `div` kn).
assert (0 < g) as Hg by (unfold g, kn; dlia).
assert (g * kn ≤ N) as Hgk by (unfold g; dlia).
assert (0 < N) as HN by lia.
pose proof (normalize_shaped B N metric Hm) as Hn.
pose proof (normalize_rows_have C metric Hr) as Hnr.
rewrite (kth_split_shaped k _ B N C) by (done || lia).
cbn [mbind option_bind fst snd]. fold kn. fold g.
assert (shaped B (g * (kn - 1)) (split_src g kn <$> normalize metric)) as Ha.
{ eapply shaped_fmap; [|done]. intros m Hl. apply split_src_length; lia. }
assert (shaped B g (split_dst g kn <$> normalize metric)) as Hb.
{ eapply shaped_fmap; [|done]. intros m Hl. apply split_dst_length; lia. }
rewrite (shaped_shape1 B _ _ HB Ha), (shaped_shape1 B _ _ HB Hb).
unfold max_lastdim. destruct (Nat.eqb_spec g 0) as [?|_]; [lia|].
cbn [mbind option_bind fst snd].
pose proof (argmax_idx_ok _ _ B _ g Hg Ha Hb) as Hidx.
eexists. split; [done|]. exact Hidx.
Qed.

Lemma kth_bipartite_soft_matching_env (metric : tensor M) (k : Z) B N C :
0 < B → 0 < C → shaped B N metric → rows_have C metric →
(2 ≤ k ≤ Z.of_nat N)%Z →
∃ dst_idx,
  kth_indices metric k = Some (N `div` Z.to_nat k * (Z.to_nat k - 1), dst_idx) ∧
  kth_bipartite_soft_matching (V:=V) metric k
    = Some (kth_merge k (N `div` Z.to_nat k * (Z.to_nat k - 1)) dst_idx,
            kth_unmerge k (N `div` Z.to_nat k * (Z.to_nat k - 1)) dst_idx) ∧
  kth_idx_ok B (N `div` Z.to_nat k * (Z.to_nat k - 1)) (N `div` Z.to_nat k) dst_idx.
Proof.
intros HB HC Hm Hr Hk.
destruct (kth_indices_ok metric k B N C HB HC Hm Hr Hk) as (dst_idx & Hi & Hok).
exists dst_idx. split; [done|]. split; [|done].
unfold kth_bipartite_soft_matching.
destruct (Z.leb_spec k 1) as [?|_]; [lia|]. by rewrite Hi.
Qed.

Lemma kth_bipartite_soft_matching_ok (metric : tensor M) (k : Z) B N C :
0 < B → 0 < C → shaped B N metric → rows_have C metric →
(2 ≤ k ≤ Z.of_nat N)%Z →
∃ dst_idx,
  kth_bipartite_soft_matching (V:=V) metric k
    = Some (kth_merge k (N `div` Z.to_nat k * (Z.to_nat k - 1)) dst_idx,
            kth_unmerge k (N `div` Z.to_nat k * (Z.to_nat k - 1)) dst_idx) ∧
  kth_idx_ok B (N `div` Z.to_nat k * (Z.to_nat k - 1)) (N `div` Z.to_nat k) dst_idx.
Proof.
intros HB HC Hm Hr Hk.
destruct (kth_bipartite_soft_matching_env metric k B N C HB HC Hm Hr Hk)
  as (dst_idx & _ & He). by exists dst_idx.
Qed.

Lemma scatter_reduce_keeps mode (R : list V → Prop) (dst src y : tensor V) idx :
kept_by mode R → Forall (Forall R) dst → Forall (Forall R) src →
scatter_reduce dst idx src mode = Some y → Forall (Forall R) y.
Proof.
intros Hk Hd Hs. unfold scatter_reduce, scatter_batches.
destruct (_ && _); [|done].
destruct (mapM _ (zip (zip dst idx) src)) as [upd|] eqn:Hupd; [|done].
cbn [mbind option_bind].
destruct (mapM _ (drop (length idx) dst)) as [rest|] eqn:Hrest; [|done].
cbn [mbind option_bind]. intros [= <-]. apply Forall_app. split.
- apply mapM_lookup in Hupd as [Hl Hp]. apply Forall_lookup. intros b yb Hyb.
  destruct (lookup_lt_is_Some_2 (zip (zip dst idx) src) b) as [[[o i] s] Hois].
  { rewrite <- Hl. by eapply lookup_lt_Some. }
  destruct (Hp b _ Hois) as (yb' & Hyb' & E). simplify_eq. simpl in E.
  apply lookup_zip_Some in Hois as [[Ho Hi]%lookup_zip_Some Hsb].
  eapply scatter_reduce_rows_Forall; [done| | |exact E].
  + exact (Forall_lookup_1 _ _ _ _ Hd Ho).
  + exact (Forall_lookup_1 _ _ _ _ Hs Hsb).
- apply mapM_lookup in Hrest as [Hl Hp]. apply Forall_lookup. intros b yb Hyb.
  destruct (lookup_lt_is_Some_2 (drop (length idx) dst) b) as [o Ho].
  { rewrite <- Hl. by eapply lookup_lt_Some. }
  destruct (Hp b _ Ho) as (yb' & Hyb' & E). simplify_eq.
  eapply scatter_reduce_rows_Forall; [done| |apply Forall_nil_2|exact E].
  rewrite lookup_drop in Ho. exact (Forall_lookup_1 _ _ _ _ Hd Ho).
Qed.

Lemma kth_sum_merge (metric : tensor M) (k : Z) merge unmerge B N C :
0 < B → 0 < C → shaped B N metric → rows_have C metric →
(2 ≤ k ≤ Z.of_nat N)%Z →
kth_bipartite_soft_matching (V:=V) metric k = Some (merge, unmerge) →
sum_merge B N (N `div` Z.to_nat k) merge.
Proof.
intros HB HC Hm Hr Hk Hks C' x HC' Hx Hxr.
destruct (kth_bipartite_soft_matching_ok metric k B N C HB HC Hm Hr Hk)
  as (dst_idx & Hks' & Hidx).
rewrite Hks' in Hks. injection Hks as <- <-.
destruct (kth_merge_spec k dst_idx x Sum B N C' HB HC' Hk Hidx Hx Hxr)
  as (y & Hy & Hys & Hyr & Hsc).
exists y. split; [done|]. split; [done|].
intros R HR HRx. eapply scatter_reduce_keeps; [done| | |exact Hsc].
- apply Forall_fmap. eapply Forall_impl; [done|]. intros m. apply split_dst_Forall.
- apply Forall_fmap. eapply Forall_impl; [done|]. intros m. apply split_src_Forall.
Qed.

(** Claim C7, amended.  For [2 ≤ k ≤ N], [kth_bipartite_soft_matching]
    returns a pair whose merge maps [N] tokens to [⌊N/k⌋] tokens, gives
    the same output on tensors that agree on the first [⌊N/k⌋·k] tokens
    (the trailing ones reach neither output), and whose unmerge returns
    [⌊N/k⌋·k] tokens. *)
Theorem kth_truncates_to_groups (metric : tensor M) (k : Z) B N C :
0 < B → 0 < C → shaped B N metric → rows_have C metric →
(2 ≤ k ≤ Z.of_nat N)%Z →
∃ merge unmerge,
  kth_bipartite_soft_matching (V:=V) metric k = Some (merge, unmerge) ∧
  ∀ C' (x : tensor V) mode,
    0 < C' → shaped B N x → rows_have C' x →
    ∃ y, merge x mode = Some y ∧ shaped B (N `div` Z.to_nat k) y ∧
      (∀ x', shaped B N x' → rows_have C' x' →
         take (N `div` Z.to_nat k * Z.to_nat k) <$> x'
           = take (N `div` Z.to_nat k * Z.to_nat k) <$> x →
         merge x' mode = Some y) ∧
      ∃ z, unmerge y = Some z ∧ shaped B (N `div` Z.to_nat k * Z.to_nat k) z.
Proof.
intros HB HC Hm Hr Hk.
destruct (kth_bipartite_soft_matching_ok metric k B N C HB HC Hm Hr Hk)
  as (dst_idx & Hks & Hidx).
assert (0 < N `div` Z.to_nat k) as Hg by dlia.
eexists _, _. split; [done|].
intros C' x mode HC' Hx Hxr.
destruct (kth_merge_spec k dst_idx x mode B N C' HB HC' Hk Hidx Hx Hxr)
  as (y & Hy & Hys & Hyr & Hsc).
exists y. split; [done|]. split; [done|]. split.
- intros x' Hx' Hxr' Hpre.
  destruct (kth_merge_spec k dst_idx x' mode B N C' HB HC' Hk Hidx Hx' Hxr')
    as (y' & Hy' & _ & _ & Hsc').
  destruct (split_prefix _ _ x x' Hpre) as [E1 E2].
  transitivity (Some y'); [exact Hy'|].
  rewrite E1, E2 in Hsc'. congruence.
- apply (kth_unmerge_spec k dst_idx y B _ C'); (done || lia).
Qed.
End Kth.

(** Claim C7 as stated fails for [k > N]: no group is complete, the
    maximum is taken over an empty axis and the constructor raises. *)
Lemma kth_more_than_tokens_counterexample :
(2 ≤ 3)%Z ∧ shape1 metric2 = 2 ∧
kth_bipartite_soft_matching (V:=float) metric2 3 = None.
Proof. split; [lia|]. split; reflexivity. Qed.

(** ** The random strategy *)

Section RandomSplit.
Context {X : Type}.

Lemma random_split_spec (B r N : nat) (a_idx b_idx : index) (x : tensor X) :
0 < B → r ≤ N → shaped B r a_idx → shaped B (N - r) b_idx →
(∀ i a b, a_idx !! i = Some a → b_idx !! i = Some b → a ++ b ≡ₚ seq 0 N) →
shaped B N x →
∃ xa xb, random_split B (Z.of_nat r) N a_idx b_idx x = Some (xa, xb) ∧
  shaped B r xa ∧ shaped B (N - r) xb ∧
  ∀ i m a b, x !! i = Some m → a_idx !! i = Some a → b_idx !! i = Some b →
    ∃ ma mb, xa !! i = Some ma ∧ xb !! i = Some mb ∧
             gather_rows m a = Some ma ∧ gather_rows m b = Some mb.
Proof.
intros HB Hr Ha Hb Hp Hx. unfold random_split.
rewrite (expand_same a_idx B r) by apply Ha. cbn [mbind option_bind].
replace (Z.of_nat N - Z.of_nat r)%Z with (Z.of_nat (N - r)) by lia.
assert (∀ i m a b, x !! i = Some m → a_idx !! i = Some a → b_idx !! i = Some b →
          Forall (λ k, k < length m) a ∧ Forall (λ k, k < length m) b) as Hbound.
{ intros i m a b Hm Hai Hbi. rewrite (shaped_lookup _ _ _ _ _ Hx Hm).
  apply Forall_app. apply perm_seq_bound. by eapply Hp. }
assert (∀ i, i < B → is_Some (a_idx !! i) ∧ is_Some (b_idx !! i)) as Hsome.
{ intros i Hi. split; apply lookup_lt_is_Some; [destruct Ha|destruct Hb]; lia. }
destruct (gather_batch x a_idx) as (xa & Hxa & Hlxa & Hpa).
{ destruct Ha, Hx. lia. }
{ intros i m a Hm Hai.
  destruct (Hsome i) as [_ [b Hbi]]; [apply lookup_lt_Some in Hm; destruct Hx; lia|].
  by destruct (Hbound i m a b Hm Hai Hbi). }
rewrite Hxa. cbn [mbind option_bind].
rewrite (expand_same b_idx B (N - r)) by apply Hb. cbn [mbind option_bind].
destruct (gather_batch x b_idx) as (xb & Hxb & Hlxb & Hpb).
{ destruct Hb, Hx. lia. }
{ intros i m b Hm Hbi.
  destruct (Hsome i) as [[a Hai] _]; [apply lookup_lt_Some in Hm; destruct Hx; lia|].
  by destruct (Hbound i m a b Hm Hai Hbi). }
rewrite Hxb. cbn [mbind option_bind].
exists xa, xb. split; [done|].
assert (∀ i m a b, x !! i = Some m → a_idx !! i = Some a → b_idx !! i = Some b →
    ∃ ma mb, xa !! i = Some ma ∧ xb !! i = Some mb ∧
             gather_rows m a = Some ma ∧ gather_rows m b = Some mb) as Hpt.
{ intros i m a b Hm Hai Hbi.
  destruct (Hpa i m a Hm Hai) as (ma & Hma & Hga).
  destruct (Hpb i m b Hm Hbi) as (mb & Hmb & Hgb). eauto 10. }
split; [|split; [|done]].
- split; [destruct Hx; lia|]. apply Forall_lookup. intros i ma Hma.
  assert (i < B) as Hi by (apply lookup_lt_Some in Hma; destruct Hx; lia).
  destruct (Hsome i Hi) as [[a Hai] [b Hbi]].
  destruct (lookup_lt_is_Some_2 x i) as [m Hm]; [destruct Hx; lia|].
  destruct (Hpt i m a b Hm Hai Hbi) as (ma' & mb & Hma' & _ & Hga & _).
  assert (ma' = ma) as -> by congruence.
  apply gather_rows_lookup in Hga as [-> _]. exact (shaped_lookup _ _ _ _ _ Ha Hai).
- split; [destruct Hx; lia|]. apply Forall_lookup. intros i mb Hmb.
  assert (i < B) as Hi by (apply lookup_lt_Some in Hmb; destruct Hx; lia).
  destruct (Hsome i Hi) as [[a Hai] [b Hbi]].
  destruct (lookup_lt_is_Some_2 x i) as [m Hm]; [destruct Hx; lia|].
  destruct (Hpt i m a b Hm Hai Hbi) as (ma & mb' & _ & Hmb' & _ & Hgb).
  assert (mb' = mb) as -> by congruence.
  apply gather_rows_lookup in Hgb as [-> _]. exact (shaped_lookup _ _ _ _ _ Hb Hbi).
Qed.

End RandomSplit.

Section RandomIndices.
Context {M V : Type} `{MetricOps M} `{ValueOps V}.

Lemma random_indices_ok (metric : tensor M) (r : Z) (rand : mat M) B N :
0 < B → shaped B N metric → shaped B N rand → (0 < r < Z.of_nat N)%Z →
∃ a_idx b_idx dst_idx,
  random_indices metric r rand = Some (a_idx, b_idx, dst_idx) ∧
  random_idx_ok B (Z.to_nat r) N a_idx b_idx dst_idx.
Proof.
intros HB Hm Hrand Hr. unfold random_indices.
assert (∃ rn, r = Z.of_nat rn ∧ 0 < rn < N) as (rn & -> & Hrn).
{ exists (Z.to_nat r). lia. }
rewrite Nat2Z.id.
rewrite (shaped_shape1 B N metric HB Hm). unfold shape0.
destruct (Hm) as [Hlm _]. rewrite Hlm.
set (rand_idx := argsort_asc <$> rand).
assert (∀ i l, rand_idx !! i = Some l → l ≡ₚ seq 0 N) as Hperm.
{ intros i l. unfold rand_idx. rewrite list_lookup_fmap.
  destruct (rand !! i) as [keys|] eqn:Hk; [|done]. simpl. intros [= <-].
  unfold argsort_asc. by rewrite argsort_by_perm, (shaped_lookup _ _ _ _ _ Hrand Hk). }
assert (length rand_idx = B) as Hlr.
{ unfold rand_idx. rewrite length_fmap. by destruct Hrand. }
assert (shaped B rn (take rn <$> rand_idx)) as Ha.
{ split; [by rewrite length_fmap|]. apply Forall_lookup. intros i a.
  rewrite list_lookup_fmap. destruct (rand_idx !! i) as [l|] eqn:Hl; [|done].
  simpl. intros [= <-]. rewrite length_take.
  pose proof (Permutation_length (Hperm i l Hl)) as E. rewrite length_seq in E. lia. }
assert (shaped B (N - rn) (drop rn <$> rand_idx)) as Hb.
{ split; [by rewrite length_fmap|]. apply Forall_lookup. intros i a.
  rewrite list_lookup_fmap. destruct (rand_idx !! i) as [l|] eqn:Hl; [|done].
  simpl. intros [= <-]. rewrite length_drop.
  pose proof (Permutation_length (Hperm i l Hl)) as E. rewrite length_seq in E. lia. }
assert (∀ i a b, (take rn <$> rand_idx) !! i = Some a →
          (drop rn <$> rand_idx) !! i = Some b → a ++ b ≡ₚ seq 0 N) as Hp.
{ intros i a b. rewrite !list_lookup_fmap.
  destruct (rand_idx !! i) as [l|] eqn:Hl; [|done]. simpl. intros [= <-] [= <-].
  rewrite take_drop. by eapply Hperm. }
destruct (random_split_spec B rn N _ _ (normalize metric) HB ltac:(lia) Ha Hb Hp
            (normalize_shaped B N metric Hm)) as (xa & xb & -> & Hxa & Hxb & _).
cbn [mbind option_bind fst snd].
rewrite (shaped_shape1 B _ _ HB Hxb).
unfold max_lastdim. destruct (Nat.eqb_spec (N - rn) 0) as [?|_]; [lia|].
cbn [mbind option_bind fst snd].
destruct (argmax_idx_ok xa xb B rn (N - rn) ltac:(lia) Hxa Hxb) as [Hds Hdb].
eexists _, _, _. split; [done|]. unfold random_idx_ok. eauto 10.
Qed.

Lemma random_bipartite_soft_matching_env (metric : tensor M) (r : Z) (rand : mat M) B N :
0 < B → shaped B N metric → shaped B N rand → (0 < r < Z.of_nat N)%Z →
∃ a_idx b_idx dst_idx,
  random_indices metric r rand = Some (a_idx, b_idx, dst_idx) ∧
  random_bipartite_soft_matching (V:=V) metric r rand
    = Some (random_merge B r N a_idx b_idx dst_idx,
            random_unmerge B r N a_idx b_idx dst_idx) ∧
  random_idx_ok B (Z.to_nat r) N a_idx b_idx dst_idx.
Proof.
intros HB Hm Hrand Hr.
destruct (random_indices_ok metric r rand B N HB Hm Hrand Hr)
  as (a & b & d & Hi & Hok).
exists a, b, d. split; [done|]. split; [|done].
unfold random_bipartite_soft_matching.
destruct (Z.leb_spec r 0) as [?|_]; [lia|]. rewrite Hi. cbn [mbind option_bind fst snd].
rewrite (shaped_shape1 B N metric HB Hm). unfold shape0. by destruct Hm as [-> _].
Qed.

End RandomIndices.

Section RandomEntries.
Context {V : Type} `{ValueOps V}.

Lemma random_idx_lookup B rn N a_idx b_idx dst_idx i :
random_idx_ok B rn N a_idx b_idx dst_idx → i < B →
∃ a b d, a_idx !! i = Some a ∧ b_idx !! i = Some b ∧ dst_idx !! i = Some d ∧
  length a = rn ∧ length b = N - rn ∧ length d = rn ∧
  a ++ b ≡ₚ seq 0 N ∧ Forall (λ j, j < N - rn) d.
Proof.
intros (Ha & Hb & Hd & Hp & HF) Hi.
destruct (lookup_lt_is_Some_2 a_idx i) as [a Hai]; [destruct Ha; lia|].
destruct (lookup_lt_is_Some_2 b_idx i) as [b Hbi]; [destruct Hb; lia|].
destruct (lookup_lt_is_Some_2 dst_idx i) as [d Hdi]; [destruct Hd; lia|].
exists a, b, d. split; [done|]. split; [done|]. split; [done|].
split; [exact (shaped_lookup _ _ _ _ _ Ha Hai)|].
split; [exact (shaped_lookup _ _ _ _ _ Hb Hbi)|].
split; [exact (shaped_lookup _ _ _ _ _ Hd Hdi)|].
split; [by eapply Hp|]. exact (Forall_lookup_1 _ _ _ _ HF Hdi).
Qed.

Lemma random_merge_entries B rn N a_idx b_idx dst_idx (x : tensor V) mode :
0 < B → rn ≤ N → random_idx_ok B rn N a_idx b_idx dst_idx → shaped B N x →
∃ y, random_merge B (Z.of_nat rn) N a_idx b_idx dst_idx x mode = Some y ∧
  shaped B (N - rn) y ∧
  ∀ i xb a b d, x !! i = Some xb → a_idx !! i = Some a → b_idx !! i = Some b →
    dst_idx !! i = Some d →
    ∃ yb, y !! i = Some yb ∧ random_merge_entry a b d xb mode = Some yb.
Proof.
intros HB Hrn Hok Hx. pose proof Hok as (Ha & Hb & Hd & Hp & HF).
unfold random_merge.
destruct (random_split_spec B rn N a_idx b_idx x HB Hrn Ha Hb Hp Hx)
  as (xa & xb & -> & Hxa & Hxb & Hpt).
cbn [mbind option_bind fst snd].
rewrite (expand_same dst_idx B rn) by apply Hd. cbn [mbind option_bind].
unfold scatter_reduce.
destruct (scatter_batches_pointwise (scatter_reduce_rows mode) xb dst_idx xa)
  as (y & Hy & Hly & Hpy).
{ destruct Hd, Hxb. lia. } { destruct Hxa, Hxb. lia. }
{ intros i o d s Ho Hdi Hs. apply scatter_reduce_rows_total.
  - rewrite (shaped_lookup _ _ _ _ _ Hd Hdi), (shaped_lookup _ _ _ _ _ Hxa Hs). lia.
  - rewrite (shaped_lookup _ _ _ _ _ Hxb Ho). exact (Forall_lookup_1 _ _ _ _ HF Hdi). }
exists y. split; [done|]. split.
- split; [destruct Hxb; lia|]. apply Forall_lookup. intros i yb Hyb.
  assert (i < B) as Hi by (apply lookup_lt_Some in Hyb; destruct Hxb; lia).
  destruct (lookup_lt_is_Some_2 xb i) as [o Ho]; [destruct Hxb; lia|].
  destruct (lookup_lt_is_Some_2 xa i) as [s Hs]; [destruct Hxa; lia|].
  destruct (lookup_lt_is_Some_2 dst_idx i) as [d Hdi]; [destruct Hd; lia|].
  destruct (Hpy i o d s Ho Hdi Hs) as (yb' & Hyb' & E).
  assert (yb' = yb) as -> by congruence.
  apply scatter_reduce_rows_length in E. rewrite E.
  exact (shaped_lookup _ _ _ _ _ Hxb Ho).
- intros i m a b d Hm Hai Hbi Hdi.
  destruct (Hpt i m a b Hm Hai Hbi) as (ma & mb & Hma & Hmb & Hga & Hgb).
  destruct (Hpy i mb d ma Hmb Hdi Hma) as (yb & Hyb & E).
  exists yb. split; [done|]. unfold random_merge_entry. rewrite Hga, Hgb. done.
Qed.

Lemma random_unmerge_entries B rn N a_idx b_idx dst_idx (y : tensor V) :
0 < B → rn ≤ N → random_idx_ok B rn N a_idx b_idx dst_idx →
shaped B (N - rn) y →
∃ z, random_unmerge B (Z.of_nat rn) N a_idx b_idx dst_idx y = Some z ∧
  shaped B N z ∧
  ∀ i yb a b d, y !! i = Some yb → a_idx !! i = Some a → b_idx !! i = Some b →
    dst_idx !! i = Some d →
    ∃ zb, z !! i = Some zb ∧
      random_unmerge_entry a b d (replicate N (replicate (shape2 y) v_zero)) yb = Some zb.
Proof.
intros HB Hrn Hok Hy. pose proof Hok as (Ha & Hb & Hd & Hp & HF).
unfold random_unmerge.
rewrite (expand_same dst_idx B rn) by apply Hd. cbn [mbind option_bind].
destruct (gather_batch y dst_idx) as (src & Hsrc & Hlsrc & Hpsrc).
{ destruct Hd, Hy. lia. }
{ intros i yb d Hyb Hdi. rewrite (shaped_lookup _ _ _ _ _ Hy Hyb).
  exact (Forall_lookup_1 _ _ _ _ HF Hdi). }
rewrite Hsrc. cbn [mbind option_bind].
rewrite (expand_same a_idx B rn) by apply Ha. cbn [mbind option_bind].
set (C := shape2 y). set (buf := replicate N (replicate C (v_zero (V:=V)))).
assert (∀ i o, zeros (V:=V) B N C !! i = Some o → o = buf) as Hz.
{ intros i o. unfold zeros. by intros [-> _]%lookup_replicate. }
assert (length (zeros (V:=V) B N C) = B) as Hlz by apply length_replicate.
assert (∀ i, i < B → ∃ a b, a_idx !! i = Some a ∧ b_idx !! i = Some b ∧
          length a = rn ∧ length b = N - rn ∧ a ++ b ≡ₚ seq 0 N) as Hab.
{ intros i Hi. destruct (random_idx_lookup B rn N a_idx b_idx dst_idx i Hok Hi)
    as (a & b & d & ? & ? & ? & ? & ? & ? & ? & ?). eauto 10. }
unfold scatter_.
destruct (scatter_batches_pointwise (scatter_rows (λ _ s : list V, s))
            (zeros B N C) a_idx src) as (o1 & Ho1 & Hlo1 & Hpo1).
{ destruct Ha. lia. } { destruct Hy. lia. }
{ intros i o a s Ho Hai Hs. rewrite (Hz i o Ho).
  assert (i < B) as Hi by (apply lookup_lt_Some in Hai; destruct Ha; lia).
  destruct (Hab i Hi) as (a' & b & Hai' & Hbi & Hla & Hlb & Hpab).
  assert (a' = a) as -> by congruence.
  destruct (scatter_rows_spec (λ _ s : list V, s) a buf s) as (out & -> & _); [| |done].
  - destruct (lookup_lt_is_Some_2 y i) as [yb Hyb]; [destruct Hy; lia|].
    destruct (lookup_lt_is_Some_2 dst_idx i) as [d Hdi]; [destruct Hd; lia|].
    destruct (Hpsrc i yb d Hyb Hdi) as (s' & Hs' & Hg).
    assert (s' = s) as -> by congruence.
    apply gather_rows_lookup in Hg as [-> _].
    rewrite (shaped_lookup _ _ _ _ _ Hd Hdi). lia.
  - unfold buf. rewrite length_replicate.
    pose proof (perm_seq_bound _ _ Hpab) as Hbd. by apply Forall_app in Hbd as [? _]. }
rewrite Ho1. cbn [mbind option_bind].
replace (Z.of_nat N - Z.of_nat rn)%Z with (Z.of_nat (N - rn)) by lia.
rewrite (expand_same b_idx B (N - rn)) by apply Hb. cbn [mbind option_bind].
assert (∀ i o, o1 !! i = Some o → length o = N) as Hlo.
{ intros i o Ho.
  assert (i < B) as Hi by (apply lookup_lt_Some in Ho; lia).
  destruct (Hab i Hi) as (a & b & Hai & Hbi & _).
  destruct (lookup_lt_is_Some_2 src i) as [s Hs]; [destruct Hy; lia|].
  destruct (Hpo1 i buf a s) as (o' & Ho' & E); [|done|done|].
  { unfold zeros. rewrite lookup_replicate. split; [done|lia]. }
  assert (o' = o) as -> by congruence.
  apply scatter_rows_Some_length in E. rewrite E. unfold buf. apply length_replicate. }
destruct (scatter_batches_pointwise (scatter_rows (λ _ s : list V, s)) o1 b_idx y)
  as (z & Hzz & Hlzz & Hpz).
{ destruct Hb. lia. } { destruct Hy. lia. }
{ intros i o b s Ho Hbi Hs.
  assert (i < B) as Hi by (apply lookup_lt_Some in Hbi; destruct Hb; lia).
  destruct (Hab i Hi) as (a & b' & Hai & Hbi' & Hla & Hlb & Hpab).
  assert (b' = b) as -> by congruence.
  destruct (scatter_rows_spec (λ _ s : list V, s) b o s) as (out & -> & _); [| |done].
  - rewrite (shaped_lookup _ _ _ _ _ Hy Hs). lia.
  - rewrite (Hlo i o Ho).
    pose proof (perm_seq_bound _ _ Hpab) as Hbd. by apply Forall_app in Hbd as [_ ?]. }
rewrite Hzz. exists z. split; [done|]. split.
- split; [lia|]. apply Forall_lookup. intros i zb Hzb.
  assert (i < B) as Hi by (apply lookup_lt_Some in Hzb; lia).
  destruct (Hab i Hi) as (a & b & Hai & Hbi & _).
  destruct (lookup_lt_is_Some_2 o1 i) as [o Ho]; [lia|].
  destruct (lookup_lt_is_Some_2 y i) as [yb Hyb]; [destruct Hy; lia|].
  destruct (Hpz i o b yb Ho Hbi Hyb) as (zb' & Hzb' & E).
  assert (zb' = zb) as -> by congruence.
  apply scatter_rows_Some_length in E. rewrite E. by eapply Hlo.
- intros i yb a b d Hyb Hai Hbi Hdi.
  assert (i < B) as Hi by (apply lookup_lt_Some in Hai; destruct Ha; lia).
  destruct (Hpsrc i yb d Hyb Hdi) as (s & Hs & Hg).
  destruct (Hpo1 i buf a s) as (o & Ho & E1); [|done|done|].
  { unfold zeros. rewrite lookup_replicate. split; [done|lia]. }
  destruct (Hpz i o b yb Ho Hbi Hyb) as (zb & Hzb & E2).
  exists zb. split; [done|]. unfold random_unmerge_entry.
  rewrite Hg. cbn [mbind option_bind]. fold C. fold buf. rewrite E1. done.
Qed.

End RandomEntries.

(** ** Sums of rows *)

Section Perm.
Context {A : Type}.

Lemma odds_cons2 (a b : A) (l : list A) : odds (a :: b :: l) = b :: odds l.
Proof. by destruct l. Qed.

Lemma evens_odds_perm (l : list A) : evens l ++ odds l ≡ₚ l.
Proof.
induction l as [|a|a b l IH] using list_pair_ind; [done..|].
rewrite odds_cons2. change (evens (a :: b :: l)) with (a :: evens l).
simpl. constructor. rewrite <- Permutation_middle. constructor. exact IH.
Qed.

Lemma gather_rows_fmap (m : list A) (idx : list nat) (k : list A) (dflt : A) :
gather_rows m idx = Some k → k = (λ i, default dflt (m !! i)) <$> idx.
Proof.
intros [Hl Hp]%gather_rows_lookup. apply list_eq. intros j.
rewrite list_lookup_fmap. destruct (idx !! j) as [i|] eqn:Hi; simpl.
- destruct (Hp j i Hi) as (row & -> & ->). done.
- apply lookup_ge_None. rewrite Hl. by apply lookup_ge_None.
Qed.

Lemma gather_rows_all (m : list A) (dflt : A) :
(λ i, default dflt (m !! i)) <$> seq 0 (length m) = m.
Proof.
apply list_eq. intros j. rewrite list_lookup_fmap.
destruct (m !! j) as [a|] eqn:Hj.
- rewrite lookup_seq_lt by (by eapply lookup_lt_Some). simpl. by rewrite Hj.
- rewrite lookup_seq_ge; [done|]. by apply lookup_ge_None.
Qed.

Lemma gather_cover (m : list A) (u s : list nat) (ku ks : list A) :
u ++ s ≡ₚ seq 0 (length m) →
gather_rows m u = Some ku → gather_rows m s = Some ks → ku ++ ks ≡ₚ m.
Proof.
intros Hp Hu Hs. destruct m as [|a m].
- simpl in Hp. apply Permutation_nil_r in Hp. apply app_eq_nil in Hp as [-> ->].
  cbv in Hu, Hs. by simplify_eq.
- rewrite (gather_rows_fmap _ _ _ a Hu), (gather_rows_fmap _ _ _ a Hs).
  rewrite <- fmap_app, Hp. by rewrite gather_rows_all.
Qed.

End Perm.

Section Mass.
Context {V : Type} `{ValueOps V}.
Hypothesis add_comm : ∀ a b : V, v_add a b = v_add b a.
Hypothesis add_assoc : ∀ a b c : V, v_add a (v_add b c) = v_add (v_add a b) c.
Hypothesis add_0_l : ∀ a : V, v_add v_zero a = a.

Notation "a ⊕ b" := (zip_with v_add a b) (at level 50, left associativity).

Lemma rows_add_comm (a b : list V) : a ⊕ b = b ⊕ a.
Proof.
revert b. induction a as [|x a IH]; intros [|y b]; simpl; try done.
by rewrite add_comm, IH.
Qed.

Lemma rows_add_assoc (a b c : list V) : a ⊕ (b ⊕ c) = a ⊕ b ⊕ c.
Proof.
revert b c. induction a as [|x a IH]; intros [|y b] [|z c]; simpl; try done.
by rewrite add_assoc, IH.
Qed.

Lemma rows_add_0_l C (a : list V) : length a = C → replicate C v_zero ⊕ a = a.
Proof.
intros <-. induction a as [|x a IH]; simpl; [done|]. by rewrite add_0_l, IH.
Qed.

Lemma length_row_total C (m : mat V) :
Forall (λ row, length row = C) m → length (row_total C m) = C.
Proof.
induction 1 as [|row m Hr _ IH]; simpl; [by rewrite length_replicate|].
rewrite length_zip_with. cbv beta in *. lia.
Qed.

Lemma row_total_perm C (m m' : mat V) : m ≡ₚ m' → row_total C m = row_total C m'.
Proof.
intros Hp. unfold row_total. apply (foldr_permutation (=) _ _ _); [|done].
intros j1 a1 j2 a2 b _ _ _. rewrite !rows_add_assoc. f_equal. apply rows_add_comm.
Qed.

Lemma row_total_app C (m1 m2 : mat V) :
Forall (λ row, length row = C) m2 →
row_total C (m1 ++ m2) = row_total C m1 ⊕ row_total C m2.
Proof.
intros H2. induction m1 as [|row m1 IH]; simpl.
- by rewrite rows_add_0_l by by apply length_row_total.
- unfold row_total in *. rewrite IH. apply rows_add_assoc.
Qed.

Lemma row_total_insert C (m : mat V) i d s :
m !! i = Some d →
row_total C (<[i := d ⊕ s]> m) = row_total C m ⊕ s.
Proof.
revert i. induction m as [|row m IH]; intros [|i] Hi; simpl in *; try done.
- injection Hi as ->. rewrite <- !rows_add_assoc. f_equal. apply rows_add_comm.
- unfold row_total in *. rewrite (IH i Hi). by rewrite rows_add_assoc.
Qed.

Lemma scatter_rows_total C (idx : list nat) : ∀ (dst src out : mat V),
length src = length idx →
Forall (λ row, length row = C) dst → Forall (λ row, length row = C) src →
scatter_rows (zip_with v_add) dst idx src = Some out →
row_total C out = row_total C dst ⊕ row_total C src.
Proof.
induction idx as [|i idx IH]; intros dst src out Hl Hd Hs; simpl.
- destruct src; [|done]. intros [= <-]. simpl.
  rewrite rows_add_comm, rows_add_0_l; [done|]. by apply length_row_total.
- destruct src as [|s src]; [done|]. destruct (dst !! i) as [d|] eqn:Hi; [|done].
  simpl. intros Ho. apply Forall_cons in Hs as [Hs Hss].
  assert (length (d ⊕ s) = C) as Hds.
  { rewrite length_zip_with. pose proof (Forall_lookup_1 _ _ _ _ Hd Hi). cbv beta in *. lia. }
  rewrite (IH (<[i := d ⊕ s]> dst) src out); [| |by apply Forall_insert|done|done].
  + rewrite (row_total_insert C dst i d s Hi). by rewrite <- !rows_add_assoc.
  + simpl in Hl. lia.
Qed.

Lemma gather_rows_Forall {A} (P : A → Prop) (m : list A) idx k :
Forall P m → gather_rows m idx = Some k → Forall P k.
Proof.
intros Hm [Hl Hp]%gather_rows_lookup. apply Forall_lookup. intros j a Ha.
destruct (lookup_lt_is_Some_2 idx j) as [i Hi].
{ rewrite <- Hl. by eapply lookup_lt_Some. }
destruct (Hp j i Hi) as (row & Hrow & Hmi). simplify_eq.
by eapply (Forall_lookup_1 P m).
Qed.

Lemma Forall_evens_odds {A} (P : A → Prop) (l : list A) :
Forall P l → Forall P (evens l) ∧ Forall P (odds l).
Proof. intros Hl. apply Forall_app. by rewrite evens_odds_perm. Qed.

Lemma distill_layout_perm {A} (unm dst : list A) :
take 1 unm ++ take 1 dst ++ drop 1 unm ++ drop 1 dst ≡ₚ unm ++ dst.
Proof.
rewrite <- (take_drop 1 unm) at 3. rewrite <- (take_drop 1 dst) at 3.
rewrite <- !app_assoc. f_equiv. rewrite !app_assoc. f_equiv.
apply Permutation_app_comm.
Qed.

Lemma merge_entry_total C distill (u s d : list nat) (xb yb : mat V) :
u ++ s ≡ₚ seq 0 (length (evens xb)) → length d = length s →
Forall (λ row, length row = C) xb →
merge_entry distill u s d xb Sum = Some yb →
row_total C yb = row_total C xb.
Proof.
intros Hp Hld Hx. unfold merge_entry.
destruct (Forall_evens_odds _ _ Hx) as [Hev Hod].
destruct (gather_rows (evens xb) u) as [unm|] eqn:Hu; [|done].
destruct (gather_rows (evens xb) s) as [src|] eqn:Hs; [|done].
cbn [mbind option_bind]. unfold scatter_reduce_rows. cbn [reduce_op].
destruct (scatter_rows (zip_with v_add) (odds xb) d src) as [dst|] eqn:Hd; [|done].
cbn [mbind option_bind]. intros [= <-].
pose proof (gather_rows_Forall _ _ _ _ Hev Hu) as Hfu.
pose proof (gather_rows_Forall _ _ _ _ Hev Hs) as Hfs.
assert (Forall (λ row, length row = C) dst) as Hfd.
{ eapply (scatter_rows_Forall _ _ (zip_with v_add) d); [|exact Hod|exact Hfs|exact Hd].
  intros a b Ha Hb. cbv beta in *. rewrite length_zip_with. lia. }
assert (row_total C (unm ++ dst) = row_total C xb) as Hgoal.
{ rewrite row_total_app by done.
  assert (length src = length d) as Hl.
  { apply gather_rows_lookup in Hs as [-> _]. done. }
  rewrite (scatter_rows_total C d (odds xb) src dst Hl Hod Hfs Hd).
  rewrite (rows_add_comm (row_total C (odds xb))), rows_add_assoc.
  rewrite <- row_total_app by done.
  rewrite (row_total_perm C (unm ++ src) (evens xb)) by (by eapply gather_cover).
  rewrite <- row_total_app by done. apply row_total_perm, evens_odds_perm. }
destruct distill; [|done].
rewrite <- Hgoal. apply row_total_perm, distill_layout_perm.
Qed.

End Mass.

Section Broadcast.
Context {A B C : Type}.

Lemma mapM_zip_with_Some (f : A → B → option C) (g : A → B → C) la lb :
length la = length lb →
(∀ i a b, la !! i = Some a → lb !! i = Some b → f a b = Some (g a b)) →
mapM (λ p, f p.1 p.2) (zip la lb) = Some (zip_with g la lb).
Proof.
intros Hl Hp. apply mapM_lookup. split; [by rewrite length_zip_with, length_zip|].
intros i [a b] [Ha Hb]%lookup_zip_Some. exists (g a b).
split; [|exact (Hp i a b Ha Hb)]. by rewrite lookup_zip_with, Ha, Hb.
Qed.

Lemma bzip_same (f : A → B → option C) (g : A → B → C) la lb :
length la = length lb →
(∀ i a b, la !! i = Some a → lb !! i = Some b → f a b = Some (g a b)) →
bzip f la lb = Some (zip_with g la lb).
Proof.
intros Hl Hp. unfold bzip. rewrite Hl, Nat.eqb_refl.
exact (mapM_zip_with_Some f g la lb Hl Hp).
Qed.

End Broadcast.

Section Keeps.
Context {V : Type} `{ValueOps V}.

Lemma mapM_Some_fmap {A B} (g : A → B) (l : list A) :
mapM (λ a, Some (g a)) l = Some (g <$> l).
Proof.
apply mapM_lookup. split; [by rewrite length_fmap|]. intros i a Ha.
exists (g a). by rewrite list_lookup_fmap, Ha.
Qed.

Lemma bzip_row (op : V → V → V) (row : list V) (v : V) :
bzip (λ a b, Some (op a b)) row [v] = Some ((λ a, op a v) <$> row).
Proof.
unfold bzip. destruct row as [|a [|a' row]]; [done..|].
cbn [length Nat.eqb]. apply mapM_Some_fmap.
Qed.

Lemma broadcast3_scale (op : V → V → V) (x s : tensor V) B N :
shaped B N x → shaped B N s → rows_have 1 s →
broadcast3 op x s = Some (scale op x s).
Proof.
intros [Hlx HFx] [Hls HFs] Hr. unfold broadcast3, scale.
apply bzip_same; [lia|]. intros b xb sb Hxb Hsb.
apply bzip_same.
{ by rewrite (Forall_lookup_1 _ _ _ _ HFx Hxb), (Forall_lookup_1 _ _ _ _ HFs Hsb). }
intros i row srow Hrow Hsrow.
pose proof (Forall_lookup_1 _ _ _ _ (Forall_lookup_1 _ _ _ _ Hr Hsb) Hsrow) as Hl.
cbv beta in Hl. destruct srow as [|v [|]]; try done. apply bzip_row.
Qed.

Lemma scale_shaped (op : V → V → V) (x s : tensor V) B N :
shaped B N x → shaped B N s → shaped B N (scale op x s).
Proof.
intros [Hlx HFx] [Hls HFs]. split; [unfold scale; rewrite length_zip_with; lia|].
apply Forall_lookup. intros b zb. unfold scale. rewrite lookup_zip_with.
destruct (x !! b) as [xb|] eqn:Hxb; [|done]. destruct (s !! b) as [sb|] eqn:Hsb; [|done].
simpl. intros [= <-]. rewrite length_zip_with.
rewrite (Forall_lookup_1 _ _ _ _ HFx Hxb), (Forall_lookup_1 _ _ _ _ HFs Hsb). lia.
Qed.

Lemma scale_rows_have (op : V → V → V) (x s : tensor V) C :
rows_have C x → rows_have C (scale op x s).
Proof.
intros Hr. apply Forall_lookup. intros b zb. unfold scale. rewrite lookup_zip_with.
destruct (x !! b) as [xb|] eqn:Hxb; [|done]. destruct (s !! b) as [sb|] eqn:Hsb; [|done].
simpl. intros [= <-]. apply Forall_lookup. intros i row. rewrite lookup_zip_with.
destruct (xb !! i) as [r0|] eqn:Hr0; [|done]. destruct (sb !! i) as [s0|]; [|done].
simpl. intros [= <-]. rewrite length_fmap.
exact (Forall_lookup_1 _ _ _ _ (Forall_lookup_1 _ _ _ _ Hr Hxb) Hr0).
Qed.

Lemma merge_entry_keeps mode (R : list V → Prop) distill u s d (xb yb : mat V) :
kept_by mode R → Forall R xb →
merge_entry distill u s d xb mode = Some yb → Forall R yb.
Proof.
intros Hk Hx. unfold merge_entry.
destruct (Forall_evens_odds _ _ Hx) as [Hev Hod].
destruct (gather_rows (evens xb) u) as [unm|] eqn:Hu; [|done].
destruct (gather_rows (evens xb) s) as [src|] eqn:Hs; [|done].
cbn [mbind option_bind].
destruct (scatter_reduce_rows mode (odds xb) d src) as [dst|] eqn:Hd; [|done].
cbn [mbind option_bind]. intros [= <-].
pose proof (gather_rows_Forall _ _ _ _ Hev Hu) as Hfu.
pose proof (gather_rows_Forall _ _ _ _ Hev Hs) as Hfs.
pose proof (scatter_reduce_rows_Forall mode R _ _ _ _ Hk Hod Hfs Hd) as Hfd.
destruct distill; rewrite ?Forall_app; repeat split;
  auto using Forall_take, Forall_drop.
Qed.

Lemma bipartite_merge_keeps mode (R : list V → Prop) e B N (x y : tensor V) :
env_ok e B N → 0 < B → shaped B N x → kept_by mode R →
Forall (Forall R) x → bipartite_merge e x mode = Some y → Forall (Forall R) y.
Proof.
intros Hok HB Hx Hk HR Hy.
destruct (bipartite_merge_entries e B N x mode Hok HB Hx) as (y' & Hy' & Hly & Hp).
assert (y' = y) as -> by congruence.
apply Forall_lookup. intros b yb Hyb.
assert (b < B) as Hb by (apply lookup_lt_Some in Hyb; lia).
destruct (env_lookup e B N b Hok Hb) as (u & s & d & Hu & Hs & Hd).
destruct (lookup_lt_is_Some_2 x b) as [xb Hxb]; [destruct Hx; lia|].
destruct (Hp b xb u s d Hxb Hu Hs Hd) as (yb' & Hyb' & Hme).
assert (yb' = yb) as -> by congruence.
eapply merge_entry_keeps; [done| |done]. by eapply (Forall_lookup_1 _ x).
Qed.

End Keeps.

(** ** Chains of merges and the conservation of mass *)

Section SumMerge.
Context {M V : Type} `{MetricOps M} `{ValueOps V}.

Lemma bipartite_cases (metric : tensor M) r ct dt merge unmerge B N :
0 < B → shaped B N metric →
bipartite_soft_matching (V:=V) metric r ct dt = Some (merge, unmerge) →
((clamp N r ct dt ≤ 0)%Z ∧ merge = identity_pair.1) ∨
(∃ e, env_ok e B N ∧ be_r e = clamp N r ct dt ∧ be_distill e = dt ∧
      merge = bipartite_merge e ∧ unmerge = bipartite_unmerge e).
Proof.
intros HB Hm Hbs.
destruct (Z.le_gt_cases (clamp N r ct dt) 0) as [Hc|Hc].
- left. split; [done|]. rewrite bipartite_void in Hbs.
  + by injection Hbs as <- <-.
  + by rewrite (shaped_shape1 B N metric HB Hm).
- right. destruct (bipartite_soft_matching_ok (V:=V) metric r ct dt B N HB Hm Hc)
    as (e & Hbs' & Hok & Hre & Hdt).
  exists e. rewrite Hbs' in Hbs. injection Hbs as <- <-. done.
Qed.

Lemma bipartite_sum_merge (metric : tensor M) r ct dt merge unmerge B N :
0 < B → shaped B N metric →
bipartite_soft_matching (V:=V) metric r ct dt = Some (merge, unmerge) →
sum_merge B N (N - Z.to_nat (clamp N r ct dt)) merge.
Proof.
intros HB Hm Hbs C x HC Hx Hr.
destruct (bipartite_cases metric r ct dt merge unmerge B N HB Hm Hbs)
  as [[Hc ->]|(e & Hok & Hre & _ & -> & _)].
- exists x. split; [done|].
  replace (Z.to_nat (clamp N r ct dt)) with 0 by lia. by rewrite Nat.sub_0_r.
- destruct (bipartite_merge_shaped e B N x Sum Hok HB Hx) as (y & Hy & Hys).
  exists y. rewrite <- Hre. split; [done|]. split; [done|].
  intros R HR HRx. by eapply bipartite_merge_keeps.
Qed.

Lemma mapM_Some_fmap_where {A B} (f : A → option B) (g : A → B) (l : list A) :
(∀ i a, l !! i = Some a → f a = Some (g a)) → mapM f l = Some (g <$> l).
Proof.
intros Hf. apply mapM_lookup. split; [by rewrite length_fmap|]. intros i a Ha.
exists (g a). split; [by rewrite list_lookup_fmap, Ha|]. by eapply Hf.
Qed.

Lemma ones_like_col0_Some C (x : tensor V) :
0 < C → rows_have C x →
ones_like_col0 x = Some (fmap (M:=list) (λ _, [v_one]) <$> x).
Proof.
intros HC Hr. unfold ones_like_col0.
apply mapM_Some_fmap_where. intros b xb Hxb.
apply mapM_Some_fmap_where. intros i row Hrow.
pose proof (Forall_lookup_1 _ _ _ _ (Forall_lookup_1 _ _ _ _ Hr Hxb) Hrow) as Hl.
cbv beta in Hl. destruct row; simpl in *; [lia|done].
Qed.

Lemma ones_shaped B N (x : tensor V) :
shaped B N x →
shaped B N (fmap (M:=list) (λ _ : list V, [v_one]) <$> x) ∧
rows_have 1 (fmap (M:=list) (λ _ : list V, [v_one]) <$> x).
Proof.
intros Hx. split.
- eapply shaped_fmap; [|done]. intros m Hm. by rewrite length_fmap.
- apply Forall_fmap, Forall_true. intros m. simpl. apply Forall_fmap, Forall_true. done.
Qed.

(** One step of [merge_wavg], spelled out. *)
Lemma merge_wavg_step (m : merge_fn) (x s : tensor V) B N N' C :
sum_merge B N N' m → 0 < C →
shaped B N x → rows_have C x → shaped B N s → rows_have 1 s →
∃ X s',
  m (scale v_mul x s) Sum = Some X ∧ m s Sum = Some s' ∧
  merge_wavg m x (Some s) = Some (scale v_div X s', s') ∧
  shaped B N' X ∧ rows_have C X ∧
  shaped B N' (scale v_div X s') ∧ rows_have C (scale v_div X s') ∧
  shaped B N' s' ∧ rows_have 1 s' ∧
  (∀ R, kept_by Sum R → Forall (Forall R) s → Forall (Forall R) s').
Proof.
intros Hm HC Hx Hxr Hs Hsr. unfold merge_wavg. cbn [mbind option_bind].
rewrite (broadcast3_scale v_mul x s B N Hx Hs Hsr). cbn [mbind option_bind].
destruct (Hm C (scale v_mul x s) HC) as (X & HX & HXs & HXk).
{ by apply scale_shaped. } { by apply scale_rows_have. }
destruct (Hm 1 s ltac:(lia) Hs Hsr) as (s' & Hs' & Hss' & Hsk).
rewrite HX. cbn [mbind option_bind]. rewrite Hs'. cbn [mbind option_bind].
assert (rows_have 1 s') as Hsr'.
{ apply (Hsk (λ row, length row = 1)); [apply kept_by_channels|done]. }
assert (rows_have C X) as HXr.
{ apply (HXk (λ row, length row = C)); [apply kept_by_channels|].
  by apply scale_rows_have. }
rewrite (broadcast3_scale v_div X s' B N' HXs Hss' Hsr'). cbn [mbind option_bind].
exists X, s'. split; [done|]. split; [done|]. split; [done|].
split; [done|]. split; [done|]. split; [by apply scale_shaped|].
split; [by apply scale_rows_have|]. done.
Qed.

End SumMerge.

Section RandomKeeps.
Context {M V : Type} `{MetricOps M} `{ValueOps V}.

Lemma random_merge_entry_keeps mode (R : list V → Prop) a b d (xb yb : mat V) :
kept_by mode R → Forall R xb →
random_merge_entry a b d xb mode = Some yb → Forall R yb.
Proof.
intros Hk Hx. unfold random_merge_entry.
destruct (gather_rows xb a) as [src|] eqn:Hs; [|done].
destruct (gather_rows xb b) as [dst|] eqn:Hd; [|done].
cbn [mbind option_bind]. intros Hy.
eapply scatter_reduce_rows_Forall; [done| | |exact Hy].
- by eapply gather_rows_Forall.
- by eapply gather_rows_Forall.
Qed.

Lemma random_sum_merge (metric : tensor M) (r : Z) (rand : mat M) merge unmerge B N :
0 < B → shaped B N metric → shaped B N rand → (0 < r < Z.of_nat N)%Z →
random_bipartite_soft_matching (V:=V) metric r rand = Some (merge, unmerge) →
sum_merge B N (N - Z.to_nat r) merge.
Proof.
intros HB Hm Hrand Hr Hrs C x HC Hx Hxr.
destruct (random_bipartite_soft_matching_env (V:=V) metric r rand B N HB Hm Hrand Hr)
  as (a_idx & b_idx & dst_idx & _ & Hrs' & Hok).
rewrite Hrs' in Hrs. injection Hrs as <- _.
assert (∃ rn, r = Z.of_nat rn ∧ 0 < rn < N) as (rn & -> & Hrn).
{ exists (Z.to_nat r). lia. }
rewrite Nat2Z.id in *.
destruct (random_merge_entries B rn N a_idx b_idx dst_idx x Sum HB ltac:(lia) Hok Hx)
  as (y & Hy & Hys & Hpy).
exists y. split; [done|]. split; [done|].
intros R HR HRx. apply Forall_lookup. intros i yb Hyb.
assert (i < B) as Hi by (apply lookup_lt_Some in Hyb; destruct Hys; lia).
destruct (random_idx_lookup B rn N a_idx b_idx dst_idx i Hok Hi)
  as (a & b & d & Hai & Hbi & Hdi & _).
destruct (lookup_lt_is_Some_2 x i) as [xb Hxb]; [destruct Hx; lia|].
destruct (Hpy i xb a b d Hxb Hai Hbi Hdi) as (yb' & Hyb' & E).
assert (yb' = yb) as -> by congruence.
eapply random_merge_entry_keeps; [done| |exact E].
exact (Forall_lookup_1 _ _ _ _ HRx Hxb).
Qed.

End RandomKeeps.

Section MassChain.
Context {M V : Type} `{MetricOps M} `{ValueOps V}.
Hypothesis add_comm : ∀ a b : V, v_add a b = v_add b a.
Hypothesis add_assoc : ∀ a b c : V, v_add a (v_add b c) = v_add (v_add a b) c.
Hypothesis add_0_l : ∀ a : V, v_add v_zero a = a.
Hypothesis of_nat_0 : v_of_nat 0 = v_zero.
Hypothesis of_nat_S : ∀ n, v_of_nat (S n) = v_add v_one (v_of_nat n).

Lemma bipartite_merge_conserves e B N C (x y : tensor V) :
env_ok e B N → 0 < B → shaped B N x → rows_have C x →
bipartite_merge e x Sum = Some y →
∀ b xb yb, x !! b = Some xb → y !! b = Some yb →
           row_total C yb = row_total C xb.
Proof.
intros Hok HB Hx Hr Hy b xb yb Hxb Hyb.
destruct (bipartite_merge_entries e B N x Sum Hok HB Hx) as (y' & Hy' & Hly & Hp).
assert (y' = y) as -> by congruence.
assert (b < B) as Hb by (apply lookup_lt_Some in Hyb; lia).
destruct (env_lookup e B N b Hok Hb) as (u & s & d & Hu & Hs & Hd).
destruct (Hp b xb u s d Hxb Hu Hs Hd) as (yb' & Hyb' & Hme).
assert (yb' = yb) as -> by congruence.
destruct (ok_entry _ _ _ Hok b u s d Hu Hs Hd) as (Hperm & Hls & Hld & _).
eapply (merge_entry_total add_comm add_assoc add_0_l); [|..|exact Hme].
- by rewrite length_evens, (shaped_lookup _ _ _ _ _ Hx Hxb).
- lia.
- exact (Forall_lookup_1 _ _ _ _ Hr Hxb).
Qed.

Lemma bipartite_conserving (metric : tensor M) r ct dt merge unmerge B N :
0 < B → shaped B N metric →
bipartite_soft_matching (V:=V) metric r ct dt = Some (merge, unmerge) →
conserving B N merge.
Proof.
intros HB Hm Hbs C x y Hx Hr Hy.
destruct (bipartite_cases metric r ct dt merge unmerge B N HB Hm Hbs)
  as [[Hc ->]|(e & Hok & Hre & _ & -> & _)].
- cbv [identity_pair do_nothing fst] in Hy. injection Hy as <-.
  intros b xb yb Hxb Hyb. congruence.
- by eapply bipartite_merge_conserves.
Qed.

Lemma total_of_ones (xb : mat V) :
row_total 1 ((λ _, [v_one]) <$> xb) = [v_of_nat (length xb)].
Proof.
induction xb as [|row xb IH].
- simpl. by rewrite of_nat_0.
- rewrite fmap_cons. cbn [length]. unfold row_total in *. cbn [foldr].
  rewrite IH. simpl. by rewrite of_nat_S.
Qed.

Lemma wavg_chain_sizes B C (t : list V) (ms : list merge_fn) : ∀ N (x s : tensor V),
0 < B → 0 < C → bipartite_chain (M:=M) B N ms →
shaped B N x → rows_have C x → shaped B N s → rows_have 1 s →
(∀ b sb, s !! b = Some sb → row_total 1 sb = t) →
∃ x' s', wavg_chain ms x (Some s) = Some (x', Some s') ∧
         ∀ b sb, s' !! b = Some sb → row_total 1 sb = t.
Proof.
induction ms as [|m ms IH]; intros N x s HB HC Hch Hx Hxr Hs Hsr Ht.
- exists x, s. done.
- inversion Hch as [|N0 metric r ct dt merge unmerge ms0 Hm Hbs Hch']; subst.
  pose proof (bipartite_sum_merge metric r ct dt m unmerge B N HB Hm Hbs) as Hsm.
  pose proof (bipartite_conserving metric r ct dt m unmerge B N HB Hm Hbs) as Hcons.
  destruct (merge_wavg_step m x s B N _ C Hsm HC Hx Hxr Hs Hsr)
    as (X & s' & HX & Hs' & Hw & HXs & HXr & Hq & Hqr & Hss' & Hsr' & _).
  cbn [wavg_chain]. rewrite Hw. cbn [mbind option_bind fst snd].
  apply (IH _ _ _ HB HC Hch' Hq Hqr Hss' Hsr').
  intros b sb' Hsb'.
  destruct (lookup_lt_is_Some_2 s b) as [sb Hsb].
  { apply lookup_lt_Some in Hsb'. destruct Hs, Hss'. lia. }
  rewrite (Hcons 1 s s' Hs Hsr Hs' b sb sb' Hsb Hsb'). by eapply Ht.
Qed.

(** Claim C10.  In exact arithmetic (addition commutative and
    associative with zero as its unit, counters the sums of ones), the
    bipartite merge with a positive clamped [r] and [mode="sum"] keeps,
    for every batch entry, the sum of the rows; and along every chain of
    bipartite merges threaded through [merge_wavg] from the default
    size, the size tensor sums to [N] in every batch entry.  (Proved for
    both values of [distill_token].) *)
Theorem bipartite_sum_conserves_mass (metric : tensor M) (r : Z) (ct dt : bool)
  (x : tensor V) B N C :
0 < B → 0 < C → shaped B N metric → (0 < clamp N r ct dt)%Z →
shaped B N x → rows_have C x →
(∃ merge unmerge y,
   bipartite_soft_matching metric r ct dt = Some (merge, unmerge) ∧
   merge x Sum = Some y ∧ shaped B (N - Z.to_nat (clamp N r ct dt)) y ∧
   ∀ b xb yb, x !! b = Some xb → y !! b = Some yb →
              row_total C yb = row_total C xb) ∧
(∀ m ms, bipartite_chain (M:=M) B N (m :: ms) →
   ∃ x' size, wavg_chain (m :: ms) x None = Some (x', Some size) ∧
              ∀ b sb, size !! b = Some sb → row_total 1 sb = [v_of_nat N]).
Proof.
intros HB HC Hm Hr Hx Hxr. split.
- destruct (bipartite_soft_matching_ok (V:=V) metric r ct dt B N HB Hm Hr)
    as (e & Hbs & Hok & Hre & Hdt).
  destruct (bipartite_merge_shaped e B N x Sum Hok HB Hx) as (y & Hy & Hys).
  eexists _, _, y. split; [done|]. split; [done|]. rewrite <- Hre. split; [done|].
  by eapply bipartite_merge_conserves.
- intros m ms Hch.
  destruct (ones_shaped B N x Hx) as [Hos Hor].
  set (ones := fmap (M:=list) (λ _ : list V, [v_one]) <$> x) in *.
  assert (wavg_chain (m :: ms) x None = wavg_chain (m :: ms) x (Some ones)) as ->.
  { cbn [wavg_chain]. unfold merge_wavg.
    by rewrite (ones_like_col0_Some C x HC Hxr). }
  apply (wavg_chain_sizes B C _ (m :: ms) N x ones HB HC Hch Hx Hxr Hos Hor).
  intros b sb. unfold ones. rewrite list_lookup_fmap.
  destruct (x !! b) as [xb|] eqn:Hxb; [|done]. simpl. intros [= <-].
  by rewrite total_of_ones, (shaped_lookup _ _ _ _ _ Hx Hxb).
Qed.

End MassChain.

(** ** The weighted average along a chain *)

Section ZipCancel.
Context {A B : Type}.

Lemma zip_with_cancel (F G : A → B → A) (la : list A) (lb : list B) :
length la = length lb →
(∀ i a b, la !! i = Some a → lb !! i = Some b → F (G a b) b = a) →
zip_with F (zip_with G la lb) lb = la.
Proof.
revert lb. induction la as [|a la IH]; intros [|b lb] Hl Hc; simpl in *; try done.
f_equal.
- exact (Hc 0 a b eq_refl eq_refl).
- apply IH; [lia|]. intros i a' b' Ha Hb. exact (Hc (S i) a' b' Ha Hb).
Qed.

End ZipCancel.

Section Wavg.
Context {M V : Type} `{MetricOps M} `{ValueOps V}.
Hypothesis mul_1_r : ∀ a : V, v_mul a v_one = a.
Hypothesis of_nat_1 : v_of_nat 1 = v_one.
Hypothesis of_nat_add : ∀ a b, v_add (v_of_nat a) (v_of_nat b) = v_of_nat (a + b).
Hypothesis div_mul_cancel :
  ∀ (a : V) n, 0 < n → v_mul (v_div a (v_of_nat n)) (v_of_nat n) = a.

Lemma count_row_kept : kept_by Sum count_row.
Proof.
split; [|done]. intros d s (a & Ha & ->) (b & Hb & ->). exists (a + b).
split; [lia|]. simpl. by rewrite of_nat_add.
Qed.

Lemma count_rows_have (s : tensor V) : Forall (Forall count_row) s → rows_have 1 s.
Proof.
intros Hs. eapply Forall_impl; [done|]. intros sb Hsb.
eapply Forall_impl; [done|]. by intros row (n & _ & ->).
Qed.

Lemma scale_cancel (X s : tensor V) B N :
shaped B N X → shaped B N s → Forall (Forall count_row) s →
scale v_mul (scale v_div X s) s = X.
Proof.
intros [HlX HFX] [Hls HFs] Hc. unfold scale.
apply zip_with_cancel; [lia|]. intros b Xb sb HXb Hsb.
apply zip_with_cancel.
{ by rewrite (Forall_lookup_1 _ _ _ _ HFX HXb), (Forall_lookup_1 _ _ _ _ HFs Hsb). }
intros i row srow Hrow Hsrow.
destruct (Forall_lookup_1 _ _ _ _ (Forall_lookup_1 _ _ _ _ Hc Hsb) Hsrow)
  as (n & Hn & ->).
simpl. rewrite <- list_fmap_compose. rewrite <- (list_fmap_id row) at 2.
apply list_fmap_ext. intros _ a _. simpl. by apply div_mul_cancel.
Qed.

Lemma scale_ones (x : tensor V) :
scale v_mul x (fmap (M:=list) (λ _ : list V, [v_one]) <$> x) = x.
Proof.
unfold scale. apply list_eq. intros b. rewrite lookup_zip_with, list_lookup_fmap.
destruct (x !! b) as [xb|]; [|done]. simpl. f_equal.
apply list_eq. intros i. rewrite lookup_zip_with, list_lookup_fmap.
destruct (xb !! i) as [row|]; [|done]. simpl. f_equal.
rewrite <- (list_fmap_id row) at 2. apply list_fmap_ext. intros _ a _. apply mul_1_r.
Qed.

Lemma ones_count_rows (x : tensor V) :
Forall (Forall count_row) (fmap (M:=list) (λ _ : list V, [v_one]) <$> x).
Proof.
apply Forall_fmap, Forall_true. intros xb. simpl. apply Forall_fmap, Forall_true.
intros row. simpl. exists 1. split; [lia|]. by rewrite of_nat_1.
Qed.

Lemma wavg_chain_totals B C (ms : list merge_fn) : ∀ N (X0 s : tensor V),
0 < C → merge_chain B N ms →
shaped B N X0 → rows_have C X0 → shaped B N s → Forall (Forall count_row) s →
∃ X S, sum_chain ms X0 = Some X ∧ sum_chain ms s = Some S ∧
       Forall (Forall count_row) S ∧
       wavg_chain ms (scale v_div X0 s) (Some s) = Some (scale v_div X S, Some S).
Proof.
induction ms as [|m ms IH]; intros N X0 s HC Hch HX HXr Hs Hc.
- exists X0, s. done.
- inversion Hch as [|N0 N' m0 ms0 Hsm Hch']; subst.
  pose proof (count_rows_have s Hc) as Hsr.
  destruct (merge_wavg_step m (scale v_div X0 s) s B N N' C Hsm HC)
    as (X1 & s1 & HX1 & Hs1 & Hw & HX1s & HX1r & _ & _ & Hs1s & Hs1r & Hk);
    [by apply scale_shaped|by apply scale_rows_have|done|done|].
  rewrite (scale_cancel X0 s B N HX Hs Hc) in HX1.
  destruct (IH N' X1 s1 HC Hch' HX1s HX1r Hs1s) as (X & S & HXc & HSc & HSr & Hwc).
  { apply Hk; [apply count_row_kept|done]. }
  exists X, S. cbn [sum_chain wavg_chain]. rewrite HX1, Hs1, Hw.
  cbn [mbind option_bind fst snd]. done.
Qed.

Lemma wavg_chain_from_ones B N C m (ms : list merge_fn) (x : tensor V) :
0 < C → merge_chain B N (m :: ms) → shaped B N x → rows_have C x →
∃ X S, sum_chain (m :: ms) x = Some X ∧
       sum_chain (m :: ms) (fmap (M:=list) (λ _, [v_one]) <$> x) = Some S ∧
       Forall (Forall count_row) S ∧
       wavg_chain (m :: ms) x None = Some (scale v_div X S, Some S).
Proof.
intros HC Hch Hx Hxr.
inversion Hch as [|N0 N' m0 ms0 Hsm Hch']; subst.
set (ones := fmap (M:=list) (λ _ : list V, [v_one]) <$> x).
destruct (ones_shaped B N x Hx) as [Hos Hor]. fold ones in Hos, Hor.
destruct (merge_wavg_step m x ones B N N' C Hsm HC Hx Hxr Hos Hor)
  as (X1 & s1 & HX1 & Hs1 & Hw & HX1s & HX1r & _ & _ & Hs1s & Hs1r & Hk).
unfold ones in HX1 at 1. rewrite scale_ones in HX1.
assert (Forall (Forall count_row) s1) as Hc1.
{ apply Hk; [apply count_row_kept|apply ones_count_rows]. }
destruct (wavg_chain_totals B C ms N' X1 s1 HC Hch' HX1s HX1r Hs1s Hc1)
  as (X & S & HXc & HSc & HSr & Hwc).
exists X, S. cbn [sum_chain wavg_chain]. rewrite HX1, Hs1.
cbn [mbind option_bind]. split; [done|]. split; [done|]. split.
- done.
- unfold merge_wavg. rewrite (ones_like_col0_Some C x HC Hxr).
  fold ones. unfold merge_wavg in Hw. cbn [mbind option_bind] in Hw.
  cbn [mbind option_bind]. rewrite Hw. cbn [mbind option_bind fst snd]. done.
Qed.

End Wavg.

(** ** The laws of exact arithmetic hold for the rationals *)

Lemma Qc_of_nat_add a b :
Qcanon.Qcplus (Qc_of_nat a) (Qc_of_nat b) = Qc_of_nat (a + b).
Proof.
apply Qcanon.Qc_is_canon. unfold Qc_of_nat. simpl.
rewrite !Qreduction.Qred_correct, Nat2Z.inj_add, QArith_base.inject_Z_plus. reflexivity.
Qed.

Lemma Qc_of_nat_S n :
Qc_of_nat (S n) = Qcanon.Qcplus (Qc_of_nat 1) (Qc_of_nat n).
Proof. by rewrite Qc_of_nat_add. Qed.

Lemma Qc_of_nat_pos n : 0 < n → Qc_of_nat n ≠ Qc_of_nat 0.
Proof.
intros Hn E. apply (f_equal Qcanon.this) in E. unfold Qc_of_nat in E. simpl in E.
assert (QArith_base.Qeq (QArith_base.inject_Z (Z.of_nat n)) (QArith_base.inject_Z 0)) as E'.
{ rewrite <- (Qreduction.Qred_correct (QArith_base.inject_Z (Z.of_nat n))), E. reflexivity. }
unfold QArith_base.Qeq in E'. simpl in E'. lia.
Qed.

Lemma Qc_div_mul_cancel (a : Qcanon.Qc) n :
0 < n → Qcanon.Qcmult (Qcanon.Qcdiv a (Qc_of_nat n)) (Qc_of_nat n) = a.
Proof.
intros Hn. rewrite Qcanon.Qcmult_comm. apply Qcanon.Qcmult_div_r.
by apply Qc_of_nat_pos.
Qed.

(** ** The distillation token *)

(** Claim C1 fails in the code when [distill_token] is set.  With six
    tokens, both protected tokens and [r = 1], token 2 is merged into
    token 3 and tokens 0, 1, 4 and 5 are left alone; [merge] moves the
    distillation token to position 1 of its output, and [unmerge], which
    splits its input as if the unmerged rows came first, returns the
    rows of tokens 1 and 4 exchanged with other rows: token 1 comes back
    as 5 and token 4 as 2.  Without [distill_token] the same values
    come back in place. *)
Lemma distill_round_trip_fails :
bipartite_indices metric6 1 true true = Some env6 ∧
bipartite_soft_matching (V:=float) metric6 1 true true
  = Some (bipartite_merge env6, bipartite_unmerge env6) ∧
bipartite_merge env6 values6 Mean = Some [[ [1]; [2]; [5]; [3.5]; [6] ]]%float ∧
bipartite_unmerge env6 [[ [1]; [2]; [5]; [3.5]; [6] ]]%float
  = Some [[ [1]; [5]; [3.5]; [3.5]; [2]; [6] ]]%float ∧
(∃ merge unmerge y,
   bipartite_soft_matching (V:=float) metric6 1 true false = Some (merge, unmerge) ∧
   merge values6 Mean = Some y ∧
   unmerge y = Some [[ [1]; [2]; [3.5]; [3.5]; [5]; [6] ]]%float).
Proof.
split; [reflexivity|]. split; [reflexivity|]. split; [reflexivity|].
split; [reflexivity|]. eexists _, _, _.
split; [reflexivity|]. split; reflexivity.
Qed.

(** Claim C3 fails in the code for three tokens with [distill_token]
    alone: the only destination is the distillation token, every score
    is [-inf], the arg-max is column 0, and with [r = 1] token 0 is
    merged into the distillation token, whose row becomes the sum (or
    the mean) of the two. *)
Lemma distill_token_is_destination :
bipartite_indices metric3 1 false true = Some env3 ∧
dst_idx env3 = [[0]] ∧
bipartite_soft_matching (V:=float) metric3 1 false true
  = Some (bipartite_merge env3, bipartite_unmerge env3) ∧
bipartite_merge env3 values3 Sum = Some [[ [3]; [3] ]]%float ∧
bipartite_merge env3 values3 Mean = Some [[ [3]; [1.5] ]]%float.
Proof. repeat split; reflexivity. Qed.

Lemma float_one_ne_zero : (1 ≠ 0)%float.
Proof.
intros E. apply (f_equal (λ f, PrimFloat.eqb f 1)) in E. vm_compute in E. discriminate.
Qed.

Lemma values4_shaped : shaped 1 4 values4.
Proof. split; [done|]. repeat constructor. Qed.

(** ** The round trip of merge and unmerge *)

Section Counts.
Context {A : Type}.

Lemma sent_to_length j idx (src : list A) :
length idx ≤ length src →
length (sent_to j idx src) = length (filter (λ i, i = j) idx).
Proof.
revert src. induction idx as [|i idx IH]; intros src Hl; [done|].
destruct src as [|s src]; simpl in Hl; [lia|].
rewrite sent_to_cons, filter_cons. destruct (decide (i = j)); simpl; rewrite IH; lia.
Qed.

Lemma counts_lookup n idx j :
j < n → counts n idx !! j = Some (S (length (filter (λ i, i = j) idx))).
Proof.
intros Hj. unfold counts.
assert (∀ acc : list nat, (foldl (λ acc i, alter S i acc) acc idx) !! j
          = (λ c, c + length (filter (λ i, i = j) idx)) <$> acc !! j) as Hg.
{ induction idx as [|i idx IH]; intros acc; simpl.
  - destruct (acc !! j); simpl; f_equal; lia.
  - rewrite IH, filter_cons. destruct (decide (i = j)) as [->|Hne].
    + rewrite list_lookup_alter_eq. destruct (acc !! j); simpl; f_equal; lia.
    + by rewrite list_lookup_alter_ne. }
rewrite Hg, lookup_replicate_2 by done. done.
Qed.

End Counts.

Section MergeSpec.
Context {V : Type} `{ValueOps V}.

Lemma scatter_reduce_rows_spec mode (dst : mat V) idx src :
length idx ≤ length src → Forall (λ i, i < length dst) idx →
∃ out, scatter_reduce_rows mode dst idx src = Some out ∧ length out = length dst ∧
       ∀ j dj, dst !! j = Some dj → out !! j = Some (reduced mode dj (sent_to j idx src)).
Proof.
intros Hl HF. unfold scatter_reduce_rows.
destruct (scatter_rows_spec (zip_with (reduce_op mode)) idx dst src Hl HF)
  as (out & -> & Hlo & Hsp).
cbn [mbind option_bind]. eexists. split; [done|].
destruct mode; try (split; [done|]; intros j dj Hj; by rewrite (Hsp j dj Hj)).
split; [rewrite length_zip_with, length_counts; lia|].
intros j dj Hj. rewrite lookup_zip_with, (Hsp j dj Hj).
rewrite counts_lookup by (by eapply lookup_lt_Some).
cbn [mbind option_bind reduced]. by rewrite sent_to_length.
Qed.

Lemma merge_entry_spec mode (u s d : list nat) (xb : mat V) N :
u ++ s ≡ₚ seq 0 ((N + 1) `div` 2) →
length d = length s → Forall (λ j, j < N `div` 2) d → length xb = N →
∃ src yb, gather_rows (evens xb) s = Some src ∧
  merge_entry false u s d xb mode = Some yb ∧
  length yb = N - length s ∧
  (∀ q i, u !! q = Some i → yb !! q = xb !! (2 * i)) ∧
  (∀ j dj, xb !! (2 * j + 1) = Some dj →
     yb !! (length u + j) = Some (reduced mode dj (sent_to j d src))).
Proof.
intros Hp Hld Hd Hlx.
pose proof (Permutation_length Hp) as Hlen. rewrite length_app, length_seq in Hlen.
pose proof (perm_seq_bound _ _ Hp) as Hb. apply Forall_app in Hb as [Hbu Hbs].
unfold merge_entry.
destruct (gather_rows_total (evens xb) u) as [unm Hunm].
{ by rewrite length_evens, Hlx. }
destruct (gather_rows_total (evens xb) s) as [src Hsrc].
{ by rewrite length_evens, Hlx. }
rewrite Hunm, Hsrc. cbn [mbind option_bind].
pose proof Hunm as [Hlunm Hpu]%gather_rows_lookup.
pose proof Hsrc as [Hlsrc Hps]%gather_rows_lookup.
destruct (scatter_reduce_rows_spec mode (odds xb) d src) as (dst & Hdst & Hldst & Hsp).
{ lia. } { by rewrite length_odds, Hlx. }
rewrite Hdst. cbn [mbind option_bind].
exists src, (unm ++ dst). split; [done|]. split; [done|]. split; [|split].
- rewrite length_app, Hlunm, Hldst, length_odds, Hlx. dlia.
- intros q i Hq. destruct (Hpu q i Hq) as (row & Hrow & Hev).
  rewrite lookup_app_l by (rewrite Hlunm; by eapply lookup_lt_Some).
  by rewrite Hrow, <- Hev, evens_lookup.
- intros j dj Hj. rewrite lookup_app_r by lia.
  replace (length u + j - length unm) with j by lia.
  apply Hsp. by rewrite odds_lookup.
Qed.

Lemma round_trip_entry (u s d : list nat) (init xb : mat V) N :
u ++ s ≡ₚ seq 0 ((N + 1) `div` 2) →
length d = length s → Forall (λ j, j < N `div` 2) d →
length init = N → length xb = N →
∃ src yb zb, gather_rows (evens xb) s = Some src ∧
  merge_entry false u s d xb Mean = Some yb ∧
  unmerge_entry u s d init yb = Some zb ∧ length zb = N ∧
  (∀ i, i ∈ u → zb !! (2 * i) = xb !! (2 * i)) ∧
  (∀ j dj, xb !! (2 * j + 1) = Some dj →
     zb !! (2 * j + 1) = Some (reduced Mean dj (sent_to j d src))) ∧
  (∀ k i j, s !! k = Some i → d !! k = Some j → zb !! (2 * i) = zb !! (2 * j + 1)).
Proof.
intros Hp Hld Hd Hli Hlx.
destruct (merge_entry_spec Mean u s d xb N Hp Hld Hd Hlx)
  as (src & yb & Hsrc & Hyb & Hlyb & Hyu & Hyd).
destruct (unmerge_entry_spec u s d init yb N Hp Hld Hd Hli Hlyb)
  as (zb & Hzb & Hlzb & Hzo & Hzu & Hzs).
exists src, yb, zb. split; [done|]. split; [done|]. split; [done|]. split; [done|].
split; [|split].
- intros i (q & Hq)%list_elem_of_lookup_1. by rewrite (Hzu q i Hq), (Hyu q i Hq).
- intros j dj Hj. rewrite Hzo.
  + by apply Hyd.
  + apply lookup_lt_Some in Hj. dlia.
- intros k i j Hk Hj. rewrite (Hzs k i j Hk Hj), Hzo; [done|].
  exact (Forall_lookup_1 _ _ _ _ Hd Hj).
Qed.

End MergeSpec.

Section RoundTrip.
Context {M V : Type} `{MetricOps M} `{ValueOps V}.

Lemma reduced_alone (dj : list V) :
(∀ v : V, v_div v (v_of_nat 1) = v) → reduced Mean dj [] = dj.
Proof.
intros Hdiv. unfold reduced. simpl.
induction dj as [|v dj IH]; [done|]. by rewrite fmap_cons, Hdiv, IH.
Qed.

(** The round trip of the bipartite strategy without a distillation
    token: [unmerge(merge(x, mode="mean"))] has [N] tokens again; every
    source-side token left unmerged is back at its position unchanged;
    every destination-side token holds the mean of itself and of the
    tokens merged into it (itself, divided by one, when there are
    none); and every merged token holds the row of its destination. *)
Theorem bipartite_round_trip (metric : tensor M) (r : Z) (ct : bool)
  (x : tensor V) B N :
0 < B → shaped B N metric → (0 < clamp N r ct false)%Z → shaped B N x →
∃ e y z,
  bipartite_soft_matching metric r ct false
    = Some (bipartite_merge e, bipartite_unmerge e) ∧
  env_ok e B N ∧
  bipartite_merge e x Mean = Some y ∧ bipartite_unmerge e y = Some z ∧
  shaped B N z ∧
  ∀ b xb zb u s d,
    x !! b = Some xb → z !! b = Some zb →
    unm_idx e !! b = Some u → src_idx e !! b = Some s → dst_idx e !! b = Some d →
    ∃ src, gather_rows (evens xb) s = Some src ∧
      (∀ i, i ∈ u → zb !! (2 * i) = xb !! (2 * i)) ∧
      (∀ j dj, xb !! (2 * j + 1) = Some dj →
         zb !! (2 * j + 1) = Some (reduced Mean dj (sent_to j d src))) ∧
      (∀ k i j, s !! k = Some i → d !! k = Some j →
         zb !! (2 * i) = zb !! (2 * j + 1)) ∧
      ((∀ v : V, v_div v (v_of_nat 1) = v) →
       ∀ j dj, xb !! (2 * j + 1) = Some dj → j ∉ d → zb !! (2 * j + 1) = Some dj).
Proof.
intros HB Hm Hr Hx.
destruct (bipartite_soft_matching_ok (V:=V) metric r ct false B N HB Hm Hr)
  as (e & Hbs & Hok & Hre & Hdt).
destruct (bipartite_merge_entries e B N x Mean Hok HB Hx) as (y & Hy & Hly & Hpy).
destruct (bipartite_merge_shaped e B N x Mean Hok HB Hx) as (y' & Hy' & Hys).
assert (y' = y) as -> by congruence.
set (init := zeros (V:=V) (shape0 y) (be_t e) (shape2 y)).
assert (shaped B N init) as Hinit.
{ unfold init, shape0. rewrite Hly, (ok_t _ _ _ Hok). apply zeros_shaped. }
destruct (bipartite_unmerge_entries e B N init y Hok HB Hys Hinit)
  as (z & Hz & Hlz & Hpz).
exists e, y, z. split; [done|]. split; [done|]. split; [done|].
split; [by rewrite bipartite_unmerge_zeros|].
assert (∀ b xb zb u s d,
  x !! b = Some xb → z !! b = Some zb →
  unm_idx e !! b = Some u → src_idx e !! b = Some s → dst_idx e !! b = Some d →
  ∃ src yb ib, gather_rows (evens xb) s = Some src ∧
    merge_entry false u s d xb Mean = Some yb ∧
    unmerge_entry u s d ib yb = Some zb ∧ length ib = N ∧ length xb = N ∧
    u ++ s ≡ₚ seq 0 ((N + 1) `div` 2) ∧ length d = length s ∧
    Forall (λ j, j < N `div` 2) d) as Hent.
{ intros b xb zb u s d Hxb Hzb Hu Hs Hd.
  destruct (Hpy b xb u s d Hxb Hu Hs Hd) as (yb & Hyb & Hmy). rewrite Hdt in Hmy.
  destruct (lookup_lt_is_Some_2 init b) as [ib Hib].
  { destruct Hinit as [-> _]. apply lookup_lt_Some in Hxb. destruct Hx; lia. }
  destruct (Hpz b yb ib u s d Hyb Hib Hu Hs Hd) as (zb' & Hzb' & Hmz).
  assert (zb' = zb) as -> by congruence.
  destruct (ok_entry _ _ _ Hok b u s d Hu Hs Hd) as (Hp & Hls & Hld & HFd).
  destruct (gather_rows_total (evens xb) s) as [src Hsrc].
  { rewrite length_evens, (shaped_lookup _ _ _ _ _ Hx Hxb).
    pose proof (perm_seq_bound _ _ Hp) as Hb. by apply Forall_app in Hb as [_ Hbs2]. }
  exists src, yb, ib. split; [done|]. split; [done|]. split; [done|].
  split; [exact (shaped_lookup _ _ _ _ _ Hinit Hib)|].
  split; [exact (shaped_lookup _ _ _ _ _ Hx Hxb)|].
  split; [done|]. split; [lia|done]. }
split.
- split; [done|]. apply Forall_lookup. intros b zb Hzb.
  destruct (lookup_lt_is_Some_2 x b) as [xb Hxb].
  { apply lookup_lt_Some in Hzb. destruct Hx; lia. }
  destruct (env_lookup e B N b Hok) as (u & s & d & Hu & Hs & Hd).
  { apply lookup_lt_Some in Hzb. lia. }
  destruct (Hent b xb zb u s d Hxb Hzb Hu Hs Hd)
    as (src & yb & ib & _ & Hmy & Hmz & Hli & Hlx & Hp & Hld & HFd).
  destruct (round_trip_entry u s d ib xb N Hp Hld HFd Hli Hlx)
    as (src' & yb' & zb' & _ & Hmy' & Hmz' & Hlz' & _).
  congruence.
- intros b xb zb u s d Hxb Hzb Hu Hs Hd.
  destruct (Hent b xb zb u s d Hxb Hzb Hu Hs Hd)
    as (src & yb & ib & Hsrc & Hmy & Hmz & Hli & Hlx & Hp & Hld & HFd).
  destruct (round_trip_entry u s d ib xb N Hp Hld HFd Hli Hlx)
    as (src' & yb' & zb' & Hsrc' & Hmy' & Hmz' & _ & Hzu & Hzd & Hzs).
  assert (src' = src) as -> by congruence. assert (yb' = yb) as -> by congruence.
  assert (zb' = zb) as -> by congruence.
  exists src. split; [done|]. split; [done|]. split; [done|]. split; [done|].
  intros Hdiv j dj Hj Hnd. rewrite (Hzd j dj Hj), sent_to_not_in by done.
  by rewrite reduced_alone.
Qed.

End RoundTrip.

(** ** The round trip of the random strategy *)

Section RandomEntrySpec.
Context {V : Type} `{ValueOps V}.

Lemma random_merge_entry_spec mode (a b d : list nat) (xb : mat V) N :
a ++ b ≡ₚ seq 0 N → length d = length a → Forall (λ j, j < length b) d →
length xb = N →
∃ src yb, gather_rows xb a = Some src ∧
  random_merge_entry a b d xb mode = Some yb ∧ length yb = length b ∧
  ∀ j p dj, b !! j = Some p → xb !! p = Some dj →
    yb !! j = Some (reduced mode dj (sent_to j d src)).
Proof.
intros Hp Hld Hd Hlx.
pose proof (perm_seq_bound _ _ Hp) as Hbd. apply Forall_app in Hbd as [Hba Hbb].
unfold random_merge_entry.
destruct (gather_rows_total xb a) as [src Hsrc]; [by rewrite Hlx|].
destruct (gather_rows_total xb b) as [dst Hdst]; [by rewrite Hlx|].
rewrite Hsrc, Hdst. cbn [mbind option_bind].
pose proof Hsrc as [Hlsrc _]%gather_rows_lookup.
pose proof Hdst as [Hldst Hpd]%gather_rows_lookup.
destruct (scatter_reduce_rows_spec mode dst d src) as (yb & Hyb & Hlyb & Hsp).
{ lia. } { by rewrite Hldst. }
exists src, yb. split; [done|]. split; [done|]. split; [lia|].
intros j p dj Hj Hpj. apply Hsp.
destruct (Hpd j p Hj) as (row & Hrow & Hxr). congruence.
Qed.

Lemma random_unmerge_entry_spec (a b d : list nat) (init yb : mat V) N :
a ++ b ≡ₚ seq 0 N → length d = length a → Forall (λ j, j < length b) d →
length init = N → length yb = length b →
∃ zb, random_unmerge_entry a b d init yb = Some zb ∧ length zb = N ∧
  (∀ j p, b !! j = Some p → zb !! p = yb !! j) ∧
  (∀ k p j, a !! k = Some p → d !! k = Some j → zb !! p = yb !! j).
Proof.
intros Hp Hld Hd Hli Hly.
assert (NoDup (a ++ b)) as Hnd by (rewrite Hp; apply NoDup_seq).
apply NoDup_app in Hnd as (Hnda & Hdisj & Hndb).
pose proof (perm_seq_bound _ _ Hp) as Hbd. apply Forall_app in Hbd as [Hba Hbb].
unfold random_unmerge_entry.
destruct (gather_rows_total yb d) as [src Hsrc]; [by rewrite Hly|].
rewrite Hsrc. cbn [mbind option_bind].
apply gather_rows_lookup in Hsrc as [Hlsrc Hps].
destruct (scatter_overwrite init a src) as (o1 & -> & Hlo1 & Hw1 & Hk1).
{ lia. } { by rewrite Hli. } { done. }
cbn [mbind option_bind].
destruct (scatter_overwrite o1 b yb) as (o2 & -> & Hlo2 & Hw2 & Hk2).
{ lia. } { by rewrite Hlo1, Hli. } { done. }
exists o2. split; [done|]. split; [lia|]. split.
- intros j p Hj. by apply Hw2.
- intros k p j Hk Hj. rewrite Hk2.
  + rewrite (Hw1 k p Hk). destruct (Hps k j Hj) as (row & -> & Hrow). done.
  + intros Hpb. eapply Hdisj; [|done]. by eapply list_elem_of_lookup_2.
Qed.

End RandomEntrySpec.

Section RandomRoundTrip.
Context {M V : Type} `{MetricOps M} `{ValueOps V}.

(** The round trip of the random strategy for [0 < r < N]: [merge]
    leaves [N - r] tokens, [unmerge] returns [N] tokens; every
    destination token (those of [b_idx]) holds the mean of itself and of
    the tokens merged into it (itself, divided by one, when there are
    none), and every merged token (those of [a_idx]) holds the row of
    its destination. *)
Theorem random_round_trip (metric : tensor M) (r : Z) (rand : mat M)
  (x : tensor V) B N :
0 < B → shaped B N metric → shaped B N rand → (0 < r < Z.of_nat N)%Z →
shaped B N x →
∃ a_idx b_idx dst_idx merge unmerge y z,
  random_indices metric r rand = Some (a_idx, b_idx, dst_idx) ∧
  random_idx_ok B (Z.to_nat r) N a_idx b_idx dst_idx ∧
  random_bipartite_soft_matching metric r rand = Some (merge, unmerge) ∧
  merge x Mean = Some y ∧ shaped B (N - Z.to_nat r) y ∧
  unmerge y = Some z ∧ shaped B N z ∧
  ∀ i xb zb a b d,
    x !! i = Some xb → z !! i = Some zb →
    a_idx !! i = Some a → b_idx !! i = Some b → dst_idx !! i = Some d →
    ∃ src, gather_rows xb a = Some src ∧
      (∀ j p dj, b !! j = Some p → xb !! p = Some dj →
         zb !! p = Some (reduced Mean dj (sent_to j d src))) ∧
      (∀ k p j q, a !! k = Some p → d !! k = Some j → b !! j = Some q →
         zb !! p = zb !! q) ∧
      ((∀ v : V, v_div v (v_of_nat 1) = v) →
       ∀ j p dj, b !! j = Some p → xb !! p = Some dj → j ∉ d →
         zb !! p = Some dj).
Proof.
intros HB Hm Hrand Hr Hx.
destruct (random_bipartite_soft_matching_env (V:=V) metric r rand B N HB Hm Hrand Hr)
  as (a_idx & b_idx & dst_idx & Hi & Hrs & Hok).
assert (∃ rn, r = Z.of_nat rn ∧ 0 < rn < N) as (rn & -> & Hrn).
{ exists (Z.to_nat r). lia. }
rewrite Nat2Z.id in *.
destruct (random_merge_entries B rn N a_idx b_idx dst_idx x Mean HB ltac:(lia) Hok Hx)
  as (y & Hy & Hys & Hpy).
destruct (random_unmerge_entries B rn N a_idx b_idx dst_idx y HB ltac:(lia) Hok Hys)
  as (z & Hz & Hzs & Hpz).
eexists a_idx, b_idx, dst_idx, _, _, y, z.
split; [done|]. split; [done|]. split; [exact Hrs|].
split; [done|]. split; [done|]. split; [done|]. split; [done|].
intros i xb zb a b d Hxb Hzb Hai Hbi Hdi.
assert (i < B) as HiB by (apply lookup_lt_Some in Hxb; destruct Hx; lia).
destruct (random_idx_lookup B rn N a_idx b_idx dst_idx i Hok HiB)
  as (a' & b' & d' & Hai' & Hbi' & Hdi' & Hla & Hlb & Hld & Hp & HFd).
assert (a' = a) as -> by congruence. assert (b' = b) as -> by congruence.
assert (d' = d) as -> by congruence.
destruct (Hpy i xb a b d Hxb Hai Hbi Hdi) as (yb & Hyb & Hmy).
destruct (Hpz i yb a b d Hyb Hai Hbi Hdi) as (zb' & Hzb' & Hmz).
assert (zb' = zb) as -> by congruence.
destruct (random_merge_entry_spec Mean a b d xb N) as (src & yb' & Hsrc & Hmy' & Hlyb & Hsp);
  [done|lia|by rewrite Hlb|exact (shaped_lookup _ _ _ _ _ Hx Hxb)|].
assert (yb' = yb) as -> by congruence.
destruct (random_unmerge_entry_spec a b d
            (replicate N (replicate (shape2 y) v_zero)) yb N)
  as (zb' & Hmz' & Hlzb & Hzb_b & Hzb_a);
  [done|lia|by rewrite Hlb|apply length_replicate|done|].
assert (zb' = zb) as -> by congruence.
exists src. split; [done|]. split; [|split].
- intros j p dj Hj Hpj. rewrite (Hzb_b j p Hj). by eapply Hsp.
- intros k p j q Hk Hj Hq. by rewrite (Hzb_a k p j Hk Hj), (Hzb_b j q Hq).
- intros Hdiv j p dj Hj Hpj Hnd. rewrite (Hzb_b j p Hj), (Hsp j p dj Hj Hpj).
  by rewrite sent_to_not_in, reduced_alone.
Qed.

End RandomRoundTrip.

Lemma rand4_shaped : shaped 1 4 rand4.
Proof. split; [done|]. repeat constructor. Qed.

(** ** The protected tokens *)

Section InsertLast.
Context {A : Type}.

Lemma insert_sorted_last (before : A → A → bool) a l :
Forall (λ b, before b a = true) l → insert_sorted before a l = l ++ [a].
Proof.
induction 1 as [|b l Hb _ IH]; [done|]. simpl. by rewrite Hb, IH.
Qed.

End InsertLast.

Section Protected.
Context {M : Type} `{MetricOps M}.

Lemma argsort_desc_last (k0 : M) (rest : list M) :
Forall (λ k, m_gtb k k0 = true) rest →
∃ l, argsort_desc (k0 :: rest) = l ++ [0] ∧ (0 ∉ l) ∧ length l = length rest.
Proof.
intros HF.
pose proof (argsort_by_perm m_gtb (k0 :: rest)) as Hperm.
unfold argsort_desc, argsort_by in *. cbn [imap isort foldr] in *.
set (bf := λ p q : nat * M, m_gtb p.2 q.2) in *.
set (tl := foldr (insert_sorted bf) [] (imap ((λ i k, (i, k)) ∘ S) rest)) in *.
assert (tl ≡ₚ imap ((λ i k, (i, k)) ∘ S) rest) as Hp by apply isort_perm.
assert (insert_sorted bf (0, k0) tl = tl ++ [(0, k0)]) as E.
{ apply insert_sorted_last. rewrite Hp. apply Forall_lookup. intros i [j k].
  rewrite list_lookup_imap. destruct (rest !! i) as [k'|] eqn:Hk; [|done].
  simpl. intros [= <- <-]. unfold bf. simpl.
  exact (Forall_lookup_1 _ _ _ _ HF Hk). }
rewrite E in *. rewrite fmap_app in *. simpl in *.
exists (tl.*1). split; [done|]. split.
- assert (NoDup (tl.*1 ++ [0])) as Hnd by (rewrite Hperm; apply (NoDup_seq 0 (S (length rest)))).
  apply NoDup_app in Hnd as (_ & Hd & _). intros Hin. apply (Hd 0 Hin). by left.
- apply Permutation_length in Hperm. rewrite length_app in Hperm.
  simpl in Hperm. rewrite length_seq in Hperm. lia.
Qed.

Lemma argmax_from_cases (l : list M) : ∀ best bi i,
argmax_from best bi i l = (best, bi) ∨
(i ≤ (argmax_from best bi i l).2 ∧ (argmax_from best bi i l).1 ∈ l).
Proof.
induction l as [|y l IH]; intros best bi i; simpl; [by left|].
destruct (m_gtb y best).
- right. destruct (IH y i (S i)) as [->|[Hi Hin]]; simpl.
  + split; [lia|by left].
  + split; [lia|by right].
- destruct (IH best bi (S i)) as [->|[Hi Hin]]; [by left|].
  right. split; [lia|by right].
Qed.

Lemma row_max_above (row : list M) :
row ≠ [] → Forall above_neg_inf row → above_neg_inf (row_max row).1.
Proof.
destruct row as [|y l]; [done|]. intros _ [Hy Hl]%Forall_cons. simpl.
destruct (argmax_from_cases l y 0 1) as [->|[_ Hin]]; [done|].
by eapply (proj1 (Forall_forall _ _) Hl).
Qed.

Lemma row_max_masked (rest : list M) :
rest ≠ [] → Forall above_neg_inf rest →
above_neg_inf (row_max (m_neg_inf :: rest)).1 ∧ (row_max (m_neg_inf :: rest)).2 ≠ 0.
Proof.
destruct rest as [|z l]; [done|]. intros _ [Hz Hl]%Forall_cons.
cbn [row_max argmax_from]. rewrite Hz.
destruct (argmax_from_cases l z 1 2) as [->|[Hi Hin]]; simpl.
- split; [done|lia].
- split; [|lia]. by eapply (proj1 (Forall_forall _ _) Hl).
Qed.

Lemma row_max_neg_inf (row : list M) :
(row_max ((λ _, m_neg_inf) <$> row)).1 = m_neg_inf ∧
(row_max (mask_first (λ _, m_neg_inf) ((λ _, m_neg_inf) <$> row))).1 = m_neg_inf.
Proof.
assert (∀ l : list M, Forall (λ s, s = m_neg_inf) l → (row_max l).1 = m_neg_inf) as Hg.
{ intros [|y l]; [done|]. intros [-> Hl]%Forall_cons. simpl.
  destruct (argmax_from_cases l m_neg_inf 0 1) as [->|[_ Hin]]; [done|].
  by eapply (proj1 (Forall_forall _ _) Hl). }
split; apply Hg.
- apply Forall_fmap. by apply Forall_true.
- destruct row as [|y l]; simpl; [done|]. constructor; [done|].
  apply Forall_fmap. by apply Forall_true.
Qed.

Lemma bipartite_indices_entries (metric : tensor M) (r' : Z) (ct dt : bool) e :
bipartite_indices metric r' ct dt = Some e →
∀ b s d, src_idx e !! b = Some s → dst_idx e !! b = Some d →
  ∃ Sb, masked ct dt (similarity (evens <$> normalize metric)
                                 (odds <$> normalize metric)) !! b = Some Sb ∧
        s = take (Z.to_nat r') (argsort_desc ((fst ∘ row_max) <$> Sb)) ∧
        gather_rows ((snd ∘ row_max) <$> Sb) s = Some d.
Proof.
unfold bipartite_indices, max_lastdim.
destruct (_ =? 0); [done|]. cbn [mbind option_bind fst snd].
change (if dt then mask_col0 (if ct then mask_row0 ?s else ?s)
        else (if ct then mask_row0 ?s else ?s)) with (masked ct dt s).
set (S := masked ct dt _).
destruct (gather _ _) as [dsti|] eqn:Hg; [|done]. cbn [mbind option_bind].
intros [= <-] b s d. cbn [src_idx dst_idx]. intros Hs Hd.
rewrite !list_lookup_fmap in Hs.
destruct (S !! b) as [Sb|] eqn:HSb; [|done]. simpl in Hs. injection Hs as <-.
exists Sb. split; [done|]. split; [done|].
unfold gather in Hg. destruct (_ <=? _); [|done].
apply mapM_lookup in Hg as [_ Hp].
destruct (Hp b ((snd ∘ row_max) <$> Sb,
                take (Z.to_nat r') (argsort_desc ((fst ∘ row_max) <$> Sb))))
  as (d' & Hd' & E).
{ apply lookup_zip_Some. rewrite !list_lookup_fmap, HSb. done. }
simpl in E. congruence.
Qed.

(** The rows of the masked scores of one batch entry. *)
Lemma masked_rows ct dt (scores : tensor M) b Sb :
masked ct dt scores !! b = Some Sb →
∃ S0, scores !! b = Some S0 ∧
  Sb = (if dt then fmap (mask_first (λ _, m_neg_inf)) else id)
         ((if ct then mask_first (fmap (M:=list) (λ _, m_neg_inf)) else id) S0).
Proof.
unfold masked, mask_row0, mask_col0.
destruct ct, dt; rewrite ?list_lookup_fmap;
  destruct (scores !! b) as [S0|]; try done; simpl; intros [= <-]; by exists S0.
Qed.

Lemma similarity_lookup (metric : tensor M) b S0 B N :
shaped B N metric →
similarity (evens <$> normalize metric) (odds <$> normalize metric) !! b = Some S0 →
length S0 = (N + 1) `div` 2 ∧ Forall (λ row, length row = N `div` 2) S0.
Proof.
intros Hm. unfold similarity. rewrite lookup_zip_with, !list_lookup_fmap.
destruct (normalize metric !! b) as [m|] eqn:Hmb; [|done]. simpl. intros [= <-].
pose proof (shaped_lookup _ _ _ _ _ (normalize_shaped B N metric Hm) Hmb) as Hl.
rewrite length_fmap, length_evens, Hl. split; [done|].
apply Forall_fmap, Forall_true. intros u. simpl. by rewrite length_fmap, length_odds, Hl.
Qed.

(** The masked rows and columns keep the protected tokens out of the
    indices of the merged tokens and of their destinations. *)
Lemma protected_indices (metric : tensor M) (r : Z) (ct dt : bool) B N :
0 < B → shaped B N metric → (0 < clamp N r ct dt)%Z →
Forall (Forall (Forall above_neg_inf))
  (similarity (evens <$> normalize metric) (odds <$> normalize metric)) →
∃ e, bipartite_indices metric (clamp N r ct dt) ct dt = Some e ∧
  (ct = true → ∀ b s, src_idx e !! b = Some s → 0 ∉ s) ∧
  (dt = true → ct = true ∨ 4 ≤ N → ∀ b d, dst_idx e !! b = Some d → 0 ∉ d).
Proof.
intros HB Hm Hr Hab.
destruct (bipartite_indices_ok metric (clamp N r ct dt) ct dt B N HB Hm)
  as (e & He & Hok & Hre & _); [by split; [|apply clamp_half]|].
exists e. split; [done|].
assert (∀ b s d, src_idx e !! b = Some s → dst_idx e !! b = Some d →
  ∃ S0, Forall (Forall above_neg_inf) S0 ∧ length S0 = (N + 1) `div` 2 ∧
    Forall (λ row, length row = N `div` 2) S0 ∧
    let Sb := (if dt then fmap (mask_first (λ _, m_neg_inf)) else id)
                ((if ct then mask_first (fmap (M:=list) (λ _, m_neg_inf)) else id) S0) in
    s = take (Z.to_nat (clamp N r ct dt)) (argsort_desc ((fst ∘ row_max) <$> Sb)) ∧
    gather_rows ((snd ∘ row_max) <$> Sb) s = Some d) as Hent.
{ intros b s d Hs Hd.
  destruct (bipartite_indices_entries metric _ ct dt e He b s d Hs Hd)
    as (Sb & HSb & Hss & Hgd).
  destruct (masked_rows ct dt _ b Sb HSb) as (S0 & HS0 & ->).
  destruct (similarity_lookup metric b S0 B N Hm HS0) as [Hl HF].
  exists S0. split; [exact (Forall_lookup_1 _ _ _ _ Hab HS0)|]. done. }
assert (2 ≤ N) as HN2.
{ pose proof (clamp_half N r ct dt). dlia. }
assert (ct = true → dt = true → 4 ≤ N) as Hboth.
{ intros -> ->. unfold clamp in Hr. simpl in Hr.
  assert (0 < (Z.of_nat N - 2) `div` 2)%Z as Hd by lia.
  destruct (decide (4 ≤ N)) as [?|Hn]; [done|]. exfalso.
  assert ((Z.of_nat N - 2) `div` 2 ≤ 0)%Z; [|lia].
  assert (Z.of_nat N - 2 < 2)%Z as Hlt by lia.
  destruct (decide (0 ≤ Z.of_nat N - 2)%Z).
  - rewrite Z.div_small; lia.
  - pose proof (Z.div_lt_upper_bound (Z.of_nat N - 2) 2 0). lia. }
(* the class token comes last in the order of the edges *)
assert (ct = true → ∀ b s d, src_idx e !! b = Some s → dst_idx e !! b = Some d →
          0 ∉ s) as Hsrc.
{ intros -> b s d Hs Hd.
  destruct (Hent b s d Hs Hd) as (S0 & HS0 & Hl & HF & Hss & _).
  cbv zeta in Hss.
  destruct S0 as [|row0 rows].
  { exfalso. cbn [length] in Hl. dlia. }
  apply Forall_cons in HS0 as [_ Hrows]. apply Forall_cons in HF as [_ HFr].
  set (f := if dt then mask_first (λ _ : M, m_neg_inf) else id) in *.
  assert (∃ k0 rest, (fst ∘ row_max) <$>
            (if dt then fmap (mask_first (λ _, m_neg_inf)) else id)
              (mask_first (fmap (M:=list) (λ _, m_neg_inf)) (row0 :: rows)) = k0 :: rest ∧
            k0 = m_neg_inf ∧ length rest = length rows ∧
            Forall above_neg_inf rest) as (k0 & rest & Hk & -> & Hlr & Hrest).
  { exists (row_max (f ((λ _, m_neg_inf) <$> row0))).1, ((fst ∘ row_max ∘ f) <$> rows).
    split; [|split; [|split]].
    - unfold f. destruct dt; simpl; [|done]. by rewrite <- list_fmap_compose.
    - unfold f. destruct dt; apply row_max_neg_inf.
    - by rewrite length_fmap.
    - apply Forall_fmap, Forall_lookup. intros i row Hrow. unfold compose.
      pose proof (Forall_lookup_1 _ _ _ _ Hrows Hrow) as Hra.
      pose proof (Forall_lookup_1 _ _ _ _ HFr Hrow) as Hrl. cbv beta in Hrl.
      unfold f. destruct dt.
      + pose proof (Hboth eq_refl eq_refl) as HN4.
        destruct row as [|y [|z row']]; cbn [length] in Hrl; [exfalso; dlia|exfalso; dlia|].
        apply Forall_cons in Hra as [_ Hra]. cbn [mask_first].
        by apply row_max_masked.
      + apply row_max_above; [|done]. destruct row; [|done].
        exfalso. cbn [length] in Hrl. dlia. }
  rewrite Hk in Hss.
  destruct (argsort_desc_last m_neg_inf rest Hrest) as (l & El & Hnl & Hll).
  rewrite El in Hss. rewrite Hss. rewrite take_app_le.
  - intros (i & Hi & _)%elem_of_take. apply Hnl. by eapply list_elem_of_lookup_2.
  - rewrite Hll, Hlr. cbn [length] in Hl.
    assert (clamp N r true dt ≤ (Z.of_nat N - 1) `div` 2)%Z as Hc.
    { unfold clamp. etrans; [apply Z.le_min_r|].
      apply Z.div_le_mono; [lia|]. destruct dt; lia. }
    dlia. }
split.
- intros Hct b s Hs.
  destruct (lookup_lt_is_Some_2 (dst_idx e) b) as [d Hd].
  { rewrite (ok_dst _ _ _ Hok), <- (ok_src _ _ _ Hok). by eapply lookup_lt_Some. }
  by eapply Hsrc.
- intros -> HN b d Hd.
  assert (4 ≤ N) as HN4 by (destruct HN as [->|?]; [by apply Hboth|done]).
  destruct (lookup_lt_is_Some_2 (src_idx e) b) as [s Hs].
  { rewrite (ok_src _ _ _ Hok), <- (ok_dst _ _ _ Hok). by eapply lookup_lt_Some. }
  destruct (Hent b s d Hs Hd) as (S0 & HS0 & Hl & HF & _ & Hgd).
  cbv beta iota zeta in Hgd. apply gather_rows_lookup in Hgd as [Hld Hpd].
  intros (k & Hk)%list_elem_of_lookup_1.
  destruct (lookup_lt_is_Some_2 s k) as [i Hi].
  { rewrite <- Hld. by eapply lookup_lt_Some. }
  destruct (Hpd k i Hi) as (j & Hj & Hrow). assert (j = 0) as -> by congruence.
  assert (ct = true → i ≠ 0) as Hi0.
  { intros Hct ->. eapply (Hsrc Hct b s d Hs Hd). by eapply list_elem_of_lookup_2. }
  assert (i < length S0) as HiS.
  { apply lookup_lt_Some in Hrow. rewrite !length_fmap in Hrow.
    destruct ct; [by rewrite length_mask_first in Hrow|done]. }
  destruct (lookup_lt_is_Some_2 S0 i HiS) as [row Hrow0].
  assert ((fmap (mask_first (λ _, m_neg_inf))
             ((if ct then mask_first (fmap (M:=list) (λ _, m_neg_inf)) else id) S0)) !! i
          = Some (mask_first (λ _, m_neg_inf) row)) as Hmrow.
  { rewrite list_lookup_fmap. destruct ct.
    - destruct S0 as [|row0 rows]; [done|].
      destruct i as [|i]; [by destruct (Hi0 eq_refl)|]. simpl. simpl in Hrow0.
      by rewrite Hrow0.
    - simpl. by rewrite Hrow0. }
  rewrite list_lookup_fmap in Hrow.
  rewrite Hmrow in Hrow. simpl in Hrow. injection Hrow as Hrow.
  pose proof (Forall_lookup_1 _ _ _ _ HS0 Hrow0) as Hra.
  pose proof (Forall_lookup_1 _ _ _ _ HF Hrow0) as Hrl. cbv beta in Hrl.
  destruct row as [|y [|z row']]; cbn [length] in Hrl; [exfalso; dlia|exfalso; dlia|].
  apply Forall_cons in Hra as [_ Hra]. cbn [mask_first] in Hrow.
  by destruct (row_max_masked (z :: row') ltac:(done) Hra) as [_ ?].
Qed.

(** The protected tokens.  When no score between two tokens is
    [-inf]: with [class_token] the class token (row 0 of the source
    side) is in no [src_idx]; with [distill_token] and at least four
    tokens (or with both flags) the distillation token (row 0 of the
    destination side) is in no [dst_idx]. *)
Theorem protected_tokens (metric : tensor M) (r : Z) (ct dt : bool) B N :
0 < B → shaped B N metric → (0 < clamp N r ct dt)%Z →
Forall (Forall (Forall above_neg_inf))
  (similarity (evens <$> normalize metric) (odds <$> normalize metric)) →
∃ e, bipartite_indices metric (clamp N r ct dt) ct dt = Some e ∧
  (ct = true → ∀ b s, src_idx e !! b = Some s → 0 ∉ s) ∧
  (dt = true → ct = true ∨ 4 ≤ N → ∀ b d, dst_idx e !! b = Some d → 0 ∉ d).
Proof. apply protected_indices. Qed.

End Protected.

Lemma metric6_shaped : shaped 1 6 metric6.
Proof. split; [done|]. repeat constructor. Qed.

Section ScoreCheck.
Context {M : Type} `{MetricOps M}.

Lemma forallb_Forall {A} (f : A → bool) (l : list A) :
forallb f l = true → Forall (λ a, f a = true) l.
Proof.
induction l as [|a l IH]; simpl; [done|].
intros [Ha Hl]%andb_true_iff. constructor; [done|by apply IH].
Qed.

Lemma all_above_neg_inf (scores : tensor M) :
forallb (forallb (forallb (λ s, m_gtb s m_neg_inf))) scores = true →
Forall (Forall (Forall above_neg_inf)) scores.
Proof.
intros Hs%forallb_Forall. eapply Forall_impl; [exact Hs|]. intros m.
intros Hm%forallb_Forall. eapply Forall_impl; [exact Hm|]. intros row.
apply forallb_Forall.
Qed.

End ScoreCheck.

Lemma metric6_scores :
Forall (Forall (Forall above_neg_inf))
  (similarity (evens <$> normalize metric6) (odds <$> normalize metric6)).
Proof. apply all_above_neg_inf. vm_compute. reflexivity. Qed.

(** ** Constructors that raise *)

Section ExpandEmpty.

Lemma expand_dim_nil_rows (want : Z) (l l' : index) :
Forall (λ r, r = []) l → expand_dim want l = Some l' → Forall (λ r, r = []) l'.
Proof.
intros HF. unfold expand_dim.
destruct (want =? -1)%Z; [by intros [= <-]|].
destruct (want <? 0)%Z; [done|].
destruct (Z.of_nat (length l) =? want)%Z; [by intros [= <-]|].
destruct l as [|b [|c l]]; try done. intros [= <-].
apply Forall_replicate. by apply Forall_cons in HF as [? _].
Qed.

Lemma expand_dim_nil (want : Z) (l' : list nat) :
(want ≤ 0)%Z → expand_dim want [] = Some l' → l' = [].
Proof.
intros Hw. unfold expand_dim.
destruct (want =? -1)%Z; [by intros [= <-]|].
destruct (want <? 0)%Z; [done|].
destruct (Z.of_nat (length (@nil nat)) =? want)%Z; [by intros [= <-]|]. done.
Qed.

Lemma expand_nil_rows (idx l : index) n k :
(k ≤ 0)%Z → Forall (λ r, r = []) idx → expand idx n k = Some l →
Forall (λ r, r = []) l.
Proof.
intros Hk HF. unfold expand.
destruct (expand_dim (Z.of_nat n) idx) as [l1|] eqn:H1; [|done].
cbn [mbind option_bind]. pose proof (expand_dim_nil_rows _ _ _ HF H1) as HF1.
intros [Hl Hp]%mapM_lookup. apply Forall_lookup. intros i r Hr.
destruct (lookup_lt_is_Some_2 l1 i) as [r1 Hr1].
{ rewrite <- Hl. by eapply lookup_lt_Some. }
destruct (Hp i r1 Hr1) as (r' & Hr' & E). assert (r' = r) as -> by congruence.
rewrite (Forall_lookup_1 _ _ _ _ HF1 Hr1) in E. by eapply expand_dim_nil.
Qed.

End ExpandEmpty.

Section Raises.
Context {M V : Type} `{MetricOps M} `{ValueOps V}.

Lemma gather_nil_rows {A} (x y : list (list A)) (idx : index) :
Forall (λ r, r = []) idx → gather x idx = Some y → Forall (λ m, m = []) y.
Proof.
intros HF. unfold gather. destruct (_ <=? _); [|done].
intros [Hl Hp]%mapM_lookup. apply Forall_lookup. intros i m Hm.
destruct (lookup_lt_is_Some_2 (zip x idx) i) as [[xb ib] Hz].
{ rewrite <- Hl. by eapply lookup_lt_Some. }
destruct (Hp i _ Hz) as (m' & Hm' & E). assert (m' = m) as -> by congruence.
apply lookup_zip_Some in Hz as [_ Hib]. simpl in E.
rewrite (Forall_lookup_1 _ _ _ _ HF Hib) in E. by injection E as <-.
Qed.

(** [random_bipartite_soft_matching] with a positive [r] that leaves no
    destination token ([r ≥ N]) raises: the scores have no column and
    [scores.max(dim=-1)] has nothing to reduce (when an earlier [expand]
    has not raised already). *)
Theorem random_without_destination_raises (metric : tensor M) (r : Z)
  (rand : mat M) B N :
0 < B → shaped B N metric → shaped B N rand → (0 < r)%Z → (Z.of_nat N ≤ r)%Z →
random_bipartite_soft_matching (V:=V) metric r rand = None.
Proof.
intros HB Hm Hrand Hr HN. unfold random_bipartite_soft_matching.
destruct (Z.leb_spec r 0) as [?|_]; [lia|].
assert (random_indices metric r rand = None) as ->; [|done].
unfold random_indices, random_split.
rewrite (shaped_shape1 B N metric HB Hm). unfold shape0.
destruct (Hm) as [Hlm _]. rewrite Hlm.
destruct (expand _ B r) as [i_a|]; [|done]. cbn [mbind option_bind].
destruct (gather _ i_a) as [a|]; [|done]. cbn [mbind option_bind].
destruct (expand _ B (Z.of_nat N - r)) as [i_b|] eqn:Hib; [|done].
cbn [mbind option_bind].
destruct (gather _ i_b) as [b|] eqn:Hb; [|done]. cbn [mbind option_bind fst snd].
assert (Forall (λ m : mat M, m = []) b) as Hbn.
{ eapply gather_nil_rows; [|exact Hb].
  eapply (expand_nil_rows _ _ B (Z.of_nat N - r)); [lia| |exact Hib].
  apply Forall_fmap, Forall_fmap, Forall_lookup. intros i keys Hk. simpl.
  apply drop_ge. unfold argsort_asc.
  rewrite argsort_by_perm, length_seq, (shaped_lookup _ _ _ _ _ Hrand Hk). lia. }
assert (shape1 b = 0) as ->; [|done].
destruct b as [|m b]; [done|]. by apply Forall_cons in Hbn as [-> _].
Qed.

(** [kth_bipartite_soft_matching] with [k] above the number of tokens
    raises: no group of [k] tokens is complete. *)
Theorem kth_without_group_raises (metric : tensor M) (k : Z) B N :
shaped B N metric → (1 < k)%Z → (Z.of_nat N < k)%Z →
kth_bipartite_soft_matching (V:=V) metric k = None.
Proof.
intros Hm Hk HN. unfold kth_bipartite_soft_matching.
destruct (Z.leb_spec k 1) as [?|_]; [lia|].
assert (kth_indices metric k = None) as ->; [|done].
unfold kth_indices, kth_split.
destruct (_ || _); [done|]. cbn [mbind option_bind fst snd].
assert (shape1 (normalize metric) `div` Z.to_nat k = 0) as ->.
{ apply Nat.div_small. destruct (normalize_shaped B N metric Hm) as [Hl HF].
  destruct (normalize metric) as [|m x]; simpl; [lia|].
  apply Forall_cons in HF as [-> _]. lia. }
cbn [groups_of Nat.mul]. unfold max_lastdim.
assert (shape1 ((λ gs : mat (list M), concat (drop (Z.to_nat k - 1) <$> gs)) <$>
                  ((λ m : mat M, @nil (mat M)) <$> normalize metric)) = 0) as ->; [|done].
by destruct (normalize metric).
Qed.

End Raises.

(** ** The mass of the random and of the k-th strategy *)

Section GroupsPerm.
Context {X : Type}.

Lemma concat_groups_of g k (l : list X) :
g * k ≤ length l → concat (groups_of g k l) = take (g * k) l.
Proof.
revert l. induction g as [|g IH]; intros l Hl; [done|].
cbn [groups_of concat]. rewrite IH by (rewrite length_drop; lia).
replace (S g * k) with (k + g * k) by lia. by rewrite take_take_drop.
Qed.

Lemma concat_take_drop_perm j (gs : list (list X)) :
concat (take j <$> gs) ++ concat (drop j <$> gs) ≡ₚ concat gs.
Proof.
induction gs as [|grp gs IH]; [done|]. simpl.
set (CA := concat (take j <$> gs)) in *. set (CB := concat (drop j <$> gs)) in *.
transitivity ((take j grp ++ drop j grp) ++ (CA ++ CB)).
- rewrite <- !(assoc_L (++)). apply Permutation_app_head.
  rewrite !(assoc_L (++)). apply Permutation_app_tail. apply Permutation_app_comm.
- by rewrite take_drop, IH.
Qed.

End GroupsPerm.

Lemma split_perm {X} g kn (m : mat X) :
g * kn ≤ length m → split_src g kn m ++ split_dst g kn m ≡ₚ take (g * kn) m.
Proof.
intros Hl. unfold split_src, split_dst. rewrite concat_take_drop_perm.
rewrite concat_groups_of by (rewrite length_take; lia).
by rewrite take_take, Nat.min_id.
Qed.

Section KthEntries.
Context {V : Type} `{ValueOps V}.

Lemma kth_merge_entries (k : Z) (dst_idx : index) (x : tensor V) mode B N C :
let kn := Z.to_nat k in
let g := N `div` kn in
0 < B → 0 < C → (2 ≤ k ≤ Z.of_nat N)%Z →
kth_idx_ok B (g * (kn - 1)) g dst_idx →
shaped B N x → rows_have C x →
∃ y, kth_merge k (g * (kn - 1)) dst_idx x mode = Some y ∧ shaped B g y ∧
  ∀ b xb d, x !! b = Some xb → dst_idx !! b = Some d →
    ∃ yb, y !! b = Some yb ∧
      scatter_reduce_rows mode (split_dst g kn xb) d (split_src g kn xb) = Some yb.
Proof.
intros kn g HB HC Hk [Hsi Hbi] Hx Hr.
destruct (kth_merge_spec k dst_idx x mode B N C HB HC Hk (conj Hsi Hbi) Hx Hr)
  as (y & Hy & Hys & _ & Hsc).
exists y. split; [done|]. split; [done|].
fold kn in Hsc. fold g in Hsc.
assert (g * kn ≤ N) as Hg by (unfold g; dlia).
assert (0 < kn) as Hkn by lia.
unfold scatter_reduce in Hsc.
destruct (scatter_batches_pointwise (scatter_reduce_rows mode)
  (split_dst g kn <$> x) dst_idx (split_src g kn <$> x)) as (y' & Hy' & Hly & Hpy).
{ rewrite length_fmap. destruct Hsi, Hx. lia. }
{ by rewrite !length_fmap. }
{ intros b o i s. rewrite !list_lookup_fmap.
  destruct (x !! b) as [xb|] eqn:Hxb; [|done]. simpl. intros [= <-] Hi [= <-].
  pose proof (shaped_lookup _ _ _ _ _ Hx Hxb) as Hlxb.
  apply scatter_reduce_rows_total.
  - rewrite split_src_length by lia. by rewrite (shaped_lookup _ _ _ _ _ Hsi Hi).
  - rewrite split_dst_length by lia. by eapply (Forall_lookup_1 _ dst_idx). }
assert (y' = y) as -> by congruence.
intros b xb d Hxb Hd.
apply (Hpy b (split_dst g kn xb) d (split_src g kn xb)); [|done|];
  by rewrite list_lookup_fmap, Hxb.
Qed.

End KthEntries.

Section MoreMass.
Context {M V : Type} `{MetricOps M} `{ValueOps V}.
Hypothesis add_comm : ∀ a b : V, v_add a b = v_add b a.
Hypothesis add_assoc : ∀ a b c : V, v_add a (v_add b c) = v_add (v_add a b) c.
Hypothesis add_0_l : ∀ a : V, v_add v_zero a = a.

Lemma scatter_sum_total C (dst src out : mat V) (d : list nat) :
length src = length d →
Forall (λ row, length row = C) dst → Forall (λ row, length row = C) src →
scatter_reduce_rows Sum dst d src = Some out →
row_total C out = row_total C (src ++ dst).
Proof.
intros Hl Hd Hs. unfold scatter_reduce_rows. cbn [reduce_op].
destruct (scatter_rows (zip_with v_add) dst d src) as [o|] eqn:Ho; [|done].
cbn [mbind option_bind]. intros [= <-].
rewrite (scatter_rows_total add_comm add_assoc add_0_l C d dst src o Hl Hd Hs Ho).
rewrite (row_total_app add_assoc add_0_l) by done.
apply (rows_add_comm add_comm).
Qed.

Lemma random_merge_entry_total C (a b d : list nat) (xb yb : mat V) :
a ++ b ≡ₚ seq 0 (length xb) → length d = length a →
Forall (λ row, length row = C) xb →
random_merge_entry a b d xb Sum = Some yb →
row_total C yb = row_total C xb.
Proof.
intros Hp Hld Hx. unfold random_merge_entry.
destruct (gather_rows xb a) as [src|] eqn:Hs; [|done].
destruct (gather_rows xb b) as [dst|] eqn:Hd; [|done].
cbn [mbind option_bind]. intros Hy.
rewrite (scatter_sum_total C dst src yb d); [| | | |exact Hy].
- apply (row_total_perm add_comm add_assoc). by eapply gather_cover.
- apply gather_rows_lookup in Hs as [-> _]. done.
- by eapply gather_rows_Forall.
- by eapply gather_rows_Forall.
Qed.

(** [merge(x, mode="sum")] of the random strategy conserves the total
    mass in exact arithmetic: in every batch entry the [N - r] output
    rows sum to what the [N] input rows sum to. *)
Theorem random_sum_conserves_mass (metric : tensor M) (r : Z) (rand : mat M)
  (x : tensor V) B N C :
0 < B → shaped B N metric → shaped B N rand → (0 < r < Z.of_nat N)%Z →
shaped B N x → rows_have C x →
∃ merge unmerge y,
  random_bipartite_soft_matching metric r rand = Some (merge, unmerge) ∧
  merge x Sum = Some y ∧ shaped B (N - Z.to_nat r) y ∧
  ∀ b xb yb, x !! b = Some xb → y !! b = Some yb →
             row_total C yb = row_total C xb.
Proof.
intros HB Hm Hrand Hr Hx Hxr.
destruct (random_bipartite_soft_matching_env (V:=V) metric r rand B N HB Hm Hrand Hr)
  as (a_idx & b_idx & dst_idx & _ & Hrs & Hok).
assert (∃ rn, r = Z.of_nat rn ∧ 0 < rn < N) as (rn & -> & Hrn).
{ exists (Z.to_nat r). lia. }
rewrite Nat2Z.id in *.
destruct (random_merge_entries B rn N a_idx b_idx dst_idx x Sum HB ltac:(lia) Hok Hx)
  as (y & Hy & Hys & Hpy).
eexists _, _, y. split; [exact Hrs|]. split; [done|]. split; [done|].
intros b xb yb Hxb Hyb.
assert (b < B) as Hb by (apply lookup_lt_Some in Hxb; destruct Hx; lia).
destruct (random_idx_lookup B rn N a_idx b_idx dst_idx b Hok Hb)
  as (a & bi & d & Hai & Hbi & Hdi & Hla & Hlb & Hld & Hp & _).
destruct (Hpy b xb a bi d Hxb Hai Hbi Hdi) as (yb' & Hyb' & E).
assert (yb' = yb) as -> by congruence.
eapply random_merge_entry_total; [| | |exact E].
- by rewrite (shaped_lookup _ _ _ _ _ Hx Hxb).
- lia.
- exact (Forall_lookup_1 _ _ _ _ Hxr Hxb).
Qed.

(** [merge(x, mode="sum")] of the k-th strategy conserves the mass of
    the tokens it reads, in exact arithmetic: the [⌊N/k⌋] output rows
    sum to what the first [⌊N/k⌋·k] input rows sum to; what the
    trailing rows hold is lost. *)
Theorem kth_sum_conserves_kept_mass (metric : tensor M) (k : Z)
  (x : tensor V) B N C C' :
0 < B → 0 < C → 0 < C' → shaped B N metric → rows_have C metric →
(2 ≤ k ≤ Z.of_nat N)%Z → shaped B N x → rows_have C' x →
∃ merge unmerge y,
  kth_bipartite_soft_matching metric k = Some (merge, unmerge) ∧
  merge x Sum = Some y ∧ shaped B (N `div` Z.to_nat k) y ∧
  ∀ b xb yb, x !! b = Some xb → y !! b = Some yb →
    row_total C' yb = row_total C' (take (N `div` Z.to_nat k * Z.to_nat k) xb).
Proof.
intros HB HC HC' Hm Hmr Hk Hx Hxr.
destruct (kth_bipartite_soft_matching_ok (V:=V) metric k B N C HB HC Hm Hmr Hk)
  as (dst_idx & Hks & Hidx).
destruct (kth_merge_entries k dst_idx x Sum B N C' HB HC' Hk Hidx Hx Hxr)
  as (y & Hy & Hys & Hpy).
eexists _, _, y. split; [exact Hks|]. split; [done|]. split; [done|].
intros b xb yb Hxb Hyb.
set (kn := Z.to_nat k) in *. set (g := N `div` kn) in *.
assert (g * kn ≤ N) as Hg by (unfold g; dlia).
assert (0 < kn) as Hkn by lia.
destruct Hidx as [Hsi Hbi].
destruct (lookup_lt_is_Some_2 dst_idx b) as [d Hd].
{ apply lookup_lt_Some in Hxb. destruct Hsi, Hx. lia. }
destruct (Hpy b xb d Hxb Hd) as (yb' & Hyb' & E).
assert (yb' = yb) as -> by congruence.
pose proof (shaped_lookup _ _ _ _ _ Hx Hxb) as Hlxb.
pose proof (Forall_lookup_1 _ _ _ _ Hxr Hxb) as Hrows.
rewrite (scatter_sum_total C' (split_dst g kn xb) (split_src g kn xb) yb d);
  [| | | |exact E].
- apply (row_total_perm add_comm add_assoc). apply split_perm. lia.
- rewrite split_src_length by lia. by rewrite (shaped_lookup _ _ _ _ _ Hsi Hd).
- by apply split_dst_Forall.
- by apply split_src_Forall.
Qed.

End MoreMass.

Lemma ramp4_shaped : shaped 1 4 ramp4.
Proof. split; [done|]. repeat constructor. Qed.

Lemma ramp4_rows : rows_have 1 ramp4.
Proof. repeat constructor. Qed.

Lemma metric4_rows : rows_have 2 metric4.
Proof. repeat constructor. Qed.

(** ** The round trip of the k-th strategy *)

Section GroupLookup.
Context {X : Type}.

Lemma groups_of_lookup g k (l : list X) q :
q < g → groups_of g k l !! q = Some (take k (drop (q * k) l)).
Proof.
revert l q. induction g as [|g IH]; intros l q Hq; [lia|].
destruct q as [|q]; cbn [groups_of]; [done|].
rewrite lookup_cons_ne_0 by done. simpl Nat.pred.
rewrite IH by lia. by rewrite drop_drop.
Qed.

Lemma concat_uniform_lookup c (ls : list (list X)) q p :
Forall (λ l, length l = c) ls → p < c →
concat ls !! (q * c + p) = ls !! q ≫= (λ l, l !! p).
Proof.
revert q. induction ls as [|l ls IH]; intros q HF Hp.
- by rewrite !lookup_nil.
- apply Forall_cons in HF as [Hl HF]. destruct q as [|q]; simpl.
  + rewrite lookup_app_l by lia. done.
  + rewrite lookup_app_r by lia. rewrite <- IH by done. f_equal. lia.
Qed.

End GroupLookup.

Section SplitLookup.
Context {X : Type}.

Lemma split_src_lookup g kn (m : mat X) q p :
g * kn ≤ length m → q < g → p < kn - 1 →
split_src g kn m !! (q * (kn - 1) + p) = m !! (q * kn + p).
Proof.
intros Hl Hq Hp. unfold split_src.
rewrite (concat_uniform_lookup (kn - 1)); [| |done].
- rewrite list_lookup_fmap, groups_of_lookup by done. simpl.
  rewrite lookup_take_lt by done.
  rewrite lookup_take_lt by lia.
  rewrite lookup_drop. apply lookup_take_lt.
  pose proof (Nat.mul_le_mono_r (S q) g kn ltac:(lia)). lia.
- apply Forall_fmap. eapply Forall_impl.
  { apply groups_of_full. rewrite length_take. lia. }
  intros grp Hgrp. unfold compose. cbv beta in Hgrp |- *. rewrite length_take. lia.
Qed.

Lemma split_dst_lookup g kn (m : mat X) j :
g * kn ≤ length m → 0 < kn → j < g →
split_dst g kn m !! j = m !! (j * kn + (kn - 1)).
Proof.
intros Hl Hkn Hj. unfold split_dst.
replace j with (j * 1 + 0) at 1 by lia.
rewrite (concat_uniform_lookup 1); [| |lia].
- rewrite list_lookup_fmap, groups_of_lookup by done. simpl.
  rewrite lookup_drop, Nat.add_0_r. rewrite lookup_take_lt by lia.
  rewrite lookup_drop. apply lookup_take_lt.
  pose proof (Nat.mul_le_mono_r (S j) g kn ltac:(lia)). lia.
- apply Forall_fmap. eapply Forall_impl.
  { apply groups_of_full. rewrite length_take. lia. }
  intros grp Hgrp. unfold compose. cbv beta in Hgrp |- *. rewrite length_drop. lia.
Qed.

End SplitLookup.

Section KthRoundTrip.
Context {M V : Type} `{MetricOps M} `{ValueOps V}.

Lemma kth_unmerge_entries (k : Z) (dst_idx : index) (y : tensor V) B g C :
let kn := Z.to_nat k in
0 < B → 0 < C → 0 < g → (2 ≤ k)%Z →
kth_idx_ok B (g * (kn - 1)) g dst_idx →
shaped B g y → rows_have C y →
∃ z, kth_unmerge k (g * (kn - 1)) dst_idx y = Some z ∧ shaped B (g * kn) z ∧
  ∀ b yb d, y !! b = Some yb → dst_idx !! b = Some d →
    ∃ zb, z !! b = Some zb ∧ kth_unmerge_entry kn g d yb = Some zb.
Proof.
intros kn HB HC Hg Hk Hidx Hy Hr.
destruct (kth_unmerge_spec k dst_idx y B g C HB HC Hg Hk Hidx Hy Hr) as (z & Hz & Hzs).
exists z. split; [done|]. split; [done|].
destruct Hidx as [Hsi Hbi].
unfold kth_unmerge in Hz. fold kn in Hz.
unfold shape0 in Hz. destruct (Hy) as [Hly HFy]. rewrite Hly in Hz.
rewrite (expand_same dst_idx B) in Hz by apply Hsi.
cbn [mbind option_bind] in Hz.
destruct (gather_batch y dst_idx) as (src & Hsrc & Hlsrc & Hpsrc).
{ destruct Hsi. lia. }
{ intros b m i Hm Hi. rewrite (shaped_lookup _ _ _ _ _ Hy Hm).
  exact (Forall_lookup_1 _ _ _ _ Hbi Hi). }
rewrite Hsrc in Hz. cbn [mbind option_bind] in Hz.
rewrite (shaped_shape2 B g C y HB Hg Hy Hr), (shaped_shape1 B g y HB Hy) in Hz.
destruct (Nat.eqb_spec B 0) as [?|_]; [lia|].
destruct (Nat.eqb_spec C 0) as [?|_]; [lia|]. cbn [orb] in Hz.
assert (0 < kn - 1) as Hkn by lia.
rewrite Nat.div_mul in Hz by lia. rewrite Nat.eqb_refl in Hz.
injection Hz as <-.
intros b yb d Hyb Hd.
destruct (Hpsrc b yb d Hyb Hd) as (sb & Hsb & Hgb).
rewrite lookup_zip_with, list_lookup_fmap, Hsb, Hyb. cbn [fmap option_fmap option_map mbind option_bind].
eexists. split; [done|]. unfold kth_unmerge_entry. by rewrite Hgb.
Qed.

Lemma kth_unmerge_entry_spec (kn g : nat) (d : list nat) (yb : mat V) :
1 < kn → length d = g * (kn - 1) → Forall (λ j, j < g) d → length yb = g →
∃ zb, kth_unmerge_entry kn g d yb = Some zb ∧ length zb = g * kn ∧
  (∀ j, j < g → zb !! (j * kn + (kn - 1)) = yb !! j) ∧
  (∀ q p, q < g → p < kn - 1 →
     ∃ j, d !! (q * (kn - 1) + p) = Some j ∧ zb !! (q * kn + p) = yb !! j).
Proof.
intros Hkn Hld HFd Hly. unfold kth_unmerge_entry.
destruct (gather_rows_total yb d) as [src Hsrc]; [by rewrite Hly|].
rewrite Hsrc. cbn [mbind option_bind].
apply gather_rows_lookup in Hsrc as [Hlsrc Hps].
set (gs := zip_with (λ (grp : mat V) row, grp ++ [row]) (groups_of g (kn - 1) src) yb).
assert (Forall (λ l, length l = kn) gs) as Hgs.
{ apply Forall_lookup. intros j row. unfold gs. rewrite lookup_zip_with.
  destruct (groups_of g (kn - 1) src !! j) as [grp|] eqn:Hgrp; [|done].
  destruct (yb !! j) as [r0|]; [|done]. simpl. intros [= <-].
  rewrite length_app. simpl.
  pose proof (groups_of_full g (kn - 1) src ltac:(lia)) as Hfull.
  pose proof (Forall_lookup_1 _ _ _ _ Hfull Hgrp) as Hl. cbv beta in Hl. lia. }
assert (∀ q, q < g → ∃ r0, yb !! q = Some r0 ∧
          gs !! q = Some (take (kn - 1) (drop (q * (kn - 1)) src) ++ [r0])) as Hq.
{ intros q Hq. destruct (lookup_lt_is_Some_2 yb q) as [r0 Hr0]; [lia|].
  exists r0. split; [done|]. unfold gs.
  by rewrite lookup_zip_with, groups_of_lookup, Hr0. }
eexists. split; [done|]. split.
{ rewrite (length_concat_uniform kn) by done. unfold gs.
  rewrite length_zip_with, length_groups_of. lia. }
split.
- intros j Hj. destruct (Hq j Hj) as (r0 & Hr0 & Hgj).
  rewrite (concat_uniform_lookup kn) by (done || lia).
  rewrite Hgj. cbn [mbind option_bind]. rewrite lookup_app_r.
  + rewrite length_take, length_drop.
    assert (S j * (kn - 1) ≤ g * (kn - 1)) by (apply Nat.mul_le_mono_r; lia).
    replace (kn - 1 - (kn - 1) `min` (length src - j * (kn - 1))) with 0 by lia.
    by rewrite Hr0.
  + rewrite length_take. lia.
- intros q p Hq' Hp. destruct (Hq q Hq') as (r0 & Hr0 & Hgq).
  assert (S q * (kn - 1) ≤ g * (kn - 1)) by (apply Nat.mul_le_mono_r; lia).
  destruct (lookup_lt_is_Some_2 d (q * (kn - 1) + p)) as [j Hj]; [lia|].
  exists j. split; [done|].
  rewrite (concat_uniform_lookup kn) by (done || lia).
  rewrite Hgq. cbn [mbind option_bind]. rewrite lookup_app_l.
  + rewrite lookup_take_lt by done. rewrite lookup_drop.
    destruct (Hps _ _ Hj) as (row & -> & Hrow). done.
  + rewrite length_take, length_drop. lia.
Qed.

(** The round trip of the k-th strategy for [2 ≤ k ≤ N]:
    [unmerge(merge(x, mode))] has [⌊N/k⌋·k] tokens; in every group of
    [k] tokens the last one holds the reduction of itself and of the
    tokens merged into it, and each of the first [k-1] holds the row of
    the group's last token it was merged into. *)
Theorem kth_round_trip (metric : tensor M) (k : Z) (x : tensor V) mode B N C C' :
let kn := Z.to_nat k in
let g := N `div` kn in
0 < B → 0 < C → 0 < C' → shaped B N metric → rows_have C metric →
(2 ≤ k ≤ Z.of_nat N)%Z → shaped B N x → rows_have C' x →
∃ dst_idx merge unmerge y z,
  kth_indices metric k = Some (g * (kn - 1), dst_idx) ∧
  kth_bipartite_soft_matching metric k = Some (merge, unmerge) ∧
  merge x mode = Some y ∧ shaped B g y ∧
  unmerge y = Some z ∧ shaped B (g * kn) z ∧
  ∀ b xb zb d, x !! b = Some xb → z !! b = Some zb → dst_idx !! b = Some d →
    (∀ j dj, j < g → xb !! (j * kn + (kn - 1)) = Some dj →
       zb !! (j * kn + (kn - 1))
       = Some (reduced mode dj (sent_to j d (split_src g kn xb)))) ∧
    (∀ q p, q < g → p < kn - 1 →
       ∃ j, d !! (q * (kn - 1) + p) = Some j ∧ j < g ∧
            zb !! (q * kn + p) = zb !! (j * kn + (kn - 1))).
Proof.
intros kn g HB HC HC' Hm Hmr Hk Hx Hxr.
destruct (kth_bipartite_soft_matching_env (V:=V) metric k B N C HB HC Hm Hmr Hk)
  as (dst_idx & Hi & Hks & Hidx).
fold kn in Hi, Hks, Hidx. fold g in Hi, Hks, Hidx.
assert (0 < g) as Hg by (unfold g, kn; dlia).
assert (g * kn ≤ N) as Hgk by (unfold g; dlia).
assert (1 < kn) as Hkn by lia.
destruct (kth_merge_spec k dst_idx x mode B N C' HB HC' Hk Hidx Hx Hxr)
  as (y & Hy & Hys & Hyr & _).
destruct (kth_merge_entries k dst_idx x mode B N C' HB HC' Hk Hidx Hx Hxr)
  as (y' & Hy' & _ & Hpy).
fold kn in Hy, Hy', Hpy. fold g in Hy, Hy', Hpy, Hys.
assert (y' = y) as -> by congruence.
destruct (kth_unmerge_entries k dst_idx y B g C' HB HC' Hg ltac:(lia) Hidx Hys Hyr)
  as (z & Hz & Hzs & Hpz).
fold kn in Hz, Hzs, Hpz.
eexists dst_idx, _, _, y, z. split; [done|]. split; [exact Hks|].
split; [done|]. split; [done|]. split; [done|]. split; [done|].
intros b xb zb d Hxb Hzb Hd.
destruct Hidx as [Hsi Hbi].
pose proof (shaped_lookup _ _ _ _ _ Hx Hxb) as Hlxb.
pose proof (shaped_lookup _ _ _ _ _ Hsi Hd) as Hld.
pose proof (Forall_lookup_1 _ _ _ _ Hbi Hd) as HFd.
destruct (Hpy b xb d Hxb Hd) as (yb & Hyb & Hmy).
destruct (Hpz b yb d Hyb Hd) as (zb' & Hzb' & Hmz).
assert (zb' = zb) as -> by congruence.
destruct (scatter_reduce_rows_spec mode (split_dst g kn xb) d (split_src g kn xb))
  as (yb' & Hmy' & Hlyb & Hsp).
{ rewrite split_src_length by lia. lia. }
{ by rewrite split_dst_length by lia. }
assert (yb' = yb) as -> by congruence.
rewrite split_dst_length in Hlyb by lia.
destruct (kth_unmerge_entry_spec kn g d yb Hkn Hld HFd Hlyb)
  as (zb' & Hmz' & Hlzb & Hz1 & Hz2).
assert (zb' = zb) as -> by congruence.
split.
- intros j dj Hj Hdj. rewrite (Hz1 j Hj). apply Hsp.
  by rewrite split_dst_lookup by lia.
- intros q p Hq Hp. destruct (Hz2 q p Hq Hp) as (j & Hj & Hzq).
  pose proof (Forall_lookup_1 _ _ _ _ HFd Hj) as Hjg. cbv beta in Hjg.
  exists j. split; [done|]. split; [done|]. by rewrite Hzq, (Hz1 j Hjg).
Qed.

End KthRoundTrip.

(** ** The k-th strategy with k = 2 and the bipartite strategy *)

Section FoldPerm.
Context {A B : Type}.

Lemma foldl_right_comm_perm (f : A → B → A) (l l' : list B) :
(∀ a b c, f (f a b) c = f (f a c) b) → l ≡ₚ l' → ∀ a, foldl f a l = foldl f a l'.
Proof.
intros Hf Hp. induction Hp as [|b l l' _ IH|b c l|l l' l'' _ IH1 _ IH2]; intros a; simpl.
- done.
- apply IH.
- by rewrite Hf.
- by rewrite IH1, IH2.
Qed.

Lemma zip_fmap_same {C} (f : C → A) (h : C → B) (l : list C) :
zip (f <$> l) (h <$> l) = (λ i, (f i, h i)) <$> l.
Proof. induction l as [|c l IH]; simpl; [done|]. f_equal. exact IH. Qed.

End FoldPerm.

Section SentPerm.
Context {A : Type}.

Lemma sent_to_gather_perm (j g : nat) (ni : list nat) (ev : list A)
  (σ d : list nat) (src : list A) :
length ni = g → length ev = g → σ ≡ₚ seq 0 g →
gather_rows ni σ = Some d → gather_rows ev σ = Some src →
sent_to j d src ≡ₚ sent_to j ni ev.
Proof.
intros Hni Hev Hσ Hd Hsrc. destruct ev as [|a0 ev0] eqn:Eev.
{ simpl in Hev. destruct ni as [|n ni]; [|simpl in Hni; lia].
  rewrite <- Hev in Hσ. simpl in Hσ. apply Permutation_nil_r in Hσ. subst σ.
  cbv in Hd, Hsrc. by simplify_eq. }
rewrite <- Eev in *. clear Eev ev0.
rewrite (gather_rows_fmap _ _ _ 0 Hd), (gather_rows_fmap _ _ _ a0 Hsrc).
unfold sent_to. rewrite zip_fmap_same.
assert (zip ni ev = (λ i, (default 0 (ni !! i), default a0 (ev !! i))) <$> seq 0 g) as ->.
{ apply list_eq. intros i. rewrite list_lookup_fmap.
  destruct (decide (i < g)) as [Hi|Hi].
  - rewrite lookup_seq_lt by done. simpl.
    destruct (lookup_lt_is_Some_2 ni i) as [n Hn]; [lia|].
    destruct (lookup_lt_is_Some_2 ev i) as [a Ha]; [lia|].
    rewrite Hn, Ha. simpl. apply lookup_zip_Some. done.
  - rewrite lookup_seq_ge by lia. simpl. apply lookup_ge_None.
    rewrite length_zip. lia. }
by rewrite Hσ.
Qed.

End SentPerm.

Section ReducedPerm.
Context {V : Type} `{ValueOps V}.

Lemma zip_with_right_comm (op : V → V → V) :
(∀ a b c, op (op a b) c = op (op a c) b) →
∀ a b c : list V,
  zip_with op (zip_with op a b) c = zip_with op (zip_with op a c) b.
Proof.
intros Hop a. induction a as [|x a IH]; intros [|y b] [|z c]; simpl; try done.
by rewrite Hop, IH.
Qed.

Lemma reduced_perm mode (dj : list V) (rows rows' : mat V) :
(∀ a b c : V, reduce_op mode (reduce_op mode a b) c
              = reduce_op mode (reduce_op mode a c) b) →
rows ≡ₚ rows' → reduced mode dj rows = reduced mode dj rows'.
Proof.
intros Hop Hp. unfold reduced.
rewrite (foldl_right_comm_perm _ rows rows' (zip_with_right_comm _ Hop) Hp).
by rewrite (Permutation_length Hp).
Qed.

End ReducedPerm.

Section SplitTwo.
Context {X : Type}.

Lemma split_src_two g (m : mat X) : length m = 2 * g → split_src g 2 m = evens m.
Proof.
intros Hl. apply list_eq. intros i. destruct (decide (i < g)) as [Hi|Hi].
- replace i with (i * (2 - 1) + 0) at 1 by lia.
  rewrite split_src_lookup by lia. rewrite evens_lookup. f_equal. lia.
- rewrite !(proj2 (lookup_ge_None _ _)); [done| |].
  + rewrite length_evens. dlia.
  + rewrite split_src_length by lia. lia.
Qed.

Lemma split_dst_two g (m : mat X) : length m = 2 * g → split_dst g 2 m = odds m.
Proof.
intros Hl. apply list_eq. intros i. destruct (decide (i < g)) as [Hi|Hi].
- rewrite split_dst_lookup by lia. rewrite odds_lookup. f_equal. lia.
- rewrite !(proj2 (lookup_ge_None _ _)); [done| |].
  + rewrite length_odds. dlia.
  + rewrite split_dst_length by lia. lia.
Qed.

End SplitTwo.

Section KthTwo.
Context {M V : Type} `{MetricOps M} `{ValueOps V}.

Lemma kth_indices_eq (metric : tensor M) (k : Z) B N C :
let kn := Z.to_nat k in
let g := N `div` kn in
0 < B → 0 < C → shaped B N metric → rows_have C metric →
(2 ≤ k ≤ Z.of_nat N)%Z →
kth_indices metric k
= Some (g * (kn - 1),
        fmap (M:=list) (snd ∘ row_max) <$>
          similarity (split_src g kn <$> normalize metric)
                     (split_dst g kn <$> normalize metric)).
Proof.
intros kn g HB HC Hm Hr Hk. unfold kth_indices.
assert (0 < g) as Hg by (unfold g, kn; dlia).
assert (g * kn ≤ N) as Hgk by (unfold g; dlia).
assert (0 < N) as HN by lia.
pose proof (normalize_shaped B N metric Hm) as Hn.
pose proof (normalize_rows_have C metric Hr) as Hnr.
rewrite (kth_split_shaped k _ B N C) by (done || lia).
cbn [mbind option_bind fst snd]. fold kn. fold g.
assert (shaped B (g * (kn - 1)) (split_src g kn <$> normalize metric)) as Ha.
{ eapply shaped_fmap; [|done]. intros m Hl. apply split_src_length; lia. }
assert (shaped B g (split_dst g kn <$> normalize metric)) as Hb.
{ eapply shaped_fmap; [|done]. intros m Hl. apply split_dst_length; lia. }
rewrite (shaped_shape1 B _ _ HB Ha), (shaped_shape1 B _ _ HB Hb).
unfold max_lastdim. destruct (Nat.eqb_spec g 0) as [?|_]; [lia|]. done.
Qed.

Lemma normalize_split_two (metric : tensor M) B g :
shaped B (2 * g) metric →
split_src g 2 <$> normalize metric = evens <$> normalize metric ∧
split_dst g 2 <$> normalize metric = odds <$> normalize metric.
Proof.
intros Hm. pose proof (normalize_shaped B _ metric Hm) as [_ HF].
split; apply list_fmap_ext; intros i m Hi;
  pose proof (Forall_lookup_1 _ _ _ _ HF Hi) as Hl; cbv beta in Hl.
- by apply split_src_two.
- by apply split_dst_two.
Qed.

(** The docstring of [kth_bipartite_soft_matching]: "z = 2 is equivalent
    to regular bipartite_soft_matching with r = 0.5 * N".  For an even
    number of tokens [N = 2g], no protected token and [r ≥ g]: the two
    [unmerge] functions agree, and the two [merge] functions agree in
    every mode whose reduction does not depend on the order of the
    rows merged into a token (the bipartite strategy folds them in the
    order of their scores, the k-th one in the order of the tokens). *)
Theorem kth_two_is_bipartite_half (metric : tensor M) (r : Z) B g C :
0 < B → 0 < C → 0 < g → shaped B (2 * g) metric → rows_have C metric →
(Z.of_nat g ≤ r)%Z →
∃ m1 u1 m2 u2,
  bipartite_soft_matching (V:=V) metric r false false = Some (m1, u1) ∧
  kth_bipartite_soft_matching (V:=V) metric 2 = Some (m2, u2) ∧
  (∀ mode (x : tensor V) C',
     0 < C' → shaped B (2 * g) x → rows_have C' x →
     (∀ a b c : V, reduce_op mode (reduce_op mode a b) c
                   = reduce_op mode (reduce_op mode a c) b) →
     ∃ y, m1 x mode = Some y ∧ m2 x mode = Some y ∧ shaped B g y) ∧
  (∀ (y : tensor V) C',
     0 < C' → shaped B g y → rows_have C' y →
     ∃ z, u1 y = Some z ∧ u2 y = Some z ∧ shaped B (2 * g) z).
Proof.
intros HB HC Hg Hm Hmr Hr.
set (N := 2 * g) in *.
assert (clamp N r false false = Z.of_nat g) as Hclamp.
{ unfold clamp, N. dlia. }
assert (N `div` 2 = g ∧ (N + 1) `div` 2 = g) as [HN2 HN2'] by (unfold N; dlia).
destruct (bipartite_soft_matching_env (V:=V) metric r false false B N HB Hm)
  as (e & Hi & Hbs & Hok & Hre & Hdt); [lia|].
rewrite Hclamp in Hi, Hre.
assert (Z.to_nat (be_r e) = g) as Hrn by lia.
pose proof (kth_indices_eq metric 2 B N C HB HC Hm Hmr ltac:(lia)) as Hki.
destruct (kth_bipartite_soft_matching_env (V:=V) metric 2 B N C HB HC Hm Hmr ltac:(lia))
  as (di & Hki' & Hks & Hkok).
change (Z.to_nat 2) with 2 in *. rewrite HN2 in *.
replace (g * (2 - 1)) with g in * by lia.
destruct (normalize_split_two metric B g Hm) as [Es Ed].
rewrite Es, Ed in Hki.
rewrite Hki in Hki'. injection Hki' as <-.
set (S := similarity (evens <$> normalize metric) (odds <$> normalize metric)) in *.
set (NI := fmap (M:=list) (snd ∘ row_max) <$> S) in *.
(* the indices of one batch entry *)
assert (∀ b u s d, unm_idx e !! b = Some u → src_idx e !! b = Some s →
          dst_idx e !! b = Some d →
          ∃ ni, NI !! b = Some ni ∧ u = [] ∧ s ≡ₚ seq 0 g ∧ length ni = g ∧
                Forall (λ j, j < g) ni ∧ length d = g ∧ Forall (λ j, j < g) d ∧
                gather_rows ni s = Some d) as Hent.
{ intros b u s d Hu Hs Hd.
  destruct (bipartite_indices_entries metric _ false false e Hi b s d Hs Hd)
    as (Sb & HSb & _ & Hgd).
  change (masked false false ?s) with s in HSb. fold S in HSb.
  destruct (env_entry_lengths e B N b u s d Hok Hu Hs Hd)
    as (Hlu & Hls & Hld & _ & _ & _ & HFd).
  destruct (ok_entry _ _ _ Hok b u s d Hu Hs Hd) as (Hp & _).
  rewrite HN2', Hrn in *. rewrite HN2 in HFd.
  assert (u = []) as -> by (apply length_zero_iff_nil; lia).
  exists ((snd ∘ row_max) <$> Sb). split; [by unfold NI; rewrite list_lookup_fmap, HSb|].
  split; [done|]. split; [done|].
  destruct Hkok as [Hks1 Hks2].
  assert (NI !! b = Some ((snd ∘ row_max) <$> Sb)) as HNb
    by (by unfold NI; rewrite list_lookup_fmap, HSb).
  split; [exact (shaped_lookup _ _ _ _ _ Hks1 HNb)|].
  split; [exact (Forall_lookup_1 _ _ _ _ Hks2 HNb)|]. done. }
assert (kth_idx_ok B (N `div` Z.to_nat 2 * (Z.to_nat 2 - 1)) (N `div` Z.to_nat 2) NI)
  as Hkok'.
{ change (Z.to_nat 2) with 2. rewrite HN2. by replace (g * (2 - 1)) with g by lia. }
assert (kth_idx_ok B (g * (Z.to_nat 2 - 1)) g NI) as Hkok''.
{ change (Z.to_nat 2) with 2. by replace (g * (2 - 1)) with g by lia. }
eexists _, _, _, _. split; [exact Hbs|]. split; [exact Hks|]. split.
- intros mode x C' HC' Hx Hxr Hop.
  destruct (bipartite_merge_entries e B N x mode Hok HB Hx) as (y1 & Hy1 & Hly1 & Hp1).
  destruct (kth_merge_entries 2 NI x mode B N C' HB HC' ltac:(lia) Hkok' Hx Hxr)
    as (y2 & Hy2 & Hys2 & Hp2).
  change (Z.to_nat 2) with 2 in *. rewrite HN2 in *.
  replace (g * (2 - 1)) with g in * by lia.
  exists y1. split; [done|]. rewrite Hy2.
  assert (y2 = y1) as ->; [|done].
  + apply list_eq_same_length with B; [done|destruct Hys2; lia|].
    intros b yb2 yb1 Hb Hyb2 Hyb1.
    destruct (env_lookup e B N b Hok Hb) as (u & s & d & Hu & Hs & Hd).
    destruct (Hent b u s d Hu Hs Hd) as (ni & Hni & -> & Hps & Hlni & HFni & Hld & HFd & Hgd).
    destruct (lookup_lt_is_Some_2 x b) as [xb Hxb]; [destruct Hx; lia|].
    pose proof (shaped_lookup _ _ _ _ _ Hx Hxb) as Hlxb.
    destruct (Hp1 b xb [] s d Hxb Hu Hs Hd) as (yb1' & Hyb1' & E1).
    destruct (Hp2 b xb ni Hxb Hni) as (yb2' & Hyb2' & E2).
    assert (yb1' = yb1) as -> by congruence. assert (yb2' = yb2) as -> by congruence.
    rewrite split_src_two, split_dst_two in E2 by done.
    rewrite Hdt in E1. unfold merge_entry in E1. cbn [gather_rows mapM mbind option_bind] in E1.
    destruct (gather_rows (evens xb) s) as [src|] eqn:Hsrc; [|done].
    cbn [mbind option_bind] in E1.
    destruct (scatter_reduce_rows mode (odds xb) d src) as [dst|] eqn:Hdst; [|done].
    cbn [mbind option_bind app] in E1. injection E1 as <-.
    assert (length s = g) as Hls by (rewrite Hps; apply length_seq).
    destruct (scatter_reduce_rows_spec mode (odds xb) d src) as (o1 & Ho1 & Hlo1 & Hs1).
    { apply gather_rows_lookup in Hsrc as [-> _]. lia. }
    { rewrite length_odds, Hlxb, HN2. done. }
    destruct (scatter_reduce_rows_spec mode (odds xb) ni (evens xb)) as (o2 & Ho2 & Hlo2 & Hs2).
    { rewrite length_evens, Hlxb, HN2'. lia. }
    { rewrite length_odds, Hlxb, HN2. done. }
    assert (o1 = dst) as -> by congruence. assert (o2 = yb2) as -> by congruence.
    apply list_eq. intros j.
    destruct (odds xb !! j) as [dj|] eqn:Hdj.
    * rewrite (Hs1 j dj Hdj), (Hs2 j dj Hdj). f_equal. symmetry.
      apply reduced_perm; [done|].
      apply (sent_to_gather_perm j g ni (evens xb) s d src); try done.
      by rewrite length_evens, Hlxb, HN2'.
    * apply lookup_ge_None in Hdj.
      rewrite !(proj2 (lookup_ge_None _ _)); [done|lia..].
- intros y C' HC' Hy Hyr.
  destruct (kth_unmerge_entries 2 NI y B g C' HB HC' Hg ltac:(lia) Hkok'' Hy Hyr)
    as (z2 & Hz2 & Hzs2 & Hp2).
  change (Z.to_nat 2) with 2 in *. replace (g * (2 - 1)) with g in * by lia.
  replace (g * 2) with N in * by (unfold N; lia).
  set (init := zeros (V:=V) (shape0 y) (be_t e) (shape2 y)).
  assert (shaped B N init) as Hinit.
  { unfold init, shape0. destruct Hy as [-> _]. rewrite (ok_t _ _ _ Hok). apply zeros_shaped. }
  assert (shaped B (N - Z.to_nat (be_r e)) y) as Hy'.
  { rewrite Hrn. by replace (N - g) with g by (unfold N; lia). }
  destruct (bipartite_unmerge_entries e B N init y Hok HB Hy' Hinit) as (z1 & Hz1 & Hlz1 & Hp1).
  exists z1. split; [by rewrite bipartite_unmerge_zeros|]. rewrite Hz2.
  assert (z2 = z1) as ->; [|done].
  apply list_eq_same_length with B; [done|destruct Hzs2; lia|].
  intros b zb2 zb1 Hb Hzb2 Hzb1.
  destruct (env_lookup e B N b Hok Hb) as (u & s & d & Hu & Hs & Hd).
  destruct (Hent b u s d Hu Hs Hd) as (ni & Hni & -> & Hps & Hlni & HFni & Hld & HFd & Hgd).
  destruct (lookup_lt_is_Some_2 y b) as [yb Hyb]; [destruct Hy; lia|].
  destruct (lookup_lt_is_Some_2 init b) as [ib Hib]; [destruct Hinit; lia|].
  pose proof (shaped_lookup _ _ _ _ _ Hy Hyb) as Hlyb.
  destruct (Hp1 b yb ib [] s d Hyb Hib Hu Hs Hd) as (zb1' & Hzb1' & E1).
  destruct (Hp2 b yb ni Hyb Hni) as (zb2' & Hzb2' & E2).
  assert (zb1' = zb1) as -> by congruence. assert (zb2' = zb2) as -> by congruence.
  assert (length s = g) as Hls by (rewrite Hps; apply length_seq).
  destruct (unmerge_entry_spec [] s d ib yb N) as (o1 & Ho1 & Hlo1 & Hodd1 & _ & Hsrc1).
  { by rewrite HN2'. } { lia. } { by rewrite HN2. }
  { exact (shaped_lookup _ _ _ _ _ Hinit Hib). } { unfold N. lia. }
  destruct (kth_unmerge_entry_spec 2 g ni yb ltac:(lia)) as (o2 & Ho2 & Hlo2 & Hlast2 & Hfirst2).
  { lia. } { done. } { done. }
  assert (o1 = zb1) as -> by congruence. assert (o2 = zb2) as -> by congruence.
  apply list_eq. intros p.
  destruct (decide (p < N)) as [Hp|Hp].
  2:{ rewrite !(proj2 (lookup_ge_None _ _)); [done|unfold N in *; lia..]. }
  destruct (Nat.odd p) eqn:Hodd.
  + apply odd_half in Hodd. rewrite Hodd.
    rewrite (Hodd1 (p `div` 2)) by (unfold N in *; dlia).
    replace (2 * (p `div` 2) + 1) with (p `div` 2 * 2 + (2 - 1)) by lia.
    rewrite (Hlast2 (p `div` 2)) by (unfold N in *; dlia). done.
  + apply even_half in Hodd. rewrite Hodd.
    assert (p `div` 2 < g) as Hq by (unfold N in *; dlia).
    destruct (Hfirst2 (p `div` 2) 0 Hq ltac:(lia)) as (j & Hj & Hzj).
    replace (2 * (p `div` 2)) with (p `div` 2 * 2 + 0) by lia. rewrite Hzj.
    assert (p `div` 2 ∈ s) as (k & Hk)%list_elem_of_lookup_1.
    { rewrite Hps. apply elem_of_seq. lia. }
    destruct (lookup_lt_is_Some_2 d k) as [j' Hj'].
    { rewrite Hld, <- Hls. by eapply lookup_lt_Some. }
    replace (p `div` 2 * 2 + 0) with (2 * (p `div` 2)) by lia.
    rewrite (Hsrc1 k (p `div` 2) j' Hk Hj'). simpl. f_equal.
    apply gather_rows_lookup in Hgd as [_ Hgd].
    destruct (Hgd k _ Hk) as (row & Hrow & Hnirow).
    replace (p `div` 2 * (2 - 1) + 0) with (p `div` 2) in Hj by lia. congruence.
Qed.

End KthTwo.

Lemma Qc_add_right_comm (a b c : Qcanon.Qc) :
Qcanon.Qcplus (Qcanon.Qcplus a b) c = Qcanon.Qcplus (Qcanon.Qcplus a c) b.
Proof.
by rewrite <- !Qcanon.Qcplus_assoc, (Qcanon.Qcplus_comm b c).
Qed.

(** ** The protected tokens keep their places *)

Lemma sort_idx_head (l : list nat) h :
sort_idx l !! 0 = Some h → ∀ x, x ∈ l → h ≤ x.
Proof.
revert h. induction l as [|a l IH]; intros h Hh x Hx; [by apply elem_of_nil in Hx|].
unfold sort_idx in *. cbn [isort foldr] in Hh.
change (foldr (insert_sorted Nat.ltb) [] l) with (isort Nat.ltb l) in *.
pose proof (isort_perm Nat.ltb l) as Hp.
destruct (isort Nat.ltb l) as [|b t] eqn:E.
- apply Permutation_nil_l in Hp. subst l. simpl in Hh. injection Hh as <-.
  apply list_elem_of_singleton in Hx. lia.
- specialize (IH b eq_refl). cbn [insert_sorted] in Hh.
  apply elem_of_cons in Hx as [->|Hx].
  + destruct (Nat.ltb_spec b a); simpl in Hh; injection Hh as <-; lia.
  + specialize (IH x Hx).
    destruct (Nat.ltb_spec b a); simpl in Hh; injection Hh as <-; lia.
Qed.

Section ClassToken.
Context {M V : Type} `{MetricOps M} `{ValueOps V}.

Lemma bipartite_indices_sorted (metric : tensor M) (r' : Z) (dt : bool) e :
bipartite_indices metric r' true dt = Some e →
∀ b u, unm_idx e !! b = Some u → ∃ u0, u = sort_idx u0.
Proof.
unfold bipartite_indices, max_lastdim.
destruct (_ =? 0); [done|]. cbn [mbind option_bind fst snd].
destruct (gather _ _) as [dsti|]; [|done]. cbn [mbind option_bind].
intros [= <-] b u. cbn [unm_idx]. rewrite list_lookup_fmap.
destruct (_ !! b) as [u0|]; [|done]. simpl. intros [= <-]. by exists u0.
Qed.

(** The protected tokens keep their places.  When no score between two
    tokens is [-inf]: with [class_token] ([# Sort to ensure the class
    token is at the start]) the first token of [merge(x, mode)] is the
    first token of [x], whatever the mode; with [distill_token] and at
    least four tokens (or with both flags) the second token is the
    second token of [x], reduced with nothing. *)
Theorem protected_tokens_stay_first (metric : tensor M) (r : Z) (ct dt : bool)
  (x : tensor V) mode B N :
0 < B → shaped B N metric → (0 < clamp N r ct dt)%Z →
Forall (Forall (Forall above_neg_inf))
  (similarity (evens <$> normalize metric) (odds <$> normalize metric)) →
shaped B N x →
∃ merge unmerge y,
  bipartite_soft_matching metric r ct dt = Some (merge, unmerge) ∧
  merge x mode = Some y ∧
  ∀ b xb yb, x !! b = Some xb → y !! b = Some yb →
    (ct = true → yb !! 0 = xb !! 0) ∧
    (dt = true → ct = true ∨ 4 ≤ N →
     ∀ dj, xb !! 1 = Some dj → yb !! 1 = Some (reduced mode dj [])).
Proof.
intros HB Hm Hr Hab Hx.
assert (2 ≤ N) as HN2. { pose proof (clamp_half N r ct dt). dlia. }
assert (dt = true → Z.to_nat (clamp N r ct dt) < (N + 1) `div` 2) as Hrlt.
{ intros ->.
  assert (clamp N r ct true ≤ (Z.of_nat N - 1) `div` 2)%Z as Hc.
  { unfold clamp. etrans; [apply Z.le_min_r|].
    apply Z.div_le_mono; [lia|]. destruct ct; lia. }
  clear -Hc HN2. dlia. }
destruct (bipartite_soft_matching_env (V:=V) metric r ct dt B N HB Hm Hr)
  as (e & He & Hbs & Hok & Hre & Hdt).
destruct (protected_indices metric r ct dt B N HB Hm Hr Hab) as (e' & He' & Hs0 & Hd0).
assert (e' = e) as -> by congruence.
destruct (bipartite_merge_entries e B N x mode Hok HB Hx) as (y & Hy & Hly & Hpy).
exists (bipartite_merge e), (bipartite_unmerge e), y. split; [done|]. split; [done|].
intros b xb yb Hxb Hyb.
assert (b < B) as Hb. { destruct Hx as [<- _]. by eapply lookup_lt_Some. }
destruct (env_lookup e B N b Hok Hb) as (u & s & d & Hu & Hs & Hd).
destruct (Hpy b xb u s d Hxb Hu Hs Hd) as (yb' & Hyb' & Hme).
assert (yb' = yb) as -> by congruence.
pose proof (shaped_lookup _ _ _ _ _ Hx Hxb) as Hlx.
destruct (env_entry_lengths e B N b u s d Hok Hu Hs Hd)
  as (Hlu & Hls & Hld & Hrle & Hub & Hsb & Hdb).
destruct (ok_entry _ _ _ Hok b u s d Hu Hs Hd) as (Hperm & _).
unfold merge_entry in Hme.
destruct (gather_rows (evens xb) u) as [unm|] eqn:Hgu; [|done].
cbn [mbind option_bind] in Hme.
destruct (gather_rows (evens xb) s) as [src|] eqn:Hgs; [|done].
cbn [mbind option_bind] in Hme.
destruct (scatter_reduce_rows mode (odds xb) d src) as [dst|] eqn:Hsr; [|done].
cbn [mbind option_bind] in Hme. injection Hme as Hyb_eq.
apply gather_rows_lookup in Hgu as [Hlunm Hpu].
split.
- (* the class token is the first of the tokens left unmerged *)
  intros ->.
  assert (u !! 0 = Some 0) as Hu0.
  { assert (0 ∈ u) as Hin.
    { assert (0 ∈ u ++ s) as Hin.
      { rewrite Hperm. apply elem_of_seq. clear -HN2. dlia. }
      apply elem_of_app in Hin as [?|Hin]; [done|]. by destruct (Hs0 eq_refl b s Hs). }
    destruct (bipartite_indices_sorted metric _ dt e He b u Hu) as (u0 & ->).
    destruct (sort_idx u0) as [|h t] eqn:E; [by apply elem_of_nil in Hin|].
    simpl. f_equal.
    assert (h ≤ 0); [|lia].
    apply (sort_idx_head u0 h); [by rewrite E|].
    by rewrite <- (sort_idx_perm u0), E. }
  destruct (Hpu 0 0 Hu0) as (row & Hrow & Hev). rewrite evens_lookup in Hev.
  destruct unm as [|row' unm]; [done|]. simpl in Hrow. injection Hrow as ->.
  rewrite <- Hyb_eq, Hdt. by destruct dt.
- (* nothing is sent to the distillation token *)
  intros -> HN dj Hdj. rewrite Hdt in Hyb_eq.
  apply gather_rows_lookup in Hgs as [Hlsrc _].
  destruct (scatter_reduce_rows_spec mode (odds xb) d src) as (out & Hout & Hlo & Hpo).
  { lia. }
  { by rewrite length_odds, Hlx. }
  assert (out = dst) as -> by congruence.
  assert (odds xb !! 0 = Some dj) as Hod by (by rewrite odds_lookup).
  pose proof (Hpo 0 dj Hod) as Hd1.
  rewrite (sent_to_not_in 0 d src) in Hd1 by exact (Hd0 eq_refl HN b d Hd).
  destruct unm as [|row unm].
  { exfalso. specialize (Hrlt eq_refl). simpl in Hlunm. rewrite Hre in Hlu. lia. }
  rewrite <- Hyb_eq. destruct dst as [|d1 dst]; [done|]. exact Hd1.
Qed.

End ClassToken.

Lemma values6_shaped : shaped 1 6 values6.
Proof. split; [done|]. repeat constructor. Qed.

(** ** Merging what was unmerged *)

Section Copies.
Context {A : Type}.

Lemma sent_to_copies j (dj : A) : ∀ (idx : list nat) (src : list A),
(∀ k s, idx !! k = Some j → src !! k = Some s → s = dj) →
∃ n, sent_to j idx src = replicate n dj.
Proof.
induction idx as [|i idx IH]; intros src Hc; [by exists 0|].
destruct src as [|s src]; [by exists 0|].
rewrite sent_to_cons.
destruct (IH src) as [n Hn]. { intros k s' Hk Hs'. exact (Hc (S k) s' Hk Hs'). }
destruct (decide (i = j)) as [->|_]; [|by exists n].
exists (S n). simpl. by rewrite Hn, (Hc 0 s eq_refl eq_refl).
Qed.

End Copies.

Section Inverse.
Context {M V : Type} `{MetricOps M} `{ValueOps V}.

Lemma reduced_idempotent mode (d : list V) n :
mode ≠ Mean → (∀ a : V, reduce_op mode a a = a) →
reduced mode d (replicate n d) = d.
Proof.
intros Hmode Hop.
assert (zip_with (reduce_op mode) d d = d) as Hz.
{ induction d as [|a d IH]; [done|]. simpl. by rewrite Hop, IH. }
assert (foldl (zip_with (reduce_op mode)) d (replicate n d) = d) as Hf.
{ induction n as [|n IH]; [done|]. simpl. by rewrite Hz. }
unfold reduced. rewrite Hf. by destruct mode.
Qed.

Lemma reduced_copies mode (dj : list V) j idx (src : mat V) :
(∀ (d : list V) n, reduced mode d (replicate n d) = d) →
(∀ k s, idx !! k = Some j → src !! k = Some s → s = dj) →
reduced mode dj (sent_to j idx src) = dj.
Proof.
intros Hidem Hc. destruct (sent_to_copies j dj idx src Hc) as [n ->]. apply Hidem.
Qed.

(** [merge] after [unmerge] on one batch entry of the bipartite
    strategy. *)
Lemma bipartite_inverse_entry mode (u s d : list nat) (init yb : mat V) N :
(∀ (d : list V) n, reduced mode d (replicate n d) = d) →
u ++ s ≡ₚ seq 0 ((N + 1) `div` 2) →
length d = length s → Forall (λ j, j < N `div` 2) d →
length init = N → length yb = N - length s →
∃ zb, unmerge_entry u s d init yb = Some zb ∧ length zb = N ∧
      merge_entry false u s d zb mode = Some yb.
Proof.
intros Hidem Hp Hld HFd Hli Hly.
destruct (unmerge_entry_spec u s d init yb N Hp Hld HFd Hli Hly)
  as (zb & Hzb & Hlz & Hodd & Hunm & Hsrc).
exists zb. split; [done|]. split; [done|].
destruct (merge_entry_spec mode u s d zb N Hp Hld HFd Hlz)
  as (src & yb' & Hg & Hm & Hly' & Hmu & Hmd).
rewrite Hm. f_equal.
assert (length u + length s = (N + 1) `div` 2) as Hus.
{ apply Permutation_length in Hp. by rewrite length_app, length_seq in Hp. }
assert (length u + N `div` 2 = N - length s) as Hsplit by (clear -Hus; dlia).
apply gather_rows_lookup in Hg as [Hlsrc Hpsrc].
eapply (list_eq_same_length _ _ (N - length s)); [done|done|].
intros i a a' Hi Ha Ha'.
destruct (decide (i < length u)) as [Hiu|Hiu].
- destruct (lookup_lt_is_Some_2 u i Hiu) as [ui Hui].
  rewrite (Hmu i ui Hui), (Hunm i ui Hui) in Ha. congruence.
- assert (∃ j, i = length u + j ∧ j < N `div` 2) as (j & -> & Hj).
  { exists (i - length u). lia. }
  assert (zb !! (2 * j + 1) = Some a') as Hz by (by rewrite Hodd).
  rewrite (Hmd j a' Hz) in Ha. injection Ha as <-.
  apply reduced_copies; [done|].
  intros k row Hk Hrow.
  destruct (lookup_lt_is_Some_2 s k) as [i Hsi].
  { rewrite <- Hld. by eapply lookup_lt_Some. }
  destruct (Hpsrc k i Hsi) as (row' & Hrow' & Hev).
  assert (row' = row) as -> by congruence.
  rewrite evens_lookup, (Hsrc k i j Hsi Hk) in Hev. congruence.
Qed.

(** [merge] after [unmerge] on one batch entry of the random
    strategy. *)
Lemma random_inverse_entry mode (a b d : list nat) (init yb : mat V) N :
(∀ (d : list V) n, reduced mode d (replicate n d) = d) →
a ++ b ≡ₚ seq 0 N → length d = length a → Forall (λ j, j < length b) d →
length init = N → length yb = length b →
∃ zb, random_unmerge_entry a b d init yb = Some zb ∧ length zb = N ∧
      random_merge_entry a b d zb mode = Some yb.
Proof.
intros Hidem Hp Hld HFd Hli Hly.
destruct (random_unmerge_entry_spec a b d init yb N Hp Hld HFd Hli Hly)
  as (zb & Hzb & Hlz & Hzb_b & Hzb_a).
exists zb. split; [done|]. split; [done|].
destruct (random_merge_entry_spec mode a b d zb N Hp Hld HFd Hlz)
  as (src & yb' & Hg & Hm & Hly' & Hmd).
rewrite Hm. f_equal.
apply gather_rows_lookup in Hg as [Hlsrc Hpsrc].
eapply (list_eq_same_length _ _ (length b)); [done|done|].
intros j y' row Hj Hy' Hrow.
destruct (lookup_lt_is_Some_2 b j Hj) as [p Hbp].
assert (zb !! p = Some row) as Hz by (by rewrite (Hzb_b j p Hbp)).
rewrite (Hmd j p row Hbp Hz) in Hy'. injection Hy' as <-.
apply reduced_copies; [done|].
intros k srow Hk Hsrow.
destruct (lookup_lt_is_Some_2 a k) as [q Haq].
{ rewrite <- Hld. by eapply lookup_lt_Some. }
destruct (Hpsrc k q Haq) as (srow' & Hsrow' & Hzq).
assert (srow' = srow) as -> by congruence.
rewrite (Hzb_a k q j Haq Hk) in Hzq. congruence.
Qed.

(** [merge] after [unmerge] on one batch entry of the k-th strategy. *)
Lemma kth_inverse_entry mode (kn g : nat) (d : list nat) (yb : mat V) :
(∀ (d : list V) n, reduced mode d (replicate n d) = d) →
1 < kn → length d = g * (kn - 1) → Forall (λ j, j < g) d → length yb = g →
∃ zb, kth_unmerge_entry kn g d yb = Some zb ∧ length zb = g * kn ∧
      (∀ i row, zb !! i = Some row → row ∈ yb) ∧
      scatter_reduce_rows mode (split_dst g kn zb) d (split_src g kn zb) = Some yb.
Proof.
intros Hidem Hkn Hld HFd Hly.
destruct (kth_unmerge_entry_spec kn g d yb Hkn Hld HFd Hly)
  as (zb & Hzb & Hlz & Hlast & Hrest).
exists zb. split; [done|]. split; [done|].
assert (length (split_src g kn zb) = g * (kn - 1)) as Hlsrc.
{ apply split_src_length; lia. }
assert (length (split_dst g kn zb) = g) as Hldst.
{ apply split_dst_length; lia. }
split.
{ intros i row Hi.
  assert (i < g * kn) as Hlt by (rewrite <- Hlz; by eapply lookup_lt_Some).
  assert (i = i `div` kn * kn + i `mod` kn) as Ei.
  { pose proof (Nat.div_mod_eq i kn). lia. }
  assert (i `mod` kn < kn) as Hmod by (apply Nat.mod_upper_bound; lia).
  assert (i `div` kn < g) as Hdiv by (apply Nat.Div0.div_lt_upper_bound; lia).
  destruct (decide (i `mod` kn = kn - 1)) as [Hp|Hp].
  - rewrite Ei, Hp, (Hlast _ Hdiv) in Hi. by eapply list_elem_of_lookup_2.
  - destruct (Hrest (i `div` kn) (i `mod` kn) Hdiv ltac:(lia)) as (j & _ & Hz).
    rewrite <- Ei, Hi in Hz. by eapply list_elem_of_lookup_2. }
destruct (scatter_reduce_rows_spec mode (split_dst g kn zb) d (split_src g kn zb))
  as (out & Hout & Hlo & Hpo).
{ lia. }
{ by rewrite Hldst. }
rewrite Hout. f_equal.
eapply (list_eq_same_length _ _ g); [done|lia|].
intros j y' row Hj Hy' Hrow.
assert (split_dst g kn zb !! j = Some row) as Hdj.
{ rewrite split_dst_lookup by lia. by rewrite (Hlast j Hj). }
rewrite (Hpo j row Hdj) in Hy'. injection Hy' as <-.
apply reduced_copies; [done|].
intros k srow Hk Hsrow.
assert (k < g * (kn - 1)) as Hlt by (rewrite <- Hld; by eapply lookup_lt_Some).
assert (k = k `div` (kn - 1) * (kn - 1) + k `mod` (kn - 1)) as Ek.
{ pose proof (Nat.div_mod_eq k (kn - 1)). lia. }
assert (k `mod` (kn - 1) < kn - 1) as Hmod by (apply Nat.mod_upper_bound; lia).
assert (k `div` (kn - 1) < g) as Hdiv by (apply Nat.Div0.div_lt_upper_bound; lia).
destruct (Hrest _ _ Hdiv Hmod) as (j' & Hj' & Hz).
rewrite <- Ek in Hj'. assert (j' = j) as -> by congruence.
rewrite Ek, split_src_lookup in Hsrow by lia.
congruence.
Qed.

(** [merge] undoes [unmerge].  For a mode whose reduction of a row with
    copies of itself gives the row back (as [amax] and [amin] do), for
    each of the three strategies (the bipartite one without a
    distillation token): [unmerge(y)] returns, and [merge] of it with
    that mode is [y] again. *)
Theorem merge_after_unmerge (mode : reduce_mode) :
(∀ (d : list V) n, reduced mode d (replicate n d) = d) →
(∀ (metric : tensor M) r ct (y : tensor V) B N,
   0 < B → shaped B N metric → (0 < clamp N r ct false)%Z →
   shaped B (N - Z.to_nat (clamp N r ct false)) y →
   ∃ merge unmerge z,
     bipartite_soft_matching metric r ct false = Some (merge, unmerge) ∧
     unmerge y = Some z ∧ shaped B N z ∧ merge z mode = Some y) ∧
(∀ (metric : tensor M) k (y : tensor V) B N C C',
   0 < B → 0 < C → 0 < C' → shaped B N metric → rows_have C metric →
   (2 ≤ k ≤ Z.of_nat N)%Z →
   shaped B (N `div` Z.to_nat k) y → rows_have C' y →
   ∃ merge unmerge z,
     kth_bipartite_soft_matching metric k = Some (merge, unmerge) ∧
     unmerge y = Some z ∧ shaped B (N `div` Z.to_nat k * Z.to_nat k) z ∧
     merge z mode = Some y) ∧
(∀ (metric : tensor M) r rand (y : tensor V) B N,
   0 < B → shaped B N metric → shaped B N rand → (0 < r < Z.of_nat N)%Z →
   shaped B (N - Z.to_nat r) y →
   ∃ merge unmerge z,
     random_bipartite_soft_matching metric r rand = Some (merge, unmerge) ∧
     unmerge y = Some z ∧ shaped B N z ∧ merge z mode = Some y).
Proof.
intros Hidem. split; [|split].
- intros metric r ct y B N HB Hm Hr Hy.
  destruct (bipartite_soft_matching_ok (V:=V) metric r ct false B N HB Hm Hr)
    as (e & Hbs & Hok & Hre & Hdt).
  rewrite <- Hre in Hy.
  set (init := zeros (V:=V) (shape0 y) (be_t e) (shape2 y)).
  assert (shaped B N init) as Hinit.
  { unfold init, shape0. destruct Hy as [-> _]. rewrite (ok_t _ _ _ Hok).
    apply zeros_shaped. }
  destruct (bipartite_unmerge_entries e B N init y Hok HB Hy Hinit)
    as (z & Hz & Hlz & Hpz).
  assert (∀ b yb zb, y !! b = Some yb → z !! b = Some zb →
    length zb = N ∧ ∃ u s d, unm_idx e !! b = Some u ∧ src_idx e !! b = Some s ∧
      dst_idx e !! b = Some d ∧ merge_entry false u s d zb mode = Some yb) as Hent.
  { intros b yb zb Hyb Hzb.
    assert (b < B) as Hb by (rewrite <- Hlz; by eapply lookup_lt_Some).
    destruct (env_lookup e B N b Hok Hb) as (u & s & d & Hu & Hs & Hd).
    destruct (lookup_lt_is_Some_2 init b) as [ib Hib].
    { by destruct Hinit as [-> _]. }
    destruct (Hpz b yb ib u s d Hyb Hib Hu Hs Hd) as (zb' & Hzb' & Hmz).
    assert (zb' = zb) as -> by congruence.
    destruct (ok_entry _ _ _ Hok b u s d Hu Hs Hd) as (Hp & Hls & Hld & HFd).
    destruct (bipartite_inverse_entry mode u s d ib yb N Hidem Hp) as (zb' & Hzb2 & Hlzb & Hmy);
      [lia|done|exact (shaped_lookup _ _ _ _ _ Hinit Hib)|
       rewrite Hls; exact (shaped_lookup _ _ _ _ _ Hy Hyb)|].
    assert (zb' = zb) as -> by congruence.
    split; [done|]. by exists u, s, d. }
  assert (shaped B N z) as Hzs.
  { split; [done|]. apply Forall_lookup. intros b zb Hzb.
    destruct (lookup_lt_is_Some_2 y b) as [yb Hyb].
    { destruct Hy as [-> _]. rewrite <- Hlz. by eapply lookup_lt_Some. }
    by destruct (Hent b yb zb Hyb Hzb). }
  destruct (bipartite_merge_entries e B N z mode Hok HB Hzs) as (y' & Hy' & Hly' & Hpy').
  exists (bipartite_merge e), (bipartite_unmerge e), z.
  split; [done|]. split; [by rewrite bipartite_unmerge_zeros|]. split; [done|].
  rewrite Hy'. f_equal.
  eapply (list_eq_same_length _ _ B); [by destruct Hy|done|].
  intros b yb' yb Hb Hyb' Hyb.
  destruct (lookup_lt_is_Some_2 z b) as [zb Hzb]; [lia|].
  destruct (Hent b yb zb Hyb Hzb) as (_ & u & s & d & Hu & Hs & Hd & Hme).
  destruct (Hpy' b zb u s d Hzb Hu Hs Hd) as (yb2 & Hyb2 & Hme2).
  rewrite Hdt in Hme2. congruence.
- intros metric k y B N C C' HB HC HC' Hm Hrows Hk Hy Hyrows.
  set (kn := Z.to_nat k). set (g := N `div` kn).
  destruct (kth_bipartite_soft_matching_ok (V:=V) metric k B N C HB HC Hm Hrows Hk)
    as (dst_idx & Hbs & Hidx).
  fold kn g in Hbs, Hidx, Hy |- *.
  assert (1 < kn) as Hkn by (unfold kn; lia).
  assert (0 < g) as Hg.
  { unfold g. apply Nat.div_str_pos. unfold kn. lia. }
  destruct (kth_unmerge_entries k dst_idx y B g C' HB HC' Hg ltac:(lia) Hidx Hy Hyrows)
    as (z & Hz & Hzs & Hpz).
  fold kn in Hzs, Hpz.
  assert (∀ b yb zb, y !! b = Some yb → z !! b = Some zb →
    (∀ i row, zb !! i = Some row → row ∈ yb) ∧
    ∃ d, dst_idx !! b = Some d ∧
      scatter_reduce_rows mode (split_dst g kn zb) d (split_src g kn zb) = Some yb)
    as Hent.
  { intros b yb zb Hyb Hzb.
    destruct (lookup_lt_is_Some_2 dst_idx b) as [d Hd].
    { destruct Hidx as [[-> _] _]. destruct Hy as [<- _]. by eapply lookup_lt_Some. }
    destruct (Hpz b yb d Hyb Hd) as (zb' & Hzb' & Hmz).
    assert (zb' = zb) as -> by congruence.
    destruct Hidx as [Hdsh Hdb].
    destruct (kth_inverse_entry mode kn g d yb Hidem Hkn) as (zb' & Hzb2 & _ & Hin & Hsr);
      [exact (shaped_lookup _ _ _ _ _ Hdsh Hd)|exact (Forall_lookup_1 _ _ _ _ Hdb Hd)|
       exact (shaped_lookup _ _ _ _ _ Hy Hyb)|].
    assert (zb' = zb) as -> by congruence.
    split; [done|]. by exists d. }
  assert (rows_have C' z) as Hzrows.
  { apply Forall_lookup. intros b zb Hzb.
    destruct (lookup_lt_is_Some_2 y b) as [yb Hyb].
    { destruct Hy as [-> _]. destruct Hzs as [<- _]. by eapply lookup_lt_Some. }
    destruct (Hent b yb zb Hyb Hzb) as (Hin & _).
    apply Forall_lookup. intros i row Hrow.
    exact (proj1 (Forall_forall _ _) (Forall_lookup_1 _ _ _ _ Hyrows Hyb) row (Hin i row Hrow)). }
  assert ((g * kn) `div` kn = g) as Hgk by (apply Nat.div_mul; lia).
  assert (2 ≤ k ≤ Z.of_nat (g * kn))%Z as Hk'.
  { split; [lia|]. assert (kn ≤ g * kn) by (clear -Hg; nia). unfold kn in *. lia. }
  destruct (kth_merge_entries k dst_idx z mode B (g * kn) C' HB HC' Hk') as (y' & Hy' & Hys' & Hpy');
    [fold kn; by rewrite Hgk|done|done|].
  fold kn in Hy', Hys', Hpy'. rewrite Hgk in Hy', Hys', Hpy'.
  exists (kth_merge k (g * (kn - 1)) dst_idx), (kth_unmerge k (g * (kn - 1)) dst_idx), z.
  split; [done|]. split; [done|]. split; [done|].
  rewrite Hy'. f_equal.
  eapply (list_eq_same_length _ _ B); [by destruct Hy|by destruct Hys'|].
  intros b yb' yb Hb Hyb' Hyb.
  destruct (lookup_lt_is_Some_2 z b) as [zb Hzb]; [by destruct Hzs as [-> _]|].
  destruct (Hent b yb zb Hyb Hzb) as (_ & d & Hd & Hsr).
  destruct (Hpy' b zb d Hzb Hd) as (yb2 & Hyb2 & Hsr2). congruence.
- intros metric r rand y B N HB Hm Hrand Hr Hy.
  destruct (random_bipartite_soft_matching_env (V:=V) metric r rand B N HB Hm Hrand Hr)
    as (a_idx & b_idx & dst_idx & _ & Hbs & Hrok).
  assert (∃ rn, r = Z.of_nat rn ∧ 0 < rn < N) as (rn & -> & Hrn).
  { exists (Z.to_nat r). lia. }
  rewrite Nat2Z.id in Hrok, Hy.
  destruct (random_unmerge_entries B rn N a_idx b_idx dst_idx y HB ltac:(lia) Hrok Hy)
    as (z & Hz & Hzs & Hpz).
  destruct (random_merge_entries B rn N a_idx b_idx dst_idx z mode HB ltac:(lia) Hrok Hzs)
    as (y' & Hy' & Hys' & Hpy').
  exists (random_merge B (Z.of_nat rn) N a_idx b_idx dst_idx),
         (random_unmerge B (Z.of_nat rn) N a_idx b_idx dst_idx), z.
  split; [done|]. split; [done|]. split; [done|].
  rewrite Hy'. f_equal.
  eapply (list_eq_same_length _ _ B); [by destruct Hy|by destruct Hys'|].
  intros i yb' yb Hi Hyb' Hyb.
  destruct (random_idx_lookup B rn N a_idx b_idx dst_idx i Hrok Hi)
    as (a & b & d & Ha & Hb & Hd & Hla & Hlb & Hld & Hp & HFd).
  destruct (lookup_lt_is_Some_2 z i) as [zb Hzb]; [by destruct Hzs as [-> _]|].
  destruct (Hpz i yb a b d Hyb Ha Hb Hd) as (zb' & Hzb' & Hmz).
  assert (zb' = zb) as -> by congruence.
  destruct (Hpy' i zb a b d Hzb Ha Hb Hd) as (yb2 & Hyb2 & Hme2).
  assert (yb2 = yb') as -> by congruence.
  destruct (random_inverse_entry mode a b d
              (replicate N (replicate (shape2 y) v_zero)) yb N Hidem Hp)
    as (zb' & Hzb2 & _ & Hmy);
    [lia|by rewrite Hlb|by rewrite length_replicate|
     rewrite Hlb; exact (shaped_lookup _ _ _ _ _ Hy Hyb)|].
  congruence.
Qed.

End Inverse.

Lemma float_amax_copies (d : list float) n : reduced Amax d (replicate n d) = d.
Proof.
apply reduced_idempotent; [done|]. intros a. simpl. unfold float_max.
by destruct (PrimFloat.is_nan a), (float_gtb a a).
Qed.

(** ** The first weighted average and the mean *)

Section MeanCounts.
Context {V : Type} `{ValueOps V}.
Hypothesis of_nat_1 : v_of_nat 1 = v_one.
Hypothesis of_nat_S : ∀ n, v_add (v_of_nat n) v_one = v_of_nat (S n).

(** Scattering sizes of one counts the rows. *)
Lemma ones_scatter (idx : list nat) : ∀ (cs : list nat) (src1 : mat V),
length idx ≤ length src1 → Forall (λ row, row = [v_one]) src1 →
Forall (λ i, i < length cs) idx →
scatter_rows (zip_with v_add) ((λ c, [v_of_nat c]) <$> cs) idx src1
= Some ((λ c, [v_of_nat c]) <$> foldl (λ acc i, alter S i acc) cs idx).
Proof.
induction idx as [|i idx IH]; intros cs src1 Hl Hs Hi; [done|].
destruct src1 as [|s src1]; [simpl in Hl; lia|].
apply Forall_cons in Hs as [-> Hs]. apply Forall_cons in Hi as [Hi Hidx].
destruct (lookup_lt_is_Some_2 cs i Hi) as [c Hc].
cbn [scatter_rows foldl]. rewrite list_lookup_fmap, Hc. cbn [fmap option_fmap option_map mbind option_bind].
assert (<[i := zip_with v_add [v_of_nat c] [v_one]]> ((λ c, [v_of_nat c]) <$> cs)
        = (λ c, [v_of_nat c]) <$> alter S i cs) as ->.
{ cbn [zip_with]. rewrite of_nat_S. apply list_eq. intros j.
  rewrite list_lookup_fmap.
  destruct (decide (i = j)) as [<-|Hne].
  - rewrite list_lookup_insert_eq by (by rewrite length_fmap).
    by rewrite list_lookup_alter_eq, Hc.
  - rewrite list_lookup_insert_ne, list_lookup_alter_ne by done.
    by rewrite list_lookup_fmap. }
apply IH; [simpl in Hl; lia|done|].
by rewrite length_alter.
Qed.

(** The [mean] reduction is the [sum] reduction of the rows over the
    [sum] reduction of sizes of one. *)
Lemma mean_over_counts (dst src dst1 src1 : mat V) (d : list nat) :
length d ≤ length src → Forall (λ i, i < length dst) d →
length dst1 = length dst → length src1 = length src →
Forall (λ row, row = [v_one]) dst1 → Forall (λ row, row = [v_one]) src1 →
∃ X S, scatter_reduce_rows Sum dst d src = Some X ∧
  scatter_reduce_rows Sum dst1 d src1 = Some S ∧
  scatter_reduce_rows Mean dst d src = Some (zip_with (λ row srow : list V,
           (λ a, v_div a (default v_zero (head srow))) <$> row) X S).
Proof.
intros Hl Hd Hl1 Hls1 Hd1 Hs1.
destruct (scatter_rows_spec (zip_with v_add) d dst src Hl Hd) as (X & HX & _).
assert (dst1 = (λ c, [v_of_nat c]) <$> replicate (length dst) 1) as ->.
{ rewrite fmap_replicate, of_nat_1. symmetry. apply replicate_as_Forall.
  split; [done|]. eapply Forall_impl; [exact Hd1|]. by intros ? ->. }
exists X, ((λ c, [v_of_nat c]) <$> counts (length dst) d).
unfold scatter_reduce_rows. cbn [reduce_op]. rewrite HX.
rewrite (ones_scatter d (replicate (length dst) 1) src1);
  [|lia|done|by rewrite length_replicate].
cbn [mbind option_bind]. split; [done|]. split; [done|].
by rewrite zip_with_fmap_r.
Qed.

End MeanCounts.

Section WavgMean.
Context {M V : Type} `{MetricOps M} `{ValueOps V}.
Hypothesis mul_1_r : ∀ a : V, v_mul a v_one = a.
Hypothesis div_1_r : ∀ a : V, v_div a v_one = a.
Hypothesis of_nat_1 : v_of_nat 1 = v_one.
Hypothesis of_nat_S : ∀ n, v_add (v_of_nat n) v_one = v_of_nat (S n).

Local Abbreviation over := (λ row srow : list V,
  (λ a, v_div a (default v_zero (head srow))) <$> row).
Local Abbreviation ones x := (fmap (M:=list) (λ _ : list V, [v_one]) <$> x).

(** [merge_wavg] without sizes: the sums of the rows over the sums of
    sizes of one. *)
Lemma merge_wavg_default (m : merge_fn) (x : tensor V) B N N' C :
sum_merge B N N' m → 0 < C → shaped B N x → rows_have C x →
∃ X S, m x Sum = Some X ∧ m (ones x) Sum = Some S ∧
  merge_wavg m x None = Some (scale v_div X S, S) ∧
  shaped B N' X ∧ shaped B N' S.
Proof.
intros Hsm HC Hx Hrows.
destruct (ones_shaped B N x Hx) as [Hos Hor].
destruct (merge_wavg_step m x (ones x) B N N' C Hsm HC Hx Hrows Hos Hor)
  as (X & S & HX & HS & Hw & HXs & _ & _ & _ & HSs & _).
rewrite (scale_ones mul_1_r) in HX.
exists X, S. split; [done|]. split; [done|]. split; [|done].
rewrite <- Hw. unfold merge_wavg. by rewrite (ones_like_col0_Some C x HC Hrows).
Qed.

Lemma scale_lookup (X S : tensor V) b Xb Sb :
X !! b = Some Xb → S !! b = Some Sb →
scale v_div X S !! b = Some (zip_with over Xb Sb).
Proof.
intros HX HS. unfold scale. by rewrite lookup_zip_with, HX, HS.
Qed.

Lemma over_ones (l l1 : mat V) :
length l1 = length l → Forall (λ row, row = [v_one]) l1 → zip_with over l l1 = l.
Proof.
assert (∀ row : list V, (λ a, v_div a v_one) <$> row = row) as Hrow.
{ induction row as [|a row IH]; [done|]. rewrite fmap_cons. by rewrite div_1_r, IH. }
revert l1. induction l as [|row l IH]; intros [|r1 l1] Hl HF; try done.
apply Forall_cons in HF as [-> HF]. simpl. f_equal.
- apply Hrow.
- apply IH; [by injection Hl|done].
Qed.

Lemma gather_ones {X} (m : list X) idx k :
gather_rows ((λ _, [v_one]) <$> m) idx = Some k →
length k = length idx ∧ Forall (λ row : list V, row = [v_one]) k.
Proof.
intros Hk. split; [by apply gather_rows_lookup in Hk as [? _]|].
eapply gather_rows_Forall; [|exact Hk]. apply Forall_fmap. by apply Forall_true.
Qed.

Lemma random_mean_entry (a b d : list nat) (xb Xb Sb yb : mat V) :
length d ≤ length a → Forall (λ j, j < length b) d →
random_merge_entry a b d xb Sum = Some Xb →
random_merge_entry a b d ((λ _, [v_one]) <$> xb) Sum = Some Sb →
random_merge_entry a b d xb Mean = Some yb →
yb = zip_with over Xb Sb.
Proof.
intros Hld HFd. unfold random_merge_entry.
destruct (gather_rows xb a) as [src|] eqn:Hsrc; [|done].
destruct (gather_rows xb b) as [dst|] eqn:Hdst; [|done].
destruct (gather_rows ((λ _, [v_one]) <$> xb) a) as [src1|] eqn:Hsrc1; [|done].
destruct (gather_rows ((λ _, [v_one]) <$> xb) b) as [dst1|] eqn:Hdst1; [|done].
cbn [mbind option_bind]. intros HX HS Hy.
apply gather_rows_lookup in Hsrc as [Hlsrc _]. apply gather_rows_lookup in Hdst as [Hldst _].
apply gather_ones in Hsrc1 as [Hlsrc1 HF1]. apply gather_ones in Hdst1 as [Hldst1 HFd1].
destruct (mean_over_counts of_nat_1 of_nat_S dst src dst1 src1 d)
  as (X & S & HX' & HS' & Hy'); [lia|by rewrite Hldst|lia|lia|done|done|].
congruence.
Qed.

Lemma bipartite_mean_entry distill (u s d : list nat) (xb Xb Sb yb : mat V) :
length d ≤ length s → Forall (λ j, j < length (odds xb)) d →
merge_entry distill u s d xb Sum = Some Xb →
merge_entry distill u s d ((λ _, [v_one]) <$> xb) Sum = Some Sb →
merge_entry distill u s d xb Mean = Some yb →
yb = zip_with over Xb Sb.
Proof.
intros Hld HFd. unfold merge_entry.
destruct (gather_rows (evens xb) u) as [unm|] eqn:Hunm; [|done].
destruct (gather_rows (evens xb) s) as [src|] eqn:Hsrc; [|done].
destruct (gather_rows (evens ((λ _, [v_one]) <$> xb)) u) as [unm1|] eqn:Hunm1; [|done].
destruct (gather_rows (evens ((λ _, [v_one]) <$> xb)) s) as [src1|] eqn:Hsrc1; [|done].
cbn [mbind option_bind].
destruct (scatter_reduce_rows Sum (odds xb) d src) as [dX|] eqn:HdX; [|done].
destruct (scatter_reduce_rows Sum (odds ((λ _, [v_one]) <$> xb)) d src1) as [dS|] eqn:HdS; [|done].
destruct (scatter_reduce_rows Mean (odds xb) d src) as [dM|] eqn:HdM; [|done].
cbn [mbind option_bind]. intros [= <-] [= <-] [= <-].
assert (Forall (λ row : list V, row = [v_one]) ((λ _, [v_one]) <$> xb)) as Hall.
{ apply Forall_fmap. by apply Forall_true. }
destruct (Forall_evens_odds _ _ Hall) as [Hev Hod].
apply gather_rows_lookup in Hunm as [Hlunm _]. apply gather_rows_lookup in Hsrc as [Hlsrc _].
pose proof (gather_rows_Forall _ _ _ _ Hev Hunm1) as HFu1.
pose proof (gather_rows_Forall _ _ _ _ Hev Hsrc1) as HFs1.
apply gather_rows_lookup in Hunm1 as [Hlunm1 _]. apply gather_rows_lookup in Hsrc1 as [Hlsrc1 _].
destruct (mean_over_counts of_nat_1 of_nat_S (odds xb) src (odds ((λ _, [v_one]) <$> xb)) src1 d)
  as (X & S & HX' & HS' & Hy'); [lia|done|by rewrite !length_odds, length_fmap|lia|done|done|].
assert (X = dX) as -> by congruence. assert (S = dS) as -> by congruence.
assert (dM = zip_with over dX dS) as -> by congruence.
assert (length dX = length dS) as HlXS.
{ rewrite (scatter_reduce_rows_length _ _ _ _ _ HdX), (scatter_reduce_rows_length _ _ _ _ _ HdS).
  by rewrite !length_odds, length_fmap. }
assert (zip_with over unm unm1 = unm) as Hu1 by (apply over_ones; [lia|done]).
destruct distill.
- rewrite !zip_with_app, <- !zip_with_take, <- !zip_with_drop, Hu1; [done|..];
    rewrite ?length_take, ?length_drop; lia.
- rewrite zip_with_app, Hu1 by lia. done.
Qed.

(** The first [merge_wavg], called without sizes, returns what
    [merge(x, mode="mean")] returns, for each of the three strategies,
    in an arithmetic where [a * 1 = a], [a / 1 = a] and counting up by
    one is exact. *)
Theorem wavg_without_sizes_is_mean :
(∀ (metric : tensor M) r ct dt (x : tensor V) B N C,
   0 < B → 0 < C → shaped B N metric → (0 < clamp N r ct dt)%Z →
   shaped B N x → rows_have C x →
   ∃ merge unmerge y size,
     bipartite_soft_matching metric r ct dt = Some (merge, unmerge) ∧
     merge x Mean = Some y ∧ merge (ones x) Sum = Some size ∧
     merge_wavg merge x None = Some (y, size)) ∧
(∀ (metric : tensor M) k (x : tensor V) B N C C',
   0 < B → 0 < C → 0 < C' → shaped B N metric → rows_have C metric →
   (2 ≤ k ≤ Z.of_nat N)%Z → shaped B N x → rows_have C' x →
   ∃ merge unmerge y size,
     kth_bipartite_soft_matching metric k = Some (merge, unmerge) ∧
     merge x Mean = Some y ∧ merge (ones x) Sum = Some size ∧
     merge_wavg merge x None = Some (y, size)) ∧
(∀ (metric : tensor M) r rand (x : tensor V) B N C,
   0 < B → 0 < C → shaped B N metric → shaped B N rand → (0 < r < Z.of_nat N)%Z →
   shaped B N x → rows_have C x →
   ∃ merge unmerge y size,
     random_bipartite_soft_matching metric r rand = Some (merge, unmerge) ∧
     merge x Mean = Some y ∧ merge (ones x) Sum = Some size ∧
     merge_wavg merge x None = Some (y, size)).
Proof.
split; [|split].
- intros metric r ct dt x B N C HB HC Hm Hr Hx Hrows.
  destruct (bipartite_soft_matching_ok (V:=V) metric r ct dt B N HB Hm Hr)
    as (e & Hbs & Hok & Hre & Hdt).
  pose proof (bipartite_sum_merge metric r ct dt _ _ B N HB Hm Hbs) as Hsm.
  destruct (merge_wavg_default _ x B N _ C Hsm HC Hx Hrows)
    as (X & S & HX & HS & Hw & HXs & HSs).
  destruct (ones_shaped B N x Hx) as [Hos _].
  destruct (bipartite_merge_entries e B N x Mean Hok HB Hx) as (y & Hy & Hly & Hpy).
  destruct (bipartite_merge_entries e B N x Sum Hok HB Hx) as (X' & HX' & _ & HpX).
  destruct (bipartite_merge_entries e B N (ones x) Sum Hok HB Hos) as (S' & HS' & _ & HpS).
  assert (X' = X) as -> by congruence. assert (S' = S) as -> by congruence.
  exists (bipartite_merge e), (bipartite_unmerge e), y, S.
  split; [done|]. split; [done|]. split; [done|].
  rewrite Hw. do 2 f_equal.
  eapply (list_eq_same_length _ _ B); [done| |].
  { unfold scale. rewrite length_zip_with. destruct HXs as [-> _], HSs as [-> _]. lia. }
  intros b q yb Hb Hq Hyb.
  destruct (lookup_lt_is_Some_2 x b) as [xb Hxb]; [by destruct Hx as [-> _]|].
  destruct (env_lookup e B N b Hok Hb) as (u & s & d & Hu & Hs & Hd).
  destruct (HpX b xb u s d Hxb Hu Hs Hd) as (Xb & HXb & HmX).
  destruct (HpS b ((λ _, [v_one]) <$> xb) u s d) as (Sb & HSb & HmS);
    [by rewrite list_lookup_fmap, Hxb|done|done|done|].
  destruct (Hpy b xb u s d Hxb Hu Hs Hd) as (yb' & Hyb' & Hmy).
  assert (yb' = yb) as -> by congruence.
  rewrite (scale_lookup X S b Xb Sb HXb HSb) in Hq. injection Hq as <-.
  destruct (ok_entry _ _ _ Hok b u s d Hu Hs Hd) as (_ & Hls & Hld & HFd).
  symmetry. eapply bipartite_mean_entry; [| |exact HmX|exact HmS|exact Hmy].
  + lia.
  + by rewrite length_odds, (shaped_lookup _ _ _ _ _ Hx Hxb).
- intros metric k x B N C C' HB HC HC' Hm Hmrows Hk Hx Hrows.
  set (kn := Z.to_nat k). set (g := N `div` kn).
  destruct (kth_bipartite_soft_matching_ok (V:=V) metric k B N C HB HC Hm Hmrows Hk)
    as (dst_idx & Hbs & Hidx).
  pose proof (kth_sum_merge metric k _ _ B N C HB HC Hm Hmrows Hk Hbs) as Hsm.
  fold kn g in Hbs, Hidx, Hsm.
  destruct (merge_wavg_default _ x B N _ C' Hsm HC' Hx Hrows)
    as (X & S & HX & HS & Hw & HXs & HSs).
  destruct (ones_shaped B N x Hx) as [Hos Hor].
  destruct (kth_merge_entries k dst_idx x Mean B N C' HB HC' Hk Hidx Hx Hrows)
    as (y & Hy & Hys & Hpy).
  destruct (kth_merge_entries k dst_idx x Sum B N C' HB HC' Hk Hidx Hx Hrows)
    as (X' & HX' & _ & HpX).
  destruct (kth_merge_entries k dst_idx (ones x) Sum B N 1 HB ltac:(lia) Hk Hidx Hos Hor)
    as (S' & HS' & _ & HpS).
  fold kn g in Hy, Hys, Hpy, HX', HpX, HS', HpS.
  assert (X' = X) as -> by congruence. assert (S' = S) as -> by congruence.
  exists (kth_merge k (g * (kn - 1)) dst_idx), (kth_unmerge k (g * (kn - 1)) dst_idx), y, S.
  split; [done|]. split; [done|]. split; [done|].
  rewrite Hw. do 2 f_equal.
  eapply (list_eq_same_length _ _ B); [by destruct Hys| |].
  { unfold scale. rewrite length_zip_with. destruct HXs as [-> _], HSs as [-> _]. lia. }
  intros b q yb Hb Hq Hyb.
  destruct (lookup_lt_is_Some_2 x b) as [xb Hxb]; [by destruct Hx as [-> _]|].
  destruct Hidx as [Hdsh Hdb].
  destruct (lookup_lt_is_Some_2 dst_idx b) as [d Hd]; [by destruct Hdsh as [-> _]|].
  destruct (HpX b xb d Hxb Hd) as (Xb & HXb & HmX).
  destruct (HpS b ((λ _, [v_one]) <$> xb) d) as (Sb & HSb & HmS);
    [by rewrite list_lookup_fmap, Hxb|done|].
  destruct (Hpy b xb d Hxb Hd) as (yb' & Hyb' & Hmy).
  assert (yb' = yb) as -> by congruence.
  rewrite (scale_lookup X S b Xb Sb HXb HSb) in Hq. injection Hq as <-.
  pose proof (shaped_lookup _ _ _ _ _ Hx Hxb) as Hlx.
  assert (0 < kn) as Hkn by (unfold kn; lia).
  assert (g * kn ≤ N) as Hgk.
  { unfold g. rewrite Nat.mul_comm. apply Nat.Div0.mul_div_le. }
  destruct (mean_over_counts of_nat_1 of_nat_S (split_dst g kn xb) (split_src g kn xb)
              (split_dst g kn ((λ _, [v_one]) <$> xb))
              (split_src g kn ((λ _, [v_one]) <$> xb)) d)
    as (X0 & S0 & HX0 & HS0 & Hy0).
  + rewrite split_src_length by lia. by rewrite (shaped_lookup _ _ _ _ _ Hdsh Hd).
  + rewrite split_dst_length by lia. exact (Forall_lookup_1 _ _ _ _ Hdb Hd).
  + rewrite !split_dst_length; rewrite ?length_fmap; lia.
  + rewrite !split_src_length; rewrite ?length_fmap; lia.
  + apply split_dst_Forall, Forall_fmap. by apply Forall_true.
  + apply split_src_Forall, Forall_fmap. by apply Forall_true.
  + congruence.
- intros metric r rand x B N C HB HC Hm Hrand Hr Hx Hrows.
  destruct (random_bipartite_soft_matching_env (V:=V) metric r rand B N HB Hm Hrand Hr)
    as (a_idx & b_idx & dst_idx & _ & Hbs & Hrok).
  pose proof (random_sum_merge metric r rand _ _ B N HB Hm Hrand Hr Hbs) as Hsm.
  destruct (merge_wavg_default _ x B N _ C Hsm HC Hx Hrows)
    as (X & S & HX & HS & Hw & HXs & HSs).
  destruct (ones_shaped B N x Hx) as [Hos _].
  assert (∃ rn, r = Z.of_nat rn ∧ 0 < rn < N) as (rn & -> & Hrn).
  { exists (Z.to_nat r). lia. }
  rewrite Nat2Z.id in Hrok, HXs, HSs.
  destruct (random_merge_entries B rn N a_idx b_idx dst_idx x Mean HB ltac:(lia) Hrok Hx)
    as (y & Hy & Hys & Hpy).
  destruct (random_merge_entries B rn N a_idx b_idx dst_idx x Sum HB ltac:(lia) Hrok Hx)
    as (X' & HX' & _ & HpX).
  destruct (random_merge_entries B rn N a_idx b_idx dst_idx (ones x) Sum HB ltac:(lia) Hrok Hos)
    as (S' & HS' & _ & HpS).
  assert (X' = X) as -> by congruence. assert (S' = S) as -> by congruence.
  exists (random_merge B (Z.of_nat rn) N a_idx b_idx dst_idx),
         (random_unmerge B (Z.of_nat rn) N a_idx b_idx dst_idx), y, S.
  split; [done|]. split; [done|]. split; [done|].
  rewrite Hw. do 2 f_equal.
  eapply (list_eq_same_length _ _ B); [by destruct Hys| |].
  { unfold scale. rewrite length_zip_with. destruct HXs as [-> _], HSs as [-> _]. lia. }
  intros i q yb Hi Hq Hyb.
  destruct (lookup_lt_is_Some_2 x i) as [xb Hxb]; [by destruct Hx as [-> _]|].
  destruct (random_idx_lookup B rn N a_idx b_idx dst_idx i Hrok Hi)
    as (a & b & d & Ha & Hb & Hd & Hla & Hlb & Hld & Hp & HFd).
  destruct (HpX i xb a b d Hxb Ha Hb Hd) as (Xb & HXb & HmX).
  destruct (HpS i ((λ _, [v_one]) <$> xb) a b d) as (Sb & HSb & HmS);
    [by rewrite list_lookup_fmap, Hxb|done|done|done|].
  destruct (Hpy i xb a b d Hxb Ha Hb Hd) as (yb' & Hyb' & Hmy).
  assert (yb' = yb) as -> by congruence.
  rewrite (scale_lookup X S i Xb Sb HXb HSb) in Hq. injection Hq as <-.
  symmetry. eapply random_mean_entry; [| |exact HmX|exact HmS|exact Hmy].
  + lia.
  + by rewrite Hlb.
Qed.

End WavgMean.

Lemma Qc_of_nat_succ n :
Qcanon.Qcplus (Qc_of_nat n) (Qc_of_nat 1) = Qc_of_nat (S n).
Proof. by rewrite Qc_of_nat_add, Nat.add_1_r. Qed.

(** ** The batch size of the metric *)

Section ExpandBatch.
Context {A : Type}.

Lemma expand_dim_mismatch (n : nat) (l : list A) :
2 ≤ length l → length l ≠ n → expand_dim (Z.of_nat n) l = None.
Proof.
intros Hl Hn. unfold expand_dim.
destruct (Z.eqb_spec (Z.of_nat n) (-1)) as [?|_]; [lia|].
destruct (Z.ltb_spec (Z.of_nat n) 0) as [?|_]; [lia|].
destruct (Z.eqb_spec (Z.of_nat (length l)) (Z.of_nat n)) as [?|_]; [lia|].
destruct l as [|a [|b l]]; simpl in Hl; [lia|lia|done].
Qed.

Lemma expand_dim_length (n : nat) (l l' : list A) :
expand_dim (Z.of_nat n) l = Some l' → length l' = n.
Proof.
unfold expand_dim.
destruct (Z.eqb_spec (Z.of_nat n) (-1)) as [?|_]; [lia|].
destruct (Z.ltb_spec (Z.of_nat n) 0) as [?|_]; [lia|].
destruct (Z.eqb_spec (Z.of_nat (length l)) (Z.of_nat n)) as [E|_].
- intros [= <-]. lia.
- destruct l as [|a [|b l]]; [done| |done]. intros [= <-].
  by rewrite length_replicate, Nat2Z.id.
Qed.

End ExpandBatch.

Lemma expand_mismatch (idx : index) (n : nat) (k : Z) :
2 ≤ length idx → length idx ≠ n → expand idx n k = None.
Proof.
intros Hl Hn. unfold expand. by rewrite expand_dim_mismatch.
Qed.

Lemma expand_length (idx l : index) (n : nat) (k : Z) :
expand idx n k = Some l → length l = n.
Proof.
unfold expand. destruct (expand_dim (Z.of_nat n) idx) as [l1|] eqn:E; [|done].
cbn [mbind option_bind]. intros [Hl _]%mapM_lookup.
apply expand_dim_length in E. lia.
Qed.

Section BatchMismatch.
Context {M V : Type} `{MetricOps M} `{ValueOps V}.

(** The [expand] of the captured indices to the batch size of [x]: with
    a metric of at least two batch entries, [merge] and [unmerge] of the
    bipartite and of the k-th strategy raise on every tensor with a
    different number of batch entries. *)
Theorem batch_mismatch_raises (metric : tensor M) B N C :
2 ≤ B → 0 < C → shaped B N metric → rows_have C metric →
(∀ r ct dt, (0 < clamp N r ct dt)%Z →
   ∃ merge unmerge,
     bipartite_soft_matching (V:=V) metric r ct dt = Some (merge, unmerge) ∧
     ∀ x mode, length x ≠ B → merge x mode = None ∧ unmerge x = None) ∧
(∀ k, (2 ≤ k ≤ Z.of_nat N)%Z →
   ∃ merge unmerge,
     kth_bipartite_soft_matching (V:=V) metric k = Some (merge, unmerge) ∧
     ∀ x mode, length x ≠ B → merge x mode = None ∧ unmerge x = None).
Proof.
intros HB HC Hm Hrows. split.
- intros r ct dt Hr.
  destruct (bipartite_soft_matching_ok (V:=V) metric r ct dt B N ltac:(lia) Hm Hr)
    as (e & Hbs & Hok & _).
  exists (bipartite_merge e), (bipartite_unmerge e). split; [done|].
  intros x mode Hx. split.
  + unfold bipartite_merge, shape0. rewrite length_fmap.
    rewrite (expand_mismatch (unm_idx e)); [reflexivity|rewrite (ok_unm _ _ _ Hok); lia..].
  + unfold bipartite_unmerge, shape0. rewrite length_fmap.
    rewrite (expand_mismatch (dst_idx e)); [reflexivity|rewrite (ok_dst _ _ _ Hok); lia..].
- intros k Hk.
  destruct (kth_bipartite_soft_matching_ok (V:=V) metric k B N C ltac:(lia) HC Hm Hrows Hk)
    as (dst_idx & Hbs & [[Hld _] _]).
  eexists _, _. split; [exact Hbs|].
  intros x mode Hx. split.
  + unfold kth_merge, kth_split. destruct (_ || _); [done|].
    cbn [mbind option_bind fst snd]. unfold shape0. rewrite !length_fmap.
    rewrite expand_mismatch; [reflexivity|rewrite Hld; lia..].
  + unfold kth_unmerge, shape0.
    rewrite expand_mismatch; [reflexivity|rewrite Hld; lia..].
Qed.

End BatchMismatch.

Section Prefix.
Context {A : Type}.

Lemma gather_prefix (x : list (list A)) (idx : index) :
length idx ≤ length x → gather x idx = gather (take (length idx) x) idx.
Proof.
intros Hl. unfold gather. rewrite length_take.
destruct (Nat.leb_spec (length idx) (length x)) as [_|?]; [|lia].
destruct (Nat.leb_spec (length idx) (length idx `min` length x)) as [_|?]; [|lia].
f_equal. symmetry. apply zip_with_take_l.
Qed.

Lemma gather_short (x : list (list A)) (idx : index) :
length x < length idx → gather x idx = None.
Proof.
intros Hl. unfold gather. by destruct (Nat.leb_spec (length idx) (length x)) as [?|_]; [lia|].
Qed.

Lemma scatter_batches_prefix (g : list A → list nat → list A → option (list A))
  (out : list (list A)) (idx : index) (src : list (list A)) :
length idx ≤ length src →
scatter_batches g out idx src = scatter_batches g out idx (take (length idx) src).
Proof.
intros Hl. unfold scatter_batches. rewrite length_take.
destruct (Nat.leb_spec (length idx) (length src)) as [_|?]; [|lia].
destruct (Nat.leb_spec (length idx) (length idx `min` length src)) as [_|?]; [|lia].
assert (zip (zip out idx) (take (length idx) src) = zip (zip out idx) src) as ->; [|done].
apply zip_with_take_r'. rewrite length_zip_with. lia.
Qed.

Lemma shape2_take B (x : tensor A) : 0 < B → shape2 (take B x) = shape2 x.
Proof. intros HB. destruct B; [lia|]. by destruct x. Qed.

End Prefix.

Section RandomBatch.
Context {M V : Type} `{MetricOps M} `{ValueOps V}.

(** The closures of the random strategy read the batch size [B] of the
    metric, not of [x]: on a tensor with fewer batch entries [merge] and
    [unmerge] raise, on one with more they work on the first [B]
    entries and leave the others out of the result. *)
Theorem random_reads_metric_batch (metric : tensor M) (r : Z) (rand : mat M) B N :
0 < B → shaped B N metric → shaped B N rand → (0 < r < Z.of_nat N)%Z →
∃ merge unmerge,
  random_bipartite_soft_matching (V:=V) metric r rand = Some (merge, unmerge) ∧
  ∀ x mode,
    (length x < B → merge x mode = None ∧ unmerge x = None) ∧
    (B ≤ length x →
     merge x mode = merge (take B x) mode ∧ unmerge x = unmerge (take B x)).
Proof.
intros HB Hm Hrand Hr.
destruct (random_bipartite_soft_matching_env (V:=V) metric r rand B N HB Hm Hrand Hr)
  as (a_idx & b_idx & dst_idx & _ & Hbs & _).
eexists _, _. split; [exact Hbs|].
intros x mode. split.
- intros Hx. split.
  + unfold random_merge, random_split.
    destruct (expand a_idx B r) as [i_a|] eqn:Ea; [|done].
    cbn [mbind option_bind]. rewrite gather_short; [done|].
    by rewrite (expand_length _ _ _ _ Ea).
  + unfold random_unmerge.
    destruct (expand dst_idx B r) as [i_d|] eqn:Ed; [|done].
    cbn [mbind option_bind]. rewrite gather_short; [done|].
    by rewrite (expand_length _ _ _ _ Ed).
- intros Hx. split.
  + unfold random_merge, random_split.
    destruct (expand a_idx B r) as [i_a|] eqn:Ea; [|done].
    destruct (expand b_idx B (Z.of_nat N - r)) as [i_b|] eqn:Eb.
    * cbn [mbind option_bind].
      rewrite (gather_prefix x i_a), (gather_prefix x i_b);
        rewrite ?(expand_length _ _ _ _ Ea), ?(expand_length _ _ _ _ Eb); done.
    * cbn [mbind option_bind].
      rewrite (gather_prefix x i_a); rewrite ?(expand_length _ _ _ _ Ea); done.
  + unfold random_unmerge. rewrite (shape2_take B x HB).
    destruct (expand dst_idx B r) as [i_d|] eqn:Ed; [|done].
    cbn [mbind option_bind].
    rewrite (gather_prefix x i_d); rewrite ?(expand_length _ _ _ _ Ed); [|done].
    destruct (gather (take B x) i_d) as [src|]; [|done]. cbn [mbind option_bind].
    destruct (expand a_idx B r) as [i_a|]; [|done]. cbn [mbind option_bind].
    destruct (scatter_ _ i_a src) as [out|]; [|done]. cbn [mbind option_bind].
    destruct (expand b_idx B (Z.of_nat N - r)) as [i_b|] eqn:Eb; [|done].
    cbn [mbind option_bind]. unfold scatter_.
    rewrite (scatter_batches_prefix _ out i_b x);
      rewrite ?(expand_length _ _ _ _ Eb); done.
Qed.

End RandomBatch.

Lemma metric4_twice : shaped 2 4 (metric4 ++ metric4) ∧ rows_have 2 (metric4 ++ metric4).
Proof. split; [split; [done|]|]; repeat constructor. Qed.

(** ** The most similar tokens are merged *)

Section StrictWeakOrder.
Context {M : Type} `{MetricOps M}.
Hypothesis gtb_irrefl : ∀ a : M, m_gtb a a = false.
Hypothesis gtb_trans : ∀ a b c : M, m_gtb a b = true → m_gtb b c = true → m_gtb a c = true.
Hypothesis gtb_neg_trans : ∀ a b c : M, m_gtb a b = false → m_gtb b c = false → m_gtb a c = false.

Lemma gtb_asym (a b : M) : m_gtb a b = true → m_gtb b a = false.
Proof.
intros Hab. destruct (m_gtb b a) eqn:Hba; [|done].
pose proof (gtb_irrefl a) as Hi. by rewrite (gtb_trans a b a Hab Hba) in Hi.
Qed.

(** [argmax_from] returns an entry that no entry is above, with its
    position. *)
Lemma argmax_from_spec (l : list M) : ∀ best bi i v j,
argmax_from best bi i l = (v, j) →
m_gtb best v = false ∧ (∀ y, y ∈ l → m_gtb y v = false) ∧
((v = best ∧ j = bi) ∨ ∃ p, l !! p = Some v ∧ j = i + p).
Proof.
induction l as [|y l IH]; intros best bi i v j; cbn [argmax_from].
- intros [= <- <-]. split; [apply gtb_irrefl|]. split; [|by left].
  intros y Hy. by apply elem_of_nil in Hy.
- destruct (m_gtb y best) eqn:Hyb; intros Hr.
  + destruct (IH _ _ _ _ _ Hr) as (Hyv & Hl & Hpos).
    split; [|split].
    * destruct (m_gtb best v) eqn:Hbv; [|done].
      by rewrite (gtb_trans y best v Hyb Hbv) in Hyv.
    * intros z [->|Hz]%elem_of_cons; [done|by apply Hl].
    * right. destruct Hpos as [[-> ->]|(p & Hp & ->)].
      -- exists 0. split; [done|lia].
      -- exists (S p). split; [done|lia].
  + destruct (IH _ _ _ _ _ Hr) as (Hbv & Hl & Hpos).
    split; [done|]. split.
    * intros z [->|Hz]%elem_of_cons; [by eapply gtb_neg_trans|by apply Hl].
    * destruct Hpos as [?|(p & Hp & ->)]; [by left|].
      right. exists (S p). split; [done|lia].
Qed.

Lemma row_max_spec (row : list M) :
row ≠ [] →
row !! (row_max row).2 = Some (row_max row).1 ∧
∀ y, y ∈ row → m_gtb y (row_max row).1 = false.
Proof.
destruct row as [|y l]; [done|]. intros _. cbn [row_max].
destruct (argmax_from y 0 1 l) as [v j] eqn:E.
destruct (argmax_from_spec l y 0 1 v j E) as (Hyv & Hl & Hpos). cbn [fst snd].
split.
- destruct Hpos as [[-> ->]|(p & Hp & ->)]; [done|]. exact Hp.
- intros z [->|Hz]%elem_of_cons; [done|by apply Hl].
Qed.

(** The descending insertion sort leaves no key above an earlier one. *)
Lemma insert_sorted_desc {X} (key : X → M) (a : X) (l : list X) :
StronglySorted (λ p q, m_gtb (key q) (key p) = false) l →
StronglySorted (λ p q, m_gtb (key q) (key p) = false)
  (insert_sorted (λ p q, m_gtb (key p) (key q)) a l).
Proof.
induction 1 as [|b l Hs IH Hb]; cbn [insert_sorted]; [repeat constructor|].
destruct (m_gtb (key b) (key a)) eqn:Hba.
- apply SSorted_cons; [done|].
  rewrite (insert_sorted_perm _ a l). constructor; [by apply gtb_asym|done].
- apply SSorted_cons; [by apply SSorted_cons|].
  constructor; [done|].
  eapply Forall_impl; [exact Hb|]. intros x Hx. cbv beta in Hx |- *.
  by eapply gtb_neg_trans.
Qed.

Lemma isort_desc {X} (key : X → M) (l : list X) :
StronglySorted (λ p q, m_gtb (key q) (key p) = false)
  (isort (λ p q, m_gtb (key p) (key q)) l).
Proof.
induction l as [|a l IH]; [constructor|]. cbn [isort foldr].
by apply insert_sorted_desc.
Qed.

(** [argsort(descending=True)]: the key of a position taken from the
    first [r] is not below the key of a position taken from the rest. *)
Lemma argsort_desc_split (keys : list M) (r i i' : nat) ki ki' :
i ∈ take r (argsort_desc keys) → i' ∈ drop r (argsort_desc keys) →
keys !! i = Some ki → keys !! i' = Some ki' → m_gtb ki' ki = false.
Proof.
unfold argsort_desc, argsort_by.
set (L := isort _ _). intros Hi Hi' Hki Hki'.
rewrite <- fmap_take in Hi. rewrite <- fmap_drop in Hi'.
apply list_elem_of_fmap_1 in Hi as ([i0 k] & -> & Hin).
apply list_elem_of_fmap_1 in Hi' as ([i0' k'] & -> & Hin').
cbn [fst] in Hki, Hki'.
assert (∀ p : nat * M, p ∈ L → keys !! p.1 = Some p.2) as HL.
{ intros p Hp. unfold L in Hp. rewrite isort_perm in Hp.
  apply elem_of_lookup_imap_1 in Hp as (n & y & -> & Hy). done. }
assert ((i0, k) ∈ L) as HinL.
{ apply elem_of_take in Hin as (n & Hn & _). by eapply list_elem_of_lookup_2. }
pose proof (HL _ HinL) as H1.
assert ((i0', k') ∈ L) as HinL'.
{ apply list_elem_of_lookup_1 in Hin' as (n & Hn). rewrite lookup_drop in Hn.
  by eapply list_elem_of_lookup_2. }
pose proof (HL _ HinL') as H2. cbn [fst snd] in H1, H2.
assert (k = ki) as -> by congruence. assert (k' = ki') as -> by congruence.
pose proof (isort_desc (X:=nat * M) snd (imap (λ i k, (i, k)) keys)) as Hs.
fold L in Hs. rewrite <- (take_drop r L) in Hs.
exact (StronglySorted_app_1_elem_of _ _ _ _ _ Hs Hin Hin').
Qed.

Lemma bipartite_indices_unm (metric : tensor M) (r' : Z) (ct dt : bool) e :
bipartite_indices metric r' ct dt = Some e →
∀ b u Sb, unm_idx e !! b = Some u →
  masked ct dt (similarity (evens <$> normalize metric)
                           (odds <$> normalize metric)) !! b = Some Sb →
  u ≡ₚ drop (Z.to_nat r') (argsort_desc ((fst ∘ row_max) <$> Sb)).
Proof.
unfold bipartite_indices, max_lastdim.
destruct (_ =? 0); [done|]. cbn [mbind option_bind fst snd].
change (if dt then mask_col0 (if ct then mask_row0 ?s else ?s)
        else (if ct then mask_row0 ?s else ?s)) with (masked ct dt s).
set (S := masked ct dt _).
destruct (gather _ _) as [dsti|] eqn:Hg; [|done]. cbn [mbind option_bind].
intros [= <-] b u Sb. cbn [unm_idx]. intros Hu HSb.
destruct ct; rewrite !list_lookup_fmap, HSb in Hu; simpl in Hu; injection Hu as <-;
  [apply sort_idx_perm|done].
Qed.

(** The merged pairs are the most similar ones.  For an order of the
    scores in which "not above" is transitive: every merged token goes
    to a destination that no destination of its row scores above, and
    no score of a token left unmerged is above the score of a merged
    pair.  The scores are the masked ones. *)
Theorem merged_pairs_score_highest (metric : tensor M) (r : Z) (ct dt : bool) B N :
0 < B → shaped B N metric → (0 < clamp N r ct dt)%Z →
∃ e, bipartite_indices metric (clamp N r ct dt) ct dt = Some e ∧
  ∀ b Sb u s d k i j,
    masked ct dt (similarity (evens <$> normalize metric)
                             (odds <$> normalize metric)) !! b = Some Sb →
    unm_idx e !! b = Some u → src_idx e !! b = Some s → dst_idx e !! b = Some d →
    s !! k = Some i → d !! k = Some j →
    ∃ row v, Sb !! i = Some row ∧ row !! j = Some v ∧
      (∀ v', v' ∈ row → m_gtb v' v = false) ∧
      (∀ i' row' v', i' ∈ u → Sb !! i' = Some row' → v' ∈ row' →
         m_gtb v' v = false).
Proof.
intros HB Hm Hr.
destruct (bipartite_indices_ok metric (clamp N r ct dt) ct dt B N HB Hm)
  as (e & He & Hok & Hre & _); [by split; [|apply clamp_half]|].
exists e. split; [done|].
intros b Sb u s d k i j HSb Hu Hs Hd Hk Hj.
destruct (bipartite_indices_entries metric _ ct dt e He b s d Hs Hd)
  as (Sb' & HSb' & Hss & Hgd).
assert (Sb' = Sb) as -> by congruence.
pose proof (bipartite_indices_unm metric _ ct dt e He b u Sb Hu HSb) as Hpu.
assert (2 ≤ N) as HN2. { pose proof (clamp_half N r ct dt). dlia. }
assert (Forall (λ row : list M, row ≠ []) Sb) as Hne.
{ assert (b < B) as Hb.
  { rewrite <- (ok_src _ _ _ Hok). by eapply lookup_lt_Some. }
  destruct (normalize_shaped B N metric Hm) as [Hln HFn].
  destruct (lookup_lt_is_Some_2 (normalize metric) b) as [m Hmb]; [lia|].
  destruct (masked_scores_lookup ct dt metric b m Hmb) as (Sb' & HSb2 & _ & HF).
  assert (Sb' = Sb) as -> by congruence.
  eapply Forall_impl; [exact HF|]. intros row Hl ->.
  rewrite length_odds, (Forall_lookup_1 _ _ _ _ HFn Hmb) in Hl.
  cbn [length] in Hl. clear -Hl HN2. dlia. }
apply gather_rows_lookup in Hgd as [_ Hpd].
destruct (Hpd k i Hk) as (j' & Hj' & Hrow). assert (j' = j) as -> by congruence.
rewrite list_lookup_fmap in Hrow.
destruct (Sb !! i) as [row|] eqn:Hri; [|done]. simpl in Hrow. injection Hrow as <-.
destruct (row_max_spec row (Forall_lookup_1 _ _ _ _ Hne Hri)) as [Hv Hmax].
exists row, (row_max row).1. split; [done|]. split; [done|]. split; [done|].
intros i' row' v' Hi' Hri' Hv'.
destruct (row_max_spec row' (Forall_lookup_1 _ _ _ _ Hne Hri')) as [_ Hmax'].
eapply gtb_neg_trans; [exact (Hmax' v' Hv')|].
eapply (argsort_desc_split ((fst ∘ row_max) <$> Sb) (Z.to_nat (clamp N r ct dt)) i i').
- rewrite <- Hss. by eapply list_elem_of_lookup_2.
- by rewrite <- Hpu.
- by rewrite list_lookup_fmap, Hri.
- by rewrite list_lookup_fmap, Hri'.
Qed.

Lemma similarity_row (a b : tensor M) i (am bm : mat M) k :
a !! i = Some am → b !! i = Some bm →
∃ Sb, similarity a b !! i = Some Sb ∧
  Sb !! k = (λ u, dot u <$> bm) <$> am !! k.
Proof.
intros Ha Hb. unfold similarity. rewrite lookup_zip_with, Ha, Hb. simpl.
eexists. split; [done|]. by rewrite list_lookup_fmap.
Qed.

(** The scores' row of a source: its best destination. *)
Lemma best_destination (src : list M) (bm : mat M) j :
bm ≠ [] → (row_max (dot src <$> bm)).2 = j →
∃ dst, bm !! j = Some dst ∧
  ∀ dst', dst' ∈ bm → m_gtb (dot src dst') (dot src dst) = false.
Proof.
intros Hne <-.
destruct (row_max_spec (dot src <$> bm)) as [Hv Hmax].
{ by destruct bm. }
rewrite list_lookup_fmap in Hv.
destruct (bm !! _) as [dst|] eqn:Hd; [|done]. simpl in Hv. injection Hv as Hv.
exists dst. split; [done|]. intros dst' Hin. rewrite Hv.
apply Hmax. by apply list_elem_of_fmap_2.
Qed.

Lemma random_indices_eq (metric : tensor M) (r : Z) (rand : mat M) B N :
0 < B → shaped B N metric → shaped B N rand → (0 < r < Z.of_nat N)%Z →
∃ a_idx b_idx a b,
  random_indices metric r rand
  = Some (a_idx, b_idx, fmap (M:=list) (snd ∘ row_max) <$> similarity a b) ∧
  shaped B (Z.to_nat r) a ∧ shaped B (N - Z.to_nat r) b ∧
  ∀ i m ai bi, normalize metric !! i = Some m →
    a_idx !! i = Some ai → b_idx !! i = Some bi →
    ∃ ma mb, a !! i = Some ma ∧ b !! i = Some mb ∧
             gather_rows m ai = Some ma ∧ gather_rows m bi = Some mb.
Proof.
intros HB Hm Hrand Hr. unfold random_indices.
assert (∃ rn, r = Z.of_nat rn ∧ 0 < rn < N) as (rn & -> & Hrn).
{ exists (Z.to_nat r). lia. }
rewrite Nat2Z.id.
rewrite (shaped_shape1 B N metric HB Hm). unfold shape0.
destruct (Hm) as [Hlm _]. rewrite Hlm.
set (rand_idx := argsort_asc <$> rand).
assert (∀ i l, rand_idx !! i = Some l → l ≡ₚ seq 0 N) as Hperm.
{ intros i l. unfold rand_idx. rewrite list_lookup_fmap.
  destruct (rand !! i) as [keys|] eqn:Hk; [|done]. simpl. intros [= <-].
  unfold argsort_asc. by rewrite argsort_by_perm, (shaped_lookup _ _ _ _ _ Hrand Hk). }
assert (length rand_idx = B) as Hlr.
{ unfold rand_idx. rewrite length_fmap. by destruct Hrand. }
assert (shaped B rn (take rn <$> rand_idx)) as Ha.
{ split; [by rewrite length_fmap|]. apply Forall_lookup. intros i a.
  rewrite list_lookup_fmap. destruct (rand_idx !! i) as [l|] eqn:Hl; [|done].
  simpl. intros [= <-]. rewrite length_take.
  pose proof (Permutation_length (Hperm i l Hl)) as E. rewrite length_seq in E. lia. }
assert (shaped B (N - rn) (drop rn <$> rand_idx)) as Hb.
{ split; [by rewrite length_fmap|]. apply Forall_lookup. intros i a.
  rewrite list_lookup_fmap. destruct (rand_idx !! i) as [l|] eqn:Hl; [|done].
  simpl. intros [= <-]. rewrite length_drop.
  pose proof (Permutation_length (Hperm i l Hl)) as E. rewrite length_seq in E. lia. }
assert (∀ i a b, (take rn <$> rand_idx) !! i = Some a →
          (drop rn <$> rand_idx) !! i = Some b → a ++ b ≡ₚ seq 0 N) as Hp.
{ intros i a b. rewrite !list_lookup_fmap.
  destruct (rand_idx !! i) as [l|] eqn:Hl; [|done]. simpl. intros [= <-] [= <-].
  rewrite take_drop. by eapply Hperm. }
destruct (random_split_spec B rn N _ _ (normalize metric) HB ltac:(lia) Ha Hb Hp
            (normalize_shaped B N metric Hm)) as (xa & xb & -> & Hxa & Hxb & Hent).
cbn [mbind option_bind fst snd].
rewrite (shaped_shape1 B _ _ HB Hxb).
unfold max_lastdim. destruct (Nat.eqb_spec (N - rn) 0) as [?|_]; [lia|].
cbn [mbind option_bind fst snd].
eexists _, _, xa, xb. split; [done|]. split; [done|]. split; [done|]. exact Hent.
Qed.

(** In the k-th and in the random strategy every source token is merged
    into a destination that no destination is more similar to: no dot
    product of the normalised source with a normalised destination is
    above the one with the destination chosen (for an order in which
    "not above" is transitive). *)
Theorem sources_go_to_best_match :
(∀ (metric : tensor M) k B N C,
   0 < B → 0 < C → shaped B N metric → rows_have C metric →
   (2 ≤ k ≤ Z.of_nat N)%Z →
   ∃ dst_idx,
     kth_indices metric k
       = Some (N `div` Z.to_nat k * (Z.to_nat k - 1), dst_idx) ∧
     ∀ b m d i j,
       normalize metric !! b = Some m → dst_idx !! b = Some d → d !! i = Some j →
       ∃ src dst,
         split_src (N `div` Z.to_nat k) (Z.to_nat k) m !! i = Some src ∧
         split_dst (N `div` Z.to_nat k) (Z.to_nat k) m !! j = Some dst ∧
         ∀ dst', dst' ∈ split_dst (N `div` Z.to_nat k) (Z.to_nat k) m →
                 m_gtb (dot src dst') (dot src dst) = false) ∧
(∀ (metric : tensor M) r rand B N,
   0 < B → shaped B N metric → shaped B N rand → (0 < r < Z.of_nat N)%Z →
   ∃ a_idx b_idx dst_idx,
     random_indices metric r rand = Some (a_idx, b_idx, dst_idx) ∧
     ∀ i m a b d k p j,
       normalize metric !! i = Some m →
       a_idx !! i = Some a → b_idx !! i = Some b → dst_idx !! i = Some d →
       a !! k = Some p → d !! k = Some j →
       ∃ q src dst,
         b !! j = Some q ∧ m !! p = Some src ∧ m !! q = Some dst ∧
         ∀ q' dst', q' ∈ b → m !! q' = Some dst' →
                    m_gtb (dot src dst') (dot src dst) = false).
Proof.
split.
- intros metric k B N C HB HC Hm Hrows Hk.
  set (kn := Z.to_nat k). set (g := N `div` kn).
  pose proof (kth_indices_eq metric k B N C HB HC Hm Hrows Hk) as He.
  cbv zeta in He. fold kn g in He.
  eexists. split; [exact He|].
  intros b m d i j Hmb Hd Hj.
  assert (0 < g) as Hg by (unfold g, kn; dlia).
  assert (g * kn ≤ N) as Hgk by (unfold g; dlia).
  pose proof (shaped_lookup _ _ _ _ _ (normalize_shaped B N metric Hm) Hmb) as Hlm.
  destruct (similarity_row (split_src g kn <$> normalize metric)
              (split_dst g kn <$> normalize metric) b
              (split_src g kn m) (split_dst g kn m) i) as (Sb & HSb & Hrow);
    [by rewrite list_lookup_fmap, Hmb..|].
  rewrite !list_lookup_fmap, HSb in Hd. simpl in Hd. injection Hd as <-.
  rewrite list_lookup_fmap, Hrow in Hj.
  destruct (split_src g kn m !! i) as [src|] eqn:Hsrc; [|done].
  simpl in Hj. injection Hj as Hj.
  destruct (best_destination src (split_dst g kn m) j) as (dst & Hdst & Hbest);
    [|exact Hj|].
  { intros E. apply (f_equal length) in E. rewrite split_dst_length in E; simpl in E; lia. }
  by exists src, dst.
- intros metric r rand B N HB Hm Hrand Hr.
  destruct (random_indices_eq metric r rand B N HB Hm Hrand Hr)
    as (a_idx & b_idx & xa & xb & He & Hxa & Hxb & Hent).
  eexists _, _, _. split; [exact He|].
  intros i m a b d k p j Hmi Ha Hb Hd Hp Hj.
  destruct (Hent i m a b Hmi Ha Hb) as (ma & mb & Hma & Hmb & Hga & Hgb).
  destruct (similarity_row xa xb i ma mb k Hma Hmb) as (Sb & HSb & Hrow).
  rewrite !list_lookup_fmap, HSb in Hd. simpl in Hd. injection Hd as <-.
  rewrite list_lookup_fmap, Hrow in Hj.
  apply gather_rows_lookup in Hga as [Hla Hpa]. apply gather_rows_lookup in Hgb as [Hlb Hpb].
  destruct (Hpa k p Hp) as (src & Hsrc & Hmp).
  rewrite Hsrc in Hj. simpl in Hj. injection Hj as Hj.
  destruct (best_destination src mb j) as (dst & Hdst & Hbest); [|exact Hj|].
  { intros E. apply (f_equal length) in E. rewrite (shaped_lookup _ _ _ _ _ Hxb Hmb) in E.
    simpl in E. lia. }
  destruct (lookup_lt_is_Some_2 b j) as [q Hq].
  { rewrite <- Hlb. by eapply lookup_lt_Some. }
  destruct (Hpb j q Hq) as (dst0 & Hdst0 & Hmq).
  assert (dst0 = dst) as -> by congruence.
  exists q, src, dst. split; [done|]. split; [done|]. split; [done|].
  intros q' dst' Hq' Hmq'. apply Hbest.
  apply list_elem_of_lookup_1 in Hq' as (j' & Hj').
  destruct (Hpb j' q' Hj') as (dst2 & Hdst2 & Hmq2).
  assert (dst2 = dst') as -> by congruence.
  by eapply list_elem_of_lookup_2.
Qed.

End StrictWeakOrder.

Lemma sf_gtb_rank (x y : spec_float) :
sf_gtb x y = true ↔ lex_gt (sf_rank x) (sf_rank y).
Proof.
unfold sf_gtb, lex_gt.
destruct x as [sx|sx| |sx mx ex], y as [sy|sy| |sy my ey];
  try destruct sx; try destruct sy; cbn [SFcompare sf_rank sf_is_nan fst snd andb negb];
  try (split; [done|lia]); try (split; [lia|done]); try (split; [intros _; lia|done]).
- destruct (Z.compare_spec ex ey) as [->|?|?].
  + change (PosDef.Pos.compare_cont Eq mx my) with (Pos.compare mx my).
    destruct (Pos.compare_spec mx my) as [->|?|?]; cbn [CompOpp];
      (split; [done|lia]) || (split; [intros _; lia|done]).
  + split; [intros _; lia|done].
  + split; [done|lia].
- destruct (Z.compare_spec ex ey) as [->|?|?].
  + change (PosDef.Pos.compare_cont Eq mx my) with (Pos.compare mx my).
    destruct (Pos.compare_spec mx my) as [->|?|?];
      (split; [done|lia]) || (split; [intros _; lia|done]).
  + split; [done|lia].
  + split; [intros _; lia|done].
Qed.

Lemma float_gtb_irrefl (a : float) : float_gtb a a = false.
Proof.
unfold float_gtb. destruct (sf_gtb (Prim2SF a) (Prim2SF a)) eqn:E; [|done].
apply sf_gtb_rank in E. unfold lex_gt in E. lia.
Qed.

Lemma float_gtb_trans (a b c : float) :
float_gtb a b = true → float_gtb b c = true → float_gtb a c = true.
Proof.
unfold float_gtb. rewrite !sf_gtb_rank. unfold lex_gt. lia.
Qed.

Lemma float_gtb_neg_trans (a b c : float) :
float_gtb a b = false → float_gtb b c = false → float_gtb a c = false.
Proof.
unfold float_gtb. intros Hab Hbc.
destruct (sf_gtb (Prim2SF a) (Prim2SF c)) eqn:Hac; [|done].
apply sf_gtb_rank in Hac.
assert (¬ lex_gt (sf_rank (Prim2SF a)) (sf_rank (Prim2SF b))) as Hab'.
{ intros Hx%sf_gtb_rank. congruence. }
assert (¬ lex_gt (sf_rank (Prim2SF b)) (sf_rank (Prim2SF c))) as Hbc'.
{ intros Hx%sf_gtb_rank. congruence. }
unfold lex_gt in *. lia.
Qed.

(** ** The shapes of merge and unmerge *)

Section Shapes.
Context {M V : Type} `{MetricOps M} `{ValueOps V}.






End Shapes.

(** ** The original tokens behind a merged token *)

Section FoldedFacts.
Context {V : Type} `{ValueOps V}.

Lemma sent_to_fmap {A B} (f : A → B) j (idx : list nat) : ∀ src : list A,
sent_to j idx (f <$> src) = f <$> sent_to j idx src.
Proof.
induction idx as [|i idx IH]; intros [|a src]; try done.
rewrite fmap_cons, !sent_to_cons, IH. by destruct (decide (i = j)).
Qed.

Lemma feeders_lookup (d src_pos dst_pos : list nat) j :
feeders d src_pos dst_pos !! j = (λ p, p :: sent_to j d src_pos) <$> dst_pos !! j.
Proof. unfold feeders. by rewrite list_lookup_imap. Qed.

Lemma length_feeders (d src_pos dst_pos : list nat) :
length (feeders d src_pos dst_pos) = length dst_pos.
Proof. unfold feeders. by rewrite length_imap. Qed.

(** [scatter_reduce] in terms of the positions of its rows. *)
Lemma scatter_folded mode (xb dst src : mat V) (d src_pos dst_pos : list nat) :
mode ≠ Mean →
gather_rows xb dst_pos = Some dst → gather_rows xb src_pos = Some src →
length d ≤ length src_pos → Forall (λ j, j < length dst_pos) d →
scatter_reduce_rows mode dst d src
= Some (folded (reduce_op mode) xb <$> feeders d src_pos dst_pos).
Proof.
intros Hmode Hdst Hsrc Hld HFd.
pose proof (gather_rows_fmap _ _ _ [] Hdst) as Edst.
pose proof (gather_rows_fmap _ _ _ [] Hsrc) as Esrc.
apply gather_rows_lookup in Hdst as [Hldst _].
apply gather_rows_lookup in Hsrc as [Hlsrc _].
destruct (scatter_reduce_rows_spec mode dst d src) as (out & Hout & Hlo & Hpo);
  [lia|by rewrite Hldst|].
rewrite Hout. f_equal.
eapply (list_eq_same_length _ _ (length dst_pos)).
{ by rewrite length_fmap, length_feeders. }
{ lia. }
intros j row row' Hj Hrow Hrow'.
destruct (lookup_lt_is_Some_2 dst_pos j Hj) as [p Hp].
rewrite list_lookup_fmap, feeders_lookup, Hp in Hrow'. simpl in Hrow'.
injection Hrow' as <-.
assert (dst !! j = Some (row_at xb p)) as Hdj.
{ rewrite Edst, list_lookup_fmap, Hp. done. }
rewrite (Hpo j _ Hdj) in Hrow. injection Hrow as <-.
rewrite Esrc, sent_to_fmap. unfold reduced. by destruct mode.
Qed.

Lemma gather_odds (xb : mat V) N :
length xb = N →
gather_rows xb ((λ j, 2 * j + 1) <$> seq 0 (N `div` 2)) = Some (odds xb).
Proof.
intros Hl. apply gather_rows_lookup. split.
{ by rewrite length_odds, length_fmap, length_seq, Hl. }
intros j i. rewrite list_lookup_fmap.
destruct (seq 0 (N `div` 2) !! j) as [j'|] eqn:Hj; [|done]. simpl. intros [= <-].
apply lookup_seq in Hj as [-> Hj]. simpl.
destruct (lookup_lt_is_Some_2 xb (2 * j + 1)) as [row Hrow]; [dlia|].
exists row. by rewrite odds_lookup.
Qed.

Lemma gather_evens (xb : mat V) (s : list nat) src :
gather_rows (evens xb) s = Some src →
gather_rows xb ((λ i, 2 * i) <$> s) = Some src.
Proof.
intros [Hl Hp]%gather_rows_lookup. apply gather_rows_lookup.
split; [by rewrite length_fmap|].
intros j p. rewrite list_lookup_fmap.
destruct (s !! j) as [i|] eqn:Hi; [|done]. simpl. intros [= <-].
destruct (Hp j i Hi) as (row & Hrow & Hev). exists row.
by rewrite evens_lookup in Hev.
Qed.

End FoldedFacts.

Section EntryFolded.
Context {V : Type} `{ValueOps V}.

Lemma folded_singles op (xb : mat V) (l : list nat) (f : nat → nat) :
folded op xb <$> ((λ i, [f i]) <$> l) = (λ i, row_at xb (f i)) <$> l.
Proof. rewrite <- list_fmap_compose. by apply list_fmap_ext. Qed.

(** The bipartite merge of one batch entry, output token by output
    token. *)
Lemma merge_entry_folded mode distill (u s d : list nat) (xb : mat V) N :
mode ≠ Mean →
u ++ s ≡ₚ seq 0 ((N + 1) `div` 2) →
length d = length s → Forall (λ j, j < N `div` 2) d → length xb = N →
merge_entry distill u s d xb mode
= Some (folded (reduce_op mode) xb <$> bipartite_feeders distill N u s d).
Proof.
intros Hmode Hp Hld HFd Hlx.
pose proof (perm_seq_bound _ _ Hp) as Hb. apply Forall_app in Hb as [Hbu Hbs].
destruct (gather_rows_total (evens xb) u) as [unm Hunm].
{ by rewrite length_evens, Hlx. }
destruct (gather_rows_total (evens xb) s) as [src Hsrc].
{ by rewrite length_evens, Hlx. }
unfold merge_entry. rewrite Hunm, Hsrc. cbn [mbind option_bind].
rewrite (scatter_folded mode xb (odds xb) src d ((λ i, 2 * i) <$> s)
           ((λ j, 2 * j + 1) <$> seq 0 (N `div` 2)) Hmode);
  [|by apply gather_odds|by apply gather_evens|rewrite length_fmap; lia|
   by rewrite length_fmap, length_seq].
cbn [mbind option_bind]. f_equal.
assert (unm = folded (reduce_op mode) xb <$> ((λ i, [2 * i]) <$> u)) as ->.
{ rewrite (folded_singles _ xb u (λ i, 2 * i)).
  rewrite (gather_rows_fmap _ _ _ [] Hunm). apply list_fmap_ext.
  intros _ i _. unfold row_at. by rewrite evens_lookup. }
unfold bipartite_feeders. destruct distill.
- by rewrite !fmap_app, !fmap_take, !fmap_drop.
- by rewrite fmap_app.
Qed.

Lemma gather_split_dst (xb : mat V) kn g :
0 < kn → g * kn ≤ length xb →
gather_rows xb ((λ j, j * kn + (kn - 1)) <$> seq 0 g) = Some (split_dst g kn xb).
Proof.
intros Hkn Hl. apply gather_rows_lookup. split.
{ rewrite split_dst_length by done. by rewrite length_fmap, length_seq. }
intros j p. rewrite list_lookup_fmap.
destruct (seq 0 g !! j) as [j'|] eqn:Hj; [|done]. simpl. intros [= <-].
apply lookup_seq in Hj as [-> Hj]. simpl.
rewrite split_dst_lookup by done.
destruct (lookup_lt_is_Some_2 xb (j * kn + (kn - 1))) as [row Hrow]; [|by exists row].
pose proof (Nat.mul_le_mono_r (S j) g kn ltac:(lia)). lia.
Qed.

Lemma gather_split_src (xb : mat V) kn g :
1 < kn → g * kn ≤ length xb →
gather_rows xb ((λ i, i `div` (kn - 1) * kn + i `mod` (kn - 1)) <$> seq 0 (g * (kn - 1)))
= Some (split_src g kn xb).
Proof.
intros Hkn Hl. apply gather_rows_lookup. split.
{ rewrite split_src_length by (done || lia). by rewrite length_fmap, length_seq. }
intros i p. rewrite list_lookup_fmap.
destruct (seq 0 (g * (kn - 1)) !! i) as [i'|] eqn:Hi; [|done]. simpl. intros [= <-].
apply lookup_seq in Hi as [-> Hi]. simpl.
assert (i = i `div` (kn - 1) * (kn - 1) + i `mod` (kn - 1)) as Ei.
{ pose proof (Nat.div_mod_eq i (kn - 1)). lia. }
assert (i `mod` (kn - 1) < kn - 1) as Hmod by (apply Nat.mod_upper_bound; lia).
assert (i `div` (kn - 1) < g) as Hdiv by (apply Nat.Div0.div_lt_upper_bound; lia).
assert (split_src g kn xb !! i = xb !! (i `div` (kn - 1) * kn + i `mod` (kn - 1))) as ->.
{ rewrite Ei at 1. by apply split_src_lookup. }
destruct (lookup_lt_is_Some_2 xb (i `div` (kn - 1) * kn + i `mod` (kn - 1)))
  as [row Hrow]; [|by exists row].
pose proof (Nat.mul_le_mono_r (S (i `div` (kn - 1))) g kn ltac:(lia)). lia.
Qed.

(** The merge of the k-th strategy on one batch entry. *)
Lemma kth_entry_folded mode (kn g : nat) (d : list nat) (xb : mat V) :
mode ≠ Mean → 1 < kn → g * kn ≤ length xb →
length d = g * (kn - 1) → Forall (λ j, j < g) d →
scatter_reduce_rows mode (split_dst g kn xb) d (split_src g kn xb)
= Some (folded (reduce_op mode) xb <$> kth_feeders kn g d).
Proof.
intros Hmode Hkn Hl Hld HFd. unfold kth_feeders.
apply scatter_folded; [done| | | |].
- apply gather_split_dst; [lia|done].
- by apply gather_split_src.
- rewrite length_fmap, length_seq. lia.
- by rewrite length_fmap, length_seq.
Qed.

(** The merge of the random strategy on one batch entry. *)
Lemma random_entry_folded mode (a b d : list nat) (xb : mat V) N :
mode ≠ Mean →
a ++ b ≡ₚ seq 0 N → length d = length a → Forall (λ j, j < length b) d →
length xb = N →
random_merge_entry a b d xb mode
= Some (folded (reduce_op mode) xb <$> random_feeders a b d).
Proof.
intros Hmode Hp Hld HFd Hlx.
pose proof (perm_seq_bound _ _ Hp) as Hb. apply Forall_app in Hb as [Hba Hbb].
destruct (gather_rows_total xb a) as [src Hsrc]; [by rewrite Hlx|].
destruct (gather_rows_total xb b) as [dst Hdst]; [by rewrite Hlx|].
unfold random_merge_entry. rewrite Hsrc, Hdst. cbn [mbind option_bind].
unfold random_feeders. apply (scatter_folded mode xb dst src d a b); (done || lia).
Qed.

End EntryFolded.

Section PlanFacts.
Context {V : Type} `{ValueOps V}.

Lemma through_app (P : list (list nat)) G1 G2 :
through P (G1 ++ G2) = through P G1 ++ through P G2.
Proof. unfold through. by rewrite fmap_app, concat_app. Qed.

Lemma through_singleton (P : list (list nat)) q G :
P !! q = Some G → through P [q] = G.
Proof. intros E. unfold through. simpl. rewrite E. simpl. apply app_nil_r. Qed.

Lemma concat_singletons (l : list nat) : concat ((λ q, [q]) <$> l) = l.
Proof. induction l as [|q l IH]; [done|]. simpl. f_equal. exact IH. Qed.

Lemma foldl_invariant (Inv : list nat → list V → Prop) (op : V → V → V) :
(∀ G1 r1 G2 r2, Inv G1 r1 → Inv G2 r2 → Inv (G1 ++ G2) (zip_with op r1 r2)) →
∀ Gs rows G0 r0, Inv G0 r0 → Forall2 Inv Gs rows →
  Inv (G0 ++ concat Gs) (foldl (zip_with op) r0 rows).
Proof.
intros Hop Gs rows G0 r0 H0 HF. revert G0 r0 H0.
induction HF as [|G r Gs rows HG _ IH]; intros G0 r0 H0.
- simpl. by rewrite app_nil_r.
- simpl. rewrite app_assoc. apply IH. by apply Hop.
Qed.

(** A property of (group, row) pairs that combining keeps holds of
    every row a plan produces, when it holds of the rows it reads. *)
Lemma folded_invariant (Inv : list nat → list V → Prop) (op : V → V → V)
  (xb : mat V) G :
(∀ G1 r1 G2 r2, Inv G1 r1 → Inv G2 r2 → Inv (G1 ++ G2) (zip_with op r1 r2)) →
(∀ p row, xb !! p = Some row → Inv [p] row) →
G ≠ [] → Forall (λ p, p < length xb) G → Inv G (folded op xb G).
Proof.
intros Hop Hrow HG HF. destruct G as [|p rest]; [done|].
apply Forall_cons in HF as [Hp HF]. cbn [folded].
assert (p :: rest = [p] ++ concat ((λ q, [q]) <$> rest)) as ->.
{ by rewrite concat_singletons. }
apply foldl_invariant; [done| |].
- destruct (lookup_lt_is_Some_2 xb p Hp) as [row Hr]. unfold row_at. rewrite Hr.
  by apply Hrow.
- apply Forall2_fmap, Forall_Forall2_diag. eapply Forall_impl; [exact HF|].
  intros q Hq. simpl in Hq. destruct (lookup_lt_is_Some_2 xb q Hq) as [row Hr].
  unfold row_at. rewrite Hr. by apply Hrow.
Qed.

Lemma apply_plan_lookup (op : V → V → V) (P : plan) (x : tensor V) b Pb xb :
P !! b = Some Pb → x !! b = Some xb →
apply_plan op P x !! b = Some (folded op xb <$> Pb).
Proof. intros HP Hx. unfold apply_plan. by rewrite lookup_zip_with, HP, Hx. Qed.

Lemma plan_ok_lookup B N N' (P : plan) b :
plan_ok B N N' P → b < B →
∃ Pb, P !! b = Some Pb ∧ length Pb = N' ∧
      Forall (λ G, G ≠ [] ∧ Forall (λ p, p < N) G) Pb.
Proof.
intros [[Hl HF] Hg] Hb. destruct (lookup_lt_is_Some_2 P b) as [Pb HPb]; [lia|].
exists Pb. split; [done|]. split.
- exact (Forall_lookup_1 _ _ _ _ HF HPb).
- exact (Forall_lookup_1 _ _ _ _ Hg HPb).
Qed.

Lemma apply_plan_shaped (op : V → V → V) B N N' C (P : plan) (x : tensor V) :
plan_ok B N N' P → shaped B N x → rows_have C x →
shaped B N' (apply_plan op P x) ∧ rows_have C (apply_plan op P x).
Proof.
intros Hok Hx Hr.
assert (length (apply_plan op P x) = B) as Hl.
{ unfold apply_plan. rewrite length_zip_with. destruct Hok as [[-> _] _], Hx as [-> _]. lia. }
assert (∀ b yb, apply_plan op P x !! b = Some yb →
          length yb = N' ∧ Forall (λ row, length row = C) yb) as Hrows.
{ intros b yb Hyb.
  assert (b < B) as Hb by (rewrite <- Hl; by eapply lookup_lt_Some).
  destruct (plan_ok_lookup B N N' P b Hok Hb) as (Pb & HPb & HlP & HFP).
  destruct (lookup_lt_is_Some_2 x b) as [xb Hxb]; [destruct Hx; lia|].
  rewrite (apply_plan_lookup op P x b Pb xb HPb Hxb) in Hyb. injection Hyb as <-.
  split; [by rewrite length_fmap|].
  apply Forall_fmap. eapply Forall_impl; [exact HFP|].
  intros G [HG HGN]. simpl.
  apply (folded_invariant (λ _ row, length row = C) op xb G).
  - intros _ r1 _ r2 H1 H2. rewrite length_zip_with. lia.
  - intros p row Hp. exact (Forall_lookup_1 _ _ _ _ (Forall_lookup_1 _ _ _ _ Hr Hxb) Hp).
  - done.
  - by rewrite (shaped_lookup _ _ _ _ _ Hx Hxb). }
split; [split; [done|]|].
- apply Forall_lookup. intros b yb Hyb. by destruct (Hrows b yb Hyb).
- apply Forall_lookup. intros b yb Hyb. by destruct (Hrows b yb Hyb).
Qed.

Lemma entries_apply_plan (op : V → V → V) (P : plan) (x y : tensor V) B :
length P = B → length x = B → length y = B →
(∀ b Pb xb, P !! b = Some Pb → x !! b = Some xb →
   y !! b = Some (folded op xb <$> Pb)) →
y = apply_plan op P x.
Proof.
intros HlP Hlx Hly Hb. apply list_eq. intros b. unfold apply_plan.
rewrite lookup_zip_with.
destruct (P !! b) as [Pb|] eqn:HPb; simpl.
- destruct (x !! b) as [xb|] eqn:Hxb; simpl; [by apply Hb|].
  apply lookup_ge_None in Hxb. apply lookup_lt_Some in HPb. lia.
- apply lookup_ge_None. apply lookup_ge_None in HPb. lia.
Qed.

Lemma reduce_chain_sum (ms : list merge_fn) (t : tensor V) :
sum_chain ms t = reduce_chain Sum ms t.
Proof.
revert t. induction ms as [|m ms IH]; intros t; [done|].
cbn [sum_chain reduce_chain]. destruct (m t Sum); [apply IH|done].
Qed.

(** Along a chain of merges that follow plans, a property of (group,
    row) pairs that combining keeps and that holds of every original
    token with its own row holds of every final token with the group of
    original tokens behind it. *)
Lemma chain_invariant mode B C (ms : list merge_fn) N F :
mode ≠ Mean → 0 < C → step_chain B N ms F →
∀ (Inv : nat → list nat → list V → Prop) (t0 : tensor V),
  (∀ b G1 r1 G2 r2, Inv b G1 r1 → Inv b G2 r2 →
     Inv b (G1 ++ G2) (zip_with (reduce_op mode) r1 r2)) →
  shaped B N t0 → rows_have C t0 →
  (∀ b t0b p row, t0 !! b = Some t0b → t0b !! p = Some row → Inv b [p] row) →
  ∃ t, reduce_chain mode ms t0 = Some t ∧ length F = B ∧ length t = B ∧
       ∀ b, b < B → ∃ Fb tb, F !! b = Some Fb ∧ t !! b = Some tb ∧
                             Forall2 (Inv b) Fb tb.
Proof.
intros Hmode HC Hch.
induction Hch as [N|N m ms F Hm Hch IH|N N' m P ms F Hm Hch IH];
  intros Inv t0 Hop Ht0 Hr0 Hbase.
- exists t0. split; [done|]. split; [apply length_replicate|].
  split; [by destruct Ht0|]. intros b Hb.
  destruct (lookup_lt_is_Some_2 t0 b) as [t0b Ht0b]; [destruct Ht0; lia|].
  exists ((λ p, [p]) <$> seq 0 N), t0b.
  split; [by apply lookup_replicate_2|]. split; [done|].
  apply Forall2_fmap_l. apply Forall2_same_length_lookup_2.
  + by rewrite length_seq, (shaped_lookup _ _ _ _ _ Ht0 Ht0b).
  + intros i p row Hp Hrow. apply lookup_seq in Hp as [-> _]. simpl.
    by eapply Hbase.
- cbn [reduce_chain]. rewrite Hm. cbn [mbind option_bind]. by apply IH.
- destruct Hm as [Hok Hm]. cbn [reduce_chain].
  rewrite (Hm mode C t0 Hmode HC Ht0 Hr0). cbn [mbind option_bind].
  destruct (apply_plan_shaped (reduce_op mode) B N N' C P t0 Hok Ht0 Hr0) as [Ht1 Hr1].
  destruct (IH (λ b G r, Inv b (through (default [] (P !! b)) G) r)
              (apply_plan (reduce_op mode) P t0)) as (t & Ht & HlF & Hlt & Hres).
  + intros b G1 r1 G2 r2 H1 H2. rewrite through_app. by apply Hop.
  + done.
  + done.
  + intros b t1b q row Ht1b Hrow.
    assert (b < B) as Hb by (destruct Ht1 as [<- _]; by eapply lookup_lt_Some).
    destruct (plan_ok_lookup B N N' P b Hok Hb) as (Pb & HPb & HlP & HFP).
    destruct (lookup_lt_is_Some_2 t0 b) as [t0b Ht0b]; [destruct Ht0; lia|].
    rewrite (apply_plan_lookup _ P t0 b Pb t0b HPb Ht0b) in Ht1b.
    injection Ht1b as <-. rewrite list_lookup_fmap in Hrow.
    destruct (Pb !! q) as [G|] eqn:HG; [|done]. injection Hrow as <-.
    rewrite HPb. simpl. rewrite (through_singleton Pb q G HG).
    destruct (Forall_lookup_1 _ _ _ _ HFP HG) as [HGne HGN].
    apply folded_invariant; [by apply Hop|by intros; eapply Hbase|done|].
    by rewrite (shaped_lookup _ _ _ _ _ Ht0 Ht0b).
  + exists t. split; [done|]. split.
    { unfold compose_plan. rewrite length_zip_with. destruct Hok as [[-> _] _]. lia. }
    split; [done|]. intros b Hb.
    destruct (Hres b Hb) as (Fb & tb & HFb & Htb & HF).
    destruct (plan_ok_lookup B N N' P b Hok Hb) as (Pb & HPb & _).
    exists (through Pb <$> Fb), tb. split.
    { unfold compose_plan. by rewrite lookup_zip_with, HPb, HFb. }
    split; [done|]. apply Forall2_fmap_l.
    eapply Forall2_impl; [exact HF|]. intros G row. by rewrite HPb.
Qed.

Lemma folds_by_sum_merge B N N' (m : merge_fn) (P : plan) :
folds_by B N N' m P → sum_merge B N N' m.
Proof.
intros [Hok Hm] C x HC Hx Hr. exists (apply_plan (reduce_op Sum) P x).
split; [by apply (Hm Sum C)|].
destruct (apply_plan_shaped (reduce_op Sum) B N N' C P x Hok Hx Hr) as [Hy _].
split; [done|]. intros R [HR _] HRx.
apply Forall_lookup. intros b yb Hyb.
assert (b < B) as Hb by (destruct Hy as [<- _]; by eapply lookup_lt_Some).
destruct (plan_ok_lookup B N N' P b Hok Hb) as (Pb & HPb & HlP & HFP).
destruct (lookup_lt_is_Some_2 x b) as [xb Hxb]; [destruct Hx; lia|].
rewrite (apply_plan_lookup _ P x b Pb xb HPb Hxb) in Hyb. injection Hyb as <-.
apply Forall_fmap. eapply Forall_impl; [exact HFP|].
intros G [HG HGN]. simpl.
apply (folded_invariant (λ _ row, R row) (reduce_op Sum) xb G).
- intros _ r1 _ r2. apply HR.
- intros p row Hp. exact (Forall_lookup_1 _ _ _ _ (Forall_lookup_1 _ _ _ _ HRx Hxb) Hp).
- done.
- by rewrite (shaped_lookup _ _ _ _ _ Hx Hxb).
Qed.

Lemma void_sum_merge B N (m : merge_fn) :
(∀ x mode, m x mode = Some x) → sum_merge B N N m.
Proof. intros Hm C x HC Hx Hr. exists x. by rewrite Hm. Qed.

Lemma step_chain_merge_chain B N (ms : list merge_fn) F :
step_chain B N ms F → merge_chain B N ms.
Proof.
induction 1 as [N|N m ms F Hm Hch IH|N N' m P ms F Hm Hch IH].
- constructor.
- eapply merge_chain_cons; [by apply void_sum_merge|done].
- eapply merge_chain_cons; [by eapply folds_by_sum_merge|done].
Qed.

End PlanFacts.

Section StrategyPlans.
Context {M V : Type} `{MetricOps M} `{ValueOps V}.

Lemma sent_to_Forall {A} (Q : A → Prop) j idx (src : list A) :
Forall Q src → Forall Q (sent_to j idx src).
Proof.
intros HF. unfold sent_to. apply Forall_fmap, Forall_forall.
intros [i a] [_ Hin]%list_elem_of_filter. simpl.
apply elem_of_zip_r in Hin. by eapply (proj1 (Forall_forall _ _) HF).
Qed.

Lemma feeders_ok (d src_pos dst_pos : list nat) N :
Forall (λ p, p < N) src_pos → Forall (λ p, p < N) dst_pos →
Forall (λ G, G ≠ [] ∧ Forall (λ p, p < N) G) (feeders d src_pos dst_pos).
Proof.
intros Hs Hd. apply Forall_lookup. intros j G. rewrite feeders_lookup.
destruct (dst_pos !! j) as [p|] eqn:Hp; [|done]. simpl. intros [= <-].
split; [done|]. apply Forall_cons. split.
- exact (Forall_lookup_1 _ _ _ _ Hd Hp).
- by apply sent_to_Forall.
Qed.

Lemma bipartite_feeders_ok distill N (u s d : list nat) :
u ++ s ≡ₚ seq 0 ((N + 1) `div` 2) →
length (bipartite_feeders distill N u s d) = N - length s ∧
Forall (λ G, G ≠ [] ∧ Forall (λ p, p < N) G) (bipartite_feeders distill N u s d).
Proof.
intros Hp. pose proof (perm_seq_bound _ _ Hp) as Hb.
apply Forall_app in Hb as [Hbu Hbs].
pose proof (Permutation_length Hp) as Hl. rewrite length_app, length_seq in Hl.
assert (length ((λ i, [2 * i]) <$> u) = length u) as Hlu by apply length_fmap.
assert (length (feeders d ((λ i, 2 * i) <$> s) ((λ j, 2 * j + 1) <$> seq 0 (N `div` 2)))
        = N `div` 2) as Hld.
{ by rewrite length_feeders, length_fmap, length_seq. }
assert (Forall (λ G, G ≠ [] ∧ Forall (λ p, p < N) G) ((λ i, [2 * i]) <$> u)) as HFu.
{ apply Forall_fmap. eapply Forall_impl; [exact Hbu|]. intros i Hi. unfold compose in *. cbv beta in *.
  split; [done|]. apply Forall_singleton. clear -Hi. dlia. }
assert (Forall (λ G, G ≠ [] ∧ Forall (λ p, p < N) G)
          (feeders d ((λ i, 2 * i) <$> s) ((λ j, 2 * j + 1) <$> seq 0 (N `div` 2))))
  as HFd.
{ apply feeders_ok.
  - apply Forall_fmap. eapply Forall_impl; [exact Hbs|]. intros i Hi. unfold compose in *. cbv beta in *.
    clear -Hi. dlia.
  - apply Forall_fmap, Forall_forall. intros j Hj%elem_of_seq. unfold compose. cbv beta.
    clear -Hj. dlia. }
unfold bipartite_feeders. destruct distill.
- split.
  + rewrite !length_app, !length_take, !length_drop, Hlu, Hld. clear -Hl. dlia.
  + repeat apply Forall_app_2; by (apply Forall_take || apply Forall_drop).
- split.
  + rewrite length_app, Hlu, Hld. clear -Hl. dlia.
  + by apply Forall_app_2.
Qed.

Lemma bipartite_plan_lookup N e b Pb :
bipartite_plan N e !! b = Some Pb →
∃ u s d, unm_idx e !! b = Some u ∧ src_idx e !! b = Some s ∧ dst_idx e !! b = Some d ∧
         Pb = bipartite_feeders (be_distill e) N u s d.
Proof.
unfold bipartite_plan. rewrite lookup_zip_with.
destruct (zip (unm_idx e) (src_idx e) !! b) as [[u s]|] eqn:Hus; [|done]. simpl.
destruct (dst_idx e !! b) as [d|] eqn:Hd; [|done]. simpl. intros [= <-].
apply lookup_zip_Some in Hus as [Hu Hs]. by exists u, s, d.
Qed.

(** The bipartite merge follows the plan read off its indices. *)
Lemma bipartite_folds e B N :
env_ok e B N → 0 < B →
folds_by (V:=V) B N (N - Z.to_nat (be_r e)) (bipartite_merge e) (bipartite_plan N e).
Proof.
intros Hok HB.
assert (length (bipartite_plan N e) = B) as HlP.
{ unfold bipartite_plan.
  rewrite length_zip_with, length_zip, (ok_unm _ _ _ Hok), (ok_src _ _ _ Hok),
    (ok_dst _ _ _ Hok). lia. }
assert (∀ b Pb, bipartite_plan N e !! b = Some Pb →
          length Pb = N - Z.to_nat (be_r e) ∧
          Forall (λ G, G ≠ [] ∧ Forall (λ p, p < N) G) Pb) as HPok.
{ intros b Pb HPb.
  destruct (bipartite_plan_lookup N e b Pb HPb) as (u & s & d & Hu & Hs & Hd & ->).
  destruct (ok_entry _ _ _ Hok b u s d Hu Hs Hd) as (Hp & Hls & Hld & HFd).
  destruct (bipartite_feeders_ok (be_distill e) N u s d Hp) as [Hlen HF].
  by rewrite Hlen, Hls. }
split.
- split; [split; [done|]|].
  + apply Forall_lookup. intros b Pb HPb. by destruct (HPok b Pb HPb).
  + apply Forall_lookup. intros b Pb HPb. by destruct (HPok b Pb HPb).
- intros mode C x Hmode HC Hx Hr.
  destruct (bipartite_merge_entries e B N x mode Hok HB Hx) as (y & Hy & Hly & Hent).
  rewrite Hy. f_equal. apply (entries_apply_plan _ _ _ _ B); [done|by destruct Hx|done|].
  intros b Pb xb HPb Hxb.
  destruct (bipartite_plan_lookup N e b Pb HPb) as (u & s & d & Hu & Hs & Hd & ->).
  destruct (ok_entry _ _ _ Hok b u s d Hu Hs Hd) as (Hp & Hls & Hld & HFd).
  destruct (Hent b xb u s d Hxb Hu Hs Hd) as (yb & Hyb & Hme).
  rewrite (merge_entry_folded mode _ u s d xb N) in Hme;
    [|done|done|lia|done|exact (shaped_lookup _ _ _ _ _ Hx Hxb)].
  by rewrite Hyb, Hme.
Qed.

Lemma kth_positions_ok (kn g N : nat) :
1 < kn → g * kn ≤ N →
Forall (λ p, p < N)
  ((λ i, i `div` (kn - 1) * kn + i `mod` (kn - 1)) <$> seq 0 (g * (kn - 1))) ∧
Forall (λ p, p < N) ((λ j, j * kn + (kn - 1)) <$> seq 0 g).
Proof.
intros Hkn Hg. split.
- apply Forall_fmap, Forall_forall. intros i Hi%elem_of_seq. simpl.
  assert (i `mod` (kn - 1) < kn - 1) as Hmod by (apply Nat.mod_upper_bound; lia).
  assert (i `div` (kn - 1) < g) as Hdiv by (apply Nat.Div0.div_lt_upper_bound; lia).
  pose proof (Nat.mul_le_mono_r (S (i `div` (kn - 1))) g kn ltac:(lia)). lia.
- apply Forall_fmap, Forall_forall. intros j Hj%elem_of_seq. simpl.
  pose proof (Nat.mul_le_mono_r (S j) g kn ltac:(lia)). lia.
Qed.

(** The merge of the k-th strategy follows the plan read off its
    index. *)
Lemma kth_folds (k : Z) (dst_idx : index) B N :
0 < B → (2 ≤ k ≤ Z.of_nat N)%Z →
kth_idx_ok B (N `div` Z.to_nat k * (Z.to_nat k - 1)) (N `div` Z.to_nat k) dst_idx →
folds_by (V:=V) B N (N `div` Z.to_nat k)
  (kth_merge k (N `div` Z.to_nat k * (Z.to_nat k - 1)) dst_idx)
  (kth_plan (Z.to_nat k) (N `div` Z.to_nat k) dst_idx).
Proof.
intros HB Hk Hok.
set (kn := Z.to_nat k) in *. set (g := N `div` kn) in *.
assert (1 < kn) as Hkn by (unfold kn; lia).
assert (g * kn ≤ N) as Hg by (unfold g; clear -Hkn; dlia).
destruct (kth_positions_ok kn g N Hkn Hg) as [Hsrc Hdst].
destruct Hok as [[Hld HFl] HFd].
split.
- split; [split|].
  + unfold kth_plan. by rewrite length_fmap.
  + unfold kth_plan. apply Forall_fmap, Forall_true. intros d. simpl.
    unfold kth_feeders. by rewrite length_feeders, length_fmap, length_seq.
  + unfold kth_plan. apply Forall_fmap, Forall_true. intros d. simpl.
    unfold kth_feeders. by apply feeders_ok.
- intros mode C x Hmode HC Hx Hr.
  destruct (kth_merge_entries k dst_idx x mode B N C HB HC Hk
              (conj (conj Hld HFl) HFd) Hx Hr) as (y & Hy & Hys & Hent).
  fold kn in Hy, Hent. fold g in Hy, Hent, Hys.
  rewrite Hy. f_equal.
  apply (entries_apply_plan _ _ _ _ B);
    [unfold kth_plan; by rewrite length_fmap|by destruct Hx|by destruct Hys|].
  intros b Pb xb HPb Hxb. unfold kth_plan in HPb. rewrite list_lookup_fmap in HPb.
  destruct (dst_idx !! b) as [d|] eqn:Hd; [|done]. injection HPb as <-.
  destruct (Hent b xb d Hxb Hd) as (yb & Hyb & Hme).
  rewrite (kth_entry_folded mode kn g d xb) in Hme;
    [|done|done|by rewrite (shaped_lookup _ _ _ _ _ Hx Hxb)
     |exact (Forall_lookup_1 _ _ _ _ HFl Hd)|exact (Forall_lookup_1 _ _ _ _ HFd Hd)].
  by rewrite Hyb, Hme.
Qed.

(** The merge of the random strategy follows the plan read off its
    indices. *)
Lemma random_folds B rn N (a_idx b_idx dst_idx : index) :
0 < B → rn ≤ N → random_idx_ok B rn N a_idx b_idx dst_idx →
folds_by (V:=V) B N (N - rn) (random_merge B (Z.of_nat rn) N a_idx b_idx dst_idx)
  (random_plan a_idx b_idx dst_idx).
Proof.
intros HB Hrn Hok.
assert (length (random_plan a_idx b_idx dst_idx) = B) as HlP.
{ destruct Hok as ([Ha _] & [Hb _] & [Hd _] & _). unfold random_plan.
  rewrite length_zip_with, length_zip. lia. }
assert (∀ i Pb, random_plan a_idx b_idx dst_idx !! i = Some Pb →
          ∃ a b d, a_idx !! i = Some a ∧ b_idx !! i = Some b ∧ dst_idx !! i = Some d ∧
                   Pb = random_feeders a b d ∧
                   length a = rn ∧ length b = N - rn ∧ length d = rn ∧
                   a ++ b ≡ₚ seq 0 N ∧ Forall (λ j, j < N - rn) d) as Hlook.
{ intros i Pb HPb.
  assert (i < B) as Hi by (rewrite <- HlP; by eapply lookup_lt_Some).
  destruct (random_idx_lookup B rn N a_idx b_idx dst_idx i Hok Hi)
    as (a & b & d & Ha & Hb & Hd & Hrest).
  exists a, b, d. split; [done|]. split; [done|]. split; [done|]. split; [|done].
  unfold random_plan in HPb. rewrite lookup_zip_with in HPb.
  assert (zip a_idx b_idx !! i = Some (a, b)) as Hz by (by apply lookup_zip_Some).
  rewrite Hz, Hd in HPb. simpl in HPb. by injection HPb as <-. }
split.
- split; [split; [done|]|].
  + apply Forall_lookup. intros i Pb HPb.
    destruct (Hlook i Pb HPb) as (a & b & d & _ & _ & _ & -> & _ & Hlb & _).
    unfold random_feeders. by rewrite length_feeders.
  + apply Forall_lookup. intros i Pb HPb.
    destruct (Hlook i Pb HPb) as (a & b & d & _ & _ & _ & -> & _ & _ & _ & Hp & _).
    pose proof (perm_seq_bound _ _ Hp) as Hbd. apply Forall_app in Hbd as [Hba Hbb].
    unfold random_feeders. by apply feeders_ok.
- intros mode C x Hmode HC Hx Hr.
  destruct (random_merge_entries B rn N a_idx b_idx dst_idx x mode HB Hrn Hok Hx)
    as (y & Hy & Hys & Hent).
  rewrite Hy. f_equal.
  apply (entries_apply_plan _ _ _ _ B); [done|by destruct Hx|by destruct Hys|].
  intros i Pb xb HPb Hxb.
  destruct (Hlook i Pb HPb) as (a & b & d & Ha & Hb & Hd & -> & Hla & Hlb & Hld & Hp & HFd).
  destruct (Hent i xb a b d Hxb Ha Hb Hd) as (yb & Hyb & Hme).
  rewrite (random_entry_folded mode a b d xb N) in Hme;
    [|done|done|lia|by rewrite Hlb|exact (shaped_lookup _ _ _ _ _ Hx Hxb)].
  by rewrite Hyb, Hme.
Qed.

(** The chains built by the three strategies follow their plans. *)
Lemma planned_chain_steps B N (ms : list merge_fn) F :
0 < B → planned_chain (M:=M) B N ms F → step_chain B N ms F.
Proof.
intros HB Hch.
induction Hch as [N
  |N metric r ct dt e m u ms F Hm Hc Hi Hbs Hch IH
  |N metric r ct dt m u ms F Hm Hc Hbs Hch IH
  |N C metric k rr dst_idx m u ms F HC Hm Hmr Hk Hi Hks Hch IH
  |N metric k m u ms F Hk Hks Hch IH
  |N metric r rand a_idx b_idx dst_idx m u ms F Hm Hrand Hr Hi Hrs Hch IH
  |N metric r rand m u ms F Hr Hrs Hch IH].
- constructor.
- destruct (bipartite_soft_matching_env (V:=V) metric r ct dt B N HB Hm Hc)
    as (e' & Hi' & He & Hok & Hre & _).
  assert (e' = e) as -> by congruence.
  rewrite He in Hbs. injection Hbs as <- _.
  eapply step_cons; [|exact IH]. rewrite <- Hre. by apply bipartite_folds.
- rewrite bipartite_void in Hbs by (by rewrite (shaped_shape1 B N metric HB Hm)).
  injection Hbs as <- _. by apply step_void.
- destruct (kth_bipartite_soft_matching_env (V:=V) metric k B N C HB HC Hm Hmr Hk)
    as (di & Hi' & He & Hok).
  assert (di = dst_idx) as -> by congruence.
  rewrite He in Hks. injection Hks as <- _.
  eapply step_cons; [|exact IH]. by apply kth_folds.
- unfold kth_bipartite_soft_matching in Hks.
  rewrite (proj2 (Z.leb_le k 1) Hk) in Hks. injection Hks as <- _. by apply step_void.
- destruct (random_bipartite_soft_matching_env (V:=V) metric r rand B N HB Hm Hrand Hr)
    as (ai & bi & di & Hi' & He & Hok).
  assert (ai = a_idx ∧ bi = b_idx ∧ di = dst_idx) as (-> & -> & ->).
  { rewrite Hi in Hi'. by injection Hi' as <- <- <-. }
  rewrite He in Hrs. injection Hrs as <- _.
  eapply step_cons; [|exact IH].
  rewrite <- (Z2Nat.id r) at 2 by lia. apply random_folds; [done|lia|done].
- unfold random_bipartite_soft_matching in Hrs.
  rewrite (proj2 (Z.leb_le r 0) Hr) in Hrs. injection Hrs as <- _. by apply step_void.
Qed.

End StrategyPlans.

(** ** The weighted average along a chain of merges *)

Section WavgPlan.
Context {M V : Type} `{MetricOps M} `{ValueOps V}.
Hypothesis mul_1_r : ∀ a : V, v_mul a v_one = a.
Hypothesis of_nat_1 : v_of_nat 1 = v_one.
Hypothesis of_nat_add : ∀ a b, v_add (v_of_nat a) (v_of_nat b) = v_of_nat (a + b).
Hypothesis div_mul_cancel : ∀ (a : V) n, 0 < n → v_mul (v_div a (v_of_nat n)) (v_of_nat n) = a.
Hypothesis add_assoc : ∀ a b c : V, v_add a (v_add b c) = v_add (v_add a b) c.

Lemma zip_with_add_assoc (a b c : list V) :
zip_with v_add (zip_with v_add a b) c = zip_with v_add a (zip_with v_add b c).
Proof.
revert b c. induction a as [|u a IH]; intros [|v b] [|w c]; simpl; try done.
by rewrite add_assoc, IH.
Qed.

Lemma foldl_zip_assoc (l : mat V) : ∀ a b : list V,
foldl (zip_with v_add) (zip_with v_add a b) l
= zip_with v_add a (foldl (zip_with v_add) b l).
Proof.
induction l as [|c l IH]; intros a b; [done|].
cbn [foldl]. by rewrite zip_with_add_assoc, IH.
Qed.

(** The sum over two groups is the sum of the two sums. *)
Lemma folded_app (xb : mat V) (G1 G2 : list nat) :
G1 ≠ [] → G2 ≠ [] →
folded v_add xb (G1 ++ G2) = zip_with v_add (folded v_add xb G1) (folded v_add xb G2).
Proof.
intros H1 H2. destruct G1 as [|p r1]; [done|]. destruct G2 as [|q r2]; [done|].
cbn [folded app]. rewrite fmap_app, foldl_app, fmap_cons. cbn [foldl].
apply foldl_zip_assoc.
Qed.

(** Claim C5.  [merge_wavg] with a size returns
    [(merge(x·size, "sum") / merge(size, "sum"), merge(size, "sum"))],
    and without one it takes the size of ones.  In exact arithmetic
    (addition associative, counters added exactly and invertible) it
    composes: along a chain of merges built by the three strategies,
    started without a size and with the returned size threaded forward,
    every final token holds the sum of the rows of the original tokens
    folded into it divided by their number, and its size is that
    number.  The original tokens folded into a final token are read off
    the indices of the merges. *)
Theorem merge_wavg_composes :
(∀ (m : merge_fn) (x s : tensor V) B N N' C,
   sum_merge B N N' m → 0 < C →
   shaped B N x → rows_have C x → shaped B N s → rows_have 1 s →
   ∃ X s', m (scale v_mul x s) Sum = Some X ∧ m s Sum = Some s' ∧
           merge_wavg m x (Some s) = Some (scale v_div X s', s')) ∧
(∀ (m : merge_fn) (x : tensor V) C, 0 < C → rows_have C x →
   merge_wavg m x None
   = merge_wavg m x (Some (fmap (M:=list) (λ _, [v_one]) <$> x))) ∧
(∀ B N C m ms F (x : tensor V),
   0 < B → 0 < C → planned_chain (M:=M) B N (m :: ms) F →
   shaped B N x → rows_have C x →
   ∃ X S, wavg_chain (m :: ms) x None = Some (X, Some S) ∧ length F = B ∧
     ∀ b, b < B →
       ∃ xb Fb Xb Sb,
         x !! b = Some xb ∧ F !! b = Some Fb ∧ X !! b = Some Xb ∧ S !! b = Some Sb ∧
         Forall2 (λ G row, G ≠ [] ∧ Forall (λ p, p < N) G ∧
                    row = (λ a, v_div a (v_of_nat (length G))) <$> folded v_add xb G)
                 Fb Xb ∧
         Forall2 (λ G srow, srow = [v_of_nat (length G)]) Fb Sb).
Proof.
split; [|split].
- intros m x s B N N' C Hsm HC Hx Hxr Hs Hsr.
  destruct (merge_wavg_step m x s B N N' C Hsm HC Hx Hxr Hs Hsr)
    as (X & s' & HX & Hs' & Hw & _).
  by exists X, s'.
- intros m x C HC Hxr. unfold merge_wavg.
  by rewrite (ones_like_col0_Some C x HC Hxr).
- intros B N C m ms F x HB HC Hch Hx Hxr.
  pose proof (planned_chain_steps B N (m :: ms) F HB Hch) as Hst.
  pose proof (step_chain_merge_chain B N (m :: ms) F Hst) as Hmc.
  destruct (wavg_chain_from_ones mul_1_r of_nat_1 of_nat_add div_mul_cancel
              B N C m ms x HC Hmc Hx Hxr) as (X & S & HX & HS & _ & Hw).
  rewrite reduce_chain_sum in HX, HS.
  destruct (ones_shaped B N x Hx) as [Hos Hor].
  destruct (chain_invariant Sum B C (m :: ms) N F ltac:(done) HC Hst
              (λ b G r, G ≠ [] ∧ Forall (λ p, p < N) G ∧
                        r = folded v_add (default [] (x !! b)) G) x)
    as (X' & HX' & HlF & HlX & HXr); [| | | |].
  { intros b G1 r1 G2 r2 (H1 & HF1 & ->) (H2 & HF2 & ->).
    split; [by destruct G1|]. split; [by apply Forall_app_2|].
    symmetry. by apply folded_app. }
  { done. }
  { done. }
  { intros b xb p row Hxb Hrow. split; [done|]. split.
    - apply Forall_singleton. rewrite <- (shaped_lookup _ _ _ _ _ Hx Hxb).
      by eapply lookup_lt_Some.
    - rewrite Hxb. simpl. unfold row_at. by rewrite Hrow. }
  destruct (chain_invariant Sum B 1 (m :: ms) N F ltac:(done) ltac:(lia) Hst
              (λ _ G r, r = [v_of_nat (length G)])
              (fmap (M:=list) (λ _ : list V, [v_one]) <$> x))
    as (S' & HS' & _ & HlS & HSr); [| | | |].
  { intros b G1 r1 G2 r2 -> ->. simpl. by rewrite of_nat_add, length_app. }
  { done. }
  { done. }
  { intros b ob p row Hob Hrow. rewrite list_lookup_fmap in Hob.
    destruct (x !! b) as [xb|]; [|done]. injection Hob as <-.
    rewrite list_lookup_fmap in Hrow. destruct (xb !! p); [|done].
    injection Hrow as <-. simpl. by rewrite of_nat_1. }
  assert (X' = X) as -> by congruence. assert (S' = S) as -> by congruence.
  exists (scale v_div X S), S. split; [done|]. split; [done|].
  intros b Hb.
  destruct (HXr b Hb) as (Fb & Xb & HFb & HXb & HFX).
  destruct (HSr b Hb) as (Fb' & Sb & HFb' & HSb & HFS).
  assert (Fb' = Fb) as -> by congruence.
  destruct (lookup_lt_is_Some_2 x b) as [xb Hxb]; [destruct Hx; lia|].
  rewrite Hxb in HFX. simpl in HFX.
  eexists xb, Fb, _, Sb. split; [done|]. split; [done|]. split.
  { unfold scale. by rewrite lookup_zip_with, HXb, HSb. }
  split; [done|]. split; [|done].
  apply Forall2_same_length_lookup_2.
  { rewrite length_zip_with, <- (Forall2_length _ _ _ HFX), <- (Forall2_length _ _ _ HFS).
    lia. }
  intros t G row HG Hrow.
  apply lookup_zip_with_Some in Hrow as (Xrow & srow & -> & HXrow & Hsrow).
  destruct (Forall2_lookup_lr _ _ _ _ _ _ HFX HG HXrow) as (HGne & HGN & ->).
  rewrite (Forall2_lookup_lr _ _ _ _ _ _ HFS HG Hsrow). done.
Qed.

End WavgPlan.

(** ** The provenance of merged tokens *)

Section Provenance.
Context {M V : Type} `{MetricOps M} `{ValueOps V}.
Hypothesis max_0_0 : v_max v_zero v_zero = v_zero.
Hypothesis max_0_1 : v_max v_zero v_one = v_one.
Hypothesis max_1_0 : v_max v_one v_zero = v_one.
Hypothesis max_1_1 : v_max v_one v_one = v_one.
Hypothesis one_ne_zero : v_one ≠ v_zero.

Lemma source_chain_Some (ms : list merge_fn) (x s : tensor V) :
source_chain ms x (Some s) = Some <$> reduce_chain Amax ms s.
Proof.
revert s. induction ms as [|m ms IH]; intros s; [done|].
cbn [source_chain reduce_chain]. unfold merge_source.
destruct (m s Amax) as [s'|]; [|done]. cbn [mbind option_bind]. apply IH.
Qed.

Lemma eye_lookup N i j :
i < N → j < N →
(eye (V:=V) N !! i) ≫= (.!! j) = Some (if decide (i = j) then v_one else v_zero).
Proof.
intros Hi Hj. unfold eye. rewrite list_lookup_fmap, lookup_seq_lt by done. simpl.
by rewrite list_lookup_fmap, lookup_seq_lt.
Qed.

(** The maximum of two indicator rows is the indicator of the union. *)
Lemma indicator_max N (G1 G2 : list nat) (r1 r2 : list V) :
(length r1 = N ∧
 ∀ i, i < N → r1 !! i = Some (if bool_decide (i ∈ G1) then v_one else v_zero)) →
(length r2 = N ∧
 ∀ i, i < N → r2 !! i = Some (if bool_decide (i ∈ G2) then v_one else v_zero)) →
length (zip_with v_max r1 r2) = N ∧
∀ i, i < N → zip_with v_max r1 r2 !! i
             = Some (if bool_decide (i ∈ G1 ++ G2) then v_one else v_zero).
Proof.
intros [Hl1 H1] [Hl2 H2]. split; [rewrite length_zip_with; lia|].
intros i Hi. rewrite lookup_zip_with, (H1 i Hi), (H2 i Hi). simpl. f_equal.
destruct (decide (i ∈ G1)) as [Hi1|Hi1], (decide (i ∈ G2)) as [Hi2|Hi2].
- rewrite (bool_decide_eq_true_2 (i ∈ G1)), (bool_decide_eq_true_2 (i ∈ G2)) by done.
  rewrite bool_decide_eq_true_2; [done|apply elem_of_app; by left].
- rewrite (bool_decide_eq_true_2 (i ∈ G1)), (bool_decide_eq_false_2 (i ∈ G2)) by done.
  rewrite bool_decide_eq_true_2; [done|apply elem_of_app; by left].
- rewrite (bool_decide_eq_false_2 (i ∈ G1)), (bool_decide_eq_true_2 (i ∈ G2)) by done.
  rewrite bool_decide_eq_true_2; [done|apply elem_of_app; by right].
- rewrite (bool_decide_eq_false_2 (i ∈ G1)), (bool_decide_eq_false_2 (i ∈ G2)) by done.
  rewrite bool_decide_eq_false_2; [done|]. rewrite elem_of_app. tauto.
Qed.

(** Claim C6.  [merge_source] returns [merge(source, mode="amax")], the
    source defaulting to the identity matrix of size [N] in every batch
    entry.  Along a chain of merges built by the three strategies,
    started from that default and with the returned source threaded
    forward, the row of every final token has length [N] and holds one
    at the original tokens folded into it and zero elsewhere: its
    nonzero entries are exactly at those tokens.  The original tokens
    folded into a final token are read off the indices of the merges.
    The maximum is taken to be exact on zero and one, which differ. *)
Theorem merge_source_provenance :
(∀ (merge : merge_fn) (x : tensor V) B N, 0 < B → shaped B N x →
   merge_source merge x None = merge (replicate B (eye N)) Amax) ∧
(∀ (merge : merge_fn) (x s : tensor V),
   merge_source merge x (Some s) = merge s Amax) ∧
(∀ N i j, i < N → j < N →
   (eye (V:=V) N !! i) ≫= (.!! j) = Some (if decide (i = j) then v_one else v_zero)) ∧
(∀ B N m ms F (x : tensor V),
   0 < B → 0 < N → planned_chain (M:=M) B N (m :: ms) F → shaped B N x →
   ∃ S, source_chain (m :: ms) x None = Some (Some S) ∧ length F = B ∧
     ∀ b, b < B →
       ∃ Fb Sb, F !! b = Some Fb ∧ S !! b = Some Sb ∧
         Forall2 (λ G srow, G ≠ [] ∧ Forall (λ p, p < N) G ∧ length srow = N ∧
                    ∀ i, i < N →
                      ∃ v, srow !! i = Some v ∧
                           v = (if bool_decide (i ∈ G) then v_one else v_zero) ∧
                           (v ≠ v_zero ↔ i ∈ G))
                 Fb Sb).
Proof.
split; [|split; [done|split; [apply eye_lookup|]]].
{ intros merge x B N HB Hx. unfold merge_source.
  rewrite (shaped_shape1 B N x HB Hx). unfold shape0. by destruct Hx as [-> _]. }
intros B N m ms F x HB HN Hch Hx.
pose proof (planned_chain_steps B N (m :: ms) F HB Hch) as Hst.
set (S0 := replicate B (eye (V:=V) N)).
assert (shaped B N S0 ∧ rows_have N S0) as [HS0 HS0r].
{ split; [split; [apply length_replicate|]|].
  - apply Forall_replicate. unfold eye. by rewrite length_fmap, length_seq.
  - apply Forall_replicate. unfold eye. apply Forall_fmap, Forall_true.
    intros i. simpl. by rewrite length_fmap, length_seq. }
destruct (chain_invariant Amax B N (m :: ms) N F ltac:(done) HN Hst
            (λ _ G r, G ≠ [] ∧ Forall (λ p, p < N) G ∧ length r = N ∧
               ∀ i, i < N → r !! i = Some (if bool_decide (i ∈ G) then v_one else v_zero))
            S0) as (S & HS & HlF & HlS & HSr); [| | | |].
{ intros b G1 r1 G2 r2 (H1 & HF1 & HI1) (H2 & HF2 & HI2).
  split; [by destruct G1|]. split; [by apply Forall_app_2|].
  by apply indicator_max. }
{ done. }
{ done. }
{ intros b Sb p row HSb Hrow. unfold S0 in HSb.
  apply lookup_replicate in HSb as [-> _].
  assert (p < N) as Hp.
  { apply lookup_lt_Some in Hrow. unfold eye in Hrow.
    by rewrite length_fmap, length_seq in Hrow. }
  unfold eye in Hrow. rewrite list_lookup_fmap, lookup_seq_lt in Hrow by done.
  injection Hrow as <-. split; [done|]. split; [by apply Forall_singleton|].
  split; [by rewrite length_fmap, length_seq|].
  intros i Hi. rewrite list_lookup_fmap, lookup_seq_lt by done. simpl. f_equal.
  destruct (decide (p = i)) as [->|Hne].
  - rewrite bool_decide_eq_true_2; [done|by apply list_elem_of_singleton].
  - rewrite bool_decide_eq_false_2; [done|]. rewrite list_elem_of_singleton. congruence. }
exists S. split.
{ cbn [source_chain]. unfold merge_source.
  rewrite (shaped_shape1 B N x HB Hx). unfold shape0. destruct Hx as [-> _].
  fold S0. cbn [reduce_chain] in HS. destruct (m S0 Amax) as [S1|]; [|done].
  cbn [mbind option_bind] in *. by rewrite source_chain_Some, HS. }
split; [done|]. intros b Hb.
destruct (HSr b Hb) as (Fb & Sb & HFb & HSb & HF).
exists Fb, Sb. split; [done|]. split; [done|].
eapply Forall2_impl; [exact HF|].
intros G srow (HG & HGN & Hl & HI). split; [done|]. split; [done|]. split; [done|].
intros i Hi. eexists. split; [by apply HI|]. split; [done|].
destruct (decide (i ∈ G)) as [Hin|Hin].
- by rewrite bool_decide_eq_true_2.
- by rewrite bool_decide_eq_false_2.
Qed.

End Provenance.

(** ** Chains at concrete inputs, and rounding *)

Lemma metric3_shaped : shaped 1 3 metric3.
Proof. split; [done|]. repeat constructor. Qed.

Lemma metric2_shaped : shaped 1 2 metric2.
Proof. split; [done|]. repeat constructor. Qed.

Lemma ramp4_planned :
planned_chain (M:=float) (V:=Qcanon.Qc) 1 4
  [bipartite_merge env4; bipartite_merge env3_plain] [[ [2]; [1; 0; 3] ]].
Proof.
apply (planned_bipartite (V:=Qcanon.Qc) 1 4 metric4 1%Z false false env4
         (bipartite_merge env4) (bipartite_unmerge env4)
         [bipartite_merge env3_plain] [[ [0]; [1; 2] ]]);
  [exact metric4_shaped|done|reflexivity|reflexivity|].
apply (planned_bipartite (V:=Qcanon.Qc) 1 3 metric3 1%Z false false env3_plain
         (bipartite_merge env3_plain) (bipartite_unmerge env3_plain)
         [] (identity_plan 1 2));
  [exact metric3_shaped|done|reflexivity|reflexivity|apply planned_nil].
Qed.

Lemma values4_planned :
planned_chain (M:=float) (V:=float) 1 4
  [random_merge 1 1 4 [[3]] [[1; 0; 2]] [[2]]; bipartite_merge env3_plain]
  [[ [1]; [0; 2; 3] ]].
Proof.
apply (planned_random (V:=float) 1 4 metric4 1%Z rand4 [[3]] [[1; 0; 2]] [[2]]
         (random_merge 1 1 4 [[3]] [[1; 0; 2]] [[2]])
         (random_unmerge 1 1 4 [[3]] [[1; 0; 2]] [[2]])
         [bipartite_merge env3_plain] [[ [0]; [1; 2] ]]);
  [exact metric4_shaped|exact rand4_shaped|lia|reflexivity|reflexivity|].
apply (planned_bipartite (V:=float) 1 3 metric3 1%Z false false env3_plain
         (bipartite_merge env3_plain) (bipartite_unmerge env3_plain)
         [] (identity_plan 1 2));
  [exact metric3_shaped|done|reflexivity|reflexivity|apply planned_nil].
Qed.

Lemma values4_large_planned :
planned_chain (M:=float) (V:=float) 1 4
  [bipartite_merge env4_pair; bipartite_merge env2] [[ [3; 1; 0; 2] ]].
Proof.
apply (planned_bipartite (V:=float) 1 4 metric4_pair 2%Z false false env4_pair
         (bipartite_merge env4_pair) (bipartite_unmerge env4_pair)
         [bipartite_merge env2] [[ [1; 0] ]]);
  [split; [done|repeat constructor]|done|reflexivity|reflexivity|].
apply (planned_bipartite (V:=float) 1 2 metric2 1%Z false false env2
         (bipartite_merge env2) (bipartite_unmerge env2)
         [] (identity_plan 1 1));
  [exact metric2_shaped|done|reflexivity|reflexivity|apply planned_nil].
Qed.

(** Claim C5 fails for binary floating point.  Tokens 0 and 2 are
    merged into token 1 and the result into token 3.  The first
    [merge_wavg] divides the sum 6755399441055745 by the size 3 and
    rounds; the second multiplies by 3 and rounds again, to
    6755399441055746: the result is 1688849860263937.25 with size 4,
    while the sum of the four original rows divided by 4 is
    1688849860263937, every operation of that sum and that division
    being exact. *)
Lemma float_wavg_counterexample :
bipartite_soft_matching (V:=float) metric4_pair 2 false false
  = Some (bipartite_merge env4_pair, bipartite_unmerge env4_pair) ∧
bipartite_soft_matching (V:=float) metric2 1 false false
  = Some (bipartite_merge env2, bipartite_unmerge env2) ∧
planned_chain (M:=float) (V:=float) 1 4
  [bipartite_merge env4_pair; bipartite_merge env2] [[ [3; 1; 0; 2] ]] ∧
wavg_chain [bipartite_merge env4_pair] values4_large None
  = Some ([[ [2251799813685248.5]; [3] ]], Some [[ [3]; [1] ]])%float ∧
wavg_chain [bipartite_merge env4_pair; bipartite_merge env2] values4_large None
  = Some ([[ [1688849860263937.25] ]], Some [[ [4] ]])%float ∧
(λ xb, (λ a : float, v_div a (v_of_nat 4)) <$> folded v_add xb [3; 1; 0; 2])
  <$> values4_large = [[1688849860263937]]%float ∧
(1688849860263937.25 ≠ 1688849860263937)%float ∧
v_mul (v_div 6755399441055745%float (v_of_nat 3)) (v_of_nat 3) = 6755399441055746%float.
Proof.
split; [reflexivity|]. split; [reflexivity|]. split; [exact values4_large_planned|].
split; [reflexivity|]. split; [reflexivity|]. split; [reflexivity|]. split; [|reflexivity].
intros E. apply (f_equal (λ f, PrimFloat.eqb f 1688849860263937)) in E.
vm_compute in E. discriminate.
Qed.

(** Claim C10 fails for binary floating point.  With [r = 1] token 2
    (value [-1e16]) is merged into token 1 (value 1): their sum rounds
    to [-1e16], and the rows of the output sum to 1 while the rows of
    the input sum to 2. *)
Lemma float_sum_counterexample :
(0 < clamp 6 1 false false)%Z ∧
∃ merge unmerge,
  bipartite_soft_matching (V:=float) metric6_mass 1 false false = Some (merge, unmerge) ∧
  merge values6_mass Sum = Some [[ [1]; [0]; [-1e16]; [1e16]; [0] ]]%float ∧
  row_total 1 <$> values6_mass = [[2]]%float ∧
  row_total 1 <$> [[ [1]; [0]; [-1e16]; [1e16]; [0] ]]%float = [[1]]%float ∧
  (2 ≠ 1)%float ∧
  (v_add 1 (-1e16) = -1e16)%float.
Proof.
split; [done|]. eexists _, _. split; [reflexivity|]. split; [reflexivity|].
split; [reflexivity|]. split; [reflexivity|]. split; [|reflexivity].
intros E. apply (f_equal (λ f, PrimFloat.eqb f 1)) in E. vm_compute in E. discriminate.
Qed.

(** ** The statements at concrete inputs *)

Lemma void_reduction_is_identity_witness :
  ∃ merge unmerge,
    bipartite_soft_matching (V:=float) metric4 0%Z false false = Some (merge, unmerge) ∧
    ∀ x mode, merge x mode = Some x ∧ unmerge x = Some x.
Proof.
  apply (proj1 (void_reduction_is_identity (M:=float) (V:=float)) metric4 0%Z false false).
  vm_compute. discriminate.
Defined.

Lemma bipartite_merge_token_count_witness :
  0 < 1 ∧ shaped 1 4 metric4 ∧ (0 ≤ 1 ≤ Z.of_nat 4 `div` 2)%Z ∧
  ∃ merge unmerge,
    bipartite_soft_matching (V:=float) metric4 1%Z true false = Some (merge, unmerge) ∧
    (∀ x mode, shaped 1 4 x →
       ∃ y, merge x mode = Some y ∧
            shaped 1 (4 - Z.to_nat (clamp 4 1%Z true false)) y) ∧
    (1%Z = 0%Z → ∀ x mode, merge x mode = Some x ∧ unmerge x = Some x).
Proof.
  split; [lia|]. split; [exact metric4_shaped|]. split; [done|].
  apply (bipartite_merge_token_count metric4 1%Z true false 1 4);
    [lia|exact metric4_shaped|done].
Defined.

Lemma unmerge_writes_every_row_witness :
  0 < 1 ∧ shaped 1 4 metric4 ∧ (0 < clamp 4 1%Z false false)%Z ∧
  ∃ e, bipartite_soft_matching (V:=float) metric4 1%Z false false
         = Some (bipartite_merge (V:=float) e, bipartite_unmerge e) ∧
    (∀ b u s, unm_idx e !! b = Some u → src_idx e !! b = Some s →
       u ++ s ≡ₚ seq 0 ((4 + 1) `div` 2) ∧
       ((λ j, 2 * j + 1) <$> seq 0 (4 `div` 2)) ++
         ((λ i, 2 * i) <$> u) ++ ((λ i, 2 * i) <$> s) ≡ₚ seq 0 4) ∧
    (∀ x buffer : tensor float,
       shaped 1 (4 - Z.to_nat (clamp 4 1%Z false false)) x → shaped 1 4 buffer →
       ∃ y, bipartite_unmerge e x = Some y ∧ shaped 1 4 y ∧
            bipartite_unmerge_from buffer e x = Some y).
Proof.
  split; [lia|]. split; [exact metric4_shaped|]. split; [done|].
  apply (unmerge_writes_every_row metric4 1%Z false false 1 4);
    [lia|exact metric4_shaped|done].
Defined.

Lemma tie_scenario_witness :
  let q := Qc_of_nat in
  bipartite_merge env4 [[ [q 1]; [q 3]; [q 5]; [q 7] ]] Mean
  = Some [[ [q 5]; (λ v, v_div v (v_of_nat 2)) <$> zip_with v_add [q 3] [q 1]; [q 7] ]].
Proof.
  exact (proj2 (proj2 (proj2 (tie_scenario (V:=Qcanon.Qc)))) _ _ _ _ Qc_div_one).
Defined.

Lemma kth_truncates_to_groups_witness :
0 < 1 ∧ 0 < 2 ∧ shaped 1 12 metric12 ∧ rows_have 2 metric12 ∧ (2 ≤ 5 ≤ Z.of_nat 12)%Z ∧
∃ merge unmerge,
  kth_bipartite_soft_matching (V:=float) metric12 5 = Some (merge, unmerge) ∧
  ∀ C' (x : tensor float) mode,
    0 < C' → shaped 1 12 x → rows_have C' x →
    ∃ y, merge x mode = Some y ∧ shaped 1 (12 `div` Z.to_nat 5) y ∧
      (∀ x', shaped 1 12 x' → rows_have C' x' →
         take (12 `div` Z.to_nat 5 * Z.to_nat 5) <$> x'
           = take (12 `div` Z.to_nat 5 * Z.to_nat 5) <$> x →
         merge x' mode = Some y) ∧
      ∃ z, unmerge y = Some z ∧ shaped 1 (12 `div` Z.to_nat 5 * Z.to_nat 5) z.
Proof.
assert (shaped 1 12 metric12) as Hs by (split; [done|repeat constructor]).
assert (rows_have 2 metric12) as Hr by (repeat constructor).
split; [lia|]. split; [lia|]. split; [exact Hs|]. split; [exact Hr|]. split; [lia|].
apply (kth_truncates_to_groups metric12 5 1 12 2); [lia|lia|exact Hs|exact Hr|lia].
Defined.

Lemma bipartite_sum_conserves_mass_witness :
0 < 1 ∧ 0 < 1 ∧ shaped 1 4 metric4 ∧ (0 < clamp 4 1 false false)%Z ∧
shaped 1 4 ramp4 ∧ rows_have 1 ramp4 ∧
(∃ merge unmerge y,
   bipartite_soft_matching metric4 1 false false = Some (merge, unmerge) ∧
   merge ramp4 Sum = Some y ∧ shaped 1 (4 - Z.to_nat (clamp 4 1 false false)) y ∧
   ∀ b xb yb, ramp4 !! b = Some xb → y !! b = Some yb →
              row_total 1 yb = row_total 1 xb) ∧
(∀ m ms, bipartite_chain (M:=float) 1 4 (m :: ms) →
   ∃ x' size, wavg_chain (m :: ms) ramp4 None = Some (x', Some size) ∧
              ∀ b sb, size !! b = Some sb → row_total 1 sb = [v_of_nat 4]).
Proof.
assert (shaped 1 4 ramp4) as Hs by (split; [done|repeat constructor]).
assert (rows_have 1 ramp4) as Hr by (repeat constructor).
split; [lia|]. split; [lia|]. split; [exact metric4_shaped|]. split; [done|].
split; [exact Hs|]. split; [exact Hr|].
apply (@bipartite_sum_conserves_mass float Qcanon.Qc float_metric Qc_value
         Qcanon.Qcplus_comm Qcanon.Qcplus_assoc Qcanon.Qcplus_0_l
         eq_refl Qc_of_nat_S metric4 1%Z false false ramp4 1 4 1);
  [lia|lia|exact metric4_shaped|done|exact Hs|exact Hr].
Defined.

Lemma bipartite_round_trip_witness :
0 < 1 ∧ shaped 1 4 metric4 ∧ (0 < clamp 4 1 false false)%Z ∧ shaped 1 4 values4 ∧
∃ e y z,
  bipartite_soft_matching (V:=float) metric4 1 false false
    = Some (bipartite_merge e, bipartite_unmerge e) ∧
  env_ok e 1 4 ∧
  bipartite_merge e values4 Mean = Some y ∧ bipartite_unmerge e y = Some z ∧
  shaped 1 4 z ∧
  ∀ b xb zb u s d,
    values4 !! b = Some xb → z !! b = Some zb →
    unm_idx e !! b = Some u → src_idx e !! b = Some s → dst_idx e !! b = Some d →
    ∃ src, gather_rows (evens xb) s = Some src ∧
      (∀ i, i ∈ u → zb !! (2 * i) = xb !! (2 * i)) ∧
      (∀ j dj, xb !! (2 * j + 1) = Some dj →
         zb !! (2 * j + 1) = Some (reduced Mean dj (sent_to j d src))) ∧
      (∀ k i j, s !! k = Some i → d !! k = Some j →
         zb !! (2 * i) = zb !! (2 * j + 1)) ∧
      ((∀ v : float, v_div v (v_of_nat 1) = v) →
       ∀ j dj, xb !! (2 * j + 1) = Some dj → j ∉ d → zb !! (2 * j + 1) = Some dj).
Proof.
split; [lia|]. split; [exact metric4_shaped|]. split; [done|].
split; [exact values4_shaped|].
apply (bipartite_round_trip metric4 1%Z false values4 1 4);
  [lia|exact metric4_shaped|done|exact values4_shaped].
Defined.

Lemma random_round_trip_witness :
0 < 1 ∧ shaped 1 4 metric4 ∧ shaped 1 4 rand4 ∧ (0 < 1 < Z.of_nat 4)%Z ∧
shaped 1 4 values4 ∧
∃ a_idx b_idx dst_idx merge unmerge y z,
  random_indices metric4 1 rand4 = Some (a_idx, b_idx, dst_idx) ∧
  random_idx_ok 1 (Z.to_nat 1) 4 a_idx b_idx dst_idx ∧
  random_bipartite_soft_matching (V:=float) metric4 1 rand4 = Some (merge, unmerge) ∧
  merge values4 Mean = Some y ∧ shaped 1 (4 - Z.to_nat 1) y ∧
  unmerge y = Some z ∧ shaped 1 4 z ∧
  ∀ i xb zb a b d,
    values4 !! i = Some xb → z !! i = Some zb →
    a_idx !! i = Some a → b_idx !! i = Some b → dst_idx !! i = Some d →
    ∃ src, gather_rows xb a = Some src ∧
      (∀ j p dj, b !! j = Some p → xb !! p = Some dj →
         zb !! p = Some (reduced Mean dj (sent_to j d src))) ∧
      (∀ k p j q, a !! k = Some p → d !! k = Some j → b !! j = Some q →
         zb !! p = zb !! q) ∧
      ((∀ v : float, v_div v (v_of_nat 1) = v) →
       ∀ j p dj, b !! j = Some p → xb !! p = Some dj → j ∉ d →
         zb !! p = Some dj).
Proof.
split; [lia|]. split; [exact metric4_shaped|]. split; [exact rand4_shaped|].
split; [lia|]. split; [exact values4_shaped|].
apply (random_round_trip metric4 1%Z rand4 values4 1 4);
  [lia|exact metric4_shaped|exact rand4_shaped|lia|exact values4_shaped].
Defined.

Lemma protected_tokens_witness :
0 < 1 ∧ shaped 1 6 metric6 ∧ (0 < clamp 6 1 true true)%Z ∧
Forall (Forall (Forall above_neg_inf))
  (similarity (evens <$> normalize metric6) (odds <$> normalize metric6)) ∧
∃ e, bipartite_indices metric6 (clamp 6 1 true true) true true = Some e ∧
  (true = true → ∀ b s, src_idx e !! b = Some s → 0 ∉ s) ∧
  (true = true → true = true ∨ 4 ≤ 6 → ∀ b d, dst_idx e !! b = Some d → 0 ∉ d).
Proof.
split; [lia|]. split; [exact metric6_shaped|]. split; [done|].
split; [exact metric6_scores|].
apply (protected_tokens metric6 1%Z true true 1 6);
  [lia|exact metric6_shaped|done|exact metric6_scores].
Defined.

Lemma random_without_destination_raises_witness :
0 < 1 ∧ shaped 1 4 metric4 ∧ shaped 1 4 rand4 ∧ (0 < 4)%Z ∧ (Z.of_nat 4 ≤ 4)%Z ∧
random_bipartite_soft_matching (V:=float) metric4 4 rand4 = None.
Proof.
split; [lia|]. split; [exact metric4_shaped|]. split; [exact rand4_shaped|].
split; [lia|]. split; [lia|].
apply (random_without_destination_raises metric4 4%Z rand4 1 4);
  [lia|exact metric4_shaped|exact rand4_shaped|lia|lia].
Defined.

Lemma kth_without_group_raises_witness :
shaped 1 4 metric4 ∧ (1 < 5)%Z ∧ (Z.of_nat 4 < 5)%Z ∧
kth_bipartite_soft_matching (V:=float) metric4 5 = None.
Proof.
split; [exact metric4_shaped|]. split; [lia|]. split; [lia|].
apply (kth_without_group_raises metric4 5%Z 1 4); [exact metric4_shaped|lia|lia].
Defined.

Lemma random_sum_conserves_mass_witness :
0 < 1 ∧ shaped 1 4 metric4 ∧ shaped 1 4 rand4 ∧ (0 < 1 < Z.of_nat 4)%Z ∧
shaped 1 4 ramp4 ∧ rows_have 1 ramp4 ∧
∃ merge unmerge y,
  random_bipartite_soft_matching metric4 1 rand4 = Some (merge, unmerge) ∧
  merge ramp4 Sum = Some y ∧ shaped 1 (4 - Z.to_nat 1) y ∧
  ∀ b xb yb, ramp4 !! b = Some xb → y !! b = Some yb →
             row_total 1 yb = row_total 1 xb.
Proof.
split; [lia|]. split; [exact metric4_shaped|]. split; [exact rand4_shaped|].
split; [lia|]. split; [exact ramp4_shaped|]. split; [exact ramp4_rows|].
apply (@random_sum_conserves_mass float Qcanon.Qc float_metric Qc_value
         Qcanon.Qcplus_comm Qcanon.Qcplus_assoc Qcanon.Qcplus_0_l
         metric4 1%Z rand4 ramp4 1 4 1);
  [lia|exact metric4_shaped|exact rand4_shaped|lia|exact ramp4_shaped|exact ramp4_rows].
Defined.

Lemma kth_sum_conserves_kept_mass_witness :
0 < 1 ∧ 0 < 2 ∧ 0 < 1 ∧ shaped 1 4 metric4 ∧ rows_have 2 metric4 ∧
(2 ≤ 3 ≤ Z.of_nat 4)%Z ∧ shaped 1 4 ramp4 ∧ rows_have 1 ramp4 ∧
∃ merge unmerge y,
  kth_bipartite_soft_matching metric4 3 = Some (merge, unmerge) ∧
  merge ramp4 Sum = Some y ∧ shaped 1 (4 `div` Z.to_nat 3) y ∧
  ∀ b xb yb, ramp4 !! b = Some xb → y !! b = Some yb →
    row_total 1 yb = row_total 1 (take (4 `div` Z.to_nat 3 * Z.to_nat 3) xb).
Proof.
split; [lia|]. split; [lia|]. split; [lia|]. split; [exact metric4_shaped|].
split; [exact metric4_rows|]. split; [lia|].
split; [exact ramp4_shaped|]. split; [exact ramp4_rows|].
apply (@kth_sum_conserves_kept_mass float Qcanon.Qc float_metric Qc_value
         Qcanon.Qcplus_comm Qcanon.Qcplus_assoc Qcanon.Qcplus_0_l
         metric4 3%Z ramp4 1 4 2 1);
  [lia|lia|lia|exact metric4_shaped|exact metric4_rows|lia|exact ramp4_shaped
  |exact ramp4_rows].
Defined.

Lemma kth_round_trip_witness :
0 < 1 ∧ 0 < 2 ∧ 0 < 2 ∧ shaped 1 4 metric4 ∧ rows_have 2 metric4 ∧
(2 ≤ 3 ≤ Z.of_nat 4)%Z ∧ shaped 1 4 values4 ∧ rows_have 2 values4 ∧
∃ dst_idx merge unmerge y z,
  kth_indices metric4 3 = Some (4 `div` Z.to_nat 3 * (Z.to_nat 3 - 1), dst_idx) ∧
  kth_bipartite_soft_matching (V:=float) metric4 3 = Some (merge, unmerge) ∧
  merge values4 Mean = Some y ∧ shaped 1 (4 `div` Z.to_nat 3) y ∧
  unmerge y = Some z ∧ shaped 1 (4 `div` Z.to_nat 3 * Z.to_nat 3) z ∧
  ∀ b xb zb d, values4 !! b = Some xb → z !! b = Some zb → dst_idx !! b = Some d →
    (∀ j dj, j < 4 `div` Z.to_nat 3 →
       xb !! (j * Z.to_nat 3 + (Z.to_nat 3 - 1)) = Some dj →
       zb !! (j * Z.to_nat 3 + (Z.to_nat 3 - 1))
       = Some (reduced Mean dj
                 (sent_to j d (split_src (4 `div` Z.to_nat 3) (Z.to_nat 3) xb)))) ∧
    (∀ q p, q < 4 `div` Z.to_nat 3 → p < Z.to_nat 3 - 1 →
       ∃ j, d !! (q * (Z.to_nat 3 - 1) + p) = Some j ∧ j < 4 `div` Z.to_nat 3 ∧
            zb !! (q * Z.to_nat 3 + p) = zb !! (j * Z.to_nat 3 + (Z.to_nat 3 - 1))).
Proof.
assert (rows_have 2 values4) as Hv by repeat constructor.
split; [lia|]. split; [lia|]. split; [lia|]. split; [exact metric4_shaped|].
split; [exact metric4_rows|]. split; [lia|].
split; [exact values4_shaped|]. split; [exact Hv|].
apply (kth_round_trip metric4 3%Z values4 Mean 1 4 2 2);
  [lia|lia|lia|exact metric4_shaped|exact metric4_rows|lia|exact values4_shaped|exact Hv].
Defined.

Lemma kth_two_is_bipartite_half_witness :
0 < 1 ∧ 0 < 2 ∧ 0 < 2 ∧ shaped 1 (2 * 2) metric4 ∧ rows_have 2 metric4 ∧
(Z.of_nat 2 ≤ 2)%Z ∧
∃ m1 u1 m2 u2 y,
  bipartite_soft_matching (V:=Qcanon.Qc) metric4 2 false false = Some (m1, u1) ∧
  kth_bipartite_soft_matching (V:=Qcanon.Qc) metric4 2 = Some (m2, u2) ∧
  m1 ramp4 Sum = Some y ∧ m2 ramp4 Sum = Some y ∧ shaped 1 2 y ∧
  (∀ (y : tensor Qcanon.Qc) C',
     0 < C' → shaped 1 2 y → rows_have C' y →
     ∃ z, u1 y = Some z ∧ u2 y = Some z ∧ shaped 1 (2 * 2) z).
Proof.
split; [lia|]. split; [lia|]. split; [lia|]. split; [exact metric4_shaped|].
split; [exact metric4_rows|]. split; [lia|].
destruct (kth_two_is_bipartite_half (V:=Qcanon.Qc) metric4 2%Z 1 2 2)
  as (m1 & u1 & m2 & u2 & H1 & H2 & Hm & Hu);
  [lia|lia|lia|exact metric4_shaped|exact metric4_rows|lia|].
destruct (Hm Sum ramp4 1) as (y & Hy1 & Hy2 & Hys);
  [lia|exact ramp4_shaped|exact ramp4_rows|exact Qc_add_right_comm|].
exists m1, u1, m2, u2, y.
split; [exact H1|]. split; [exact H2|]. split; [exact Hy1|].
split; [exact Hy2|]. split; [exact Hys|exact Hu].
Defined.

Lemma protected_tokens_stay_first_witness :
0 < 1 ∧ shaped 1 6 metric6 ∧ (0 < clamp 6 1 true true)%Z ∧
Forall (Forall (Forall above_neg_inf))
  (similarity (evens <$> normalize metric6) (odds <$> normalize metric6)) ∧
shaped 1 6 values6 ∧
∃ merge unmerge y,
  bipartite_soft_matching metric6 1 true true = Some (merge, unmerge) ∧
  merge values6 Mean = Some y ∧
  ∀ b xb yb, values6 !! b = Some xb → y !! b = Some yb →
    (true = true → yb !! 0 = xb !! 0) ∧
    (true = true → true = true ∨ 4 ≤ 6 →
     ∀ dj, xb !! 1 = Some dj → yb !! 1 = Some (reduced Mean dj [])).
Proof.
split; [lia|]. split; [exact metric6_shaped|]. split; [done|].
split; [exact metric6_scores|]. split; [exact values6_shaped|].
apply (protected_tokens_stay_first (V:=float) metric6 1%Z true true values6 Mean 1 6);
  [lia|exact metric6_shaped|done|exact metric6_scores|exact values6_shaped].
Defined.

Lemma merge_after_unmerge_witness :
(∀ (d : list float) n, reduced Amax d (replicate n d) = d) ∧
(∃ merge unmerge z,
   bipartite_soft_matching metric4 1 false false = Some (merge, unmerge) ∧
   unmerge [[ [1]; [2]; [3] ]]%float = Some z ∧ shaped 1 4 z ∧
   merge z Amax = Some [[ [1]; [2]; [3] ]]%float) ∧
(∃ merge unmerge z,
   kth_bipartite_soft_matching metric4 2 = Some (merge, unmerge) ∧
   unmerge [[ [1]; [2] ]]%float = Some z ∧
   shaped 1 (4 `div` Z.to_nat 2 * Z.to_nat 2) z ∧
   merge z Amax = Some [[ [1]; [2] ]]%float) ∧
(∃ merge unmerge z,
   random_bipartite_soft_matching metric4 1 rand4 = Some (merge, unmerge) ∧
   unmerge [[ [1]; [2]; [3] ]]%float = Some z ∧ shaped 1 4 z ∧
   merge z Amax = Some [[ [1]; [2]; [3] ]]%float).
Proof.
split; [exact float_amax_copies|].
destruct (merge_after_unmerge (M:=float) (V:=float) Amax float_amax_copies)
  as (Hb & Hk & Hr).
split; [|split].
- apply (Hb metric4 1%Z false [[ [1]; [2]; [3] ]]%float 1 4);
    [lia|exact metric4_shaped|done|].
  split; [done|]. repeat constructor.
- apply (Hk metric4 2%Z [[ [1]; [2] ]]%float 1 4 2 1);
    [lia|lia|lia|exact metric4_shaped|exact metric4_rows|lia| |].
  + split; [done|]. repeat constructor.
  + repeat constructor.
- apply (Hr metric4 1%Z rand4 [[ [1]; [2]; [3] ]]%float 1 4);
    [lia|exact metric4_shaped|exact rand4_shaped|lia|].
  split; [done|]. repeat constructor.
Defined.

Lemma wavg_without_sizes_is_mean_witness :
(∀ a : Qcanon.Qc, v_mul a v_one = a) ∧ (∀ a : Qcanon.Qc, v_div a v_one = a) ∧
v_of_nat (V:=Qcanon.Qc) 1 = v_one ∧
(∀ n, v_add (v_of_nat (V:=Qcanon.Qc) n) v_one = v_of_nat (S n)) ∧
(∃ merge unmerge y size,
   bipartite_soft_matching metric4 1 false false = Some (merge, unmerge) ∧
   merge ramp4 Mean = Some y ∧
   merge (fmap (M:=list) (λ _, [v_one]) <$> ramp4) Sum = Some size ∧
   merge_wavg merge ramp4 None = Some (y, size)) ∧
(∃ merge unmerge y size,
   kth_bipartite_soft_matching metric4 2 = Some (merge, unmerge) ∧
   merge ramp4 Mean = Some y ∧
   merge (fmap (M:=list) (λ _, [v_one]) <$> ramp4) Sum = Some size ∧
   merge_wavg merge ramp4 None = Some (y, size)) ∧
(∃ merge unmerge y size,
   random_bipartite_soft_matching metric4 1 rand4 = Some (merge, unmerge) ∧
   merge ramp4 Mean = Some y ∧
   merge (fmap (M:=list) (λ _, [v_one]) <$> ramp4) Sum = Some size ∧
   merge_wavg merge ramp4 None = Some (y, size)).
Proof.
split; [exact Qcanon.Qcmult_1_r|]. split; [exact Qc_div_one|].
split; [reflexivity|]. split; [exact Qc_of_nat_succ|].
destruct (@wavg_without_sizes_is_mean float Qcanon.Qc float_metric Qc_value
            Qcanon.Qcmult_1_r Qc_div_one eq_refl Qc_of_nat_succ) as (Hb & Hk & Hr).
split; [|split].
- apply (Hb metric4 1%Z false false ramp4 1 4 1);
    [lia|lia|exact metric4_shaped|done|exact ramp4_shaped|exact ramp4_rows].
- apply (Hk metric4 2%Z ramp4 1 4 2 1);
    [lia|lia|lia|exact metric4_shaped|exact metric4_rows|lia|
     exact ramp4_shaped|exact ramp4_rows].
- apply (Hr metric4 1%Z rand4 ramp4 1 4 1);
    [lia|lia|exact metric4_shaped|exact rand4_shaped|lia|
     exact ramp4_shaped|exact ramp4_rows].
Defined.

Lemma batch_mismatch_raises_witness :
2 ≤ 2 ∧ 0 < 2 ∧ shaped 2 4 (metric4 ++ metric4) ∧ rows_have 2 (metric4 ++ metric4) ∧
(∀ r ct dt, (0 < clamp 4 r ct dt)%Z →
   ∃ merge unmerge,
     bipartite_soft_matching (V:=float) (metric4 ++ metric4) r ct dt
       = Some (merge, unmerge) ∧
     ∀ x mode, length x ≠ 2 → merge x mode = None ∧ unmerge x = None) ∧
(∀ k, (2 ≤ k ≤ Z.of_nat 4)%Z →
   ∃ merge unmerge,
     kth_bipartite_soft_matching (V:=float) (metric4 ++ metric4) k
       = Some (merge, unmerge) ∧
     ∀ x mode, length x ≠ 2 → merge x mode = None ∧ unmerge x = None).
Proof.
split; [lia|]. split; [lia|]. split; [exact (proj1 metric4_twice)|].
split; [exact (proj2 metric4_twice)|].
apply (batch_mismatch_raises (V:=float) (metric4 ++ metric4) 2 4 2);
  [lia|lia|exact (proj1 metric4_twice)|exact (proj2 metric4_twice)].
Defined.

Lemma random_reads_metric_batch_witness :
0 < 1 ∧ shaped 1 4 metric4 ∧ shaped 1 4 rand4 ∧ (0 < 1 < Z.of_nat 4)%Z ∧
∃ merge unmerge,
  random_bipartite_soft_matching (V:=float) metric4 1 rand4 = Some (merge, unmerge) ∧
  ∀ x mode,
    (length x < 1 → merge x mode = None ∧ unmerge x = None) ∧
    (1 ≤ length x →
     merge x mode = merge (take 1 x) mode ∧ unmerge x = unmerge (take 1 x)).
Proof.
split; [lia|]. split; [exact metric4_shaped|]. split; [exact rand4_shaped|].
split; [lia|].
apply (random_reads_metric_batch (V:=float) metric4 1%Z rand4 1 4);
  [lia|exact metric4_shaped|exact rand4_shaped|lia].
Defined.

Lemma merged_pairs_score_highest_witness :
0 < 1 ∧ shaped 1 6 metric6 ∧ (0 < clamp 6 1 true true)%Z ∧
∃ e, bipartite_indices metric6 (clamp 6 1 true true) true true = Some e ∧
  ∀ b Sb u s d k i j,
    masked true true (similarity (evens <$> normalize metric6)
                                 (odds <$> normalize metric6)) !! b = Some Sb →
    unm_idx e !! b = Some u → src_idx e !! b = Some s → dst_idx e !! b = Some d →
    s !! k = Some i → d !! k = Some j →
    ∃ row v, Sb !! i = Some row ∧ row !! j = Some v ∧
      (∀ v', v' ∈ row → m_gtb v' v = false) ∧
      (∀ i' row' v', i' ∈ u → Sb !! i' = Some row' → v' ∈ row' →
         m_gtb v' v = false).
Proof.
split; [lia|]. split; [exact metric6_shaped|]. split; [done|].
apply (@merged_pairs_score_highest float float_metric
         float_gtb_irrefl float_gtb_trans float_gtb_neg_trans metric6 1%Z true true 1 6);
  [lia|exact metric6_shaped|done].
Defined.

Lemma sources_go_to_best_match_witness :
(∃ dst_idx,
   kth_indices metric4 2 = Some (4 `div` Z.to_nat 2 * (Z.to_nat 2 - 1), dst_idx) ∧
   ∀ b m d i j,
     normalize metric4 !! b = Some m → dst_idx !! b = Some d → d !! i = Some j →
     ∃ src dst,
       split_src (4 `div` Z.to_nat 2) (Z.to_nat 2) m !! i = Some src ∧
       split_dst (4 `div` Z.to_nat 2) (Z.to_nat 2) m !! j = Some dst ∧
       ∀ dst', dst' ∈ split_dst (4 `div` Z.to_nat 2) (Z.to_nat 2) m →
               m_gtb (dot src dst') (dot src dst) = false) ∧
(∃ a_idx b_idx dst_idx,
   random_indices metric4 1 rand4 = Some (a_idx, b_idx, dst_idx) ∧
   ∀ i m a b d k p j,
     normalize metric4 !! i = Some m →
     a_idx !! i = Some a → b_idx !! i = Some b → dst_idx !! i = Some d →
     a !! k = Some p → d !! k = Some j →
     ∃ q src dst,
       b !! j = Some q ∧ m !! p = Some src ∧ m !! q = Some dst ∧
       ∀ q' dst', q' ∈ b → m !! q' = Some dst' →
                  m_gtb (dot src dst') (dot src dst) = false).
Proof.
destruct (@sources_go_to_best_match float float_metric
            float_gtb_irrefl float_gtb_trans float_gtb_neg_trans) as [Hk Hr].
split.
- apply (Hk metric4 2%Z 1 4 2);
    [lia|lia|exact metric4_shaped|exact metric4_rows|lia].
- apply (Hr metric4 1%Z rand4 1 4);
    [lia|exact metric4_shaped|exact rand4_shaped|lia].
Defined.


Lemma merge_wavg_composes_witness :
0 < 1 ∧ 0 < 1 ∧
planned_chain (M:=float) (V:=Qcanon.Qc) 1 4
  [bipartite_merge env4; bipartite_merge env3_plain] [[ [2]; [1; 0; 3] ]] ∧
shaped 1 4 ramp4 ∧ rows_have 1 ramp4 ∧
∃ X S,
  wavg_chain [bipartite_merge env4; bipartite_merge env3_plain] ramp4 None
    = Some (X, Some S) ∧
  length ([[ [2]; [1; 0; 3] ]] : plan) = 1 ∧
  ∀ b, b < 1 →
    ∃ xb Fb Xb Sb,
      ramp4 !! b = Some xb ∧ ([[ [2]; [1; 0; 3] ]] : plan) !! b = Some Fb ∧
      X !! b = Some Xb ∧ S !! b = Some Sb ∧
      Forall2 (λ G row, G ≠ [] ∧ Forall (λ p, p < 4) G ∧
                 row = (λ a, v_div a (v_of_nat (length G))) <$> folded v_add xb G)
              Fb Xb ∧
      Forall2 (λ G srow, srow = [v_of_nat (length G)]) Fb Sb.
Proof.
assert (shaped 1 4 ramp4) as Hs by (split; [done|repeat constructor]).
assert (rows_have 1 ramp4) as Hr by (repeat constructor).
split; [lia|]. split; [lia|]. split; [exact ramp4_planned|].
split; [exact Hs|]. split; [exact Hr|].
apply (proj2 (proj2 (@merge_wavg_composes float Qcanon.Qc float_metric Qc_value
         Qcanon.Qcmult_1_r eq_refl Qc_of_nat_add Qc_div_mul_cancel
         Qcanon.Qcplus_assoc)) 1 4 1
         (bipartite_merge env4) [bipartite_merge env3_plain] [[ [2]; [1; 0; 3] ]] ramp4);
  [lia|lia|exact ramp4_planned|exact Hs|exact Hr].
Defined.

Lemma merge_source_provenance_witness :
0 < 1 ∧ 0 < 4 ∧
planned_chain (M:=float) (V:=float) 1 4
  [random_merge 1 1 4 [[3]] [[1; 0; 2]] [[2]]; bipartite_merge env3_plain]
  [[ [1]; [0; 2; 3] ]] ∧
shaped 1 4 values4 ∧
∃ S,
  source_chain [random_merge 1 1 4 [[3]] [[1; 0; 2]] [[2]]; bipartite_merge env3_plain]
    values4 None = Some (Some S) ∧
  length ([[ [1]; [0; 2; 3] ]] : plan) = 1 ∧
  ∀ b, b < 1 →
    ∃ Fb Sb, ([[ [1]; [0; 2; 3] ]] : plan) !! b = Some Fb ∧ S !! b = Some Sb ∧
      Forall2 (λ G srow, G ≠ [] ∧ Forall (λ p, p < 4) G ∧ length srow = 4 ∧
                 ∀ i, i < 4 →
                   ∃ v, srow !! i = Some v ∧
                        v = (if bool_decide (i ∈ G) then v_one else v_zero) ∧
                        (v ≠ v_zero ↔ i ∈ G))
              Fb Sb.
Proof.
split; [lia|]. split; [lia|]. split; [exact values4_planned|].
split; [exact values4_shaped|].
apply (proj2 (proj2 (proj2 (@merge_source_provenance float float float_metric float_value
         eq_refl eq_refl eq_refl eq_refl float_one_ne_zero))) 1 4
         (random_merge 1 1 4 [[3]] [[1; 0; 2]] [[2]]) [bipartite_merge env3_plain]
         [[ [1]; [0; 2; 3] ]] values4);
  [lia|lia|exact values4_planned|exact values4_shaped].
Defined.
